(** * PluginHub: version comparison, repository resolution, update checks
      and installation, embedded from the plugin's main source file.

    Strings.  A JavaScript string is a sequence of UTF-16 code units.  The
    embedding uses [string]; the character with number [n] stands for the
    code unit U+00nn, so every function below is the source function on
    strings of code units below 256.

    Numbers.  The only Number values the embedded code computes with are
    the results of [Number.parseInt], which are non-negative integers
    rounded to binary64, or +Infinity.  They are kept in [Z], +Infinity
    being written [2^1024].

    Objects.  [installedRepoMap] is a plain object used as a map from
    package id to repository.  The embedding keeps the properties the
    object owns in a finite map; a read under a name the object does not
    own falls through to Object.prototype, and an assignment creates the
    property under every name but [__proto__].

    Effects.  Calls to the host (HTTP requests, vault adapter, node [fs],
    settings store) go through a small state-and-exception monad; the
    state carries the chronological trace of calls, and the host answers
    each call as a function of the trace so far. *)

From Stdlib Require Import ZArith Lia Ascii String Sorted.
From stdpp Require Import gmap strings list.

(** ** JavaScript string primitives *)

Module JS.

Definition code (c : ascii) : N := N_of_ascii c.

Definition inRange (lo hi : N) (c : ascii) : bool :=
  ((lo <=? code c) && (code c <=? hi))%N.

(** WhiteSpace and LineTerminator code units below 256:
    TAB, LF, VT, FF, CR, SP, NBSP. *)
Definition isWhiteSpace (c : ascii) : bool :=
  match code c with
  | 9 | 10 | 11 | 12 | 13 | 32 | 160 => true
  | _ => false
  end%N.

Definition isDigit (c : ascii) : bool := inRange 48 57 c.

(** The character class [a-z0-9]. *)
Definition isLowerAlnum (c : ascii) : bool := inRange 97 122 c || isDigit c.

(** [toLowerCase] on one code unit: A-Z, and U+00C0..U+00DE without the
    multiplication sign U+00D7, move up by 32. *)
Definition lowerChar (c : ascii) : ascii :=
  if inRange 65 90 c || (inRange 192 222 c && negb (code c =? 215)%N)
  then ascii_of_N (code c + 32)
  else c.

Fixpoint toLowerCase (s : string) : string :=
  match s with
  | EmptyString => EmptyString
  | String c r => String (lowerChar c) (toLowerCase r)
  end.

Definition isEmpty (s : string) : bool :=
  match s with EmptyString => true | _ => false end.

(** Dropping the leading, or the trailing, run of characters in a class;
    [trimStart], [trimEnd] and the anchored regular expressions [^-+] and
    [-+$] are instances. *)
Fixpoint dropStart (p : ascii -> bool) (s : string) : string :=
  match s with
  | EmptyString => EmptyString
  | String c r => if p c then dropStart p r else s
  end.

Fixpoint dropEnd (p : ascii -> bool) (s : string) : string :=
  match s with
  | EmptyString => EmptyString
  | String c r =>
      let r' := dropEnd p r in
      if p c && isEmpty r' then EmptyString else String c r'
  end.

Definition trimStart (s : string) : string := dropStart isWhiteSpace s.

Definition trim (s : string) : string :=
  dropEnd isWhiteSpace (dropStart isWhiteSpace s).

(** [s.split(sep)] for a one-character separator; never the empty list. *)
Fixpoint split (sep : ascii) (s : string) : list string :=
  match s with
  | EmptyString => [EmptyString]
  | String c r =>
      if Ascii.eqb c sep then EmptyString :: split sep r
      else match split sep r with
           | [] => [String c EmptyString]
           | h :: t => String c h :: t
           end
  end.

Fixpoint startsWith (p s : string) : bool :=
  match p, s with
  | EmptyString, _ => true
  | String a p', String b s' => Ascii.eqb a b && startsWith p' s'
  | String _ _, EmptyString => false
  end.

(** [s.includes(needle)] *)
Fixpoint includes (s needle : string) : bool :=
  startsWith needle s ||
  match s with
  | EmptyString => false
  | String _ r => includes r needle
  end.

(** [s.endsWith(c)] for a one-character argument. *)
Fixpoint endsWithChar (c : ascii) (s : string) : bool :=
  match s with
  | EmptyString => false
  | String a EmptyString => Ascii.eqb a c
  | String _ r => endsWithChar c r
  end.

(** [s.slice(0, -1)] *)
Fixpoint dropLast (s : string) : string :=
  match s with
  | EmptyString => EmptyString
  | String _ EmptyString => EmptyString
  | String a r => String a (dropLast r)
  end.

Fixpoint takeWhile (p : ascii -> bool) (s : string) : string :=
  match s with
  | EmptyString => EmptyString
  | String c r => if p c then String c (takeWhile p r) else EmptyString
  end.

Fixpoint dropChars (n : nat) (s : string) : string :=
  match n, s with
  | O, _ => s
  | S n', String _ r => dropChars n' r
  | S _, EmptyString => EmptyString
  end.

Fixpoint filterChars (p : ascii -> bool) (s : string) : string :=
  match s with
  | EmptyString => EmptyString
  | String c r => if p c then String c (filterChars p r) else filterChars p r
  end.

(** Case folding of the [i] flag of a regular expression, as far as it
    matters against a pattern of ASCII characters: a-z and A-Z are
    identified, and no code unit from 128 on is folded onto an ASCII one. *)
Definition foldCase (c : ascii) : ascii :=
  if inRange 97 122 c then ascii_of_N (code c - 32) else c.

Fixpoint startsWithCI (p s : string) : bool :=
  match p, s with
  | EmptyString, _ => true
  | String a p', String b s' =>
      Ascii.eqb (foldCase a) (foldCase b) && startsWithCI p' s'
  | String _ _, EmptyString => false
  end.

(** Truthiness of a possibly undefined string. *)
Definition truthy (o : option string) : bool :=
  match o with
  | Some s => negb (isEmpty s)
  | None => false
  end.

(** The names under which every object finds a property it does not own:
    the members of Object.prototype. *)
Definition objectPrototypeNames : list string :=
  [ "constructor"; "__defineGetter__"; "__defineSetter__"; "hasOwnProperty";
    "__lookupGetter__"; "__lookupSetter__"; "isPrototypeOf";
    "propertyIsEnumerable"; "toString"; "valueOf"; "__proto__";
    "toLocaleString" ].

Definition inherited (key : string) : bool :=
  existsb (String.eqb key) objectPrototypeNames.

(** *** Numbers *)

Local Open Scope Z_scope.

Definition Infinity : Z := 2 ^ 1024.

(** The Number value of a non-negative integer: round to nearest binary64,
    ties to even, overflowing to [Infinity]. *)
Definition toNumber (n : Z) : Z :=
  if n <? 2 ^ 53 then n
  else
    let e := Z.log2 n - 52 in
    let q := n / 2 ^ e in
    let r := n mod 2 ^ e in
    let h := 2 ^ (e - 1) in
    let q' := if r <? h then q
              else if h <? r then q + 1
              else if Z.even q then q else q + 1 in
    Z.min (q' * 2 ^ e) Infinity.

Definition digitValue (c : ascii) : Z := Z.of_N (code c) - 48.

(** The longest prefix of decimal digits and its mathematical value. *)
Definition takeDigits (s : string) : string := takeWhile isDigit s.

Fixpoint digitsValue (acc : Z) (s : string) : Z :=
  match s with
  | EmptyString => acc
  | String c r => digitsValue (10 * acc + digitValue c) r
  end.

(** [Number.parseInt(s, 10)]; [None] is NaN. *)
Definition parseInt10 (s : string) : option Z :=
  let s1 := trimStart s in
  let '(sign, s2) :=
    match s1 with
    | String "-" r => (-1, r)
    | String "+" r => (1, r)
    | _ => (1, s1)
    end in
  match takeDigits s2 with
  | EmptyString => None
  | ds => Some (sign * toNumber (digitsValue 0 ds))
  end.

(** [x || 0] on a Number: NaN and 0 give 0. *)
Definition orZero (x : option Z) : Z :=
  match x with
  | Some v => v
  | None => 0
  end.

End JS.

(** ** Comparison of strings by collation *)

Module Collation.

(** [String.prototype.localeCompare] without arguments compares by the
    collation of the host's locale; the plugin takes what the host
    answers.  [english] is the answer of an engine built on ICU under an
    English locale (the root collation of CLDR), for strings of printable
    ASCII characters.  Two strings are compared first with upper and lower
    case identified, character by character, a proper prefix coming first,
    in the order

      SPACE _ - , ; : ! ? . ' QUOTE ( ) [ ] { } @ STAR / \ & # % ` ^ + < = > | ~ $
      0 1 ... 9 a b ... z

    and two strings that are the same up to case are ordered by the first
    character in which they differ, the small letter first.  The answer
    is -1, 0 or 1. *)

(** The code units of the order above. *)
Definition alphabet : list N :=
  [32; 95; 45; 44; 59; 58; 33; 63; 46; 39; 34; 40; 41; 91; 93; 123; 125; 64;
   42; 47; 92; 38; 35; 37; 96; 94; 43; 60; 61; 62; 124; 126; 36]%N ++
  map N.of_nat (seq 48 10 ++ seq 97 26).

Fixpoint position (n : N) (l : list N) (i : nat) : option nat :=
  match l with
  | [] => None
  | x :: r => if (x =? n)%N then Some i else position n r (S i)
  end.

(** The place of a character in the order, case set aside.  A code unit
    that is not printable ASCII is put behind all of them. *)
Definition primary (c : ascii) : nat :=
  let n := N_of_ascii c in
  let n := if ((65 <=? n) && (n <=? 90))%N then (n + 32)%N else n in
  match position n alphabet 0 with
  | Some i => i
  | None => length alphabet + N.to_nat n
  end.

(** Small before capital. *)
Definition tertiary (c : ascii) : nat :=
  let n := N_of_ascii c in
  if ((65 <=? n) && (n <=? 90))%N then 1 else 0.

Fixpoint lexCompare (a b : list nat) : comparison :=
  match a, b with
  | [], [] => Eq
  | [], _ :: _ => Lt
  | _ :: _, [] => Gt
  | x :: a', y :: b' =>
      match Nat.compare x y with
      | Eq => lexCompare a' b'
      | c => c
      end
  end.

Definition key (weight : ascii -> nat) (s : string) : list nat :=
  map weight (list_ascii_of_string s).

Definition sign (c : comparison) : Z :=
  match c with Lt => (-1)%Z | Eq => 0%Z | Gt => 1%Z end.

Definition english (a b : string) : Z :=
  match lexCompare (key primary a) (key primary b) with
  | Eq => sign (lexCompare (key tertiary a) (key tertiary b))
  | c => sign c
  end.

(** The order of the code units, which [<] on strings has. *)
Definition codeUnits (a b : string) : Z := sign (String.compare a b).

End Collation.

(** ** Version comparison *)

Module Version.

Local Open Scope Z_scope.

(** [const normalize = (version) =>
      version.split('-')[0].split('.').map((part) => Number.parseInt(part, 10) || 0)] *)
Definition normalize (version : string) : list Z :=
  map (fun part => JS.orZero (JS.parseInt10 part))
      (JS.split "." (hd EmptyString (JS.split "-" version))).

(** The [for] loop of [compareVersions]; [n] is [maxLen - i], and
    [nth i parts 0] is [parts[i] ?? 0]. *)
Fixpoint compareLoop (currentParts latestParts : list Z) (i n : nat) : Z :=
  match n with
  | O => 0
  | S n' =>
      let a := nth i currentParts 0 in
      let b := nth i latestParts 0 in
      if a <? b then -1
      else if a >? b then 1
      else compareLoop currentParts latestParts (S i) n'
  end.

Definition compareVersions (current latest : string) : Z :=
  let currentParts := normalize current in
  let latestParts := normalize latest in
  let maxLen := Nat.max (length currentParts) (length latestParts) in
  compareLoop currentParts latestParts 0 maxLen.

(** The comparison in the words of the specification: both sequences are
    read up to the longer length, a missing trailing component counting as
    0, and compared component by component. *)
Definition padTo (n : nat) (xs : list Z) : list Z :=
  xs ++ repeat 0 (n - length xs)%nat.

Fixpoint compareComponents (xs ys : list Z) : Z :=
  match xs, ys with
  | x :: xs', y :: ys' =>
      if x <? y then -1 else if x >? y then 1 else compareComponents xs' ys'
  | _, _ => 0
  end.

Definition compareSpec (current latest : string) : Z :=
  let xs := normalize current in
  let ys := normalize latest in
  let n := Nat.max (length xs) (length ys) in
  compareComponents (padTo n xs) (padTo n ys).

End Version.

(** ** Repository name candidates *)

Module Repo.

(** [authorUrl.match(/github\.com\/(?:users\/)?([^/]+)/i)] tried at the
    start of [s]: the optional group is taken when [users/] follows and a
    name follows it, and given up otherwise. *)
Definition notSlash (c : ascii) : bool := negb (Ascii.eqb c "/").

Definition someIfNonEmpty (s : string) : option string :=
  if JS.isEmpty s then None else Some s.

Definition matchOwnerAt (s : string) : option string :=
  if JS.startsWithCI "github.com/" s then
    let rest := JS.dropChars 11 s in
    if JS.startsWithCI "users/" rest then
      match JS.takeWhile notSlash (JS.dropChars 6 rest) with
      | EmptyString => someIfNonEmpty (JS.takeWhile notSlash rest)
      | name => Some name
      end
    else someIfNonEmpty (JS.takeWhile notSlash rest)
  else None.

(** The leftmost position at which the expression matches. *)
Fixpoint matchOwner (s : string) : option string :=
  match matchOwnerAt s with
  | Some o => Some o
  | None =>
      match s with
      | EmptyString => None
      | String _ r => matchOwner r
      end
  end.

Definition parseGithubOwnerFromAuthorUrl (authorUrl : option string) : option string :=
  match authorUrl with
  | None => None
  | Some u => if JS.isEmpty u then None else matchOwner u
  end.

(** [.replace(/[^a-z0-9]+/g, '-')]; [inRun] says that the previous
    character already belongs to the run being replaced. *)
Fixpoint replaceRuns (inRun : bool) (s : string) : string :=
  match s with
  | EmptyString => EmptyString
  | String c r =>
      if JS.isLowerAlnum c then String c (replaceRuns false r)
      else if inRun then replaceRuns true r
      else String "-" (replaceRuns true r)
  end.

Definition isHyphen (c : ascii) : bool := Ascii.eqb c "-".

(** [.replace(/^-+|-+$/g, '')] *)
Definition stripHyphens (s : string) : string :=
  JS.dropEnd isHyphen (JS.dropStart isHyphen s).

Definition normalizeRepoToken (input : option string) : option string :=
  match input with
  | None => None
  | Some s =>
      if JS.isEmpty s then None
      else Some (stripHyphens (replaceRuns false (JS.trim (JS.toLowerCase s))))
  end.

Definition compactRepoToken (input : option string) : option string :=
  match input with
  | None => None
  | Some s =>
      if JS.isEmpty s then None
      else match normalizeRepoToken input with
           | None => None
           | Some normalized =>
               if JS.isEmpty normalized then None
               else Some (JS.filterChars (fun c => negb (isHyphen c)) normalized)
           end
  end.

(** [token ? `${owner}/${prefix}${token}` : undefined] *)
Definition pattern (owner prefix : string) (token : option string) : option string :=
  if JS.truthy token
  then Some (owner +:+ "/" +:+ prefix +:+ default EmptyString token)
  else None.

(** [.filter((candidate) => Boolean(candidate))] *)
Definition filterBoolean (l : list (option string)) : list string :=
  omap (fun o => if JS.truthy o then o else None) l.

(** [[...new Set(candidates)]]: a Set keeps its elements in insertion
    order and ignores the insertion of an element it holds. *)
Definition setAdd (set : list string) (x : string) : list string :=
  if existsb (String.eqb x) set then set else set ++ [x].

Definition newSet (l : list string) : list string := fold_left setAdd l [].

(** The candidate list of [findRepoByKnownPatterns], for a matched owner. *)
Definition patternCandidates (owner pluginId : string) (name : option string)
  : list string :=
  let idToken := normalizeRepoToken (Some pluginId) in
  let nameToken := normalizeRepoToken name in
  let compactIdToken := compactRepoToken (Some pluginId) in
  let compactNameToken := compactRepoToken name in
  let candidates := filterBoolean
    [ pattern owner "obsidian-" idToken;
      pattern owner EmptyString idToken;
      pattern owner EmptyString compactIdToken;
      pattern owner "obsidian-" nameToken;
      pattern owner EmptyString nameToken;
      pattern owner EmptyString compactNameToken;
      pattern owner "obsidian-plugin-" idToken ] in
  newSet candidates.

(** *** The candidate list in the words of the specification *)

(** A token: lowercased, every run of characters outside [a-z0-9] replaced
    by one hyphen, leading and trailing hyphens stripped. *)
Definition specToken (s : string) : string :=
  stripHyphens (replaceRuns false (JS.toLowerCase s)).

(** The compact variant: all hyphens removed as well. *)
Definition specCompact (s : string) : string :=
  JS.filterChars (fun c => negb (isHyphen c)) (specToken s).

(** Duplicates removed, the first occurrence kept. *)
Fixpoint dedupFirst (l : list string) : list string :=
  match l with
  | [] => []
  | x :: r => x :: List.filter (fun y => negb (String.eqb y x)) (dedupFirst r)
  end.

Definition idPatterns (owner id : string) : list string :=
  [ owner +:+ "/obsidian-" +:+ specToken id;
    owner +:+ "/" +:+ specToken id;
    owner +:+ "/" +:+ specCompact id ].

Definition namePatterns (owner name : string) : list string :=
  [ owner +:+ "/obsidian-" +:+ specToken name;
    owner +:+ "/" +:+ specToken name;
    owner +:+ "/" +:+ specCompact name ].

Definition pluginPattern (owner id : string) : list string :=
  [ owner +:+ "/obsidian-plugin-" +:+ specToken id ].

(** The seven patterns in priority order, as the specification lists them. *)
Definition specCandidates (owner id name : string) : list string :=
  dedupFirst (idPatterns owner id ++ namePatterns owner name ++ pluginPattern owner id).

(** The same list with the patterns of an empty token left out. *)
Definition whenNonEmpty (token : string) (l : list string) : list string :=
  if JS.isEmpty token then [] else l.

Definition specCandidatesNonEmpty (owner id name : string) : list string :=
  dedupFirst (whenNonEmpty (specToken id) (idPatterns owner id) ++
              whenNonEmpty (specToken name) (namePatterns owner name) ++
              whenNonEmpty (specToken id) (pluginPattern owner id)).

End Repo.

(** ** The host: data, calls and the effect monad *)

Module Host.

(** The fields of a manifest.json the code reads; every one may be absent. *)
Record Manifest := {
  manifest_id : option string;
  manifest_name : option string;
  manifest_version : option string;
  manifest_authorUrl : option string
}.

Definition emptyManifest : Manifest :=
  {| manifest_id := None; manifest_name := None;
     manifest_version := None; manifest_authorUrl := None |}.

Record GithubRepo := {
  full_name : string;
  description : option string;
  stargazers_count : Z;
  html_url : string;
  owner_login : string;
  owner_avatar_url : string
}.

(** An entry of community-plugins.json. *)
Record OfficialCommunityPlugin := {
  ocp_id : option string;
  ocp_repo : option string;
  ocp_name : option string;
  ocp_author : option string;
  ocp_description : option string
}.

Record Asset := { asset_name : string; browser_download_url : string }.

Record Release := { assets : option (list Asset) }.

(** What [requestUrl] resolves to. *)
Record Response := {
  resp_status : Z;
  resp_json : option Manifest;
  resp_text : string
}.

Record ForumTopic := {
  topic_title : string;
  topic_slug : string;
  topic_id : Z;
  topic_posts_count : option Z;
  topic_like_count : option Z;
  topic_views : option Z;
  topic_tags : option (list string)
}.

Record ForumPost := {
  post_topic_title : string;
  post_topic_slug : string;
  post_topic_id : Z;
  post_like_count : option Z
}.

Record ForumData := {
  topics : option (list ForumTopic);
  posts : option (list ForumPost)
}.

Record ForumResult := {
  fr_title : string;
  fr_slug : string;
  fr_id : Z;
  fr_posts_count : option Z;
  fr_like_count : option Z;
  fr_views : option Z;
  fr_tags : list string
}.

Inductive Source := official | tracked | detected | unknownSource.

(** What the code holds where it expects the name of a repository: a
    string, except for what [installedRepoMap] hands out under a name that
    it does not own and every object inherits.  That is the member of
    Object.prototype of that name: a function, and under [__proto__]
    Object.prototype itself. *)
Inductive RepoValue :=
| Name (fullName : string)
| Member (key : string).

#[export] Instance RepoValue_eq_dec : EqDecision RepoValue.
Proof. solve_decision. Defined.

(** Truthiness of a possibly undefined value: an object is truthy. *)
Definition present (o : option RepoValue) : bool :=
  match o with
  | Some (Name s) => negb (JS.isEmpty s)
  | Some (Member _) => true
  | None => false
  end.

Inductive VersionStatus := updateAvailable | upToDate | localNewer | unknownStatus.

Record PluginUpdateCandidate := {
  cand_pluginId : string;
  cand_currentVersion : string;
  cand_latestVersion : option string;
  cand_repo : option RepoValue;
  cand_source : Source;
  cand_versionStatus : VersionStatus;
  cand_needsUpdate : bool;
  cand_error : option string
}.

Inductive InstallLocation := locActive | locAll | locSelected.

(** The settings the embedded functions read or write.  [installedRepoMap]
    is a plain object used as a map from package id to repository; the
    field holds the properties it owns.  [objectGet] and [objectSet] are
    the property read and the assignment on it. *)
Record PluginSettings := {
  extraVaultPaths : list string;
  parentVaultDirectories : list string;
  installLocation : InstallLocation;
  installedRepoMap : gmap string RepoValue
}.

(** [map[key]]: the property the object owns, otherwise the member of
    Object.prototype of that name, otherwise undefined. *)
Definition objectGet (map : gmap string RepoValue) (key : string) : option RepoValue :=
  match map !! key with
  | Some value => Some value
  | None => if JS.inherited key then Some (Member key) else None
  end.

(** [map[key] = value]: the property is set, or created.  Only
    [__proto__] is inherited as an accessor: where the object does not own
    a property of that name the assignment goes to the setter and creates
    none.  The setter ignores a string.  A member of Object.prototype it
    would make the prototype of the object, which the code can reach only
    by installing such a member in place of a repository name, from a
    release whose manifest has the id __proto__; the properties the
    object owns stay as they are then too, and they are what the field
    holds. *)
Definition objectSet (map : gmap string RepoValue) (key : string) (value : RepoValue)
  : gmap string RepoValue :=
  if String.eqb key "__proto__" && bool_decide (map !! key = None)
  then map
  else <[key := value]> map.

(** A thrown value: [status] and [message] are all the code looks at. *)
Record Error := { err_status : option Z; err_message : string }.

Definition mkError (msg : string) : Error :=
  {| err_status := None; err_message := msg |}.

Inductive Outcome (A : Type) :=
| Ok (a : A)
| Throw (e : Error).
Arguments Ok {A} a.
Arguments Throw {A} e.

(** Calls that leave the program, in the order they are made. *)
Inductive Event :=
| GetOfficialList
| GetRepoManifest (fullName : string)
| SearchRepositories (query sort : string)
| GetLatestRelease (fullName : string)
| Download (url : string)
| ForumSearch (searchQuery : string)
| LoadManifests
| SaveData (settings : PluginSettings)
| AdapterExists (path : string)
| AdapterRead (path : string)
| AdapterMkdir (path : string)
| AdapterWrite (path content : string)
| RequireFs
| FsExistsSync (path : string)
| FsReaddirSync (path : string)
| FsStatSync (path : string)
| FsMkdirSync (path : string)
| FsWriteFileSync (path content : string)
| ConsoleError (label : string) (e : Error)
| ShowNotice (fullName : string) (toActive : bool) (extraVaults : nat).

Definition Trace := list Event.

(** The host.  Every answer may depend on all calls made so far. *)
Record World := {
  official_list : Trace -> Outcome (option (list OfficialCommunityPlugin));
  repo_manifest : Trace -> string -> Outcome Response;
  search_repositories : Trace -> string -> string -> Outcome (option (list GithubRepo));
  latest_release : Trace -> string -> Outcome Release;
  download : Trace -> string -> Outcome Response;
  forum_search : Trace -> string -> Outcome ForumData;
  has_loadManifests : bool;
  load_manifests : Trace -> Outcome unit;
  plugin_manifests : Trace -> list (string * Manifest);
  save_data : Trace -> Outcome unit;
  configDir : string;
  adapter_exists : Trace -> string -> Outcome bool;
  adapter_read_json : Trace -> string -> Outcome (option Manifest);
  adapter_mkdir : Trace -> string -> Outcome unit;
  adapter_write : Trace -> string -> string -> Outcome unit;
  has_node_fs : bool;
  path_join : list string -> string;
  fs_existsSync : Trace -> string -> bool;
  fs_readdirSync : Trace -> string -> Outcome (list string);
  fs_isDirectory : Trace -> string -> Outcome bool;
  fs_mkdirSync : Trace -> string -> Outcome unit;
  fs_writeFileSync : Trace -> string -> string -> Outcome unit;
  json_stringify : Manifest -> string;
  localeCompare : string -> string -> Z;
  member_text : string -> string
}.

(** [`${value}`]: a string as it is; for a member of Object.prototype what
    the host prints for it, [member_text]. *)
Definition repoText (w : World) (value : RepoValue) : string :=
  match value with
  | Name fullName => fullName
  | Member key => member_text w key
  end.

Record State := {
  trace : Trace;
  settings : PluginSettings
}.

(** The state after further calls. *)
Definition extend (st : State) (evs : list Event) : State :=
  {| trace := trace st ++ evs; settings := settings st |}.

Definition M (A : Type) : Type := State -> Outcome A * State.

Definition ret {A} (a : A) : M A := fun st => (Ok a, st).

Definition throw {A} (e : Error) : M A := fun st => (Throw e, st).

Definition bind {A B} (m : M A) (k : A -> M B) : M B :=
  fun st =>
    match m st with
    | (Ok a, st') => k a st'
    | (Throw e, st') => (Throw e, st')
    end.

(** [try { m } catch (e) { h e }] *)
Definition tryCatch {A} (m : M A) (h : Error -> M A) : M A :=
  fun st =>
    match m st with
    | (Ok a, st') => (Ok a, st')
    | (Throw e, st') => h e st'
    end.

(** A call to the host: the answer is read off the trace so far, then
    the call is appended to the trace. *)
Definition call {A} (ev : Event) (answer : Trace -> Outcome A) : M A :=
  fun st =>
    (answer (trace st),
     {| trace := trace st ++ [ev]; settings := settings st |}).

Definition getSettings : M PluginSettings := fun st => (Ok (settings st), st).

(** [settings.installedRepoMap[pluginId] = fullName] *)
Definition withRepo (s : PluginSettings) (pluginId : string) (fullName : RepoValue)
  : PluginSettings :=
  {| extraVaultPaths := extraVaultPaths s;
     parentVaultDirectories := parentVaultDirectories s;
     installLocation := installLocation s;
     installedRepoMap := objectSet (installedRepoMap s) pluginId fullName |}.

Definition setInstalledRepo (pluginId : string) (fullName : RepoValue) : M unit :=
  fun st =>
    (Ok tt, {| trace := trace st; settings := withRepo (settings st) pluginId fullName |}).

Module Notations.
  Notation "'let!' x := m 'in' k" := (bind m (fun x => k))
    (at level 10, x name, m at level 100, k at level 200).
  Notation "'let!' ' p := m 'in' k" :=
    (bind m (fun x => match x with p => k end))
    (at level 10, p pattern, m at level 100, k at level 200).
  Notation "'do!' m 'in' k" := (bind m (fun _ => k))
    (at level 10, m at level 100, k at level 200).
End Notations.

End Host.

(** ** The three sources *)

Module ForumService.
Import Host Host.Notations.

(** A post-derived entry, [posts.map((p) => ({ ... }))]. *)
Definition postTopic (p : ForumPost) : ForumTopic :=
  {| topic_title := post_topic_title p;
     topic_slug := post_topic_slug p;
     topic_id := post_topic_id p;
     topic_posts_count := Some 0%Z;
     topic_like_count := post_like_count p;
     topic_views := Some 0%Z;
     topic_tags := Some [] |}.

Definition toResult (item : ForumTopic) : ForumResult :=
  {| fr_title := topic_title item;
     fr_slug := topic_slug item;
     fr_id := topic_id item;
     fr_posts_count := topic_posts_count item;
     fr_like_count := topic_like_count item;
     fr_views := topic_views item;
     fr_tags := default [] (topic_tags item) |}.

(** The [for (const item of allItems)] loop with its [seenIds] set. *)
Fixpoint uniqueLoop (seenIds : gset Z) (uniqueItems : list ForumResult)
    (allItems : list ForumTopic) : list ForumResult :=
  match allItems with
  | [] => uniqueItems
  | item :: rest =>
      if decide (topic_id item ∈ seenIds)
      then uniqueLoop seenIds uniqueItems rest
      else uniqueLoop ({[topic_id item]} ∪ seenIds)
                      (uniqueItems ++ [toResult item]) rest
  end.

(** Deduplication by topic id in the words of the specification: of the
    entries with one id, the first is kept. *)
Fixpoint firstById (l : list ForumResult) : list ForumResult :=
  match l with
  | [] => []
  | x :: r => x :: List.filter (fun y => negb (fr_id y =? fr_id x)%Z) (firstById r)
  end.

Definition searchQueryOf (query : string) : string :=
  let q := JS.trim query in
  if JS.isEmpty q then "category:9" else q +:+ " category:9".

Section Search.
Variable w : World.

Definition search (query : string) : M (list ForumResult) :=
  let searchQuery := searchQueryOf query in
  tryCatch
    (let! data := call (ForumSearch searchQuery)
                       (fun tr => forum_search w tr searchQuery) in
     let topics := default [] (topics data) in
     let posts := default [] (posts data) in
     let postTopics := map postTopic posts in
     let allItems := topics ++ postTopics in
     ret (uniqueLoop ∅ [] allItems))
    (fun e =>
       do! call (ConsoleError "Forum search failed" e) (fun _ => Ok tt) in
       ret []).

End Search.
End ForumService.

Module CommunityArchiveService.
Import Host Host.Notations.

Definition typeError : Error :=
  mkError "Cannot read properties of undefined".

Definition searchSingularOf (searchLower : string) : string :=
  if (3 <? String.length searchLower)%nat && JS.endsWithChar "s" searchLower
  then JS.dropLast searchLower
  else searchLower.

(** The callback of [plugins.filter]. *)
Definition matchesQuery (searchLower : string) (p : OfficialCommunityPlugin)
  : Outcome bool :=
  let isPluginSearch :=
    String.eqb searchLower "plugin" || String.eqb searchLower "plugins" in
  let searchSingular := searchSingularOf searchLower in
  if JS.isEmpty searchLower then Ok true
  else if isPluginSearch then Ok true
  else
    match ocp_name p, ocp_author p, ocp_description p, ocp_id p with
    | Some n, Some a, Some d, Some i =>
        let name := JS.toLowerCase n in
        let author := JS.toLowerCase a in
        let description := JS.toLowerCase d in
        let id := JS.toLowerCase i in
        Ok (JS.includes name searchLower || JS.includes name searchSingular ||
            JS.includes author searchLower ||
            JS.includes description searchLower ||
            JS.includes description searchSingular ||
            JS.includes id searchLower)
    | _, _, _, _ => Throw typeError
    end.

(** The callback of [.map]. *)
Definition toRepo (p : OfficialCommunityPlugin) : Outcome GithubRepo :=
  match ocp_repo p with
  | Some repo =>
      Ok {| full_name := repo;
            description := ocp_description p;
            stargazers_count := 0;
            html_url := "https://github.com/" +:+ repo;
            owner_login := hd EmptyString (JS.split "/" repo);
            owner_avatar_url := EmptyString |}
  | None => Throw typeError
  end.

Fixpoint filterOutcome {A} (f : A -> Outcome bool) (l : list A) : Outcome (list A) :=
  match l with
  | [] => Ok []
  | x :: r =>
      match f x with
      | Throw e => Throw e
      | Ok b =>
          match filterOutcome f r with
          | Throw e => Throw e
          | Ok r' => Ok (if b then x :: r' else r')
          end
      end
  end.

Fixpoint mapOutcome {A B} (f : A -> Outcome B) (l : list A) : Outcome (list B) :=
  match l with
  | [] => Ok []
  | x :: r =>
      match f x with
      | Throw e => Throw e
      | Ok y =>
          match mapOutcome f r with
          | Throw e => Throw e
          | Ok r' => Ok (y :: r')
          end
      end
  end.

Definition lift {A} (o : Outcome A) : M A := fun st => (o, st).

Section Search.
Variable w : World.

Definition search (query : string) : M (list GithubRepo) :=
  let! json := call GetOfficialList (official_list w) in
  match json with
  | None => throw typeError
  | Some plugins =>
      let searchLower := JS.trim (JS.toLowerCase query) in
      let! kept := lift (filterOutcome (matchesQuery searchLower) plugins) in
      lift (mapOutcome toRepo kept)
  end.

End Search.

(** An entry of the published list, which carries all five fields. *)
Record ArchiveEntry := {
  entry_name : string;
  entry_author : string;
  entry_description : string;
  entry_id : string;
  entry_repo : string
}.

Definition entryJson (e : ArchiveEntry) : OfficialCommunityPlugin :=
  {| ocp_id := Some (entry_id e);
     ocp_repo := Some (entry_repo e);
     ocp_name := Some (entry_name e);
     ocp_author := Some (entry_author e);
     ocp_description := Some (entry_description e) |}.

Definition entryRepo (e : ArchiveEntry) : GithubRepo :=
  {| full_name := entry_repo e;
     description := Some (entry_description e);
     stargazers_count := 0;
     html_url := "https://github.com/" +:+ entry_repo e;
     owner_login := hd EmptyString (JS.split "/" (entry_repo e));
     owner_avatar_url := EmptyString |}.

(** [needle] occurs in [s]. *)
Definition Substring (needle s : string) : Prop :=
  exists pre post, s = pre +:+ needle +:+ post.

(** *** The matcher in the words of the specification *)

(** Some form of the query (the original or the singular) is a substring
    of some of the four fields, all compared in lower case. *)
Definition specMatches (query : string) (name author description id : string) : bool :=
  let searchLower := JS.trim (JS.toLowerCase query) in
  let forms := [searchLower; searchSingularOf searchLower] in
  let fields := map JS.toLowerCase [name; author; description; id] in
  JS.isEmpty searchLower ||
  String.eqb searchLower "plugin" || String.eqb searchLower "plugins" ||
  existsb (fun field => existsb (fun form => JS.includes field form) forms) fields.

(** The same with the singular form tried on the name and the description
    only. *)
Definition specMatchesNameDescription (query : string)
    (name author description id : string) : bool :=
  let searchLower := JS.trim (JS.toLowerCase query) in
  let singular := searchSingularOf searchLower in
  JS.isEmpty searchLower ||
  String.eqb searchLower "plugin" || String.eqb searchLower "plugins" ||
  existsb (fun field => JS.includes (JS.toLowerCase field) searchLower)
          [name; author; description; id] ||
  existsb (fun field => JS.includes (JS.toLowerCase field) singular)
          [name; description].

End CommunityArchiveService.

Module GithubService.
Import Host Host.Notations.
Section Calls.
Variable w : World.

Definition searchPlugins (query sort : string) : M (list GithubRepo) :=
  tryCatch
    (let! items := call (SearchRepositories query sort)
                        (fun tr => search_repositories w tr query sort) in
     ret (default [] items))
    (fun error =>
       if decide (err_status error = Some 403%Z)
       then throw (mkError "Request failed, status 403 (Rate Limit Exceeded)")
       else throw error).

Definition getLatestRelease (fullName : RepoValue) : M Release :=
  call (GetLatestRelease (repoText w fullName))
       (fun tr => latest_release w tr (repoText w fullName)).

End Calls.
End GithubService.

(** ** The plugin: update checks and installation *)

Module PluginHub.
Import Host Host.Notations.

(** [{ repo?: string; reason?: string }] *)
Record Detection := { det_repo : option string; det_reason : option string }.

Definition rateLimitReason : string :=
  "GitHub API rate limit reached during repository detection.".

Definition noMatchReason : string :=
  "No GitHub repository with matching manifest id was found.".

Definition missingAssetsMessage : string :=
  "Plugin does not have required release assets (main.js and manifest.json).".

(** [`${x}`] of a possibly undefined string. *)
Definition interpolate (o : option string) : string := default "undefined" o.

(** [assets.find((a) => a.name === name)] *)
Definition findAsset (name : string) (l : list Asset) : option Asset :=
  List.find (fun a => String.eqb (asset_name a) name) l.

(** [manifests[pluginId]] *)
Definition lookupManifest (manifests : list (string * Manifest)) (pluginId : string)
  : option Manifest :=
  option_map snd (List.find (fun kv => String.eqb (fst kv) pluginId) manifests).

(** The [repoById] map built from the official list. *)
Definition buildRepoById (officialPlugins : list OfficialCommunityPlugin)
  : gmap string string :=
  fold_left
    (fun (m : gmap string string) p =>
       if JS.truthy (ocp_id p) && JS.truthy (ocp_repo p)
       then <[default EmptyString (ocp_id p) := default EmptyString (ocp_repo p)]> m
       else m)
    officialPlugins ∅.

(** [Array.prototype.sort] is stable; with a consistent comparison function
    its result is that of any stable sort.  Insertion from the right is
    one. *)
Fixpoint insertBy {A} (cmp : A -> A -> Z) (x : A) (l : list A) : list A :=
  match l with
  | [] => [x]
  | y :: r => if (cmp x y <=? 0)%Z then x :: y :: r else y :: insertBy cmp x r
  end.

Fixpoint arraySort {A} (cmp : A -> A -> Z) (l : list A) : list A :=
  match l with
  | [] => []
  | x :: r => insertBy cmp x (arraySort cmp r)
  end.

Section Plugin.
Variable w : World.

Definition saveSettings : M unit :=
  let! s := getSettings in
  call (SaveData s) (save_data w).

Definition getOfficialCommunityPlugins : M (list OfficialCommunityPlugin) :=
  let! json := call GetOfficialList (official_list w) in
  ret (default [] json).

Definition getInstalledPluginManifestFromDisk (pluginId : string) : M (option Manifest) :=
  let manifestPath := configDir w +:+ "/plugins/" +:+ pluginId +:+ "/manifest.json" in
  tryCatch
    (let! present := call (AdapterExists manifestPath)
                          (fun tr => adapter_exists w tr manifestPath) in
     if negb present then ret None
     else call (AdapterRead manifestPath)
               (fun tr => adapter_read_json w tr manifestPath))
    (fun _ => ret None).

Definition getLatestManifestVersionFromRepo (fullName : RepoValue) : M (option string) :=
  let! release := GithubService.getLatestRelease w fullName in
  let assets := default [] (assets release) in
  match findAsset "manifest.json" assets with
  | None => ret None
  | Some manifestAsset =>
      if JS.isEmpty (browser_download_url manifestAsset) then ret None
      else
        let url := browser_download_url manifestAsset in
        let! manifestResp := call (Download url) (fun tr => download w tr url) in
        let version := resp_json manifestResp ≫= manifest_version in
        ret (if JS.truthy version then version else None)
  end.

Definition repoMatchesPluginId (fullName pluginId : string) : M bool :=
  tryCatch
    (let! manifestResp := call (GetRepoManifest fullName)
                               (fun tr => repo_manifest w tr fullName) in
     ret ((resp_status manifestResp =? 200)%Z &&
          bool_decide (resp_json manifestResp ≫= manifest_id = Some pluginId)))
    (fun _ => ret false).

(** [for (const repo of ...) if (await repoMatchesPluginId(repo, pluginId)) return repo] *)
Fixpoint firstMatching (pluginId : string) (repos : list string) : M (option string) :=
  match repos with
  | [] => ret None
  | repo :: rest =>
      let! ok := repoMatchesPluginId repo pluginId in
      if ok then ret (Some repo) else firstMatching pluginId rest
  end.

Definition findRepoByKnownPatterns (pluginId : string) (manifest : Manifest)
  : M (option string) :=
  match Repo.parseGithubOwnerFromAuthorUrl (manifest_authorUrl manifest) with
  | None => ret None
  | Some owner =>
      firstMatching pluginId
        (Repo.patternCandidates owner pluginId (manifest_name manifest))
  end.

Definition doubleQuote : ascii := ascii_of_nat 34.

(** The search queries of the fallback tier. *)
Definition searchQueries (owner : option string) (pluginId : string) : list string :=
  match owner with
  | Some o => ["user:" +:+ o +:+ " obsidian " +:+ pluginId +:+ " in:name"]
  | None => []
  end ++
  [ "obsidian " +:+ pluginId +:+ " in:name";
    String doubleQuote (pluginId +:+ String doubleQuote " obsidian plugin") ].

(** The [for (const query of queries)] loop; [rateLimited] is the flag of
    the source. *)
Fixpoint searchLoop (pluginId : string) (queries : list string) (rateLimited : bool)
  : M Detection :=
  match queries with
  | [] =>
      ret (if rateLimited
           then {| det_repo := None; det_reason := Some rateLimitReason |}
           else {| det_repo := None; det_reason := Some noMatchReason |})
  | query :: rest =>
      let! found :=
        tryCatch
          (let! repos := GithubService.searchPlugins w query "updated" in
           ret (inl repos))
          (fun e => ret (inr e)) in
      match found with
      | inr e =>
          searchLoop pluginId rest
            (if JS.includes (err_message e) "403" then true else rateLimited)
      | inl repos =>
          let! hit := firstMatching pluginId (map full_name (take 12 repos)) in
          match hit with
          | Some repo => ret {| det_repo := Some repo; det_reason := None |}
          | None => searchLoop pluginId rest rateLimited
          end
      end
  end.

Definition findRepoByManifestId (pluginId : string) (manifest : Manifest)
  : M Detection :=
  let! fromKnownPattern := findRepoByKnownPatterns pluginId manifest in
  if JS.truthy fromKnownPattern
  then ret {| det_repo := fromKnownPattern; det_reason := None |}
  else
    let owner := Repo.parseGithubOwnerFromAuthorUrl (manifest_authorUrl manifest) in
    searchLoop pluginId (searchQueries owner pluginId) false.

(** Lines 483-503: which repository, and from which source. *)
Definition resolveRepo (repoById : gmap string string) (pluginId : string)
    (installedManifest : Manifest) : M (option RepoValue * Source * string * bool) :=
  let repo := Name <$> repoById !! pluginId in
  let source := if present repo then official else unknownSource in
  let unresolvedReason := "Could not map plugin to a GitHub repository." in
  let! s := getSettings in
  let trackedRepo := objectGet (installedRepoMap s) pluginId in
  let '(repo, source) :=
    if negb (present repo) && present trackedRepo
    then (trackedRepo, tracked) else (repo, source) in
  if negb (present repo) then
    let! detection := findRepoByManifestId pluginId installedManifest in
    let repo := Name <$> det_repo detection in
    let unresolvedReason :=
      if negb (present repo) && JS.truthy (det_reason detection)
      then default EmptyString (det_reason detection) else unresolvedReason in
    if present repo then
      do! setInstalledRepo pluginId (default (Name EmptyString) repo) in
      ret (repo, detected, unresolvedReason, true)
    else ret (repo, source, unresolvedReason, false)
  else ret (repo, source, unresolvedReason, false).

(** Lines 517-558: the [try]/[catch] around the version check of a
    resolved repository. *)
Definition classify (pluginId currentVersion : string) (repo : option RepoValue)
    (source : Source) : M PluginUpdateCandidate :=
  tryCatch
    (let! latestVersion :=
       getLatestManifestVersionFromRepo (default (Name EmptyString) repo) in
     match latestVersion with
     | None =>
         ret {| cand_pluginId := pluginId;
                cand_currentVersion := currentVersion;
                cand_latestVersion := None;
                cand_repo := repo;
                cand_source := source;
                cand_versionStatus := unknownStatus;
                cand_needsUpdate := false;
                cand_error := Some "No manifest.json in latest release." |}
     | Some latest =>
         let versionCompare := Version.compareVersions currentVersion latest in
         let needsUpdate := (versionCompare <? 0)%Z in
         let versionStatus :=
           if (versionCompare <? 0)%Z then updateAvailable
           else if (versionCompare =? 0)%Z then upToDate
           else localNewer in
         ret {| cand_pluginId := pluginId;
                cand_currentVersion := currentVersion;
                cand_latestVersion := Some latest;
                cand_repo := repo;
                cand_source := source;
                cand_versionStatus := versionStatus;
                cand_needsUpdate := needsUpdate;
                cand_error := None |}
     end)
    (fun e =>
       ret {| cand_pluginId := pluginId;
              cand_currentVersion := currentVersion;
              cand_latestVersion := None;
              cand_repo := repo;
              cand_source := source;
              cand_versionStatus := unknownStatus;
              cand_needsUpdate := false;
              cand_error :=
                Some (if JS.isEmpty (err_message e)
                      then "Failed to check latest release."
                      else err_message e) |}).

(** The body of the [for (const pluginId of installedPluginIds)] loop: the
    candidate pushed, and whether [mappingChanged] was set. *)
Definition checkPlugin (manifests : list (string * Manifest))
    (repoById : gmap string string) (pluginId : string)
  : M (PluginUpdateCandidate * bool) :=
  let! installedManifestFromDisk := getInstalledPluginManifestFromDisk pluginId in
  let installedManifest :=
    match installedManifestFromDisk with
    | Some m => m
    | None => default emptyManifest (lookupManifest manifests pluginId)
    end in
  let currentVersion :=
    if JS.truthy (manifest_version installedManifest)
    then default EmptyString (manifest_version installedManifest)
    else "0.0.0" in
  let! '(repo, source, unresolvedReason, changed) :=
    resolveRepo repoById pluginId installedManifest in
  if negb (present repo) then
    ret ({| cand_pluginId := pluginId;
            cand_currentVersion := currentVersion;
            cand_latestVersion := None;
            cand_repo := None;
            cand_source := unknownSource;
            cand_versionStatus := unknownStatus;
            cand_needsUpdate := false;
            cand_error := Some unresolvedReason |}, changed)
  else
    let! candidate := classify pluginId currentVersion repo source in
    ret (candidate, changed).

(** The loop itself, threading [candidates] and [mappingChanged]. *)
Fixpoint checkLoop (manifests : list (string * Manifest))
    (repoById : gmap string string) (installedPluginIds : list string)
    (candidates : list PluginUpdateCandidate) (mappingChanged : bool)
  : M (list PluginUpdateCandidate * bool) :=
  match installedPluginIds with
  | [] => ret (candidates, mappingChanged)
  | pluginId :: rest =>
      let! '(candidate, changed) := checkPlugin manifests repoById pluginId in
      checkLoop manifests repoById rest (candidates ++ [candidate])
                (changed || mappingChanged)
  end.

(** The comparison function passed to [candidates.sort]. *)
Definition compareCandidates (a b : PluginUpdateCandidate) : Z :=
  if negb (Bool.eqb (cand_needsUpdate a) (cand_needsUpdate b))
  then (if cand_needsUpdate a then -1 else 1)%Z
  else localeCompare w (cand_pluginId a) (cand_pluginId b).

Definition checkInstalledPluginUpdates : M (list PluginUpdateCandidate) :=
  do! (if has_loadManifests w
       then tryCatch (call LoadManifests (load_manifests w)) (fun _ => ret tt)
       else ret tt) in
  let! manifests := (fun st => (Ok (plugin_manifests w (trace st)), st)) in
  let installedPluginIds := map fst manifests in
  match installedPluginIds with
  | [] => ret []
  | _ =>
      let! officialPlugins := getOfficialCommunityPlugins in
      let repoById := buildRepoById officialPlugins in
      let! '(candidates, mappingChanged) :=
        checkLoop manifests repoById installedPluginIds [] false in
      do! (if mappingChanged then saveSettings else ret tt) in
      ret (arraySort compareCandidates candidates)
  end.

(** *** Installation *)

Definition pathTypeError : Error :=
  mkError "The path argument must be of type string".

(** [path.join(...parts, pluginId)]; an undefined argument throws. *)
Definition joinWithId (parts : list string) (pluginId : option string) : M string :=
  match pluginId with
  | Some i => ret (path_join w (parts ++ [i]))
  | None => throw pathTypeError
  end.

Definition fsExistsSync (path : string) : M bool :=
  call (FsExistsSync path) (fun tr => Ok (fs_existsSync w tr path)).

Definition fsWriteFileSync (path content : string) : M unit :=
  call (FsWriteFileSync path content) (fun tr => fs_writeFileSync w tr path content).

(** The inner loop over the sub-folders of one parent directory. *)
Fixpoint scanSubfolders (parentPath : string) (subfolders : list string)
    (targetVaults : list string) : M (list string) :=
  match subfolders with
  | [] => ret targetVaults
  | sub :: rest =>
      let fullPath := path_join w [parentPath; sub] in
      let obsidianFolder := path_join w [fullPath; ".obsidian"] in
      let! isDir := call (FsStatSync fullPath) (fun tr => fs_isDirectory w tr fullPath) in
      let! isVault := (if isDir then fsExistsSync obsidianFolder else ret false) in
      scanSubfolders parentPath rest
        (if isVault && negb (existsb (String.eqb fullPath) targetVaults)
         then targetVaults ++ [fullPath] else targetVaults)
  end.

Fixpoint scanParents (parents : list string) (targetVaults : list string)
  : M (list string) :=
  match parents with
  | [] => ret targetVaults
  | parentPath :: rest =>
      let! present := fsExistsSync parentPath in
      if present then
        let! subfolders := call (FsReaddirSync parentPath)
                                (fun tr => fs_readdirSync w tr parentPath) in
        let! targetVaults' := scanSubfolders parentPath subfolders targetVaults in
        scanParents rest targetVaults'
      else scanParents rest targetVaults
  end.

(** The body of [for (const vaultPath of targetVaults)]. *)
Definition writeVault (pluginId : option string) (mainJs manifestContent : string)
    (stylesCss : bool) (stylesContent : string) (vaultPath : string) : M unit :=
  let! targetDir := joinWithId [vaultPath; ".obsidian"; "plugins"] pluginId in
  let! present := fsExistsSync targetDir in
  do! (if negb present
       then call (FsMkdirSync targetDir) (fun tr => fs_mkdirSync w tr targetDir)
       else ret tt) in
  do! fsWriteFileSync (path_join w [targetDir; "main.js"]) mainJs in
  do! fsWriteFileSync (path_join w [targetDir; "manifest.json"]) manifestContent in
  if stylesCss
  then fsWriteFileSync (path_join w [targetDir; "styles.css"]) stylesContent
  else ret tt.

Fixpoint writeVaults (pluginId : option string) (mainJs manifestContent : string)
    (stylesCss : bool) (stylesContent : string) (targetVaults : list string) : M unit :=
  match targetVaults with
  | [] => ret tt
  | vaultPath :: rest =>
      do! writeVault pluginId mainJs manifestContent stylesCss stylesContent vaultPath in
      writeVaults pluginId mainJs manifestContent stylesCss stylesContent rest
  end.

(** The [try { ... } catch (e) { console.error(...) }] block of the
    multi-vault deployment; the result is [targetVaultsCount]. *)
Definition deployToVaults (useParentDirs useSelectedVaults : bool)
    (pluginId : option string) (mainJs manifestContent : string)
    (stylesCss : bool) (stylesContent : string) : M nat :=
  tryCatch
    (do! call RequireFs
           (fun _ => if has_node_fs w then Ok tt
                     else Throw (mkError "Cannot find module 'fs'")) in
     let! s := getSettings in
     let targetVaults := if useSelectedVaults then extraVaultPaths s else [] in
     let! targetVaults :=
       (if useParentDirs
        then scanParents (parentVaultDirectories s) targetVaults
        else ret targetVaults) in
     do! writeVaults pluginId mainJs manifestContent stylesCss stylesContent
           targetVaults in
     ret (length targetVaults))
    (fun e =>
       do! call (ConsoleError "Failed to copy to extra vaults:" e) (fun _ => Ok tt) in
       ret O).

Definition installPluginFromGithub (fullName : RepoValue) (showNotice : bool) : M unit :=
  let! release := GithubService.getLatestRelease w fullName in
  match assets release with
  | None => throw CommunityArchiveService.typeError
  | Some assets =>
      let mainJs := findAsset "main.js" assets in
      let manifestJson := findAsset "manifest.json" assets in
      let stylesCss := findAsset "styles.css" assets in
      match mainJs, manifestJson with
      | Some mainJs, Some manifestJson =>
          let manifestUrl := browser_download_url manifestJson in
          let! manifestResp := call (Download manifestUrl)
                                    (fun tr => download w tr manifestUrl) in
          match resp_json manifestResp with
          | None => throw CommunityArchiveService.typeError
          | Some manifest =>
              let pluginId := manifest_id manifest in
              let! s := getSettings in
              do! (if JS.truthy pluginId &&
                      negb (bool_decide (objectGet (installedRepoMap s)
                                           (default EmptyString pluginId)
                                         = Some fullName))
                   then do! setInstalledRepo (default EmptyString pluginId) fullName in
                        saveSettings
                   else ret tt) in
              let pluginDir := configDir w +:+ "/plugins/" +:+ interpolate pluginId in
              let mainUrl := browser_download_url mainJs in
              let! mainJsResp := call (Download mainUrl) (fun tr => download w tr mainUrl) in
              let manifestContent := json_stringify w manifest in
              let! stylesContent :=
                match stylesCss with
                | Some css =>
                    let cssUrl := browser_download_url css in
                    let! stylesResp := call (Download cssUrl)
                                            (fun tr => download w tr cssUrl) in
                    ret (resp_text stylesResp)
                | None => ret EmptyString
                end in
              let! s := getSettings in
              let installToActive :=
                match installLocation s with locActive | locAll => true | _ => false end in
              let useParentDirs :=
                match installLocation s with locAll => true | _ => false end in
              let useSelectedVaults :=
                match installLocation s with locAll | locSelected => true | _ => false end in
              do! (if installToActive then
                     let! present := call (AdapterExists pluginDir)
                                          (fun tr => adapter_exists w tr pluginDir) in
                     do! (if negb present
                          then call (AdapterMkdir pluginDir)
                                    (fun tr => adapter_mkdir w tr pluginDir)
                          else ret tt) in
                     do! call (AdapterWrite (pluginDir +:+ "/main.js") (resp_text mainJsResp))
                           (fun tr => adapter_write w tr (pluginDir +:+ "/main.js")
                                        (resp_text mainJsResp)) in
                     do! call (AdapterWrite (pluginDir +:+ "/manifest.json") manifestContent)
                           (fun tr => adapter_write w tr (pluginDir +:+ "/manifest.json")
                                        manifestContent) in
                     if bool_decide (is_Some stylesCss)
                     then call (AdapterWrite (pluginDir +:+ "/styles.css") stylesContent)
                            (fun tr => adapter_write w tr (pluginDir +:+ "/styles.css")
                                         stylesContent)
                     else ret tt
                   else ret tt) in
              let! targetVaultsCount :=
                (if useParentDirs || useSelectedVaults
                 then deployToVaults useParentDirs useSelectedVaults pluginId
                        (resp_text mainJsResp) manifestContent
                        (bool_decide (is_Some stylesCss)) stylesContent
                 else ret O) in
              do! (if has_loadManifests w
                   then call LoadManifests (load_manifests w)
                   else throw CommunityArchiveService.typeError) in
              if showNotice
              then call (ShowNotice (repoText w fullName) installToActive targetVaultsCount)
                        (fun _ => Ok tt)
              else ret tt
          end
      | _, _ => throw (mkError missingAssetsMessage)
      end
  end.

End Plugin.
End PluginHub.

(** ** Concrete hosts *)

Module Scenario.
Import Host.

Definition offline : Error := mkError "net::ERR_INTERNET_DISCONNECTED".

(** What V8 prints for the members of Object.prototype. *)
Definition v8Text (key : string) : string :=
  if String.eqb key "__proto__" then "[object Object]"
  else "function " +:+ (if String.eqb key "constructor" then "Object" else key) +:+
       "() { [native code] }".

(** A host on which every request fails, nothing is installed and the
    file system accepts every operation; its locale is English and its
    engine V8. *)
Definition idle : World :=
  {| official_list := fun _ => Throw offline;
     repo_manifest := fun _ _ => Throw offline;
     search_repositories := fun _ _ _ => Throw offline;
     latest_release := fun _ _ => Throw offline;
     download := fun _ _ => Throw offline;
     forum_search := fun _ _ => Throw offline;
     has_loadManifests := true;
     load_manifests := fun _ => Ok tt;
     plugin_manifests := fun _ => [];
     save_data := fun _ => Ok tt;
     configDir := ".obsidian";
     adapter_exists := fun _ _ => Ok false;
     adapter_read_json := fun _ _ => Ok None;
     adapter_mkdir := fun _ _ => Ok tt;
     adapter_write := fun _ _ _ => Ok tt;
     has_node_fs := true;
     path_join := fun parts => foldr (fun a b => if JS.isEmpty b then a else a +:+ "/" +:+ b)
                                     EmptyString parts;
     fs_existsSync := fun _ _ => false;
     fs_readdirSync := fun _ _ => Ok [];
     fs_isDirectory := fun _ _ => Ok false;
     fs_mkdirSync := fun _ _ => Ok tt;
     fs_writeFileSync := fun _ _ _ => Ok tt;
     json_stringify := fun m => "{}";
     localeCompare := Collation.english;
     member_text := v8Text |}.

Definition defaultSettings : PluginSettings :=
  {| extraVaultPaths := [];
     parentVaultDirectories := [];
     installLocation := locAll;
     installedRepoMap := ∅ |}.

Definition start : State := {| trace := []; settings := defaultSettings |}.

Definition withForum (f : Trace -> string -> Outcome ForumData) (w : World) : World :=
  {| official_list := official_list w;
     repo_manifest := repo_manifest w;
     search_repositories := search_repositories w;
     latest_release := latest_release w;
     download := download w;
     forum_search := f;
     has_loadManifests := has_loadManifests w;
     load_manifests := load_manifests w;
     plugin_manifests := plugin_manifests w;
     save_data := save_data w;
     configDir := configDir w;
     adapter_exists := adapter_exists w;
     adapter_read_json := adapter_read_json w;
     adapter_mkdir := adapter_mkdir w;
     adapter_write := adapter_write w;
     has_node_fs := has_node_fs w;
     path_join := path_join w;
     fs_existsSync := fs_existsSync w;
     fs_readdirSync := fs_readdirSync w;
     fs_isDirectory := fs_isDirectory w;
     fs_mkdirSync := fs_mkdirSync w;
     fs_writeFileSync := fs_writeFileSync w;
     json_stringify := json_stringify w;
     localeCompare := localeCompare w;
     member_text := member_text w |}.

Definition withOfficialList
    (f : Trace -> Outcome (option (list OfficialCommunityPlugin))) (w : World) : World :=
  {| official_list := f;
     repo_manifest := repo_manifest w;
     search_repositories := search_repositories w;
     latest_release := latest_release w;
     download := download w;
     forum_search := forum_search w;
     has_loadManifests := has_loadManifests w;
     load_manifests := load_manifests w;
     plugin_manifests := plugin_manifests w;
     save_data := save_data w;
     configDir := configDir w;
     adapter_exists := adapter_exists w;
     adapter_read_json := adapter_read_json w;
     adapter_mkdir := adapter_mkdir w;
     adapter_write := adapter_write w;
     has_node_fs := has_node_fs w;
     path_join := path_join w;
     fs_existsSync := fs_existsSync w;
     fs_readdirSync := fs_readdirSync w;
     fs_isDirectory := fs_isDirectory w;
     fs_mkdirSync := fs_mkdirSync w;
     fs_writeFileSync := fs_writeFileSync w;
     json_stringify := json_stringify w;
     localeCompare := localeCompare w;
     member_text := member_text w |}.

Definition withNetwork
    (ol : Trace -> Outcome (option (list OfficialCommunityPlugin)))
    (rm : Trace -> string -> Outcome Response)
    (sr : Trace -> string -> string -> Outcome (option (list GithubRepo)))
    (lr : Trace -> string -> Outcome Release)
    (dl : Trace -> string -> Outcome Response)
    (w : World) : World :=
  {| official_list := ol;
     repo_manifest := rm;
     search_repositories := sr;
     latest_release := lr;
     download := dl;
     forum_search := forum_search w;
     has_loadManifests := has_loadManifests w;
     load_manifests := load_manifests w;
     plugin_manifests := plugin_manifests w;
     save_data := save_data w;
     configDir := configDir w;
     adapter_exists := adapter_exists w;
     adapter_read_json := adapter_read_json w;
     adapter_mkdir := adapter_mkdir w;
     adapter_write := adapter_write w;
     has_node_fs := has_node_fs w;
     path_join := path_join w;
     fs_existsSync := fs_existsSync w;
     fs_readdirSync := fs_readdirSync w;
     fs_isDirectory := fs_isDirectory w;
     fs_mkdirSync := fs_mkdirSync w;
     fs_writeFileSync := fs_writeFileSync w;
     json_stringify := json_stringify w;
     localeCompare := localeCompare w;
     member_text := member_text w |}.

Definition forbidden : Error :=
  {| err_status := Some 403%Z; err_message := "Request failed, status 403" |}.

(** The first search query is rate-limited; the other completes and
    finds no repository. *)
Definition oneRateLimited : World :=
  withNetwork
    (fun _ => Throw offline)
    (fun _ _ => Throw offline)
    (fun _ q _ => if String.eqb q "obsidian my-plugin in:name"
                  then Throw forbidden else Ok (Some []))
    (fun _ _ => Throw offline)
    (fun _ _ => Throw offline)
    idle.

(** Every search query is rate-limited. *)
Definition allSearchesRateLimited : World :=
  withNetwork
    (fun _ => Throw offline)
    (fun _ _ => Throw offline)
    (fun _ _ _ => Throw forbidden)
    (fun _ _ => Throw offline)
    (fun _ _ => Throw offline)
    idle.

Definition myPluginManifest : Manifest :=
  {| manifest_id := Some "my-plugin"; manifest_name := Some "My Plugin";
     manifest_version := Some "1.0.0"; manifest_authorUrl := None |}.

(** A forum answer with two topics and three posts, two of them on a
    topic already listed. *)
Definition topicA : ForumTopic :=
  {| topic_title := "Kanban plugin"; topic_slug := "kanban"; topic_id := 11;
     topic_posts_count := Some 4%Z; topic_like_count := Some 9%Z;
     topic_views := Some 120%Z; topic_tags := Some ["plugin"] |}.

Definition topicB : ForumTopic :=
  {| topic_title := "Calendar plugin"; topic_slug := "calendar"; topic_id := 12;
     topic_posts_count := Some 2%Z; topic_like_count := None;
     topic_views := Some 30%Z; topic_tags := None |}.

Definition postOn (i : Z) (title : string) : ForumPost :=
  {| post_topic_title := title; post_topic_slug := "slug";
     post_topic_id := i; post_like_count := Some 1%Z |}.

Definition forumData : ForumData :=
  {| topics := Some [topicA; topicB];
     posts := Some [postOn 12 "Calendar plugin"; postOn 13 "Tasks"; postOn 13 "Tasks"] |}.


Definition forumUp : World := withForum (fun _ _ => Ok forumData) idle.

(** An archive with one entry. *)
Definition dataview : CommunityArchiveService.ArchiveEntry :=
  {| CommunityArchiveService.entry_name := "Data View";
     CommunityArchiveService.entry_author := "Michael Brenan";
     CommunityArchiveService.entry_description := "Complex data views for the data-obsessed.";
     CommunityArchiveService.entry_id := "dataview";
     CommunityArchiveService.entry_repo := "blacksmithgu/obsidian-dataview" |}.

Definition archiveUp : World :=
  withOfficialList
    (fun _ => Ok (Some [CommunityArchiveService.entryJson dataview])) idle.

Definition withInstalled (pm : Trace -> list (string * Manifest)) (w : World) : World :=
  {| official_list := official_list w;
     repo_manifest := repo_manifest w;
     search_repositories := search_repositories w;
     latest_release := latest_release w;
     download := download w;
     forum_search := forum_search w;
     has_loadManifests := has_loadManifests w;
     load_manifests := load_manifests w;
     plugin_manifests := pm;
     save_data := save_data w;
     configDir := configDir w;
     adapter_exists := adapter_exists w;
     adapter_read_json := adapter_read_json w;
     adapter_mkdir := adapter_mkdir w;
     adapter_write := adapter_write w;
     has_node_fs := has_node_fs w;
     path_join := path_join w;
     fs_existsSync := fs_existsSync w;
     fs_readdirSync := fs_readdirSync w;
     fs_isDirectory := fs_isDirectory w;
     fs_mkdirSync := fs_mkdirSync w;
     fs_writeFileSync := fs_writeFileSync w;
     json_stringify := json_stringify w;
     localeCompare := localeCompare w;
     member_text := member_text w |}.

(** Three installed plugins: alpha is on the official list and also has a
    tracked entry, zeta has a tracked entry only, beta has neither and is
    found by pattern under its author's account. *)
Definition manifestOf (id version : string) (authorUrl : option string) : Manifest :=
  {| manifest_id := Some id; manifest_name := Some id;
     manifest_version := Some version; manifest_authorUrl := authorUrl |}.

Definition installedPlugins : list (string * Manifest) :=
  [ ("alpha", manifestOf "alpha" "1.0.0" None);
    ("zeta", manifestOf "zeta" "1.0.0" None);
    ("beta", manifestOf "beta" "0.9" (Some "https://github.com/o")) ].

Definition releaseOf (assetNames : list string) (fullName : string) : Release :=
  {| assets := Some (map (fun n => {| asset_name := n;
                                      browser_download_url :=
                                        "https://dl/" +:+ fullName +:+ "/" +:+ n |})
                         assetNames) |}.

Definition publishedManifest (url : string) : option Manifest :=
  if String.eqb url "https://dl/o/alpha/manifest.json"
  then Some (manifestOf "alpha" "1.0.0" None)
  else if String.eqb url "https://dl/o/zeta/manifest.json"
  then Some (manifestOf "zeta" "2.0.0" None)
  else if String.eqb url "https://dl/o/obsidian-beta/manifest.json"
  then Some (manifestOf "beta" "1.0" None)
  else None.

Definition okResponse (json : option Manifest) (text : string) : Response :=
  {| resp_status := 200; resp_json := json; resp_text := text |}.

Definition notFound : Error :=
  {| err_status := Some 404%Z; err_message := "Request failed, status 404" |}.

Definition hub (assetNames : list string) : World :=
  withInstalled (fun _ => installedPlugins)
    (withNetwork
       (fun _ => Ok (Some [ {| ocp_id := Some "alpha"; ocp_repo := Some "o/alpha";
                               ocp_name := Some "Alpha"; ocp_author := Some "o";
                               ocp_description := Some "First" |} ]))
       (fun _ fullName =>
          if String.eqb fullName "o/obsidian-beta"
          then Ok (okResponse (Some (manifestOf "beta" "1.0" None)) "{}")
          else Throw notFound)
       (fun _ _ _ => Ok (Some []))
       (fun _ fullName => Ok (releaseOf assetNames fullName))
       (fun _ url =>
          match publishedManifest url with
          | Some m => Ok (okResponse (Some m) "{}")
          | None => Ok (okResponse None "bundle")
          end)
       idle).

Definition updates : World := hub ["main.js"; "manifest.json"].

Definition trackedSettings : PluginSettings :=
  {| extraVaultPaths := [];
     parentVaultDirectories := [];
     installLocation := locAll;
     installedRepoMap := {[ "alpha" := Name "fork/alpha"; "zeta" := Name "o/zeta" ]} |}.

Definition updatesStart : State := {| trace := []; settings := trackedSettings |}.

(** The latest release carries main.js but no manifest.json. *)
Definition bundleOnly : World := hub ["main.js"].

Definition withFsWrite (f : Trace -> string -> string -> Outcome unit) (w : World) : World :=
  {| official_list := official_list w;
     repo_manifest := repo_manifest w;
     search_repositories := search_repositories w;
     latest_release := latest_release w;
     download := download w;
     forum_search := forum_search w;
     has_loadManifests := has_loadManifests w;
     load_manifests := load_manifests w;
     plugin_manifests := plugin_manifests w;
     save_data := save_data w;
     configDir := configDir w;
     adapter_exists := adapter_exists w;
     adapter_read_json := adapter_read_json w;
     adapter_mkdir := adapter_mkdir w;
     adapter_write := adapter_write w;
     has_node_fs := has_node_fs w;
     path_join := path_join w;
     fs_existsSync := fs_existsSync w;
     fs_readdirSync := fs_readdirSync w;
     fs_isDirectory := fs_isDirectory w;
     fs_mkdirSync := fs_mkdirSync w;
     fs_writeFileSync := f;
     json_stringify := json_stringify w;
     localeCompare := localeCompare w;
     member_text := member_text w |}.

Definition accessDenied : Error := mkError "EACCES: permission denied".

(** Writing below /vaults/a fails; every other path can be written. *)
Definition brokenVault : World :=
  withFsWrite
    (fun _ path _ => if JS.startsWith "/vaults/a/" path then Throw accessDenied else Ok tt)
    updates.

Definition selectedSettings : PluginSettings :=
  {| extraVaultPaths := ["/vaults/a"; "/vaults/b"];
     parentVaultDirectories := [];
     installLocation := locSelected;
     installedRepoMap := ∅ |}.

Definition selectedStart : State := {| trace := []; settings := selectedSettings |}.

(** The candidates of a check, or none when it throws. *)
Definition candidatesOf (r : Outcome (list PluginUpdateCandidate) * State)
  : list PluginUpdateCandidate :=
  match fst r with
  | Ok l => l
  | Throw _ => []
  end.

Definition firstCheck : Outcome (list PluginUpdateCandidate) * State :=
  PluginHub.checkInstalledPluginUpdates updates updatesStart.


(** Three installed plugins whose ids differ in case.  The official list
    is there and empty, and no other request is answered. *)
Definition mixedCase : World :=
  withInstalled
    (fun _ => [ ("Zeta", manifestOf "Zeta" "1.0.0" None);
                ("alpha", manifestOf "alpha" "1.0.0" None);
                ("Beta", manifestOf "Beta" "1.0.0" None) ])
    (withOfficialList (fun _ => Ok (Some [])) idle).

(** An installed plugin whose id names a member of Object.prototype, and
    a repository whose release carries a manifest with the id __proto__.
    The official list is there and empty. *)
Definition inheritedIds : World :=
  withInstalled
    (fun _ => [ ("constructor", manifestOf "constructor" "1.0.0" None) ])
    (withNetwork
       (fun _ => Ok (Some []))
       (fun _ _ => Throw notFound)
       (fun _ _ _ => Ok (Some []))
       (fun _ fullName => Ok (releaseOf ["main.js"; "manifest.json"] fullName))
       (fun _ url =>
          if String.eqb url "https://dl/o/proto/manifest.json"
          then Ok (okResponse (Some (manifestOf "__proto__" "1.0.0" None)) "{}")
          else Ok (okResponse None "bundle"))
       idle).

End Scenario.

(** ** Reading a trace *)

Module Observe.
Import Host.

(** The passes of the loop of [checkInstalledPluginUpdates], one after the
    other: the candidates pushed, whether [mappingChanged] was set, and the
    state reached. *)
Inductive passes (w : World) (manifests : list (string * Manifest))
    (repoById : gmap string string)
  : list string -> State -> list PluginUpdateCandidate -> bool -> State -> Prop :=
| passes_nil st : passes w manifests repoById [] st [] false st
| passes_cons pluginId rest st c changed st1 cs flag st2 :
    PluginHub.checkPlugin w manifests repoById pluginId st = (Ok (c, changed), st1) ->
    passes w manifests repoById rest st1 cs flag st2 ->
    passes w manifests repoById (pluginId :: rest) st (c :: cs) (changed || flag) st2.

(** The requests of repository detection: manifest verification and search. *)
Definition isDetectionCall (ev : Event) : bool :=
  match ev with
  | GetRepoManifest _ | SearchRepositories _ _ => true
  | _ => false
  end.

Definition isVerification (ev : Event) : bool :=
  match ev with
  | GetRepoManifest _ => true
  | _ => false
  end.

(** The search queries issued, in order. *)
Definition searchesIn (evs : list Event) : list string :=
  omap (fun ev => match ev with
                  | SearchRepositories q _ => Some q
                  | _ => None
                  end) evs.

(** An error that sets the [rateLimited] flag: [searchPlugins] turns
    status 403 into a message with "403", and lets any other error
    through with its own message. *)
Definition is403 (e : Error) : bool :=
  bool_decide (err_status e = Some 403%Z) || JS.includes (err_message e) "403".

Definition searchRateLimited (w : World) (tr : Trace) (ev : Event) : bool :=
  match ev with
  | SearchRepositories q sort =>
      match search_repositories w tr q sort with
      | Throw e => is403 e
      | Ok _ => false
      end
  | _ => false
  end.

(** Replaying the calls [evs] made after [tr]: was some search answered
    with a rate-limit error; were all of them. *)
Fixpoint someRateLimited (w : World) (tr : Trace) (evs : list Event) : bool :=
  match evs with
  | [] => false
  | ev :: rest => searchRateLimited w tr ev || someRateLimited w (tr ++ [ev]) rest
  end.

Fixpoint allRateLimited (w : World) (tr : Trace) (evs : list Event) : bool :=
  match evs with
  | [] => true
  | ev :: rest =>
      (match ev with
       | SearchRepositories _ _ => searchRateLimited w tr ev
       | _ => true
       end) && allRateLimited w (tr ++ [ev]) rest
  end.

(** A consistent comparison function, as [Array.prototype.sort] wants it. *)
Definition consistentComparator {A} (cmp : A -> A -> Z) : Prop :=
  (forall a b, Z.sgn (cmp b a) = (- Z.sgn (cmp a b))%Z) /\
  (forall a b c, (cmp a b <= 0)%Z -> (cmp b c <= 0)%Z -> (cmp a c <= 0)%Z).

(** A computation only adds calls to the trace. *)
Definition grows {A} (m : M A) : Prop :=
  forall st, exists evs, trace (snd (m st)) = trace st ++ evs.

(** The paths written with [fs.writeFileSync], in order. *)
Definition fsWritesIn (evs : list Event) : list string :=
  omap (fun ev => match ev with
                  | FsWriteFileSync path _ => Some path
                  | _ => None
                  end) evs.

(** [a] may stand before [b] in a sorted array. *)
Definition before {A} (cmp : A -> A -> Z) (a b : A) : Prop := (cmp a b <= 0)%Z.

(** [a] is not behind [b] in the lexicographic order of the code units,
    the order of [<=] on strings. *)
Definition lexicographic (a b : string) : Prop := String.compare a b <> Gt.

(** The state in which [checkInstalledPluginUpdates] reads the installed
    manifests and asks for the official list. *)
Definition afterLoad (w : World) (st : State) : State :=
  extend st (if has_loadManifests w then [LoadManifests] else []).

(** No request of repository detection among the calls. *)
Definition quiet (evs : list Event) : bool :=
  forallb (fun ev => negb (isDetectionCall ev)) evs.

(** The chained invariant of an update candidate. *)
Definition candidateInvariant (c : PluginUpdateCandidate) : Prop :=
  (cand_needsUpdate c = true -> cand_versionStatus c = updateAvailable) /\
  (cand_versionStatus c = updateAvailable -> present (cand_repo c) = true).

(** The manifest of an installed plugin that the loop body works with:
    the one on disk, else the one the plugin manager holds, else an empty
    one. *)
Definition installedManifestOf (manifests : list (string * Manifest)) (pluginId : string)
    (fromDisk : option Manifest) : Manifest :=
  match fromDisk with
  | Some m => m
  | None => default emptyManifest (PluginHub.lookupManifest manifests pluginId)
  end.

(** The pass for [pluginId] that starts in [st] has run repository
    detection: after reading the manifest from disk it has called
    [findRepoByManifestId] with the package id and the installed manifest,
    which answered [d] and left the host in [st1]. *)
Definition detectionRun (w : World) (manifests : list (string * Manifest))
    (pluginId : string) (st : State) (d : PluginHub.Detection) (st1 : State) : Prop :=
  exists fromDisk st0,
    PluginHub.getInstalledPluginManifestFromDisk w pluginId st = (Ok fromDisk, st0) /\
    PluginHub.findRepoByManifestId w pluginId
      (installedManifestOf manifests pluginId fromDisk) st0 = (Ok d, st1).

(** The reason shown for a plugin without repository. *)
Definition unresolvedReasonOf (d : PluginHub.Detection) : string :=
  if JS.truthy (PluginHub.det_reason d)
  then default EmptyString (PluginHub.det_reason d)
  else "Could not map plugin to a GitHub repository.".

(** What one pass of the loop body does for [pluginId], from state [st]
    to state [st'], by resolution tier: the official list, then
    [installedRepoMap], then detection, whose answer decides between a
    detected repository, written back, and none. *)
Definition resolution (w : World) (manifests : list (string * Manifest))
    (repoById : gmap string string) (pluginId : string)
    (st : State) (c : PluginUpdateCandidate) (changed : bool) (st' : State) : Prop :=
  exists evs,
    trace st' = trace st ++ evs /\
    let known := Name <$> repoById !! pluginId in
    let kept := objectGet (installedRepoMap (settings st)) pluginId in
    (present known = true /\
     cand_source c = official /\ cand_repo c = known /\
     settings st' = settings st /\ changed = false /\ quiet evs = true) \/
    (present known = false /\ present kept = true /\
     cand_source c = tracked /\ cand_repo c = kept /\
     settings st' = settings st /\ changed = false /\ quiet evs = true) \/
    (present known = false /\ present kept = false /\
     cand_source c = detected /\ present (cand_repo c) = true /\
     settings st' = withRepo (settings st) pluginId
                      (default (Name EmptyString) (cand_repo c)) /\
     changed = true /\
     exists d st1 evs',
       detectionRun w manifests pluginId st d st1 /\
       cand_repo c = Name <$> PluginHub.det_repo d /\
       trace st' = trace st1 ++ evs' /\ quiet evs' = true) \/
    (present known = false /\ present kept = false /\
     cand_source c = unknownSource /\ cand_repo c = None /\
     settings st' = settings st /\ changed = false /\
     exists d,
       detectionRun w manifests pluginId st d st' /\
       JS.truthy (PluginHub.det_repo d) = false /\
       cand_error c = Some (unresolvedReasonOf d)).

(** The settings handed to the last [saveData]. *)
Definition persisted (tr : Trace) : option PluginSettings :=
  last (omap (fun ev => match ev with SaveData s => Some s | _ => None end) tr).

End Observe.

(** ** Shapes of strings *)

Module Shape.

Fixpoint allChars (p : ascii -> bool) (s : string) : bool :=
  match s with
  | EmptyString => true
  | String c r => p c && allChars p r
  end.

(** A character of a repository token: [a-z0-9] or the hyphen. *)
Definition isTokenChar (c : ascii) : bool := JS.isLowerAlnum c || Repo.isHyphen c.

Fixpoint noDoubleHyphen (s : string) : bool :=
  match s with
  | EmptyString => true
  | String a r =>
      negb (Repo.isHyphen a && JS.startsWith "-" r) && noDoubleHyphen r
  end.

(** Only [a-z0-9] and single hyphens, none of them first or last. *)
Definition wellFormedToken (s : string) : bool :=
  allChars isTokenChar s && noDoubleHyphen s &&
  negb (JS.startsWith "-" s) && negb (JS.endsWithChar "-" s).

(** The first character that [Number.parseInt] would not skip and that
    can start no number. *)
Definition startsNoNumber (c : ascii) : bool :=
  negb (JS.isDigit c) && negb (JS.isWhiteSpace c) && negb (Ascii.eqb c "+").

End Shape.

(** ** Kinds of calls *)

Module Trail.
Import Host.

Inductive Kind :=
| KOfficialList | KRepoManifest | KSearch | KRelease | KDownload | KForum
| KLoadManifests | KSaveData
| KAdapterExists | KAdapterRead | KAdapterMkdir | KAdapterWrite
| KRequireFs | KFsExists | KFsReaddir | KFsStat | KFsMkdir | KFsWrite
| KConsoleError | KNotice.

Definition kind (ev : Event) : Kind :=
  match ev with
  | GetOfficialList => KOfficialList
  | GetRepoManifest _ => KRepoManifest
  | SearchRepositories _ _ => KSearch
  | GetLatestRelease _ => KRelease
  | Download _ => KDownload
  | ForumSearch _ => KForum
  | LoadManifests => KLoadManifests
  | SaveData _ => KSaveData
  | AdapterExists _ => KAdapterExists
  | AdapterRead _ => KAdapterRead
  | AdapterMkdir _ => KAdapterMkdir
  | AdapterWrite _ _ => KAdapterWrite
  | RequireFs => KRequireFs
  | FsExistsSync _ => KFsExists
  | FsReaddirSync _ => KFsReaddir
  | FsStatSync _ => KFsStat
  | FsMkdirSync _ => KFsMkdir
  | FsWriteFileSync _ _ => KFsWrite
  | ConsoleError _ _ => KConsoleError
  | ShowNotice _ _ _ => KNotice
  end.

(** Every call among [evs] is of an allowed kind. *)
Definition only (allowed : Kind -> bool) (evs : list Event) : bool :=
  forallb (fun ev => allowed (kind ev)) evs.

(** From a state whose settings satisfy [I], the computation adds calls
    of allowed kinds only, and leaves settings that satisfy [I]; whether
    it returns or throws. *)
Definition emits (I : PluginSettings -> Prop) (allowed : Kind -> bool)
    {A} (m : M A) : Prop :=
  forall st, I (settings st) ->
    exists evs, trace (snd (m st)) = trace st ++ evs /\
                only allowed evs = true /\
                I (settings (snd (m st))).

Definition anySettings (s : PluginSettings) : Prop := True.

(** Whenever the computation returns, what it returns satisfies [P]. *)
Definition returns {A} (m : M A) (P : A -> Prop) : Prop :=
  forall st a st', m st = (Ok a, st') -> P a.

(** The calls of repository detection. *)
Definition detectionCalls (k : Kind) : bool :=
  match k with
  | KRepoManifest | KSearch => true
  | _ => false
  end.

(** The calls of one pass of the update check. *)
Definition passCalls (k : Kind) : bool :=
  match k with
  | KAdapterExists | KAdapterRead | KRepoManifest | KSearch | KRelease | KDownload => true
  | _ => false
  end.

(** The calls of the whole update check. *)
Definition checkCalls (k : Kind) : bool :=
  match k with
  | KLoadManifests | KOfficialList | KSaveData => true
  | _ => passCalls k
  end.

(** The calls of the multi-vault deployment. *)
Definition deployCalls (k : Kind) : bool :=
  match k with
  | KRequireFs | KFsExists | KFsReaddir | KFsStat | KFsMkdir | KFsWrite
  | KConsoleError => true
  | _ => false
  end.

(** The calls of an installation after its release request. *)
Definition installCalls (k : Kind) : bool :=
  match k with
  | KDownload | KSaveData | KAdapterExists | KAdapterMkdir | KAdapterWrite
  | KLoadManifests | KNotice => true
  | _ => deployCalls k
  end.

Definition isNodeFs (k : Kind) : bool :=
  match k with
  | KFsExists | KFsReaddir | KFsStat | KFsMkdir | KFsWrite => true
  | _ => false
  end.

Definition isAdapter (k : Kind) : bool :=
  match k with
  | KAdapterExists | KAdapterRead | KAdapterMkdir | KAdapterWrite => true
  | _ => false
  end.

(** The settings saved, the releases asked for, the files written through
    the vault adapter and the errors logged, in order. *)
Definition savesIn (evs : list Event) : list PluginSettings :=
  omap (fun ev => match ev with SaveData s => Some s | _ => None end) evs.

Definition releasesIn (evs : list Event) : list string :=
  omap (fun ev => match ev with GetLatestRelease f => Some f | _ => None end) evs.

Definition adapterWritesIn (evs : list Event) : list (string * string) :=
  omap (fun ev => match ev with AdapterWrite p c => Some (p, c) | _ => None end) evs.

Definition fsFilesIn (evs : list Event) : list (string * string) :=
  omap (fun ev => match ev with FsWriteFileSync p c => Some (p, c) | _ => None end) evs.

Definition errorsIn (evs : list Event) : list string :=
  omap (fun ev => match ev with ConsoleError l _ => Some l | _ => None end) evs.

Definition verificationsIn (evs : list Event) : list string :=
  omap (fun ev => match ev with GetRepoManifest f => Some f | _ => None end) evs.

(** Among the calls [evs] made after [tr], the manifest of [repo] at HEAD
    was requested and answered with status 200 and the id [pluginId]. *)
Definition verifiedIn (w : World) (tr : Trace) (evs : list Event)
    (pluginId repo : string) : Prop :=
  exists pre post resp,
    evs = pre ++ GetRepoManifest repo :: post /\
    repo_manifest w (tr ++ pre) repo = Ok resp /\
    resp_status resp = 200%Z /\
    resp_json resp ≫= manifest_id = Some pluginId.

End Trail.

(** ** Updating and installing several plugins *)

Module Batch.
Import Host Host.Notations.

(** What the update command reports when it ends. *)
Inductive CommandNotice :=
| NoUpdatesFound
| UpdateFinished (updated failed : nat).

(** [candidates.filter((candidate) => candidate.needsUpdate && candidate.repo)
               .map((candidate) => candidate.repo as string)] *)
Definition reposToUpdate (candidates : list PluginUpdateCandidate) : list RepoValue :=
  map (fun c => default (Name EmptyString) (cand_repo c))
      (List.filter (fun c => cand_needsUpdate c && present (cand_repo c)) candidates).

(** [[...new Set(repos)]]: insertion order, an element held already is
    not inserted again. *)
Definition setAdd (set : list RepoValue) (x : RepoValue) : list RepoValue :=
  if existsb (fun y => bool_decide (x = y)) set then set else set ++ [x].

Definition newSet (l : list RepoValue) : list RepoValue := fold_left setAdd l [].

(** Duplicates removed, the first occurrence kept. *)
Fixpoint distinct (l : list RepoValue) : list RepoValue :=
  match l with
  | [] => []
  | x :: r => x :: List.filter (fun y => negb (bool_decide (y = x))) (distinct r)
  end.

Section Plugin.
Variable w : World.

(** The [for (const fullName of uniqueRepos)] loop of [updatePluginsByRepo]
    with its two counters. *)
Fixpoint updateLoop (uniqueRepos : list RepoValue) (updated failed : nat)
  : M (nat * nat) :=
  match uniqueRepos with
  | [] => ret (updated, failed)
  | fullName :: rest =>
      let! '(updated, failed) :=
        tryCatch
          (do! PluginHub.installPluginFromGithub w fullName false in
           ret (S updated, failed))
          (fun e =>
             do! call (ConsoleError ("Failed to update " +:+ repoText w fullName) e)
                      (fun _ => Ok tt) in
             ret (updated, S failed)) in
      updateLoop rest updated failed
  end.

Definition updatePluginsByRepo (repos : list RepoValue) : M (nat * nat) :=
  let uniqueRepos := newSet repos in
  updateLoop uniqueRepos 0 0.

(** The callback of the command registered in [onload]; the notice it
    ends with is its result. *)
Definition updateCommand : M CommandNotice :=
  let! candidates := PluginHub.checkInstalledPluginUpdates w in
  let repos := reposToUpdate candidates in
  match repos with
  | [] => ret NoUpdatesFound
  | _ =>
      let! '(updated, failed) := updatePluginsByRepo repos in
      ret (UpdateFinished updated failed)
  end.

(** The loop behind the button "Install set" of the settings tab. *)
Fixpoint installSet (plugins : list string) : M unit :=
  match plugins with
  | [] => ret tt
  | fullName :: rest =>
      do! tryCatch
            (PluginHub.installPluginFromGithub w (Name fullName) true)
            (fun e => call (ConsoleError ("Failed to install " +:+ fullName +:+ ":") e)
                           (fun _ => Ok tt)) in
      installSet rest
  end.

End Plugin.
End Batch.

(** ** The update panel of the browser view *)

Module Panel.
Import Host.

Definition hasStatus (s : VersionStatus) (c : PluginUpdateCandidate) : bool :=
  match cand_versionStatus c, s with
  | updateAvailable, updateAvailable
  | upToDate, upToDate
  | localNewer, localNewer
  | unknownStatus, unknownStatus => true
  | _, _ => false
  end.

Record UpdateGroups := {
  needsUpdate : list PluginUpdateCandidate;
  upToDateGroup : list PluginUpdateCandidate;
  localNewerGroup : list PluginUpdateCandidate;
  unknownVersion : list PluginUpdateCandidate;
  unresolved : list PluginUpdateCandidate
}.

(** The five lists at the head of [renderUpdateCandidates]. *)
Definition groupsOf (candidates : list PluginUpdateCandidate) : UpdateGroups :=
  let updatable := List.filter (fun c => present (cand_repo c)) candidates in
  {| needsUpdate := List.filter (hasStatus updateAvailable) updatable;
     upToDateGroup := List.filter (hasStatus upToDate) updatable;
     localNewerGroup := List.filter (hasStatus localNewer) updatable;
     unknownVersion := List.filter (hasStatus unknownStatus) updatable;
     unresolved := List.filter (fun c => negb (present (cand_repo c))) candidates |}.

(** [checkboxMap.get(candidate.pluginId)?.checked] right after rendering:
    the map holds, per plugin id, the checkbox set last, which starts as
    [candidate.needsUpdate]. *)
Definition initialChecked (rows : list PluginUpdateCandidate) (pluginId : string) : bool :=
  match List.find (fun c => String.eqb (cand_pluginId c) pluginId) (rev rows) with
  | Some c => cand_needsUpdate c
  | None => false
  end.

(** The repositories handed over by "Update Selected". *)
Definition selectedRepos (rows : list PluginUpdateCandidate) (checked : string -> bool)
  : list RepoValue :=
  map (fun c => default (Name EmptyString) (cand_repo c))
      (List.filter (fun c => checked (cand_pluginId c)) rows).

(** [candidate.error || "Unknown error"] *)
Definition errorText (c : PluginUpdateCandidate) : string :=
  if JS.truthy (cand_error c) then default EmptyString (cand_error c)
  else "Unknown error".

Definition statusOf (versionCompare : Z) : VersionStatus :=
  if (versionCompare <? 0)%Z then updateAvailable
  else if (versionCompare =? 0)%Z then upToDate
  else localNewer.

Definition isDetected (c : PluginUpdateCandidate) : bool :=
  match cand_source c with detected => true | _ => false end.

Definition isUnknownSource (c : PluginUpdateCandidate) : bool :=
  match cand_source c with unknownSource => true | _ => false end.

(** How the fields of a candidate hang together. *)
Definition coherent (c : PluginUpdateCandidate) : bool :=
  match cand_versionStatus c with
  | unknownStatus =>
      negb (cand_needsUpdate c) &&
      bool_decide (cand_latestVersion c = None) &&
      JS.truthy (cand_error c)
  | _ =>
      present (cand_repo c) &&
      JS.truthy (cand_latestVersion c) &&
      bool_decide (cand_error c = None) &&
      Bool.eqb (cand_needsUpdate c) (hasStatus updateAvailable c) &&
      hasStatus
        (statusOf (Version.compareVersions (cand_currentVersion c)
                     (default EmptyString (cand_latestVersion c)))) c
  end &&
  Bool.eqb (present (cand_repo c)) (negb (isUnknownSource c)) &&
  (present (cand_repo c) || bool_decide (cand_repo c = None)).

(** What [resolveRepo] hands to the rest of the loop body: a source for
    every repository, [mappingChanged] set for a detected one only, and a
    reason to show otherwise. *)
Definition resolved (r : option RepoValue * Source * string * bool) : Prop :=
  let '(repo, source, reason, changed) := r in
  (present repo = true ->
   source <> unknownSource /\
   changed = match source with detected => true | _ => false end) /\
  (present repo = false -> changed = false) /\
  JS.isEmpty reason = false.

End Panel.

(** ** Calls of an installation, by install location *)

Module Footprint.
Import Trail.

(** Into the active vault only: nothing of node's [fs]. *)
Definition activeCalls (k : Kind) : bool :=
  match k with
  | KRelease | KDownload | KSaveData | KAdapterExists | KAdapterMkdir
  | KAdapterWrite | KLoadManifests | KNotice => true
  | _ => false
  end.

(** Into the selected vaults only: nothing of the vault adapter. *)
Definition selectedCalls (k : Kind) : bool :=
  match k with
  | KRelease | KDownload | KSaveData | KLoadManifests | KNotice => true
  | _ => deployCalls k
  end.

(** Without node's [fs]: the failed [require] and its log entry, but no
    call of [fs]. *)
Definition mobileCalls (k : Kind) : bool :=
  match k with
  | KRelease | KDownload | KSaveData | KAdapterExists | KAdapterMkdir
  | KAdapterWrite | KLoadManifests | KNotice | KRequireFs | KConsoleError => true
  | _ => false
  end.

(** After the repository of a plugin is tracked, nothing is saved. *)
Definition afterTracking (k : Kind) : bool :=
  match k with
  | KSaveData | KRelease => false
  | _ => installCalls k
  end.

End Footprint.

(** ** Further concrete hosts *)

Module Cases.
Import Host.

Definition activeSettings : PluginSettings :=
  {| extraVaultPaths := ["/vaults/a"];
     parentVaultDirectories := ["/vaults"];
     installLocation := locActive;
     installedRepoMap := ∅ |}.

Definition activeStart : State := {| trace := []; settings := activeSettings |}.

(** The latest release carries all three assets. *)
Definition styled : World := Scenario.hub ["main.js"; "manifest.json"; "styles.css"].

(** The topics of a forum search from the start state, or none. *)
Definition topicsOf (w : World) (query : string) : list ForumResult :=
  match fst (ForumService.search w query Scenario.start) with
  | Ok l => l
  | Throw _ => []
  end.

End Cases.

(** ** The browser view: what is shown *)

Module Browser.
Import Host Host.Notations.

(** [s.endsWith(suffix)] *)
Fixpoint endsWith (s suffix : string) : bool :=
  String.eqb s suffix ||
  match s with
  | EmptyString => false
  | String _ r => endsWith r suffix
  end.

Definition isVault (lowerName lowerDesc : string) : bool :=
  JS.includes lowerName "/obsidian-vault" ||
  endsWith lowerName "/vault" ||
  JS.includes lowerName "-vault" ||
  JS.includes lowerDesc "my obsidian vault" ||
  JS.includes lowerDesc "personal vault" ||
  JS.includes lowerDesc "personal notes" ||
  JS.includes lowerDesc "my notes" ||
  JS.includes lowerDesc "sharing my vault".

Definition isTheme (lowerName lowerDesc : string) : bool :=
  JS.includes lowerName "-theme" || endsWith lowerName "/theme" ||
  JS.includes lowerName "obsidian-theme" ||
  JS.includes lowerDesc "theme for obsidian" ||
  JS.includes lowerDesc "style for obsidian".

Definition isCss (lowerName lowerDesc : string) : bool :=
  JS.includes lowerName "css" || JS.includes lowerDesc "css snippet" ||
  JS.includes lowerDesc "custom css" || JS.includes lowerDesc "visual style".

(** The callback of [repos.filter] in [renderRepos]. *)
Definition keepRepo (searchVal : string) (repo : GithubRepo) : bool :=
  let isAuthorSearch := JS.startsWith "@" searchVal in
  let lowerName := JS.toLowerCase (full_name repo) in
  let lowerDesc := JS.toLowerCase (default EmptyString (description repo)) in
  if negb (JS.includes searchVal "vault") && isVault lowerName lowerDesc then false
  else if isAuthorSearch || JS.includes searchVal "theme" || JS.includes searchVal "css"
  then true
  else negb (isTheme lowerName lowerDesc) && negb (isCss lowerName lowerDesc).

(** The comparison function of the author search; star counts are
    integers, so the subtraction is exact. *)
Definition ownerStarts (authorQuery : string) (repo : GithubRepo) : Z :=
  if JS.startsWith authorQuery (JS.toLowerCase (owner_login repo)) then 1 else 0.

Definition authorCompare (authorQuery : string) (a b : GithubRepo) : Z :=
  let aStarts := ownerStarts authorQuery a in
  let bStarts := ownerStarts authorQuery b in
  if negb (aStarts =? bStarts)%Z then (bStarts - aStarts)%Z
  else (stargazers_count b - stargazers_count a)%Z.

(** The repositories that [renderRepos] lists, in order, for the text in
    the search field. *)
Definition renderRepos (inputValue : string) (repos : list GithubRepo) : list GithubRepo :=
  let searchVal := JS.toLowerCase inputValue in
  let isAuthorSearch := JS.startsWith "@" searchVal in
  let authorQuery := if isAuthorSearch then JS.dropChars 1 searchVal else EmptyString in
  let filteredRepos := List.filter (keepRepo searchVal) repos in
  if isAuthorSearch
  then PluginHub.arraySort (authorCompare authorQuery) filteredRepos
  else filteredRepos.

(** The same filter with the clauses that others cover left out. *)
Definition vaultLike (lowerName lowerDesc : string) : bool :=
  endsWith lowerName "/vault" ||
  JS.includes lowerName "-vault" ||
  JS.includes lowerDesc "my obsidian vault" ||
  JS.includes lowerDesc "personal vault" ||
  JS.includes lowerDesc "personal notes" ||
  JS.includes lowerDesc "my notes" ||
  JS.includes lowerDesc "sharing my vault".

Definition styleLike (lowerName lowerDesc : string) : bool :=
  JS.includes lowerName "-theme" || endsWith lowerName "/theme" ||
  JS.includes lowerDesc "theme for obsidian" ||
  JS.includes lowerDesc "style for obsidian" ||
  JS.includes lowerName "css" || JS.includes lowerDesc "css snippet" ||
  JS.includes lowerDesc "custom css" || JS.includes lowerDesc "visual style".

Definition keepSpec (searchVal : string) (repo : GithubRepo) : bool :=
  let lowerName := JS.toLowerCase (full_name repo) in
  let lowerDesc := JS.toLowerCase (default EmptyString (description repo)) in
  (JS.includes searchVal "vault" || negb (vaultLike lowerName lowerDesc)) &&
  (JS.startsWith "@" searchVal || JS.includes searchVal "theme" ||
   JS.includes searchVal "css" || negb (styleLike lowerName lowerDesc)).

(** The filter of the forum button, per topic. *)
Definition showTopic (searchVal : string) (topic : ForumResult) : bool :=
  let lowerTitle := JS.toLowerCase (fr_title topic) in
  let topicTags := fr_tags topic in
  if negb (JS.includes searchVal "theme") && negb (JS.includes searchVal "css") &&
     negb (JS.includes searchVal "snippet")
  then
    if existsb (String.eqb "theme") topicTags || existsb (String.eqb "css") topicTags
    then false
    else
      let isTheme := JS.includes lowerTitle "theme" &&
                     negb (JS.includes lowerTitle "plugin") in
      let isSnippet := JS.includes lowerTitle "css snippet" ||
                       JS.includes lowerTitle "snippet" in
      negb (isTheme || isSnippet)
  else true.

(** The same per-topic filter, the snippet test written once. *)
Definition showTopicSpec (searchVal : string) (topic : ForumResult) : bool :=
  let lowerTitle := JS.toLowerCase (fr_title topic) in
  JS.includes searchVal "theme" || JS.includes searchVal "css" ||
  JS.includes searchVal "snippet" ||
  negb (existsb (String.eqb "theme") (fr_tags topic)) &&
  negb (existsb (String.eqb "css") (fr_tags topic)) &&
  negb (JS.includes lowerTitle "snippet") &&
  (negb (JS.includes lowerTitle "theme") || JS.includes lowerTitle "plugin").

Record GithubUser := { login : string; avatar_url : string }.

(** What the results container shows when a handler ends. *)
Inductive View :=
| UsersView (users : list GithubUser)
| ReposView (repos : list GithubRepo)
| NoForumTopics
| ForumTopics (topics : list ForumResult)
| RateLimitView
| ErrorView (text : string).

Definition refinedQueryOf (rawQuery : string) : string :=
  rawQuery +:+
  " obsidian NOT theme NOT css NOT vault NOT configuration -topic:theme -topic:obsidian-theme".

Section Handlers.
Variable w : World.

(** The request of [GithubService.searchUsers], answering with
    [response.json.items]. *)
Variable usersRequest : string -> M (option (list GithubUser)).

Definition searchUsers (query : string) : M (list GithubUser) :=
  tryCatch
    (let! items := usersRequest query in
     ret (default [] items))
    (fun e =>
       do! call (ConsoleError "User search failed" e) (fun _ => Ok tt) in
       ret []).

Definition githubButton (inputValue : string) : M View :=
  tryCatch
    (let rawQuery := JS.trim inputValue in
     if JS.startsWith "@" rawQuery then
       let name := JS.dropChars 1 rawQuery in
       let! users := searchUsers name in
       ret (UsersView users)
     else
       let refinedQuery := refinedQueryOf rawQuery in
       let! repos := GithubService.searchPlugins w refinedQuery "stars" in
       ret (ReposView (renderRepos inputValue repos)))
    (fun e =>
       do! call (ConsoleError EmptyString e) (fun _ => Ok tt) in
       if negb (JS.isEmpty (err_message e)) && JS.includes (err_message e) "403"
       then ret RateLimitView
       else ret (ErrorView ("Error searching: " +:+ err_message e))).

Definition archiveButton (inputValue : string) : M View :=
  tryCatch
    (let! repos := CommunityArchiveService.search w inputValue in
     ret (ReposView (renderRepos inputValue repos)))
    (fun e => ret (ErrorView ("Error searching archive: " +:+ err_message e))).

Definition forumButton (inputValue : string) : M View :=
  tryCatch
    (let! topics := ForumService.search w inputValue in
     match topics with
     | [] => ret NoForumTopics
     | _ =>
         let searchVal := JS.toLowerCase inputValue in
         ret (ForumTopics (List.filter (showTopic searchVal) topics))
     end)
    (fun e => ret (ErrorView ("Error searching forum: " +:+ err_message e))).

End Handlers.
End Browser.

(** ** The settings tab *)

Module SettingsTab.

Definition newline : ascii := ascii_of_nat 10.

(** [paths.join('\n')] *)
Fixpoint joinLines (paths : list string) : string :=
  match paths with
  | [] => EmptyString
  | [p] => p
  | p :: rest => p +:+ String newline (joinLines rest)
  end.

(** [value.split('\n').filter((p) => p.trim() !== '')] *)
Definition parsePaths (value : string) : list string :=
  List.filter (fun p => negb (JS.isEmpty (JS.trim p))) (JS.split newline value).

(** A line that survives: not blank, and without a line break. *)
Definition isPathLine (p : string) : bool :=
  negb (JS.isEmpty (JS.trim p)) && negb (JS.includes p (String newline EmptyString)).

(** [if (!set.plugins.includes(repo.full_name)) set.plugins.push(repo.full_name)];
    the flag says whether the settings are saved. *)
Definition addToSet (plugins : list string) (fullName : string) : list string * bool :=
  if existsb (String.eqb fullName) plugins then (plugins, false)
  else (plugins ++ [fullName], true).

End SettingsTab.

(** ** The files of a vault *)

Module Deploy.
Import Host Host.Notations.

(** The [targetVaults] of the multi-vault block: the selected vaults, then
    what the scan of the parent folders adds to them. *)
Definition targetVaults (w : World) (useParentDirs useSelectedVaults : bool)
  : M (list string) :=
  let! s := getSettings in
  let targetVaults := if useSelectedVaults then extraVaultPaths s else [] in
  if useParentDirs
  then PluginHub.scanParents w (parentVaultDirectories s) targetVaults
  else ret targetVaults.

Definition copyFailed : string := "Failed to copy to extra vaults:".

Definition noFsModule : Error := mkError "Cannot find module 'fs'".

(** What the deployment writes into one vault, in order. *)
Definition vaultFiles (w : World) (pluginId mainJs manifestContent : string)
    (stylesCss : bool) (stylesContent vaultPath : string) : list (string * string) :=
  let targetDir := path_join w [vaultPath; ".obsidian"; "plugins"; pluginId] in
  (path_join w [targetDir; "main.js"], mainJs) ::
  (path_join w [targetDir; "manifest.json"], manifestContent) ::
  (if stylesCss then [(path_join w [targetDir; "styles.css"], stylesContent)] else []).

End Deploy.

(** ** Target vaults, archive entries *)

Module Targets.
Import Host.

(** [r] is [targets] followed by new paths, each of them once and none of
    them among [targets]. *)
Definition extendedBy (targets r : list string) : Prop :=
  exists found,
    r = targets ++ found /\ NoDup found /\ forall v, In v found -> ~ In v targets.

(** An entry of the official list with the four fields that the filter of
    the archive search reads. *)
Definition complete (p : OfficialCommunityPlugin) : bool :=
  match ocp_name p, ocp_author p, ocp_description p, ocp_id p with
  | Some _, Some _, Some _, Some _ => true
  | _, _, _, _ => false
  end.

(** A query that the archive search answers with every entry. *)
Definition listsAll (searchLower : string) : bool :=
  JS.isEmpty searchLower || String.eqb searchLower "plugin" ||
  String.eqb searchLower "plugins".

(** An entry that [buildRepoById] takes up. *)
Definition usable (p : OfficialCommunityPlugin) : bool :=
  JS.truthy (ocp_id p) && JS.truthy (ocp_repo p).

Definition withDisk (present : string -> bool) (entries : string -> list string)
    (isDirectory : string -> bool) (w : World) : World :=
  {| official_list := official_list w;
     repo_manifest := repo_manifest w;
     search_repositories := search_repositories w;
     latest_release := latest_release w;
     download := download w;
     forum_search := forum_search w;
     has_loadManifests := has_loadManifests w;
     load_manifests := load_manifests w;
     plugin_manifests := plugin_manifests w;
     save_data := save_data w;
     configDir := configDir w;
     adapter_exists := adapter_exists w;
     adapter_read_json := adapter_read_json w;
     adapter_mkdir := adapter_mkdir w;
     adapter_write := adapter_write w;
     has_node_fs := has_node_fs w;
     path_join := path_join w;
     fs_existsSync := fun _ path => present path;
     fs_readdirSync := fun _ path => Ok (entries path);
     fs_isDirectory := fun _ path => Ok (isDirectory path);
     fs_mkdirSync := fs_mkdirSync w;
     fs_writeFileSync := fs_writeFileSync w;
     json_stringify := json_stringify w;
     localeCompare := localeCompare w;
     member_text := member_text w |}.

(** Under /vaults: the vaults a and b and a file. *)
Definition disk : World :=
  withDisk
    (fun path => String.eqb path "/vaults" ||
                 String.eqb path "/vaults/a/.obsidian" ||
                 String.eqb path "/vaults/b/.obsidian")
    (fun path => if String.eqb path "/vaults" then ["a"; "notes.txt"; "b"] else [])
    (fun path => String.eqb path "/vaults/a" || String.eqb path "/vaults/b")
    Scenario.idle.

(** An official list with an entry that has no description. *)
Definition bare : OfficialCommunityPlugin :=
  {| ocp_id := Some "bare"; ocp_repo := Some "o/bare"; ocp_name := Some "Bare";
     ocp_author := Some "o"; ocp_description := None |}.

Definition archiveWithBare : World :=
  Scenario.withOfficialList
    (fun _ => Ok (Some [CommunityArchiveService.entryJson Scenario.dataview; bare]))
    Scenario.idle.

End Targets.

(** ** Phases of an installation *)

Module Phases.
Import Host Trail.

(** Asking and fetching, and saving the settings. *)
Definition fetchCalls (k : Kind) : bool :=
  match k with
  | KRelease | KDownload | KSaveData => true
  | _ => false
  end.

(** Placing the files, reloading, notifying. *)
Definition placeCalls (k : Kind) : bool :=
  match k with
  | KAdapterExists | KAdapterMkdir | KAdapterWrite | KLoadManifests | KNotice => true
  | _ => deployCalls k
  end.

(** The calls of the computation come in two phases, whether it returns
    or throws. *)
Definition phased (P Q : Kind -> bool) {A} (m : M A) : Prop :=
  forall st, exists pre post,
    trace (snd (m st)) = trace st ++ pre ++ post /\
    only P pre = true /\ only Q post = true.

End Phases.

(* ================================================================== *)
(** * Theorems *)
(* ================================================================== *)

Section VersionFacts.

Import Version.
Local Open Scope Z_scope.

Lemma nth_padTo (n i : nat) (xs : list Z) : nth i (padTo n xs) 0 = nth i xs 0.
Proof.
  unfold padTo. destruct (Nat.lt_ge_cases i (length xs)) as [Hlt | Hge].
  - now rewrite app_nth1.
  - rewrite app_nth2, nth_repeat by exact Hge.
    symmetry. now apply nth_overflow.
Qed.

Lemma length_padTo (n : nat) (xs : list Z) :
  (length xs <= n)%nat -> length (padTo n xs) = n.
Proof. intros H. unfold padTo. rewrite length_app, repeat_length. lia. Qed.

Lemma compareLoop_ext (xs ys xs' ys' : list Z) (n i : nat) :
  (forall j, nth j xs' 0 = nth j xs 0) ->
  (forall j, nth j ys' 0 = nth j ys 0) ->
  compareLoop xs' ys' i n = compareLoop xs ys i n.
Proof.
  intros Hx Hy. revert i. induction n as [| n IH]; intros i; simpl.
  - reflexivity.
  - now rewrite Hx, Hy, IH.
Qed.

Lemma compareLoop_cons (x y : Z) (xs ys : list Z) (n i : nat) :
  compareLoop (x :: xs) (y :: ys) (S i) n = compareLoop xs ys i n.
Proof.
  revert i. induction n as [| n IH]; intros i; simpl; [reflexivity |].
  now rewrite IH.
Qed.

Lemma compareLoop_components (xs ys : list Z) :
  length xs = length ys ->
  compareLoop xs ys 0 (length xs) = compareComponents xs ys.
Proof.
  revert ys. induction xs as [| x xs IH]; intros [| y ys] Hlen;
    simpl in *; try discriminate; [reflexivity |].
  rewrite compareLoop_cons, IH by congruence. reflexivity.
Qed.

(** Past the end of both sequences the loop only sees 0 against 0. *)
Lemma compareLoop_beyond (xs ys : list Z) (i k : nat) :
  (length xs <= i)%nat -> (length ys <= i)%nat -> compareLoop xs ys i k = 0.
Proof.
  revert i. induction k as [| k IH]; intros i Hx Hy; simpl; [reflexivity |].
  rewrite !nth_overflow by assumption. simpl. apply IH; lia.
Qed.

Lemma compareLoop_extend (xs ys : list Z) (i n k : nat) :
  (length xs <= i + n)%nat -> (length ys <= i + n)%nat ->
  compareLoop xs ys i (n + k) = compareLoop xs ys i n.
Proof.
  revert i. induction n as [| n IH]; intros i Hx Hy; simpl.
  - apply compareLoop_beyond; lia.
  - rewrite IH by lia. reflexivity.
Qed.

Lemma compareVersions_at (m : nat) (a b : string) :
  (length (normalize a) <= m)%nat -> (length (normalize b) <= m)%nat ->
  compareVersions a b = compareLoop (normalize a) (normalize b) 0 m.
Proof.
  intros Ha Hb. unfold compareVersions.
  set (n := Nat.max _ _).
  replace m with (n + (m - n))%nat by lia.
  symmetry. apply compareLoop_extend; lia.
Qed.

Lemma compareLoop_range (xs ys : list Z) (i n : nat) :
  compareLoop xs ys i n = -1 \/ compareLoop xs ys i n = 0 \/
  compareLoop xs ys i n = 1.
Proof.
  revert i. induction n as [| n IH]; intros i; simpl; [auto |].
  destruct (_ <? _); [auto |]. destruct (_ >? _); auto.
Qed.

Lemma compareLoop_antisym (xs ys : list Z) (i n : nat) :
  compareLoop ys xs i n = - compareLoop xs ys i n.
Proof.
  revert i. induction n as [| n IH]; intros i; simpl; [reflexivity |].
  rewrite IH.
  destruct (Z.ltb_spec (nth i ys 0) (nth i xs 0));
    destruct (Z.ltb_spec (nth i xs 0) (nth i ys 0));
    rewrite ?Z.gtb_ltb;
    repeat match goal with |- context [?u <? ?v] =>
             destruct (Z.ltb_spec u v) end; lia.
Qed.

Lemma compareLoop_trans (xs ys zs : list Z) (i n : nat) :
  let r1 := compareLoop xs ys i n in
  let r2 := compareLoop ys zs i n in
  let r3 := compareLoop xs zs i n in
  (r1 <= 0 -> r2 <= 0 -> r3 <= 0) /\
  (r1 < 0 -> r2 <= 0 -> r3 < 0) /\
  (r1 <= 0 -> r2 < 0 -> r3 < 0).
Proof.
  revert i. induction n as [| n IH]; intros i; simpl; [lia |].
  specialize (IH (S i)). simpl in IH.
  rewrite !Z.gtb_ltb.
  repeat match goal with |- context [?u <? ?v] =>
           destruct (Z.ltb_spec u v) end; try lia; exact IH.
Qed.

Lemma split_head_no_sep (sep : ascii) (v suffix : string) :
  JS.includes v (String sep EmptyString) = false ->
  hd EmptyString (JS.split sep (v ++ String sep suffix)) = v.
Proof.
  induction v as [| c v IH]; simpl; intros H.
  - now rewrite Ascii.eqb_refl.
  - apply orb_false_iff in H as [H1 H2].
    rewrite andb_true_r in H1. rewrite Ascii.eqb_sym in H1. rewrite H1.
    specialize (IH H2).
    destruct (JS.split sep (v ++ String sep suffix)); simpl in *; congruence.
Qed.

Lemma split_head_whole (sep : ascii) (v : string) :
  JS.includes v (String sep EmptyString) = false ->
  hd EmptyString (JS.split sep v) = v.
Proof.
  induction v as [| c v IH]; simpl; intros H; [reflexivity |].
  apply orb_false_iff in H as [H1 H2].
  rewrite andb_true_r in H1. rewrite Ascii.eqb_sym in H1. rewrite H1.
  specialize (IH H2).
  destruct (JS.split sep v); simpl in *; congruence.
Qed.

End VersionFacts.

Section RepoFacts.

Import Repo.

Lemma whitespace_not_alnum (c : ascii) :
  JS.isWhiteSpace c = true -> JS.isLowerAlnum c = false.
Proof. destruct c as [[] [] [] [] [] [] [] []]; vm_compute; congruence. Qed.

Lemma alnum_not_hyphen (c : ascii) :
  JS.isLowerAlnum c = true -> isHyphen c = false.
Proof. destruct c as [[] [] [] [] [] [] [] []]; vm_compute; congruence. Qed.

(** The flag only matters for a hyphen at the very front. *)
Lemma dropStart_replaceRuns_flag (b b' : bool) (s : string) :
  JS.dropStart isHyphen (replaceRuns b s) =
  JS.dropStart isHyphen (replaceRuns b' s).
Proof.
  destruct s as [| c r]; simpl; [reflexivity |].
  destruct (JS.isLowerAlnum c); [reflexivity |].
  destruct b, b'; reflexivity.
Qed.

Lemma dropStart_replaceRuns_trimStart (b : bool) (s : string) :
  JS.dropStart isHyphen (replaceRuns b (JS.dropStart JS.isWhiteSpace s)) =
  JS.dropStart isHyphen (replaceRuns b s).
Proof.
  induction s as [| c r IH]; simpl; [reflexivity |].
  destruct (JS.isWhiteSpace c) eqn:Hws; [| reflexivity].
  rewrite (whitespace_not_alnum c Hws), IH.
  destruct b; simpl; apply dropStart_replaceRuns_flag.
Qed.

Lemma dropEnd_replaceRuns_trimEnd (b : bool) (s : string) :
  JS.dropEnd isHyphen (replaceRuns b (JS.dropEnd JS.isWhiteSpace s)) =
  JS.dropEnd isHyphen (replaceRuns b s).
Proof.
  revert b. induction s as [| c r IH]; intros b; simpl; [reflexivity |].
  destruct (JS.isWhiteSpace c) eqn:Hws; simpl.
  - rewrite (whitespace_not_alnum c Hws).
    destruct (JS.isEmpty (JS.dropEnd JS.isWhiteSpace r)) eqn:He; simpl.
    + destruct (JS.dropEnd JS.isWhiteSpace r) eqn:Hr; [| discriminate].
      specialize (IH true). simpl in IH.
      destruct b; simpl; rewrite <- IH; reflexivity.
    + rewrite (whitespace_not_alnum c Hws).
      destruct b; simpl; now rewrite IH.
  - destruct (JS.isLowerAlnum c); simpl; [now rewrite IH |].
    destruct b; simpl; now rewrite IH.
Qed.

Lemma stripHyphens_replaceRuns_trimEnd (b : bool) (s : string) :
  stripHyphens (replaceRuns b (JS.dropEnd JS.isWhiteSpace s)) =
  stripHyphens (replaceRuns b s).
Proof.
  unfold stripHyphens.
  revert b. induction s as [| c r IH]; intros b; simpl; [reflexivity |].
  destruct (JS.isLowerAlnum c) eqn:Hal.
  - assert (Hws : JS.isWhiteSpace c = false).
    { destruct (JS.isWhiteSpace c) eqn:Hws; [| reflexivity].
      apply whitespace_not_alnum in Hws. congruence. }
    rewrite Hws. simpl. rewrite Hal. simpl.
    rewrite (alnum_not_hyphen c Hal).
    pose proof (dropEnd_replaceRuns_trimEnd false r) as H.
    simpl. now rewrite H.
  - destruct (JS.isWhiteSpace c && JS.isEmpty (JS.dropEnd JS.isWhiteSpace r))
      eqn:Hdrop; simpl.
    + apply andb_true_iff in Hdrop as [_ He].
      destruct (JS.dropEnd JS.isWhiteSpace r) eqn:Hr; [| discriminate].
      specialize (IH true). simpl in IH.
      destruct b; simpl; rewrite <- IH; reflexivity.
    + rewrite Hal. destruct b; simpl; apply IH.
Qed.

(** [trim] changes nothing in the token. *)
Lemma normalize_without_trim (s : string) :
  stripHyphens (replaceRuns false (JS.trim (JS.toLowerCase s))) = specToken s.
Proof.
  unfold JS.trim, specToken.
  rewrite stripHyphens_replaceRuns_trimEnd. unfold stripHyphens.
  now rewrite dropStart_replaceRuns_trimStart.
Qed.

Lemma dropStart_head (p : ascii -> bool) (s : string) (c : ascii) (r : string) :
  JS.dropStart p s = String c r -> p c = false.
Proof.
  induction s as [| a s IH]; simpl; [discriminate |].
  destruct (p a) eqn:Hp; [exact IH |]. intros [= <- _]. exact Hp.
Qed.

Lemma stripHyphens_head (s : string) (c : ascii) (r : string) :
  stripHyphens s = String c r -> isHyphen c = false.
Proof.
  unfold stripHyphens.
  destruct (JS.dropStart isHyphen s) as [| a t] eqn:Hd; simpl; [discriminate |].
  apply dropStart_head in Hd.
  destruct (isHyphen a && _); [discriminate |].
  intros [= <- _]. exact Hd.
Qed.

Lemma compact_nonempty (s : string) :
  JS.isEmpty (specToken s) = false -> JS.isEmpty (specCompact s) = false.
Proof.
  unfold specCompact.
  destruct (specToken s) as [| c r] eqn:Ht; simpl; [congruence |].
  intros _. apply stripHyphens_head in Ht. now rewrite Ht.
Qed.

Lemma normalizeRepoToken_some (s : string) :
  JS.truthy (normalizeRepoToken (Some s)) = negb (JS.isEmpty (specToken s)) /\
  default EmptyString (normalizeRepoToken (Some s)) = specToken s.
Proof.
  unfold normalizeRepoToken. destruct s as [| c r]; [split; reflexivity |].
  cbn [JS.isEmpty]. rewrite normalize_without_trim. split; reflexivity.
Qed.

Lemma compactRepoToken_some (s : string) :
  JS.truthy (compactRepoToken (Some s)) = negb (JS.isEmpty (specToken s)) /\
  (JS.isEmpty (specToken s) = false ->
   default EmptyString (compactRepoToken (Some s)) = specCompact s).
Proof.
  unfold compactRepoToken, normalizeRepoToken.
  destruct s as [| c r]; [split; [reflexivity | discriminate] |].
  cbn [JS.isEmpty]. rewrite normalize_without_trim.
  destruct (JS.isEmpty (specToken (String c r))) eqn:He.
  - split; [reflexivity | discriminate].
  - split; [| reflexivity]. cbn [JS.truthy negb].
    fold (specCompact (String c r)). now rewrite compact_nonempty.
Qed.

Lemma existsb_eqb_app (x : string) (acc l : list string) :
  existsb (String.eqb x) (acc ++ l) =
  existsb (String.eqb x) acc || existsb (String.eqb x) l.
Proof. apply existsb_app. Qed.

Lemma filter_seen_member (x : string) (acc d : list string) :
  existsb (String.eqb x) acc = true ->
  List.filter (fun y => negb (existsb (String.eqb y) acc))
    (List.filter (fun y => negb (String.eqb y x)) d) =
  List.filter (fun y => negb (existsb (String.eqb y) acc)) d.
Proof.
  intros Hin. induction d as [| y t IHt]; simpl; [reflexivity |].
  destruct (String.eqb_spec y x) as [-> | Hne]; simpl.
  - rewrite Hin. simpl. exact IHt.
  - destruct (existsb (String.eqb y) acc); simpl; now rewrite IHt.
Qed.

Lemma filter_seen_snoc (x : string) (acc d : list string) :
  List.filter (fun y => negb (existsb (String.eqb y) (acc ++ [x]))) d =
  List.filter (fun y => negb (existsb (String.eqb y) acc))
    (List.filter (fun y => negb (String.eqb y x)) d).
Proof.
  induction d as [| y t IHt]; simpl; [reflexivity |].
  rewrite existsb_eqb_app. simpl. rewrite orb_false_r.
  destruct (String.eqb_spec y x) as [-> | Hne]; simpl.
  - rewrite orb_true_r. simpl. exact IHt.
  - rewrite orb_false_r.
    destruct (existsb (String.eqb y) acc); simpl; now rewrite IHt.
Qed.

Lemma fold_setAdd (l acc : list string) :
  fold_left setAdd l acc =
  acc ++ List.filter (fun y => negb (existsb (String.eqb y) acc)) (dedupFirst l).
Proof.
  revert acc. induction l as [| x r IH]; intros acc; simpl.
  - now rewrite app_nil_r.
  - unfold setAdd at 2. destruct (existsb (String.eqb x) acc) eqn:Hin; simpl.
    + now rewrite IH, filter_seen_member.
    + now rewrite IH, <- app_assoc, filter_seen_snoc.
Qed.

Lemma newSet_dedupFirst (l : list string) : newSet l = dedupFirst l.
Proof.
  unfold newSet. rewrite fold_setAdd. simpl.
  induction (dedupFirst l) as [| y t IH]; simpl; congruence.
Qed.

Lemma dedupFirst_NoDup (l : list string) : NoDup (dedupFirst l).
Proof.
  induction l as [| x r IH]; simpl; constructor.
  - rewrite list_elem_of_In, filter_In, String.eqb_refl. simpl. intros [_ H].
    discriminate.
  - apply NoDup_ListNoDup, List.NoDup_filter, NoDup_ListNoDup, IH.
Qed.

Lemma owner_path_nonempty (owner rest : string) :
  JS.isEmpty (owner +:+ String "/" rest) = false.
Proof. destruct owner; reflexivity. Qed.

Lemma pattern_token (owner prefix s : string) :
  pattern owner prefix (normalizeRepoToken (Some s)) =
  if JS.isEmpty (specToken s) then None
  else Some (owner +:+ "/" +:+ prefix +:+ specToken s).
Proof.
  unfold pattern. destruct (normalizeRepoToken_some s) as [-> ->].
  now destruct (JS.isEmpty (specToken s)).
Qed.

Lemma pattern_compact (owner prefix s : string) :
  pattern owner prefix (compactRepoToken (Some s)) =
  if JS.isEmpty (specToken s) then None
  else Some (owner +:+ "/" +:+ prefix +:+ specCompact s).
Proof.
  unfold pattern. destruct (compactRepoToken_some s) as [-> Hd].
  destruct (JS.isEmpty (specToken s)); cbn [negb]; [reflexivity |].
  now rewrite Hd.
Qed.

Lemma filterBoolean_cons_some (owner rest : string) (l : list (option string)) :
  filterBoolean (Some (owner +:+ "/" +:+ rest) :: l) =
  (owner +:+ "/" +:+ rest) :: filterBoolean l.
Proof.
  unfold filterBoolean. cbn [omap list_omap JS.truthy].
  change ("/" +:+ rest) with (String "/" rest).
  now rewrite owner_path_nonempty.
Qed.

Lemma filterBoolean_cons_none (l : list (option string)) :
  filterBoolean (None :: l) = filterBoolean l.
Proof. reflexivity. Qed.

Lemma candidates_some (owner id name : string) :
  patternCandidates owner id (Some name) = specCandidatesNonEmpty owner id name.
Proof.
  unfold patternCandidates, specCandidatesNonEmpty.
  rewrite newSet_dedupFirst. f_equal.
  rewrite !pattern_token, !pattern_compact.
  unfold whenNonEmpty, idPatterns, namePatterns, pluginPattern.
  destruct (JS.isEmpty (specToken id)), (JS.isEmpty (specToken name));
    rewrite ?filterBoolean_cons_some, ?filterBoolean_cons_none,
      ?filterBoolean_cons_some, ?filterBoolean_cons_none; reflexivity.
Qed.

Lemma candidates_none (owner id : string) :
  patternCandidates owner id None =
  dedupFirst (whenNonEmpty (specToken id)
                (idPatterns owner id ++ pluginPattern owner id)).
Proof.
  unfold patternCandidates. rewrite newSet_dedupFirst. f_equal.
  rewrite !pattern_token, !pattern_compact.
  unfold whenNonEmpty, idPatterns, pluginPattern.
  destruct (JS.isEmpty (specToken id));
    rewrite ?filterBoolean_cons_some, ?filterBoolean_cons_none,
      ?filterBoolean_cons_some, ?filterBoolean_cons_none; reflexivity.
Qed.

End RepoFacts.

(** C1.  [compareVersions] is the component-wise comparison of the
    specification: the text from the first hyphen on is dropped, the rest
    is split on '.', each component goes through [parseInt] with NaN read
    as 0, the two sequences are compared up to the longer length with
    missing components read as 0.  It is total, its result is -1, 0 or 1,
    the three sample comparisons come out as specified, swapping the
    arguments negates the result, and the induced order is transitive. *)
Theorem compareVersions_spec :
  (forall a b, Version.compareVersions a b = Version.compareSpec a b) /\
  (forall a b, Version.compareVersions a b = (-1)%Z \/
               Version.compareVersions a b = 0%Z \/
               Version.compareVersions a b = 1%Z) /\
  (forall v suffix,
      JS.includes v "-" = false ->
      Version.normalize (v ++ String "-" suffix) = Version.normalize v) /\
  Version.normalize "1..x.3" = [1; 0; 0; 3]%Z /\
  Version.compareVersions "1.2.0" "1.2" = 0%Z /\
  Version.compareVersions "1.0.0-beta" "1.0.0" = 0%Z /\
  Version.compareVersions "2.0" "1.9.9" = 1%Z /\
  (forall a b, Version.compareVersions b a = (- Version.compareVersions a b)%Z) /\
  (forall a b c,
      (Version.compareVersions a b <= 0)%Z ->
      (Version.compareVersions b c <= 0)%Z ->
      (Version.compareVersions a c <= 0)%Z) /\
  (forall a b c,
      (Version.compareVersions a b < 0)%Z ->
      (Version.compareVersions b c <= 0)%Z ->
      (Version.compareVersions a c < 0)%Z) /\
  (forall a b c,
      (Version.compareVersions a b <= 0)%Z ->
      (Version.compareVersions b c < 0)%Z ->
      (Version.compareVersions a c < 0)%Z).
Proof.
  assert (Htr : forall a b c,
    let m := Nat.max (length (Version.normalize a))
               (Nat.max (length (Version.normalize b))
                        (length (Version.normalize c))) in
    Version.compareVersions a b =
      Version.compareLoop (Version.normalize a) (Version.normalize b) 0 m /\
    Version.compareVersions b c =
      Version.compareLoop (Version.normalize b) (Version.normalize c) 0 m /\
    Version.compareVersions a c =
      Version.compareLoop (Version.normalize a) (Version.normalize c) 0 m).
  { intros a b c m. repeat split; apply compareVersions_at; lia. }
  repeat apply conj.
  - intros a b. unfold Version.compareVersions, Version.compareSpec.
    set (xs := Version.normalize a). set (ys := Version.normalize b).
    set (n := Nat.max _ _).
    rewrite <- (compareLoop_ext xs ys (Version.padTo n xs) (Version.padTo n ys))
      by (intros j; apply nth_padTo).
    rewrite <- compareLoop_components;
      rewrite !length_padTo by lia; reflexivity.
  - intros a b. apply compareLoop_range.
  - intros v suffix H. unfold Version.normalize.
    rewrite split_head_no_sep by exact H.
    now rewrite split_head_whole.
  - vm_compute. reflexivity.
  - vm_compute. reflexivity.
  - vm_compute. reflexivity.
  - vm_compute. reflexivity.
  - intros a b. unfold Version.compareVersions.
    rewrite Nat.max_comm. apply compareLoop_antisym.
  - intros a b c. destruct (Htr a b c) as (-> & -> & ->).
    apply compareLoop_trans.
  - intros a b c. destruct (Htr a b c) as (-> & -> & ->).
    apply compareLoop_trans.
  - intros a b c. destruct (Htr a b c) as (-> & -> & ->).
    apply compareLoop_trans.
Qed.

(** C1 at work on sample versions. *)
Lemma compareVersions_witness :
  Version.normalize "1.0.0-beta.2" = Version.normalize "1.0.0" /\
  (Version.compareVersions "1.0" "2.0" <= 0)%Z /\
  (Version.compareVersions "1.0" "1.2.1" < 0)%Z /\
  (Version.compareVersions "1.2" "2.0" < 0)%Z.
Proof.
  destruct compareVersions_spec
    as (_ & _ & Hstrip & _ & _ & _ & _ & _ & Hle & Hlt1 & Hlt2).
  assert (E1 : Version.compareVersions "1.0" "1.2" = (-1)%Z) by (vm_compute; reflexivity).
  assert (E2 : Version.compareVersions "1.2" "2.0" = (-1)%Z) by (vm_compute; reflexivity).
  assert (E3 : Version.compareVersions "1.2" "1.2.1" = (-1)%Z) by (vm_compute; reflexivity).
  assert (E4 : Version.compareVersions "1.2" "1.2.0" = 0%Z) by (vm_compute; reflexivity).
  split; [apply (Hstrip "1.0.0" "beta.2"); reflexivity |].
  split; [apply (Hle "1.0" "1.2" "2.0"); rewrite ?E1, ?E2; lia |].
  split; [apply (Hlt1 "1.0" "1.2" "1.2.1"); rewrite ?E1, ?E3; lia |].
  assert (E5 : Version.compareVersions "1.2.0" "2.0" = (-1)%Z) by (vm_compute; reflexivity).
  apply (Hlt2 "1.2" "1.2.0" "2.0"); rewrite ?E4, ?E5; lia.
Defined.

(** C3 (as the code has it).  For every owner, package id and manifest
    name the candidate list of [findRepoByKnownPatterns] is the list
    owner/obsidian-<id>, owner/<id>, owner/<compact-id>,
    owner/obsidian-<name>, owner/<name>, owner/<compact-name>,
    owner/obsidian-plugin-<id> in this order, without the patterns whose
    token is empty, duplicates removed with the first occurrence kept.  A
    token is the lowercased text with each run of characters outside a-z0-9
    replaced by one hyphen and the hyphens at both ends stripped; the compact
    token has no hyphen at all.  When both tokens are non-empty this is the
    full list of seven patterns, and for owner acme and id quick-add the list
    starts acme/obsidian-quick-add, acme/quick-add, acme/quickadd. *)
Theorem patternCandidates_spec :
  (forall s, JS.isEmpty s = false ->
     Repo.normalizeRepoToken (Some s) = Some (Repo.specToken s)) /\
  (forall s, JS.isEmpty (Repo.specToken s) = false ->
     Repo.compactRepoToken (Some s) = Some (Repo.specCompact s)) /\
  (forall owner id name,
     Repo.patternCandidates owner id (Some name) =
     Repo.specCandidatesNonEmpty owner id name) /\
  (forall owner id name,
     JS.isEmpty (Repo.specToken id) = false ->
     JS.isEmpty (Repo.specToken name) = false ->
     Repo.patternCandidates owner id (Some name) =
     Repo.specCandidates owner id name) /\
  (forall owner id name, NoDup (Repo.patternCandidates owner id name)) /\
  (forall name, exists rest,
     Repo.patternCandidates "acme" "quick-add" name =
     "acme/obsidian-quick-add" :: "acme/quick-add" :: "acme/quickadd" :: rest).
Proof.
  repeat apply conj.
  - intros s Hs. unfold Repo.normalizeRepoToken. rewrite Hs.
    now rewrite normalize_without_trim.
  - intros s Hs. unfold Repo.compactRepoToken, Repo.normalizeRepoToken.
    destruct s as [| c r]; [discriminate |]. cbn [JS.isEmpty].
    rewrite normalize_without_trim, Hs. reflexivity.
  - apply candidates_some.
  - intros owner id name Hi Hn. rewrite candidates_some.
    unfold Repo.specCandidatesNonEmpty, Repo.specCandidates, Repo.whenNonEmpty.
    now rewrite Hi, Hn.
  - intros owner id name. unfold Repo.patternCandidates.
    rewrite newSet_dedupFirst. apply dedupFirst_NoDup.
  - intros [name |].
    + rewrite candidates_some. unfold Repo.specCandidatesNonEmpty.
      replace (Repo.specToken "quick-add") with "quick-add"%string
        by (vm_compute; reflexivity).
      cbn [Repo.whenNonEmpty JS.isEmpty].
      replace (Repo.idPatterns "acme" "quick-add") with
        ["acme/obsidian-quick-add"; "acme/quick-add"; "acme/quickadd"]%string
        by (vm_compute; reflexivity).
      simpl. eexists. reflexivity.
    + vm_compute. eexists. reflexivity.
Qed.

(** C3 at work: id and name with non-empty tokens give all seven patterns. *)
Lemma patternCandidates_witness :
  Repo.normalizeRepoToken (Some "  Quick--Add! ") = Some "quick-add"%string /\
  Repo.compactRepoToken (Some "Quick Add") = Some "quickadd"%string /\
  Repo.patternCandidates "acme" "quick-add" (Some "Quick Adder") =
    ["acme/obsidian-quick-add"; "acme/quick-add"; "acme/quickadd";
     "acme/obsidian-quick-adder"; "acme/quick-adder"; "acme/quickadder";
     "acme/obsidian-plugin-quick-add"].
Proof.
  destruct patternCandidates_spec as (Htoken & Hcompact & _ & Hall & _).
  split; [rewrite (Htoken "  Quick--Add! " eq_refl); vm_compute; reflexivity |].
  split; [rewrite (Hcompact "Quick Add" eq_refl); vm_compute; reflexivity |].
  rewrite (Hall "acme" "quick-add" "Quick Adder" eq_refl eq_refl).
  vm_compute. reflexivity.
Defined.

(** The list of seven patterns of C3 is not what the code builds when a
    token is empty: for the manifest name "***" the code leaves the three
    name patterns out. *)
Lemma patternCandidates_counterexample :
  Repo.patternCandidates "acme" "quick-add" (Some "***") =
    ["acme/obsidian-quick-add"; "acme/quick-add"; "acme/quickadd";
     "acme/obsidian-plugin-quick-add"] /\
  Repo.specCandidates "acme" "quick-add" "***" =
    ["acme/obsidian-quick-add"; "acme/quick-add"; "acme/quickadd";
     "acme/obsidian-"; "acme/"; "acme/obsidian-plugin-quick-add"] /\
  Repo.patternCandidates "acme" "quick-add" (Some "***") <>
  Repo.specCandidates "acme" "quick-add" "***".
Proof. vm_compute. repeat split; discriminate. Qed.

Section ForumFacts.

Import Host ForumService.

Lemma filter_filter_bool {A} (f g : A -> bool) (l : list A) :
  List.filter f (List.filter g l) = List.filter (fun x => g x && f x) l.
Proof.
  induction l as [| x l IH]; simpl; [reflexivity |].
  destruct (g x); simpl; [destruct (f x) |]; now rewrite IH.
Qed.

Lemma uniqueLoop_spec (allItems : list ForumTopic) (seenIds : gset Z)
    (uniqueItems : list ForumResult) :
  uniqueLoop seenIds uniqueItems allItems =
  uniqueItems ++
  List.filter (fun y => bool_decide (fr_id y ∉ seenIds))
              (firstById (map toResult allItems)).
Proof.
  revert seenIds uniqueItems.
  induction allItems as [| item rest IH]; intros seenIds uniqueItems; simpl.
  - now rewrite app_nil_r.
  - destruct (decide (topic_id item ∈ seenIds)) as [Hin | Hnin].
    + rewrite IH, bool_decide_eq_false_2 by (intros H; apply H, Hin).
      f_equal. rewrite filter_filter_bool. apply List.filter_ext.
      intros y. destruct (Z.eqb_spec (fr_id y) (topic_id item)) as [Heq | Hne];
        simpl; [| reflexivity].
      apply bool_decide_eq_false_2. rewrite Heq. intros H; apply H, Hin.
    + rewrite IH, bool_decide_eq_true_2 by exact Hnin.
      rewrite <- app_assoc. simpl. f_equal. f_equal.
      rewrite filter_filter_bool. apply List.filter_ext.
      intros y. destruct (Z.eqb_spec (fr_id y) (topic_id item)) as [Heq | Hne]; simpl.
      * apply bool_decide_eq_false_2. rewrite Heq.
        intros H. apply H, elem_of_union_l, elem_of_singleton. reflexivity.
      * apply bool_decide_ext. rewrite not_elem_of_union, not_elem_of_singleton.
        tauto.
Qed.




Lemma filter_unseen_empty (l : list ForumResult) :
  List.filter (fun y => bool_decide (fr_id y ∉ (∅ : gset Z))) l = l.
Proof.
  induction l as [| y t IHt]; cbn [List.filter]; [reflexivity |].
  rewrite bool_decide_eq_true_2 by set_solver. now rewrite IHt.
Qed.

Lemma search_run (w : World) (query : string) (st : State) :
  search w query st =
  match forum_search w (trace st) (searchQueryOf query) with
  | Ok data =>
      (Ok (firstById (map toResult
             (default [] (topics data) ++ map postTopic (default [] (posts data))))),
       {| trace := trace st ++ [ForumSearch (searchQueryOf query)];
          settings := settings st |})
  | Throw e =>
      (Ok [],
       {| trace := (trace st ++ [ForumSearch (searchQueryOf query)]) ++
                   [ConsoleError "Forum search failed" e];
          settings := settings st |})
  end.
Proof.
  unfold search, tryCatch, bind, call, ret.
  destruct (forum_search w (trace st) (searchQueryOf query)) as [data | e]; simpl.
  - rewrite uniqueLoop_spec. simpl. now rewrite filter_unseen_empty.
  - reflexivity.
Qed.

End ForumFacts.



Section ArchiveFacts.

Import Host CommunityArchiveService.

Lemma startsWith_iff (p s : string) :
  JS.startsWith p s = true <-> exists post, s = p +:+ post.
Proof.
  revert s. induction p as [| a p IH]; intros s; simpl.
  - split; [intros _; now exists s | reflexivity].
  - destruct s as [| b s]; simpl.
    + split; [discriminate | intros [post H]; discriminate].
    + rewrite andb_true_iff, IH. split.
      * intros [Hab [post ->]]. apply Ascii.eqb_eq in Hab as ->. now exists post.
      * intros [post [= -> ->]]. split; [apply Ascii.eqb_refl | now exists post].
Qed.

Lemma includes_iff (s needle : string) :
  JS.includes s needle = true <-> Substring needle s.
Proof.
  unfold Substring. split.
  - induction s as [| c r IH]; simpl; rewrite orb_true_iff.
    + intros [H | H]; [| discriminate].
      apply startsWith_iff in H as [post ->]. now exists EmptyString, post.
    + intros [H | H].
      * apply startsWith_iff in H as [post ->]. now exists EmptyString, post.
      * destruct (IH H) as (pre & post & ->). now exists (String c pre), post.
  - intros (pre & post & ->). induction pre as [| c pre IH].
    + assert (H : JS.startsWith needle (needle +:+ post) = true)
        by (apply startsWith_iff; now exists post).
      simpl. destruct (needle +:+ post); simpl in *; now rewrite H.
    + simpl. rewrite IH. apply orb_true_r.
Qed.

Lemma endsWithChar_snoc (c : ascii) (p : string) :
  JS.endsWithChar c (p +:+ String c EmptyString) = true.
Proof.
  induction p as [| a p IH]; simpl; [apply Ascii.eqb_refl |].
  destruct (p +:+ String c EmptyString) eqn:He; [| exact IH].
  destruct p; discriminate.
Qed.

Lemma dropLast_snoc (c : ascii) (p : string) :
  JS.dropLast (p +:+ String c EmptyString) = p.
Proof.
  induction p as [| a p IH]; simpl; [reflexivity |].
  destruct (p +:+ String c EmptyString) eqn:He; [destruct p; discriminate |].
  now rewrite IH.
Qed.

Lemma length_snoc (c : ascii) (p : string) :
  String.length (p +:+ String c EmptyString) = S (String.length p).
Proof. induction p as [| a p IH]; simpl; congruence. Qed.

Lemma matchesQuery_entry (query : string) (e : ArchiveEntry) :
  matchesQuery (JS.trim (JS.toLowerCase query)) (entryJson e) =
  Ok (specMatchesNameDescription query (entry_name e) (entry_author e)
        (entry_description e) (entry_id e)).
Proof.
  unfold matchesQuery, specMatchesNameDescription. simpl.
  destruct (JS.isEmpty _); [reflexivity |].
  destruct (String.eqb _ "plugin"); [reflexivity |].
  destruct (String.eqb _ "plugins"); [reflexivity |]. simpl. f_equal.
  repeat match goal with
         | |- context [JS.includes ?a ?b] => destruct (JS.includes a b)
         end; reflexivity.
Qed.

Lemma filterOutcome_entries (query : string) (entries : list ArchiveEntry) :
  filterOutcome (matchesQuery (JS.trim (JS.toLowerCase query))) (map entryJson entries) =
  Ok (map entryJson
        (List.filter
           (fun e => specMatchesNameDescription query (entry_name e) (entry_author e)
                       (entry_description e) (entry_id e))
           entries)).
Proof.
  induction entries as [| e r IH]; simpl; [reflexivity |].
  rewrite matchesQuery_entry, IH.
  now destruct (specMatchesNameDescription _ _ _ _ _).
Qed.

Lemma mapOutcome_entries (entries : list ArchiveEntry) :
  mapOutcome toRepo (map entryJson entries) = Ok (map entryRepo entries).
Proof.
  induction entries as [| e r IH]; simpl; [reflexivity |]. now rewrite IH.
Qed.

End ArchiveFacts.

(** C9 (as the code has it).  When the list is fetched, the Archive Matcher
    returns, in the order of the list, exactly the entries for which the
    trimmed lowercase query is empty, is "plugin" or "plugins", occurs in
    the lowercased name, author, description or id, or whose singular form
    (the query without its final "s" when it is longer than 3 characters)
    occurs in the lowercased name or description. *)
Theorem archive_search_spec (w : Host.World) (query : string) (st : Host.State)
    (entries : list CommunityArchiveService.ArchiveEntry) :
  Host.official_list w (Host.trace st) =
    Host.Ok (Some (map CommunityArchiveService.entryJson entries)) ->
  let q := JS.trim (JS.toLowerCase query) in
  let matched e :=
    CommunityArchiveService.specMatchesNameDescription query
      (CommunityArchiveService.entry_name e) (CommunityArchiveService.entry_author e)
      (CommunityArchiveService.entry_description e) (CommunityArchiveService.entry_id e) in
  fst (CommunityArchiveService.search w query st) =
    Host.Ok (map CommunityArchiveService.entryRepo (List.filter matched entries)) /\
  (forall e,
     matched e = true <->
     q = EmptyString \/ q = "plugin" \/ q = "plugins" \/
     (exists field,
        In field [CommunityArchiveService.entry_name e;
                  CommunityArchiveService.entry_author e;
                  CommunityArchiveService.entry_description e;
                  CommunityArchiveService.entry_id e] /\
        CommunityArchiveService.Substring q (JS.toLowerCase field)) \/
     (exists field,
        In field [CommunityArchiveService.entry_name e;
                  CommunityArchiveService.entry_description e] /\
        CommunityArchiveService.Substring
          (CommunityArchiveService.searchSingularOf q) (JS.toLowerCase field))) /\
  (forall p, (3 <= String.length p)%nat ->
     CommunityArchiveService.searchSingularOf (p +:+ "s") = p) /\
  (forall p, (String.length p <= 3)%nat \/ JS.endsWithChar "s" p = false ->
     CommunityArchiveService.searchSingularOf p = p).
Proof.
  intros Hlist q matched. repeat apply conj.
  - unfold CommunityArchiveService.search, Host.bind, Host.call,
      CommunityArchiveService.lift.
    rewrite Hlist. cbn [fst]. fold q.
    unfold q at 1. rewrite filterOutcome_entries.
    now rewrite mapOutcome_entries.
  - intros e. unfold matched, CommunityArchiveService.specMatchesNameDescription.
    fold q. rewrite !orb_true_iff, !existsb_exists.
    split.
    + intros [[[[H | H] | H] | H] | H].
      * left. now destruct q.
      * right; left. now apply String.eqb_eq.
      * right; right; left. now apply String.eqb_eq.
      * right; right; right; left. destruct H as (f & Hin & H).
        exists f. split; [exact Hin | now apply includes_iff].
      * right; right; right; right. destruct H as (f & Hin & H).
        exists f. split; [exact Hin | now apply includes_iff].
    + intros [H | [H | [H | [H | H]]]].
      * left; left; left; left. now rewrite H.
      * left; left; left; right. now apply String.eqb_eq.
      * left; left; right. now apply String.eqb_eq.
      * left; right. destruct H as (f & Hin & H).
        exists f. split; [exact Hin | now apply includes_iff].
      * right. destruct H as (f & Hin & H).
        exists f. split; [exact Hin | now apply includes_iff].
  - intros p Hp. unfold CommunityArchiveService.searchSingularOf.
    rewrite endsWithChar_snoc, dropLast_snoc, length_snoc.
    destruct (Nat.ltb_spec 3 (S (String.length p))); [reflexivity | lia].
  - intros p [Hp | Hp]; unfold CommunityArchiveService.searchSingularOf.
    + destruct (Nat.ltb_spec 3 (String.length p)); [lia | reflexivity].
    + rewrite Hp. now rewrite andb_false_r.
Qed.

(** C9 at work on an archive with one entry. *)
Lemma archive_search_witness :
  fst (CommunityArchiveService.search Scenario.archiveUp "Views" Scenario.start) =
    Host.Ok [CommunityArchiveService.entryRepo Scenario.dataview] /\
  CommunityArchiveService.searchSingularOf "views" = "view"%string.
Proof.
  pose proof (archive_search_spec Scenario.archiveUp "Views" Scenario.start
                [Scenario.dataview] eq_refl) as (H1 & _ & H3 & _).
  split; [exact H1 |]. apply (H3 "view"%string). simpl. lia.
Defined.

(** The matcher of C9, with the singular form tried on all four fields,
    accepts the entry with id "dataview" for the query "dataviews"; the
    code, which tries the singular form on name and description only,
    does not return it. *)
Lemma archive_search_counterexample :
  CommunityArchiveService.specMatches "dataviews"
    "Data View" "Michael Brenan" "Complex data views for the data-obsessed."
    "dataview" = true /\
  CommunityArchiveService.matchesQuery "dataviews"
    (CommunityArchiveService.entryJson Scenario.dataview) = Host.Ok false /\
  fst (CommunityArchiveService.search Scenario.archiveUp "dataviews" Scenario.start) =
    Host.Ok [].
Proof. vm_compute. repeat split. Qed.

Section DetectionFacts.

Import Host PluginHub Observe.
Variable w : World.

Lemma extend_nil (st : State) : extend st [] = st.
Proof. destruct st. unfold extend. simpl. now rewrite app_nil_r. Qed.

Lemma extend_extend (st : State) (a b : list Event) :
  extend (extend st a) b = extend st (a ++ b).
Proof. unfold extend. simpl. now rewrite app_assoc. Qed.

Lemma repoMatchesPluginId_run (fullName pluginId : string) (st : State) :
  exists b, repoMatchesPluginId w fullName pluginId st =
            (Ok b, extend st [GetRepoManifest fullName]).
Proof.
  unfold repoMatchesPluginId, tryCatch, bind, call, ret, extend.
  destruct (repo_manifest w (trace st) fullName); simpl; eauto.
Qed.

Lemma firstMatching_run (pluginId : string) (repos : list string) (st : State) :
  exists hit evs,
    firstMatching w pluginId repos st = (Ok hit, extend st evs) /\
    forallb isVerification evs = true /\
    (forall r, hit = Some r -> In r repos).
Proof.
  revert st. induction repos as [| repo rest IH]; intros st; simpl.
  - exists None, []. rewrite extend_nil. repeat split. discriminate.
  - unfold bind. destruct (repoMatchesPluginId_run repo pluginId st) as [b ->].
    destruct b.
    + exists (Some repo), [GetRepoManifest repo]. repeat split.
      intros r [= <-]. now left.
    + destruct (IH (extend st [GetRepoManifest repo])) as (hit & evs & -> & Hevs & Hin).
      exists hit, (GetRepoManifest repo :: evs). rewrite extend_extend.
      repeat split; [exact Hevs |]. intros r Hr. right. now apply Hin.
Qed.

Lemma searchPlugins_run (query sort : string) (st : State) :
  GithubService.searchPlugins w query sort st =
  (match search_repositories w (trace st) query sort with
   | Ok items => Ok (default [] items)
   | Throw e =>
       Throw (if decide (err_status e = Some 403%Z)
              then mkError "Request failed, status 403 (Rate Limit Exceeded)"
              else e)
   end,
   extend st [SearchRepositories query sort]).
Proof.
  unfold GithubService.searchPlugins, tryCatch, bind, call, ret, throw, extend.
  destruct (search_repositories w (trace st) query sort) as [items | e]; simpl;
    [reflexivity |].
  now destruct (decide (err_status e = Some 403%Z)).
Qed.

Lemma someRateLimited_app (tr : Trace) (a b : list Event) :
  someRateLimited w tr (a ++ b) =
  someRateLimited w tr a || someRateLimited w (tr ++ a) b.
Proof.
  revert tr. induction a as [| ev a IH]; intros tr; simpl.
  - now rewrite app_nil_r.
  - rewrite IH, <- app_assoc, orb_assoc. reflexivity.
Qed.

Lemma allRateLimited_app (tr : Trace) (a b : list Event) :
  allRateLimited w tr (a ++ b) =
  allRateLimited w tr a && allRateLimited w (tr ++ a) b.
Proof.
  revert tr. induction a as [| ev a IH]; intros tr; simpl.
  - now rewrite app_nil_r.
  - rewrite IH, <- app_assoc, andb_assoc. reflexivity.
Qed.

Lemma verification_no_search (tr : Trace) (evs : list Event) :
  forallb isVerification evs = true ->
  searchesIn evs = [] /\ someRateLimited w tr evs = false /\
  allRateLimited w tr evs = true /\ forallb isDetectionCall evs = true.
Proof.
  revert tr. induction evs as [| ev evs IH]; intros tr; simpl; [tauto |].
  intros H. apply andb_true_iff in H as [Hev H].
  destruct ev; try discriminate. simpl.
  destruct (IH (tr ++ [GetRepoManifest fullName]) H) as (? & ? & ? & ?). tauto.
Qed.

Lemma searchesIn_app (a b : list Event) :
  searchesIn (a ++ b) = searchesIn a ++ searchesIn b.
Proof. unfold searchesIn. apply omap_app. Qed.

Lemma is403_rewritten (e : Error) :
  JS.includes
    (err_message (if decide (err_status e = Some 403%Z)
                  then mkError "Request failed, status 403 (Rate Limit Exceeded)"
                  else e)) "403" = is403 e.
Proof.
  unfold is403. destruct (decide (err_status e = Some 403%Z)) as [H | H].
  - rewrite bool_decide_eq_true_2 by exact H. reflexivity.
  - rewrite bool_decide_eq_false_2 by exact H. reflexivity.
Qed.

(** The loop over the queries: it never throws; unless a repository is
    verified it issues every query, and its reason is the rate-limit one
    exactly when the flag was set or some search was answered with a
    rate-limit error. *)
Lemma searchLoop_run (pluginId : string) (queries : list string)
    (rateLimited : bool) (st : State) :
  exists d evs,
    searchLoop w pluginId queries rateLimited st = (Ok d, extend st evs) /\
    forallb isDetectionCall evs = true /\
    (det_repo d = None ->
       searchesIn evs = queries /\
       det_reason d =
         Some (if rateLimited || someRateLimited w (trace st) evs
               then rateLimitReason else noMatchReason)) /\
    (det_repo d <> None -> det_reason d = None).
Proof.
  revert rateLimited st.
  induction queries as [| query rest IH]; intros rateLimited st; simpl.
  - exists (if rateLimited
            then {| det_repo := None; det_reason := Some rateLimitReason |}
            else {| det_repo := None; det_reason := Some noMatchReason |}), [].
    rewrite extend_nil, orb_false_r. unfold ret.
    destruct rateLimited; simpl; repeat split; congruence.
  - unfold bind, tryCatch, ret. rewrite searchPlugins_run.
    set (st1 := extend st [SearchRepositories query "updated"]).
    destruct (search_repositories w (trace st) query "updated") as [items | e] eqn:Hs.
    + destruct (firstMatching_run pluginId (map full_name (take 12 (default [] items))) st1)
        as (hit & evs & -> & Hevs & _).
      destruct (verification_no_search (trace st1) evs Hevs) as (Hq & Hrl & _ & Hdet).
      destruct hit as [repo |].
      * exists {| det_repo := Some repo; det_reason := None |},
               (SearchRepositories query "updated" :: evs).
        unfold st1. rewrite extend_extend. simpl.
        repeat split; [exact Hdet | discriminate | discriminate].
      * destruct (IH rateLimited (extend st1 evs)) as (d & evs' & -> & Hdet' & Hnone & Hsome).
        exists d, (SearchRepositories query "updated" :: evs ++ evs').
        unfold st1. rewrite !extend_extend. simpl.
        split; [reflexivity |]. split.
        { rewrite forallb_app, Hdet, Hdet'. reflexivity. }
        split; [| exact Hsome].
        intros Hd. destruct (Hnone Hd) as [Hqs ->]. split.
        { rewrite searchesIn_app, Hq, Hqs. reflexivity. }
        rewrite Hs, someRateLimited_app. fold st1 in Hrl. simpl in Hrl.
        simpl. rewrite Hrl. simpl. unfold st1, extend. simpl.
        now rewrite <- app_assoc.
    + rewrite is403_rewritten.
      destruct (IH (if is403 e then true else rateLimited) st1)
        as (d & evs' & -> & Hdet' & Hnone & Hsome).
      exists d, (SearchRepositories query "updated" :: evs').
      unfold st1. rewrite !extend_extend. simpl.
      split; [reflexivity |]. split; [exact Hdet' |].
      split; [| exact Hsome].
      intros Hd. destruct (Hnone Hd) as [Hqs ->]. split.
      { now rewrite Hqs. }
      rewrite Hs. unfold st1, extend. simpl.
      destruct (is403 e), rateLimited; reflexivity.
Qed.

(** A query that throws is followed by the remaining queries. *)
Lemma searchLoop_continues (pluginId query : string) (rest : list string)
    (rateLimited : bool) (st : State) (e : Error) :
  search_repositories w (trace st) query "updated" = Throw e ->
  searchLoop w pluginId (query :: rest) rateLimited st =
  searchLoop w pluginId rest (if is403 e then true else rateLimited)
    (extend st [SearchRepositories query "updated"]).
Proof.
  intros Hs. simpl. unfold bind, tryCatch, ret. rewrite searchPlugins_run, Hs.
  now rewrite is403_rewritten.
Qed.

Lemma allRateLimited_some (tr : Trace) (evs : list Event) :
  searchesIn evs <> [] -> allRateLimited w tr evs = true ->
  someRateLimited w tr evs = true.
Proof.
  revert tr. induction evs as [| ev evs IH]; intros tr; simpl; [congruence |].
  intros Hq Hall. apply andb_true_iff in Hall as [Hev Hall].
  destruct ev; simpl in *; try (apply IH; assumption).
  now rewrite Hev.
Qed.

Lemma searchQueries_nonempty (owner : option string) (pluginId : string) :
  searchQueries owner pluginId <> [].
Proof. destruct owner; discriminate. Qed.

Lemma findRepoByKnownPatterns_run (pluginId : string) (manifest : Manifest) (st : State) :
  exists hit evs,
    findRepoByKnownPatterns w pluginId manifest st = (Ok hit, extend st evs) /\
    forallb isVerification evs = true.
Proof.
  unfold findRepoByKnownPatterns.
  destruct (Repo.parseGithubOwnerFromAuthorUrl _) as [owner |].
  - destruct (firstMatching_run pluginId
                (Repo.patternCandidates owner pluginId (manifest_name manifest)) st)
      as (hit & evs & -> & Hevs & _). eauto.
  - exists None, []. now rewrite extend_nil.
Qed.

End DetectionFacts.

(** The whole of repository detection, by tier. *)
Lemma findRepoByManifestId_run (w : Host.World) (pluginId : string)
    (manifest : Host.Manifest) (st : Host.State) :
  exists d evs,
    PluginHub.findRepoByManifestId w pluginId manifest st =
      (Host.Ok d, Host.extend st evs) /\
    forallb Observe.isDetectionCall evs = true /\
    (PluginHub.det_repo d = None ->
       Observe.searchesIn evs =
         PluginHub.searchQueries
           (Repo.parseGithubOwnerFromAuthorUrl (Host.manifest_authorUrl manifest))
           pluginId /\
       PluginHub.det_reason d =
         Some (if Observe.someRateLimited w (Host.trace st) evs
               then PluginHub.rateLimitReason else PluginHub.noMatchReason)) /\
    (PluginHub.det_repo d = None ->
     Observe.allRateLimited w (Host.trace st) evs = true ->
     PluginHub.det_reason d = Some PluginHub.rateLimitReason) /\
    (PluginHub.det_repo d <> None -> PluginHub.det_reason d = None) /\
    PluginHub.rateLimitReason <> PluginHub.noMatchReason.
Proof.
  unfold PluginHub.findRepoByManifestId, Host.bind.
  destruct (findRepoByKnownPatterns_run w pluginId manifest st)
    as (hit & evs0 & -> & Hevs0).
  destruct (verification_no_search w (Host.trace st) evs0 Hevs0)
    as (Hq0 & Hrl0 & Hall0 & Hdet0).
  destruct (JS.truthy hit) eqn:Hhit.
  - exists {| PluginHub.det_repo := hit; PluginHub.det_reason := None |}, evs0.
    destruct hit as [r |]; [| discriminate]. unfold Host.ret. simpl.
    repeat split; try discriminate. exact Hdet0.
  - destruct (searchLoop_run w pluginId
                (PluginHub.searchQueries
                   (Repo.parseGithubOwnerFromAuthorUrl (Host.manifest_authorUrl manifest))
                   pluginId) false (Host.extend st evs0))
      as (d & evs & -> & Hdet & Hnone & Hsome).
    exists d, (evs0 ++ evs). rewrite extend_extend.
    assert (Hreason : PluginHub.det_repo d = None ->
      Observe.searchesIn (evs0 ++ evs) =
        PluginHub.searchQueries
          (Repo.parseGithubOwnerFromAuthorUrl (Host.manifest_authorUrl manifest))
          pluginId /\
      PluginHub.det_reason d =
        Some (if Observe.someRateLimited w (Host.trace st) (evs0 ++ evs)
              then PluginHub.rateLimitReason else PluginHub.noMatchReason)).
    { intros Hd. destruct (Hnone Hd) as [Hqs Hr]. split.
      - now rewrite searchesIn_app, Hq0, Hqs.
      - rewrite someRateLimited_app, Hrl0. exact Hr. }
    split; [reflexivity |].
    split; [now rewrite forallb_app, Hdet0, Hdet |].
    split; [exact Hreason |].
    split; [| split; [exact Hsome | discriminate]].
    intros Hd Hall. destruct (Hreason Hd) as [Hqs ->].
    rewrite allRateLimited_some; [reflexivity | | exact Hall].
    rewrite Hqs. apply searchQueries_nonempty.
Qed.

(** C8 (as the code has it).  A query of the fallback tier that throws is
    followed by the remaining queries, and repository detection never
    throws.  When no repository is verified, every query of the tier has
    been issued, whatever the answers to the earlier ones, and the failure
    reason is the rate-limit reason exactly when some query was answered
    with a 403 error, and "no match found" otherwise; so it is the
    rate-limit reason when every query was answered with a 403 error.  The
    two reasons differ. *)
Theorem findRepoByManifestId_spec (w : Host.World) (pluginId : string)
    (manifest : Host.Manifest) (st : Host.State) :
  (forall query rest rateLimited st0 e,
     Host.search_repositories w (Host.trace st0) query "updated" = Host.Throw e ->
     PluginHub.searchLoop w pluginId (query :: rest) rateLimited st0 =
     PluginHub.searchLoop w pluginId rest
       (if Observe.is403 e then true else rateLimited)
       (Host.extend st0 [Host.SearchRepositories query "updated"])) /\
  exists d evs,
    PluginHub.findRepoByManifestId w pluginId manifest st =
      (Host.Ok d, Host.extend st evs) /\
    forallb Observe.isDetectionCall evs = true /\
    (PluginHub.det_repo d = None ->
       Observe.searchesIn evs =
         PluginHub.searchQueries
           (Repo.parseGithubOwnerFromAuthorUrl (Host.manifest_authorUrl manifest))
           pluginId /\
       PluginHub.det_reason d =
         Some (if Observe.someRateLimited w (Host.trace st) evs
               then PluginHub.rateLimitReason else PluginHub.noMatchReason)) /\
    (PluginHub.det_repo d = None ->
     Observe.allRateLimited w (Host.trace st) evs = true ->
     PluginHub.det_reason d = Some PluginHub.rateLimitReason) /\
    (PluginHub.det_repo d <> None -> PluginHub.det_reason d = None) /\
    PluginHub.rateLimitReason <> PluginHub.noMatchReason.
Proof.
  split.
  - intros query rest rateLimited st0 e. apply searchLoop_continues.
  - apply findRepoByManifestId_run.
Qed.

(** C8 at work: every query rate-limited. *)
Lemma findRepoByManifestId_witness :
  exists d,
    fst (PluginHub.findRepoByManifestId Scenario.allSearchesRateLimited
           "my-plugin" Scenario.myPluginManifest Scenario.start) = Host.Ok d /\
    PluginHub.det_repo d = None /\
    PluginHub.det_reason d = Some PluginHub.rateLimitReason.
Proof.
  destruct (findRepoByManifestId_spec Scenario.allSearchesRateLimited
              "my-plugin" Scenario.myPluginManifest Scenario.start)
    as (_ & d & evs & Hrun & _ & _ & Hall & _).
  exists d. rewrite Hrun. split; [reflexivity |].
  assert (Hc : PluginHub.findRepoByManifestId Scenario.allSearchesRateLimited
                 "my-plugin" Scenario.myPluginManifest Scenario.start =
               (Host.Ok {| PluginHub.det_repo := None;
                           PluginHub.det_reason := Some PluginHub.rateLimitReason |},
                Host.extend Scenario.start
                  (map (fun q => Host.SearchRepositories q "updated")
                       (PluginHub.searchQueries None "my-plugin"))))
    by (vm_compute; reflexivity).
  rewrite Hc in Hrun. injection Hrun as <- Hevs. simpl in Hevs. subst evs.
  split; [reflexivity |]. apply Hall; [reflexivity |]. vm_compute. reflexivity.
Defined.

(** In this run the first query is answered with status 403, the second
    completes and finds nothing, no candidate is verified, and the reason
    returned is the rate-limit one, not "no match found". *)
Lemma findRepoByManifestId_counterexample :
  let run := PluginHub.findRepoByManifestId Scenario.oneRateLimited
               "my-plugin" Scenario.myPluginManifest Scenario.start in
  fst run = Host.Ok {| PluginHub.det_repo := None;
                       PluginHub.det_reason := Some PluginHub.rateLimitReason |} /\
  Host.trace (snd run) =
    [Host.SearchRepositories "obsidian my-plugin in:name" "updated";
     Host.SearchRepositories
       (String PluginHub.doubleQuote
          ("my-plugin" +:+ String PluginHub.doubleQuote " obsidian plugin"))
       "updated"] /\
  Host.search_repositories Scenario.oneRateLimited
    [Host.SearchRepositories "obsidian my-plugin in:name" "updated"]
    (String PluginHub.doubleQuote
       ("my-plugin" +:+ String PluginHub.doubleQuote " obsidian plugin"))
    "updated" = Host.Ok (Some []) /\
  PluginHub.rateLimitReason <> PluginHub.noMatchReason.
Proof. vm_compute. repeat split. discriminate. Qed.

Section UpdateFacts.

Import Host PluginHub Observe.
Variable w : World.

Lemma getInstalled_run (pluginId : string) (st : State) :
  exists m evs,
    getInstalledPluginManifestFromDisk w pluginId st = (Ok m, extend st evs) /\
    quiet evs = true.
Proof.
  unfold getInstalledPluginManifestFromDisk, tryCatch, bind, call, ret.
  set (path := configDir w +:+ "/plugins/" +:+ pluginId +:+ "/manifest.json").
  destruct (adapter_exists w (trace st) path) as [[|] | e]; simpl.
  - destruct (adapter_read_json w _ path) as [m | e]; simpl.
    + exists m, [AdapterExists path; AdapterRead path].
      unfold extend. simpl. now rewrite <- app_assoc.
    + exists None, [AdapterExists path; AdapterRead path].
      unfold extend. simpl. now rewrite <- app_assoc.
  - exists None, [AdapterExists path]. split; reflexivity.
  - exists None, [AdapterExists path]. split; reflexivity.
Qed.

Lemma getLatest_run (fullName : RepoValue) (st : State) :
  exists out evs,
    getLatestManifestVersionFromRepo w fullName st = (out, extend st evs) /\
    quiet evs = true.
Proof.
  unfold getLatestManifestVersionFromRepo, GithubService.getLatestRelease,
    bind, call, ret. cbv zeta.
  set (name := repoText w fullName).
  destruct (latest_release w (trace st) name) as [release | e]; simpl.
  - destruct (findAsset "manifest.json" (default [] (assets release))) as [asset |].
    + destruct (JS.isEmpty (browser_download_url asset)).
      * eexists _, [GetLatestRelease name]. split; reflexivity.
      * destruct (download w _ (browser_download_url asset)) as [resp | e]; simpl.
        -- eexists _, [GetLatestRelease name; Download (browser_download_url asset)].
           unfold extend. simpl. now rewrite <- app_assoc.
        -- eexists _, [GetLatestRelease name; Download (browser_download_url asset)].
           unfold extend. simpl. now rewrite <- app_assoc.
    + eexists _, [GetLatestRelease name]. split; reflexivity.
  - eexists _, [GetLatestRelease name]. split; reflexivity.
Qed.

Lemma present_name (o : option string) : present (Name <$> o) = JS.truthy o.
Proof. now destruct o. Qed.

Lemma resolveRepo_known (repoById : gmap string string) (pluginId : string)
    (manifest : Manifest) (st : State) :
  present (Name <$> repoById !! pluginId) = true ->
  exists reason,
    resolveRepo w repoById pluginId manifest st =
    (Ok (Name <$> repoById !! pluginId, official, reason, false), st).
Proof.
  intros Hk. unfold resolveRepo, bind, getSettings, ret. rewrite Hk. simpl.
  rewrite Hk. simpl. eauto.
Qed.

Lemma resolveRepo_tracked (repoById : gmap string string) (pluginId : string)
    (manifest : Manifest) (st : State) :
  present (Name <$> repoById !! pluginId) = false ->
  present (objectGet (installedRepoMap (settings st)) pluginId) = true ->
  exists reason,
    resolveRepo w repoById pluginId manifest st =
    (Ok (objectGet (installedRepoMap (settings st)) pluginId, tracked, reason, false), st).
Proof.
  intros Hk Ht. unfold resolveRepo, bind, getSettings, ret. rewrite Hk, Ht. simpl.
  rewrite Ht. simpl. eauto.
Qed.

Lemma resolveRepo_detect (repoById : gmap string string) (pluginId : string)
    (manifest : Manifest) (st : State) :
  present (Name <$> repoById !! pluginId) = false ->
  present (objectGet (installedRepoMap (settings st)) pluginId) = false ->
  exists d evs,
    findRepoByManifestId w pluginId manifest st = (Ok d, extend st evs) /\
    forallb isDetectionCall evs = true /\
    ((JS.truthy (det_repo d) = true /\
      exists reason,
      resolveRepo w repoById pluginId manifest st =
      (Ok (Name <$> det_repo d, detected, reason, true),
       {| trace := trace st ++ evs;
          settings := withRepo (settings st) pluginId
                        (default (Name EmptyString) (Name <$> det_repo d)) |})) \/
     (JS.truthy (det_repo d) = false /\
      resolveRepo w repoById pluginId manifest st =
      (Ok (Name <$> det_repo d, unknownSource, unresolvedReasonOf d, false),
       extend st evs))).
Proof.
  intros Hk Ht. unfold resolveRepo, bind, getSettings, ret. rewrite Hk, Ht. simpl.
  rewrite Hk. simpl.
  destruct (findRepoByManifestId_run w pluginId manifest st)
    as (d & evs & Hrun & Hdet & _).
  rewrite Hrun. exists d, evs. split; [reflexivity |]. split; [exact Hdet |].
  rewrite present_name. unfold unresolvedReasonOf.
  destruct (JS.truthy (det_repo d)) eqn:Hd; cbn [negb andb].
  - left. split; [reflexivity |]. eexists. reflexivity.
  - right. split; reflexivity.
Qed.

Lemma classify_run (pluginId currentVersion : string) (repo : option RepoValue)
    (source : Source) (st : State) :
  present repo = true ->
  exists c evs,
    classify w pluginId currentVersion repo source st = (Ok c, extend st evs) /\
    quiet evs = true /\
    cand_pluginId c = pluginId /\ cand_repo c = repo /\ cand_source c = source /\
    candidateInvariant c.
Proof.
  intros Hr. unfold classify, tryCatch, bind, ret.
  destruct (getLatest_run (default (Name EmptyString) repo) st) as (out & evs & -> & Hq).
  destruct out as [[latest |] | e]; eexists _, evs;
    (split; [reflexivity |]); (split; [exact Hq |]);
    repeat (split; [reflexivity |]); unfold candidateInvariant; simpl;
    try (split; discriminate).
  split; [| intros _; exact Hr].
  destruct (_ <? 0)%Z; [reflexivity | discriminate].
Qed.

Lemma checkPlugin_run (manifests : list (string * Manifest))
    (repoById : gmap string string) (pluginId : string) (st : State) :
  exists c changed st',
    checkPlugin w manifests repoById pluginId st = (Ok (c, changed), st') /\
    cand_pluginId c = pluginId /\
    candidateInvariant c /\
    resolution w manifests repoById pluginId st c changed st'.
Proof.
  unfold checkPlugin, bind.
  destruct (getInstalled_run pluginId st) as (m0 & evs0 & Hdisk & Hq0).
  rewrite Hdisk.
  change (match m0 with
          | Some m => m
          | None => default emptyManifest (lookupManifest manifests pluginId)
          end) with (installedManifestOf manifests pluginId m0).
  set (manifest := installedManifestOf manifests pluginId m0).
  set (currentVersion := if JS.truthy (manifest_version manifest) then _ else _).
  destruct (present (Name <$> repoById !! pluginId)) eqn:Hk.
  - destruct (resolveRepo_known repoById pluginId manifest (extend st evs0) Hk)
      as [reason ->]. rewrite Hk. cbn [negb].
    destruct (classify_run pluginId currentVersion (Name <$> repoById !! pluginId) official
                (extend st evs0) Hk) as (c & evs1 & -> & Hq1 & Hid & Hrepo & Hsrc & Hinv).
    exists c, false, (extend (extend st evs0) evs1). unfold ret.
    repeat (split; [assumption || reflexivity |]).
    exists (evs0 ++ evs1). split; [simpl; now rewrite app_assoc |].
    left. rewrite Hk. repeat (split; [assumption || reflexivity |]).
    unfold quiet in *. now rewrite forallb_app, Hq0, Hq1.
  - destruct (present (objectGet (installedRepoMap (settings st)) pluginId)) eqn:Ht.
    + destruct (resolveRepo_tracked repoById pluginId manifest (extend st evs0) Hk Ht)
        as [reason ->]. cbn [extend settings]. rewrite Ht. cbn [negb].
      destruct (classify_run pluginId currentVersion
                  (objectGet (installedRepoMap (settings st)) pluginId) tracked
                  (extend st evs0) Ht) as (c & evs1 & -> & Hq1 & Hid & Hrepo & Hsrc & Hinv).
      exists c, false, (extend (extend st evs0) evs1). unfold ret.
      repeat (split; [assumption || reflexivity |]).
      exists (evs0 ++ evs1). split; [simpl; now rewrite app_assoc |].
      right; left. rewrite Hk, Ht. repeat (split; [assumption || reflexivity |]).
      unfold quiet in *. now rewrite forallb_app, Hq0, Hq1.
    + destruct (resolveRepo_detect repoById pluginId manifest (extend st evs0) Hk Ht)
        as (d & evs & Hfind & Hdet & [[Hd [reason ->]] | [Hd ->]]).
      * rewrite present_name, Hd. cbn [negb].
        set (st1 := {| trace := _; settings := _ |}).
        assert (Hpresent : present (Name <$> det_repo d) = true)
          by now rewrite present_name.
        destruct (classify_run pluginId currentVersion (Name <$> det_repo d) detected
                    st1 Hpresent)
          as (c & evs1 & -> & Hq1 & Hid & Hrepo & Hsrc & Hinv).
        exists c, true, (extend st1 evs1). unfold ret.
        repeat (split; [assumption || reflexivity |]).
        exists (evs0 ++ evs ++ evs1). split; [simpl; now rewrite !app_assoc |].
        right; right; left. rewrite Hk, Ht, Hrepo.
        repeat (split; [assumption || reflexivity |]).
        exists d, (extend (extend st evs0) evs), evs1.
        split; [exists m0, (extend st evs0); split; assumption |].
        split; [reflexivity |]. split; [reflexivity | exact Hq1].
      * rewrite present_name, Hd. cbn [negb]. unfold ret.
        eexists _, false, _. split; [reflexivity |].
        split; [reflexivity |].
        split; [split; discriminate |].
        exists (evs0 ++ evs). split; [simpl; now rewrite !app_assoc |].
        right; right; right. rewrite Hk, Ht.
        repeat (split; [reflexivity |]).
        exists d. split; [exists m0, (extend st evs0); split; assumption |].
        split; [exact Hd | reflexivity].
Qed.

Lemma checkLoop_passes (manifests : list (string * Manifest))
    (repoById : gmap string string) (ids : list string) :
  forall acc flag0 st,
  exists cs flag st',
    checkLoop w manifests repoById ids acc flag0 st =
      (Ok (acc ++ cs, flag || flag0), st') /\
    passes w manifests repoById ids st cs flag st'.
Proof.
  induction ids as [| pluginId rest IH]; intros acc flag0 st.
  - exists [], false, st. simpl. rewrite app_nil_r.
    split; [reflexivity | constructor].
  - simpl. unfold bind.
    destruct (checkPlugin_run manifests repoById pluginId st)
      as (c & changed & st1 & Heq & _). rewrite Heq.
    destruct (IH (acc ++ [c]) (changed || flag0) st1) as (cs & flag & st' & -> & Hp).
    exists (c :: cs), (changed || flag), st'. split.
    + rewrite <- app_assoc. simpl.
      now destruct changed, flag, flag0.
    + econstructor; eassumption.
Qed.

Lemma inherited_proto : JS.inherited "__proto__" = true.
Proof. reflexivity. Qed.

Lemma objectSet_lookup_ne (m : gmap string RepoValue) (p q : string) (v : RepoValue) :
  p <> q -> objectSet m q v !! p = m !! p.
Proof.
  intros Hne. unfold objectSet.
  destruct (String.eqb q "__proto__" && bool_decide (m !! q = None)); [reflexivity |].
  now apply lookup_insert_ne.
Qed.

Lemma objectGet_set_ne (m : gmap string RepoValue) (p q : string) (v : RepoValue) :
  p <> q -> objectGet (objectSet m q v) p = objectGet m p.
Proof. intros Hne. unfold objectGet. now rewrite objectSet_lookup_ne. Qed.

(** An assignment under a name that reads falsy takes effect. *)
Lemma objectSet_falsy (m : gmap string RepoValue) (q : string) (v : RepoValue) :
  present (objectGet m q) = false -> objectSet m q v = <[q := v]> m.
Proof.
  unfold objectGet, objectSet. intros Hq.
  destruct (m !! q) as [x |] eqn:Hm.
  - rewrite bool_decide_eq_false_2 by discriminate. now rewrite andb_false_r.
  - destruct (JS.inherited q) eqn:Hi; [discriminate |].
    destruct (String.eqb_spec q "__proto__") as [-> | Hne]; [| reflexivity].
    rewrite inherited_proto in Hi. discriminate.
Qed.

Lemma objectGet_set_falsy (m : gmap string RepoValue) (q : string) (v : RepoValue) :
  present (objectGet m q) = false -> objectGet (objectSet m q v) q = Some v.
Proof.
  intros Hq. rewrite (objectSet_falsy m q v Hq). unfold objectGet.
  now rewrite lookup_insert_eq.
Qed.

Lemma truthy_objectGet_set (m : gmap string RepoValue) (p q : string) (v : RepoValue) :
  present (objectGet m p) = true -> present (objectGet m q) = false ->
  objectGet (objectSet m q v) p = objectGet m p.
Proof.
  intros Hp Hq. apply objectGet_set_ne. intros ->. congruence.
Qed.

Lemma resolution_keeps (manifests : list (string * Manifest))
    (repoById : gmap string string) (pluginId : string)
    (st : State) (c : PluginUpdateCandidate) (changed : bool) (st' : State) :
  resolution w manifests repoById pluginId st c changed st' ->
  forall p, present (objectGet (installedRepoMap (settings st)) p) = true ->
            objectGet (installedRepoMap (settings st')) p =
            objectGet (installedRepoMap (settings st)) p.
Proof.
  intros (evs & _ & H) p Hp. cbv zeta in H.
  destruct H as [H | [H | [H | H]]].
  - destruct H as (_ & _ & _ & -> & _). reflexivity.
  - destruct H as (_ & _ & _ & _ & -> & _). reflexivity.
  - destruct H as (_ & Hkept & _ & _ & -> & _). simpl.
    now apply truthy_objectGet_set.
  - destruct H as (_ & _ & _ & _ & -> & _). reflexivity.
Qed.

Lemma resolution_official (manifests : list (string * Manifest))
    (repoById : gmap string string) (pluginId : string)
    (st : State) (c : PluginUpdateCandidate) (changed : bool) (st' : State) :
  resolution w manifests repoById pluginId st c changed st' ->
  JS.truthy (repoById !! pluginId) = true ->
  cand_source c = official /\ cand_repo c = Name <$> repoById !! pluginId /\
  settings st' = settings st /\ changed = false /\
  exists evs, trace st' = trace st ++ evs /\ quiet evs = true.
Proof.
  intros (evs & Htr & H) Hk. cbv zeta in H. rewrite present_name in H.
  destruct H as [H | [H | [H | H]]];
    try (destruct H as (H & _); congruence).
  destruct H as (_ & ? & ? & ? & ? & ?). eauto 10.
Qed.

Lemma resolution_tracked (manifests : list (string * Manifest))
    (repoById : gmap string string) (pluginId : string)
    (st : State) (c : PluginUpdateCandidate) (changed : bool) (st' : State) :
  resolution w manifests repoById pluginId st c changed st' ->
  JS.truthy (repoById !! pluginId) = false ->
  present (objectGet (installedRepoMap (settings st)) pluginId) = true ->
  cand_source c = tracked /\
  cand_repo c = objectGet (installedRepoMap (settings st)) pluginId /\
  settings st' = settings st /\ changed = false /\
  exists evs, trace st' = trace st ++ evs /\ quiet evs = true.
Proof.
  intros (evs & Htr & H) Hk Ht. cbv zeta in H. rewrite present_name in H.
  destruct H as [H | [H | [H | H]]];
    try (destruct H as (? & ? & _); congruence).
  destruct H as (_ & _ & ? & ? & ? & ? & ?). eauto 10.
Qed.

Lemma resolution_detected (manifests : list (string * Manifest))
    (repoById : gmap string string) (pluginId : string)
    (st : State) (c : PluginUpdateCandidate) (changed : bool) (st' : State) :
  resolution w manifests repoById pluginId st c changed st' ->
  cand_source c = detected ->
  changed = true /\ present (cand_repo c) = true /\
  JS.truthy (repoById !! pluginId) = false /\
  present (objectGet (installedRepoMap (settings st)) pluginId) = false /\
  objectGet (installedRepoMap (settings st')) pluginId = cand_repo c /\
  installedRepoMap (settings st') !! pluginId = cand_repo c.
Proof.
  intros (evs & Htr & H) Hs. cbv zeta in H. rewrite present_name in H.
  destruct H as [H | [H | [H | H]]].
  - destruct H as (_ & ? & _); congruence.
  - destruct H as (_ & _ & ? & _); congruence.
  - destruct H as (? & Hkept & _ & Hr & -> & ? & _). repeat (split; [assumption |]).
    cbn [withRepo installedRepoMap].
    rewrite (objectGet_set_falsy _ _ _ Hkept), (objectSet_falsy _ _ _ Hkept),
      lookup_insert_eq.
    destruct (cand_repo c); [split; reflexivity | discriminate].
  - destruct H as (_ & _ & ? & _); congruence.
Qed.

Lemma resolution_unchanged (manifests : list (string * Manifest))
    (repoById : gmap string string) (pluginId : string)
    (st : State) (c : PluginUpdateCandidate) (changed : bool) (st' : State) :
  resolution w manifests repoById pluginId st c changed st' ->
  (exists evs, trace st' = trace st ++ evs) /\
  (changed = false -> settings st' = settings st).
Proof.
  intros (evs & Htr & H). split; [eauto |]. intros Hc. cbv zeta in H.
  destruct H as [H | [H | [H | H]]].
  - now destruct H as (_ & _ & _ & ? & _).
  - now destruct H as (_ & _ & _ & _ & ? & _).
  - destruct H as (_ & _ & _ & _ & _ & ? & _). congruence.
  - now destruct H as (_ & _ & _ & _ & ? & _).
Qed.

(** What a run of the loop guarantees, pass by pass. *)
Lemma passes_spec (manifests : list (string * Manifest))
    (repoById : gmap string string) (ids : list string) (st : State)
    (cs : list PluginUpdateCandidate) (flag : bool) (st2 : State) :
  passes w manifests repoById ids st cs flag st2 ->
  map cand_pluginId cs = ids /\
  Forall candidateInvariant cs /\
  (forall p, present (objectGet (installedRepoMap (settings st)) p) = true ->
             objectGet (installedRepoMap (settings st2)) p =
             objectGet (installedRepoMap (settings st)) p) /\
  (forall c, In c cs -> JS.truthy (repoById !! cand_pluginId c) = true ->
             cand_source c = official /\
             cand_repo c = Name <$> repoById !! cand_pluginId c) /\
  (forall c, In c cs -> JS.truthy (repoById !! cand_pluginId c) = false ->
             present (objectGet (installedRepoMap (settings st)) (cand_pluginId c)) = true ->
             cand_source c = tracked /\
             cand_repo c = objectGet (installedRepoMap (settings st)) (cand_pluginId c)) /\
  (forall c, In c cs -> cand_source c = detected ->
             flag = true /\ present (cand_repo c) = true /\
             objectGet (installedRepoMap (settings st2)) (cand_pluginId c) = cand_repo c) /\
  (flag = false -> settings st2 = settings st) /\
  (exists evs, trace st2 = trace st ++ evs /\
     ((forall p, In p ids ->
         JS.truthy (repoById !! p) = true \/
         present (objectGet (installedRepoMap (settings st)) p) = true) ->
      quiet evs = true)).
Proof.
  induction 1 as [st | pluginId rest st c changed st1 cs flag st2 Hbody Hrest IH].
  - repeat apply conj; try (intros; reflexivity); try (intros c []).
    + constructor.
    + exists []. now rewrite app_nil_r.
  - destruct IH as (IHids & IHinv & IHkeep & IHoff & IHtr & IHdet & IHflag & IHevs).
    destruct (checkPlugin_run manifests repoById pluginId st)
      as (c' & changed' & st1' & Heq & Hid & Hinv & Hres).
    rewrite Hbody in Heq. injection Heq as <- <- <-.
    pose proof (resolution_keeps _ _ _ _ _ _ _ Hres) as Hkeep.
    repeat apply conj.
    + simpl. now rewrite Hid, IHids.
    + constructor; assumption.
    + intros p Hp. rewrite IHkeep; rewrite Hkeep; auto.
    + intros x [<- | Hin] Hk.
      * rewrite Hid in *.
        destruct (resolution_official _ _ _ _ _ _ _ Hres Hk) as (? & ? & _).
        auto.
      * now apply IHoff.
    + intros x [<- | Hin] Hk Ht.
      * rewrite Hid in *.
        destruct (resolution_tracked _ _ _ _ _ _ _ Hres Hk Ht) as (? & ? & _). auto.
      * rewrite <- (Hkeep _ Ht). apply IHtr; try assumption.
        now rewrite (Hkeep _ Ht).
    + intros x [<- | Hin] Hs.
      * destruct (resolution_detected _ _ _ _ _ _ _ Hres Hs)
          as (-> & Hr & _ & _ & Hm & _).
        rewrite Hid in *. repeat split; [assumption |].
        rewrite IHkeep; rewrite Hm; auto.
      * destruct (IHdet x Hin Hs) as (-> & ? & ?). rewrite orb_true_r. auto.
    + intros Hf. apply orb_false_iff in Hf as [-> ->].
      destruct (resolution_unchanged _ _ _ _ _ _ _ Hres) as [_ Hu].
      rewrite IHflag, Hu; reflexivity.
    + destruct IHevs as (evs2 & Htr2 & Hq2).
      destruct (resolution_unchanged _ _ _ _ _ _ _ Hres) as [[evs1 Htr1] _].
      exists (evs1 ++ evs2). split; [now rewrite Htr2, Htr1, app_assoc |].
      intros Hall.
      assert (Hhead : exists evs, trace st1 = trace st ++ evs /\ quiet evs = true).
      { destruct (Hall pluginId (or_introl eq_refl)) as [Hk | Ht].
        - now destruct (resolution_official _ _ _ _ _ _ _ Hres Hk) as (_ & _ & _ & _ & ?).
        - destruct (JS.truthy (repoById !! pluginId)) eqn:Hk.
          + now destruct (resolution_official _ _ _ _ _ _ _ Hres Hk)
              as (_ & _ & _ & _ & ?).
          + now destruct (resolution_tracked _ _ _ _ _ _ _ Hres Hk Ht)
              as (_ & _ & _ & _ & ?). }
      destruct Hhead as (evs1' & Htr1' & Hq1).
      rewrite Htr1 in Htr1'. apply app_inv_head in Htr1'. subst evs1'.
      unfold quiet in *. rewrite forallb_app, Hq1. simpl. apply Hq2.
      intros p Hp. destruct (Hall p (or_intror Hp)) as [Hk | Ht]; [now left |].
      right. now rewrite (Hkeep _ Ht).
Qed.




Lemma persisted_snoc (tr : Trace) (s : PluginSettings) :
  persisted (tr ++ [SaveData s]) = Some s.
Proof. unfold persisted. rewrite omap_app. simpl. apply last_snoc. Qed.

(** The whole check, when it returns. *)
Lemma check_run (st : State) (l : list PluginUpdateCandidate) (st' : State) :
  checkInstalledPluginUpdates w st = (Ok l, st') ->
  let manifests := plugin_manifests w (trace (afterLoad w st)) in
  exists official st1 cs flag st2,
    (manifests <> [] ->
     exists json, official_list w (trace (afterLoad w st)) = Ok json /\
                  official = default [] json) /\
    settings st1 = settings st /\
    (exists evs, trace st1 = trace st ++ evs /\ quiet evs = true) /\
    passes w manifests (buildRepoById official) (map fst manifests) st1 cs flag st2 /\
    l = arraySort (compareCandidates w) cs /\
    settings st' = settings st2 /\
    (exists evs, trace st' = trace st2 ++ evs /\ quiet evs = true) /\
    (flag = true -> persisted (trace st') = Some (settings st')).
Proof.
  unfold checkInstalledPluginUpdates, bind.
  assert (Hload :
    (if has_loadManifests w
     then tryCatch (call LoadManifests (load_manifests w)) (fun _ => ret tt)
     else ret tt) st = (Ok tt, afterLoad w st)).
  { unfold afterLoad, tryCatch, call, ret, extend.
    destruct (has_loadManifests w); simpl.
    - now destruct (load_manifests w (trace st)) as [[] | e].
    - rewrite app_nil_r. now destruct st. }
  rewrite Hload. clear Hload.
  set (st0 := afterLoad w st). cbv zeta.
  assert (Hst0 : settings st0 = settings st /\
                 exists evs, trace st0 = trace st ++ evs /\ quiet evs = true).
  { unfold st0, afterLoad, extend. simpl. split; [reflexivity |].
    eexists. split; [reflexivity |]. now destruct (has_loadManifests w). }
  destruct Hst0 as [Hs0 (evs0 & Htr0 & Hq0)].
  destruct (plugin_manifests w (trace st0)) as [| kv rest] eqn:Hm; cbn [map].
  - unfold ret. intros [= <- <-].
    exists [], st0, [], false, st0.
    split; [congruence |].
    split; [exact Hs0 |].
    split; [eauto |].
    split; [constructor |].
    split; [reflexivity |].
    split; [reflexivity |].
    split; [exists []; now rewrite app_nil_r |].
    discriminate.
  - unfold getOfficialCommunityPlugins, bind, call, ret.
    destruct (official_list w (trace st0)) as [json | e] eqn:Hol; [| discriminate].
    set (st1 := {| trace := trace st0 ++ [GetOfficialList]; settings := settings st0 |}).
    destruct (checkLoop_passes (kv :: rest) (buildRepoById (default [] json))
                (fst kv :: map fst rest) [] false st1)
      as (cs & flag & st2 & Hloop & Hp).
    cbn [map] in Hloop. rewrite Hloop. rewrite orb_false_r. cbn [app].
    destruct flag.
    + unfold saveSettings, bind, getSettings, call.
      destruct (save_data w (trace st2)); [| discriminate].
      intros [= <- <-].
      exists (default [] json), st1, cs, true, st2. cbn [trace settings].
      split; [intros _; eauto |].
      split; [exact Hs0 |].
      split.
      { exists (evs0 ++ [GetOfficialList]). unfold st1. cbn [trace].
        rewrite Htr0, app_assoc.
        split; [reflexivity |]. unfold quiet in *. now rewrite forallb_app, Hq0. }
      split; [exact Hp |].
      split; [reflexivity |].
      split; [reflexivity |].
      split; [exists [SaveData (settings st2)]; split; reflexivity |].
      intros _. apply persisted_snoc.
    + intros [= <- <-].
      exists (default [] json), st1, cs, false, st2.
      split; [intros _; eauto |].
      split; [exact Hs0 |].
      split.
      { exists (evs0 ++ [GetOfficialList]). unfold st1. cbn [trace].
        rewrite Htr0, app_assoc.
        split; [reflexivity |]. unfold quiet in *. now rewrite forallb_app, Hq0. }
      split; [exact Hp |].
      split; [reflexivity |].
      split; [reflexivity |].
      split; [exists []; now rewrite app_nil_r |].
      discriminate.
Qed.

End UpdateFacts.

Section SortFacts.

Import Host PluginHub Observe.
Context {A : Type} (cmp : A -> A -> Z).

Local Abbreviation before := (Observe.before cmp).

Lemma insertBy_perm (x : A) (l : list A) : Permutation (insertBy cmp x l) (x :: l).
Proof.
  induction l as [| y r IH]; simpl; [reflexivity |].
  destruct (cmp x y <=? 0)%Z; [reflexivity |].
  rewrite IH. apply perm_swap.
Qed.

Lemma arraySort_perm (l : list A) : Permutation (arraySort cmp l) l.
Proof.
  induction l as [| x r IH]; simpl; [reflexivity |].
  rewrite insertBy_perm. now constructor.
Qed.

Lemma arraySort_In (l : list A) (x : A) : In x (arraySort cmp l) <-> In x l.
Proof.
  split; apply Permutation_in; [| symmetry]; apply arraySort_perm.
Qed.

Hypothesis Hcmp : consistentComparator cmp.

Lemma before_total (a b : A) : before a b \/ before b a.
Proof.
  destruct Hcmp as [Hanti _]. unfold before. specialize (Hanti a b). lia.
Qed.

Lemma insertBy_sorted (x : A) (l : list A) :
  StronglySorted before l -> StronglySorted before (insertBy cmp x l).
Proof.
  induction 1 as [| y r Hr IH Hall]; simpl.
  - repeat constructor.
  - destruct (Z.leb_spec (cmp x y) 0) as [Hle | Hgt].
    + constructor; [now constructor |]. constructor; [exact Hle |].
      eapply List.Forall_impl; [| exact Hall]. intros z Hz.
      destruct Hcmp as [_ Htrans]. exact (Htrans x y z Hle Hz).
    + constructor; [exact IH |].
      rewrite insertBy_perm.
      constructor; [| exact Hall].
      destruct (before_total y x) as [H | H]; [exact H | unfold before in H; lia].
Qed.

Lemma arraySort_sorted (l : list A) : StronglySorted before (arraySort cmp l).
Proof.
  induction l as [| x r IH]; simpl; [constructor | now apply insertBy_sorted].
Qed.

Lemma sorted_split (l pre mid post : list A) (a b : A) :
  StronglySorted before l -> l = pre ++ a :: mid ++ b :: post -> before a b.
Proof.
  intros Hs ->. induction pre as [| x pre IH]; simpl in Hs.
  - apply StronglySorted_inv in Hs as [_ Hall].
    rewrite List.Forall_forall in Hall. apply Hall.
    apply in_or_app. right. now left.
  - apply StronglySorted_inv in Hs as [Hs _]. now apply IH.
Qed.

End SortFacts.

Section OrderFacts.

Import Host PluginHub Observe.
Variable w : World.
Hypothesis Hlocale : consistentComparator (localeCompare w).

Lemma compareCandidates_consistent : consistentComparator (compareCandidates w).
Proof.
  destruct Hlocale as [Hanti Htrans]. split.
  - intros a b. unfold compareCandidates.
    destruct (cand_needsUpdate a), (cand_needsUpdate b); simpl;
      try reflexivity; apply Hanti.
  - intros a b c. unfold compareCandidates.
    destruct (cand_needsUpdate a), (cand_needsUpdate b), (cand_needsUpdate c);
      simpl; try lia; apply Htrans.
Qed.

End OrderFacts.

Section CollationFacts.

Import Host Observe Collation.

Lemma lexCompare_refl (a : list nat) : lexCompare a a = Eq.
Proof.
  induction a as [| x a IH]; [reflexivity |]. cbn. now rewrite Nat.compare_refl.
Qed.

Lemma lexCompare_eq (a : list nat) : forall b, lexCompare a b = Eq -> a = b.
Proof.
  induction a as [| x a IH]; intros [| y b]; cbn; try congruence.
  destruct (Nat.compare_spec x y) as [-> | |]; try discriminate.
  intros Hr. f_equal. auto.
Qed.

Lemma lexCompare_antisym (a : list nat) :
  forall b, lexCompare b a = CompOpp (lexCompare a b).
Proof.
  induction a as [| x a IH]; intros [| y b]; cbn; try reflexivity.
  rewrite (Nat.compare_antisym x y). destruct (Nat.compare x y); cbn; auto.
Qed.

Lemma lexCompare_lt_trans (a : list nat) : forall b c,
  lexCompare a b = Lt -> lexCompare b c = Lt -> lexCompare a c = Lt.
Proof.
  induction a as [| x a IH]; intros [| y b] [| z c]; cbn; try congruence.
  destruct (Nat.compare_spec x y) as [Hxy | Hxy | Hxy];
    destruct (Nat.compare_spec y z) as [Hyz | Hyz | Hyz];
    try discriminate; intros H1 H2; subst.
  - rewrite Nat.compare_refl. eauto.
  - now apply Nat.compare_lt_iff in Hyz as ->.
  - now apply Nat.compare_lt_iff in Hxy as ->.
  - assert (Hxz : (x < z)%nat) by lia. now apply Nat.compare_lt_iff in Hxz as ->.
Qed.

Lemma lexCompare_le_trans (a b c : list nat) :
  lexCompare a b <> Gt -> lexCompare b c <> Gt -> lexCompare a c <> Gt.
Proof.
  intros H1 H2.
  destruct (lexCompare a b) eqn:Hab; [| | congruence].
  - apply lexCompare_eq in Hab. now subst.
  - destruct (lexCompare b c) eqn:Hbc; [| | congruence].
    + apply lexCompare_eq in Hbc. subst. congruence.
    + rewrite (lexCompare_lt_trans a b c Hab Hbc). discriminate.
Qed.

(** The collation of the English locale is a consistent comparison. *)
Lemma english_consistent : consistentComparator english.
Proof.
  split.
  - intros a b. unfold english.
    rewrite (lexCompare_antisym (key primary a) (key primary b)).
    rewrite (lexCompare_antisym (key tertiary a) (key tertiary b)).
    destruct (lexCompare (key primary a) (key primary b));
      destruct (lexCompare (key tertiary a) (key tertiary b)); reflexivity.
  - intros a b c. unfold english.
    destruct (lexCompare (key primary a) (key primary b)) eqn:Pab; cbn [sign];
      try lia;
      destruct (lexCompare (key primary b) (key primary c)) eqn:Pbc; cbn [sign];
      try lia.
    + apply lexCompare_eq in Pab, Pbc. rewrite Pab, Pbc, lexCompare_refl.
      pose proof (lexCompare_le_trans (key tertiary a) (key tertiary b)
                    (key tertiary c)) as H.
      destruct (lexCompare (key tertiary a) (key tertiary b));
        destruct (lexCompare (key tertiary b) (key tertiary c));
        destruct (lexCompare (key tertiary a) (key tertiary c)); cbn; try lia;
        intros _ _; exfalso; apply H; congruence.
    + apply lexCompare_eq in Pab. rewrite Pab, Pbc. cbn. lia.
    + apply lexCompare_eq in Pbc. rewrite <- Pbc, Pab. cbn. lia.
    + rewrite (lexCompare_lt_trans _ _ _ Pab Pbc). cbn. lia.
Qed.

Lemma string_compare_trans (a b c : string) :
  String.compare a b <> Gt -> String.compare b c <> Gt -> String.compare a c <> Gt.
Proof.
  revert b c. induction a as [| x a IH]; intros [| y b] [| z c]; simpl;
    try congruence.
  unfold Ascii.compare.
  destruct (N.compare_spec (N_of_ascii x) (N_of_ascii y));
    destruct (N.compare_spec (N_of_ascii y) (N_of_ascii z));
    destruct (N.compare_spec (N_of_ascii x) (N_of_ascii z));
    try congruence; try lia.
  apply IH.
Qed.

(** So is the order of the code units. *)
Lemma codeUnits_consistent : consistentComparator codeUnits.
Proof.
  split.
  - intros a b. unfold codeUnits. rewrite (String.compare_antisym a b).
    now destruct (String.compare b a).
  - intros a b c. unfold codeUnits.
    pose proof (string_compare_trans a b c) as H.
    destruct (String.compare a b), (String.compare b c), (String.compare a c);
      cbn; try lia; intros _ _; exfalso; apply H; congruence.
Qed.

Lemma codeUnits_lexicographic (a b : string) :
  (codeUnits a b <= 0)%Z <-> lexicographic a b.
Proof.
  unfold codeUnits, lexicographic. destruct (String.compare a b); cbn; split;
    intros H; try lia; try congruence; try discriminate.
Qed.

End CollationFacts.

(** C5.  Every candidate returned by [checkInstalledPluginUpdates] has
    [needsUpdate] only with the status update-available, and the status
    update-available only with a repository. *)
Theorem candidates_invariant (w : Host.World) (st : Host.State)
    (l : list Host.PluginUpdateCandidate) :
  fst (PluginHub.checkInstalledPluginUpdates w st) = Host.Ok l ->
  forall c, In c l ->
    (Host.cand_needsUpdate c = true ->
     Host.cand_versionStatus c = Host.updateAvailable) /\
    (Host.cand_versionStatus c = Host.updateAvailable ->
     exists repo, Host.cand_repo c = Some repo /\ repo <> Host.Name EmptyString).
Proof.
  destruct (PluginHub.checkInstalledPluginUpdates w st) as [out st'] eqn:Hrun.
  simpl. intros -> c Hin.
  destruct (check_run w st l st' Hrun)
    as (official & st1 & cs & flag & st2 & _ & _ & _ & Hp & -> & _).
  apply arraySort_In in Hin.
  destruct (passes_spec w _ _ _ _ _ _ _ Hp) as (_ & Hinv & _).
  rewrite List.Forall_forall in Hinv. destruct (Hinv c Hin) as [H1 H2].
  split; [exact H1 |]. intros Hs. specialize (H2 Hs).
  destruct (Host.cand_repo c) as [repo |]; [| discriminate].
  exists repo. split; [reflexivity |]. intros ->. discriminate.
Qed.

(** C5 at work on three installed plugins. *)
Lemma candidates_invariant_witness :
  exists l,
    fst (PluginHub.checkInstalledPluginUpdates Scenario.updates Scenario.updatesStart)
      = Host.Ok l /\
    map Host.cand_needsUpdate l = [true; true; false] /\
    forall c, In c l -> Host.cand_needsUpdate c = true ->
              Host.cand_versionStatus c = Host.updateAvailable.
Proof.
  destruct (PluginHub.checkInstalledPluginUpdates Scenario.updates Scenario.updatesStart)
    as [[l | e] st'] eqn:Hrun; [| vm_compute in Hrun; discriminate].
  exists l. split; [reflexivity |].
  split; [vm_compute in Hrun; injection Hrun as <- _; reflexivity |].
  intros c Hin.
  apply (candidates_invariant Scenario.updates Scenario.updatesStart l);
    [now rewrite Hrun | exact Hin].
Defined.

(** C2 (as the code has it).  In the list returned by
    [checkInstalledPluginUpdates] no candidate without [needsUpdate] stands
    before one with it, and two candidates with the same [needsUpdate]
    stand in the order in which [localeCompare] puts their package ids:
    the collation order of the host's locale ([localeCompare] being a
    consistent comparison, as that of every locale is).  For candidates A
    (no update), B and C (update) with C before B in that order, the sort
    yields C, B, A from every order of the three.  The list holds one
    candidate for each installed package.  The order within a partition
    is the lexicographic order of the ids exactly on a host whose
    [localeCompare] agrees with it. *)
Theorem candidates_order (w : Host.World) (st : Host.State)
    (l : list Host.PluginUpdateCandidate) :
  Observe.consistentComparator (Host.localeCompare w) ->
  fst (PluginHub.checkInstalledPluginUpdates w st) = Host.Ok l ->
  (forall pre a mid b post,
     l = pre ++ a :: mid ++ b :: post ->
     (Host.cand_needsUpdate b = true -> Host.cand_needsUpdate a = true) /\
     (Host.cand_needsUpdate a = Host.cand_needsUpdate b ->
      (Host.localeCompare w (Host.cand_pluginId a) (Host.cand_pluginId b) <= 0)%Z)) /\
  (forall A B C,
     Host.cand_needsUpdate A = false ->
     Host.cand_needsUpdate B = true ->
     Host.cand_needsUpdate C = true ->
     (Host.localeCompare w (Host.cand_pluginId C) (Host.cand_pluginId B) < 0)%Z ->
     forall input,
       In input [[A; B; C]; [A; C; B]; [B; A; C]; [B; C; A]; [C; A; B]; [C; B; A]] ->
       PluginHub.arraySort (PluginHub.compareCandidates w) input = [C; B; A]) /\
  Permutation (map Host.cand_pluginId l)
    (map fst (Host.plugin_manifests w (Host.trace (Observe.afterLoad w st)))) /\
  ((forall a b, (Host.localeCompare w a b <= 0)%Z <-> Observe.lexicographic a b) ->
   forall pre a mid b post,
     l = pre ++ a :: mid ++ b :: post ->
     Host.cand_needsUpdate a = Host.cand_needsUpdate b ->
     Observe.lexicographic (Host.cand_pluginId a) (Host.cand_pluginId b)).
Proof.
  intros Hlocale.
  destruct (PluginHub.checkInstalledPluginUpdates w st) as [out st'] eqn:Hrun.
  cbn [fst]. intros ->.
  assert (Horder : forall pre a mid b post,
     l = pre ++ a :: mid ++ b :: post ->
     (Host.cand_needsUpdate b = true -> Host.cand_needsUpdate a = true) /\
     (Host.cand_needsUpdate a = Host.cand_needsUpdate b ->
      (Host.localeCompare w (Host.cand_pluginId a) (Host.cand_pluginId b) <= 0)%Z)).
  { intros pre a mid b post Hl.
    destruct (check_run w st l st' Hrun)
      as (official & st1 & cs & flag & st2 & _ & _ & _ & _ & Hsort & _).
    pose proof (arraySort_sorted (PluginHub.compareCandidates w)
                  (compareCandidates_consistent w Hlocale) cs) as Hs.
    rewrite <- Hsort in Hs.
    pose proof (sorted_split _ l pre mid post a b Hs Hl) as Hab.
    unfold Observe.before, PluginHub.compareCandidates in Hab.
    destruct (Host.cand_needsUpdate a), (Host.cand_needsUpdate b);
      simpl in Hab; split; intros; try congruence; try lia. }
  split; [exact Horder |]. split; [| split].
  - intros A B C HA HB HC Hlt input Hin.
    destruct Hlocale as [Hanti _].
    pose proof (Hanti (Host.cand_pluginId C) (Host.cand_pluginId B)) as Hbc.
    assert (HCB : (Host.localeCompare w (Host.cand_pluginId C) (Host.cand_pluginId B) <=? 0)%Z
                  = true) by (apply Z.leb_le; lia).
    assert (HBC : (Host.localeCompare w (Host.cand_pluginId B) (Host.cand_pluginId C) <=? 0)%Z
                  = false) by (apply Z.leb_gt; lia).
    simpl in Hin.
    repeat (destruct Hin as [<- | Hin]); try contradiction;
      unfold PluginHub.compareCandidates;
      repeat (progress (simpl; rewrite ?HA, ?HB, ?HC, ?HCB, ?HBC));
      reflexivity.
  - destruct (check_run w st l st' Hrun)
      as (official & st1 & cs & flag & st2 & _ & _ & _ & Hp & -> & _).
    destruct (passes_spec w _ _ _ _ _ _ _ Hp) as (Hids & _).
    rewrite <- Hids. apply Permutation_map, arraySort_perm.
  - intros Hlex pre a mid b post Hl Hsame. apply Hlex.
    exact (proj2 (Horder pre a mid b post Hl) Hsame).
Qed.

(** C2 at work under the English locale: alpha needs no update, zeta and
    beta do, beta stands before zeta. *)
Lemma candidates_order_witness :
  exists l,
    fst (PluginHub.checkInstalledPluginUpdates Scenario.updates Scenario.updatesStart)
      = Host.Ok l /\
    map Host.cand_pluginId l = ["beta"; "zeta"; "alpha"] /\
    forall pre a mid b post,
      l = pre ++ a :: mid ++ b :: post ->
      Host.cand_needsUpdate b = true -> Host.cand_needsUpdate a = true.
Proof.
  destruct (PluginHub.checkInstalledPluginUpdates Scenario.updates Scenario.updatesStart)
    as [[l | e] st'] eqn:Hrun; [| vm_compute in Hrun; discriminate].
  exists l. split; [reflexivity |].
  split; [vm_compute in Hrun; injection Hrun as <- _; reflexivity |].
  intros pre a mid b post Hl.
  destruct (candidates_order Scenario.updates Scenario.updatesStart l) as (H & _ & _).
  - exact english_consistent.
  - now rewrite Hrun.
  - exact (proj1 (H pre a mid b post Hl)).
Defined.

(** Under the English locale the plugins Zeta, alpha and Beta, none of
    which needs an update, are returned as alpha, Beta, Zeta: alpha stands
    before Beta, and in the lexicographic order of the ids it stands
    behind it. *)
Lemma candidates_order_counterexample :
  exists l,
    fst (PluginHub.checkInstalledPluginUpdates Scenario.mixedCase Scenario.start)
      = Host.Ok l /\
    map Host.cand_pluginId l = ["alpha"; "Beta"; "Zeta"] /\
    map Host.cand_needsUpdate l = [false; false; false] /\
    ~ Observe.lexicographic "alpha" "Beta".
Proof.
  eexists. split; [vm_compute; reflexivity |].
  split; [reflexivity |]. split; [reflexivity |].
  unfold Observe.lexicographic. vm_compute. intros H. now apply H.
Qed.

Section ResolutionFacts.

Import Host PluginHub Observe.
Variable w : World.







(** A name that is not inherited reads what the object owns. *)
Lemma objectGet_plain (m : gmap string RepoValue) (key : string) :
  JS.inherited key = false -> objectGet m key = m !! key.
Proof. unfold objectGet. intros ->. now destruct (m !! key). Qed.

End ResolutionFacts.



(** An installed plugin with the id constructor and no entry anywhere:
    [installedRepoMap] reads truthy under that id, so the plugin is
    reported as tracked, with the member of Object.prototype for its
    repository; detection is not asked and nothing is written. *)
Lemma check_inherited_id :
  let run := PluginHub.checkInstalledPluginUpdates Scenario.inheritedIds Scenario.start in
  map (fun c => (Host.cand_pluginId c, Host.cand_source c, Host.cand_repo c))
      (Scenario.candidatesOf run) =
    [("constructor", Host.tracked, Some (Host.Member "constructor"))] /\
  Observe.quiet (Host.trace (snd run)) = true /\
  Host.settings (snd run) = Scenario.defaultSettings.
Proof. vm_compute. repeat split. Qed.

Section InstallFacts.

Import Host PluginHub Observe.
Variable w : World.

Lemma grows_ret {A} (a : A) : grows (ret a).
Proof. intros st. exists []. simpl. now rewrite app_nil_r. Qed.

Lemma grows_throw {A} (e : Error) : grows (@throw A e).
Proof. intros st. exists []. simpl. now rewrite app_nil_r. Qed.

Lemma grows_call {A} (ev : Event) (answer : Trace -> Outcome A) : grows (call ev answer).
Proof. intros st. now exists [ev]. Qed.

Lemma grows_getSettings : grows getSettings.
Proof. intros st. exists []. simpl. now rewrite app_nil_r. Qed.

Lemma grows_setInstalledRepo (pluginId : string) (fullName : RepoValue) :
  grows (setInstalledRepo pluginId fullName).
Proof. intros st. exists []. simpl. now rewrite app_nil_r. Qed.

Lemma grows_bind {A B} (m : M A) (k : A -> M B) :
  grows m -> (forall a, grows (k a)) -> grows (bind m k).
Proof.
  intros Hm Hk st. unfold bind. destruct (Hm st) as [evs Hevs].
  destruct (m st) as [[a | e] st1]; simpl in *.
  - destruct (Hk a st1) as [evs' Hevs']. exists (evs ++ evs').
    now rewrite Hevs', Hevs, app_assoc.
  - now exists evs.
Qed.

Lemma grows_tryCatch {A} (m : M A) (h : Error -> M A) :
  grows m -> (forall e, grows (h e)) -> grows (tryCatch m h).
Proof.
  intros Hm Hh st. unfold tryCatch. destruct (Hm st) as [evs Hevs].
  destruct (m st) as [[a | e] st1]; simpl in *.
  - now exists evs.
  - destruct (Hh e st1) as [evs' Hevs']. exists (evs ++ evs').
    now rewrite Hevs', Hevs, app_assoc.
Qed.

Ltac grows_step :=
  first
    [ match goal with
      | |- forall _, _ => intro
      | |- grows (match ?x with _ => _ end) => destruct x
      | |- grows (if ?b then _ else _) => destruct b
      end
    | apply grows_ret | apply grows_throw | apply grows_call
    | apply grows_getSettings | apply grows_setInstalledRepo
    | apply grows_tryCatch | apply grows_bind ].

Lemma grows_scanSubfolders (parentPath : string) (subfolders targetVaults : list string) :
  grows (scanSubfolders w parentPath subfolders targetVaults).
Proof.
  revert targetVaults. induction subfolders as [| sub rest IH]; intros targetVaults;
    simpl; [apply grows_ret |].
  unfold fsExistsSync. repeat grows_step; apply IH.
Qed.

Lemma grows_scanParents (parents targetVaults : list string) :
  grows (scanParents w parents targetVaults).
Proof.
  revert targetVaults. induction parents as [| parentPath rest IH]; intros targetVaults;
    simpl; [apply grows_ret |].
  unfold fsExistsSync.
  apply grows_bind; [apply grows_call |]. intros [|]; [| apply IH].
  apply grows_bind; [apply grows_call |]. intros subfolders.
  apply grows_bind; [apply grows_scanSubfolders |]. intros; apply IH.
Qed.

Lemma grows_writeVault (pluginId : option string) (mainJs manifestContent : string)
    (stylesCss : bool) (stylesContent vaultPath : string) :
  grows (writeVault w pluginId mainJs manifestContent stylesCss stylesContent vaultPath).
Proof.
  unfold writeVault, joinWithId, fsExistsSync, fsWriteFileSync. repeat grows_step.
Qed.

Lemma grows_writeVaults (pluginId : option string) (mainJs manifestContent : string)
    (stylesCss : bool) (stylesContent : string) (targetVaults : list string) :
  grows (writeVaults w pluginId mainJs manifestContent stylesCss stylesContent targetVaults).
Proof.
  induction targetVaults as [| vaultPath rest IH]; simpl; [apply grows_ret |].
  apply grows_bind; [apply grows_writeVault | intros; apply IH].
Qed.

Lemma grows_deployToVaults (useParentDirs useSelectedVaults : bool)
    (pluginId : option string) (mainJs manifestContent : string)
    (stylesCss : bool) (stylesContent : string) :
  grows (deployToVaults w useParentDirs useSelectedVaults pluginId mainJs
           manifestContent stylesCss stylesContent).
Proof.
  unfold deployToVaults.
  apply grows_tryCatch; [| intro; repeat grows_step].
  apply grows_bind; [apply grows_call |]. intros _.
  apply grows_bind; [apply grows_getSettings |]. intros s.
  apply grows_bind.
  - destruct useParentDirs; [apply grows_scanParents | apply grows_ret].
  - intros targets. apply grows_bind; [apply grows_writeVaults | intros; apply grows_ret].
Qed.

(** What follows the check of the required assets. *)
Lemma install_run (fullName : RepoValue) (showNotice : bool) (st : State)
    (assets : list Asset) :
  latest_release w (trace st) (repoText w fullName) = Ok {| assets := Some assets |} ->
  match findAsset "main.js" assets, findAsset "manifest.json" assets with
  | Some mainJs, Some manifestJson =>
      exists evs,
        trace (snd (installPluginFromGithub w fullName showNotice st)) =
        trace st ++ GetLatestRelease (repoText w fullName) ::
                    Download (browser_download_url manifestJson) :: evs
  | _, _ =>
      installPluginFromGithub w fullName showNotice st =
      (Throw (mkError missingAssetsMessage),
       extend st [GetLatestRelease (repoText w fullName)])
  end.
Proof.
  intros Hrel.
  assert (Hstart : forall k : Release -> M unit,
    bind (GithubService.getLatestRelease w fullName) k st =
    k {| assets := Some assets |} (extend st [GetLatestRelease (repoText w fullName)])).
  { intros k. unfold bind, GithubService.getLatestRelease, call. cbv zeta.
    now rewrite Hrel. }
  unfold installPluginFromGithub. rewrite Hstart. cbn [Host.assets].
  destruct (findAsset "main.js" assets) as [mainJs |];
    destruct (findAsset "manifest.json" assets) as [manifestJson |];
    try reflexivity.
  set (st1 := extend st [GetLatestRelease (repoText w fullName)]).
  unfold bind at 1. unfold call at 1.
  set (st2 := {| trace := trace st1 ++ [Download (browser_download_url manifestJson)];
                 settings := settings st1 |}).
  destruct (download w (trace st1) (browser_download_url manifestJson)) as [resp | e].
  - match goal with
    | |- exists evs, trace (snd (?k st2)) = _ => assert (Hg : grows k)
    end.
    { unfold saveSettings, fsExistsSync.
      repeat first [ apply grows_deployToVaults | grows_step ]. }
    destruct (Hg st2) as [evs Hevs]. rewrite Hevs. exists evs.
    unfold st2, st1. cbn [trace extend]. now rewrite <- !app_assoc.
  - exists []. unfold st2, st1. cbn [trace snd extend]. now rewrite <- !app_assoc.
Qed.

Lemma findAsset_Some (name : string) (l : list Asset) :
  is_Some (findAsset name l) <-> exists a, In a l /\ asset_name a = name.
Proof.
  unfold findAsset. induction l as [| x r IH]; simpl.
  - split; [intros [a H]; discriminate | intros (a & [] & _)].
  - destruct (String.eqb_spec (asset_name x) name) as [Heq | Hne].
    + split; [intros _; exists x; auto | intros _; eauto].
    + rewrite IH. split.
      * intros (a & Hin & Ha). eauto.
      * intros (a & [<- | Hin] & Ha); [contradiction | eauto].
Qed.

Lemma writeVaults_stops (pluginId : option string) (mainJs manifestContent : string)
    (stylesCss : bool) (stylesContent : string) (pre : list string) (vaultPath : string)
    (post : list string) (st st1 st2 : State) (e : Error) :
  writeVaults w pluginId mainJs manifestContent stylesCss stylesContent pre st =
    (Ok tt, st1) ->
  writeVault w pluginId mainJs manifestContent stylesCss stylesContent vaultPath st1 =
    (Throw e, st2) ->
  writeVaults w pluginId mainJs manifestContent stylesCss stylesContent
    (pre ++ vaultPath :: post) st = (Throw e, st2).
Proof.
  revert st. induction pre as [| p pre IH]; intros st; simpl.
  - unfold ret. intros [= <-] Hv. unfold bind. now rewrite Hv.
  - unfold bind.
    destruct (writeVault w pluginId mainJs manifestContent stylesCss stylesContent p st)
      as [[[] | e'] st'].
    + apply IH.
    + discriminate.
Qed.

Lemma deployToVaults_total (useParentDirs useSelectedVaults : bool)
    (pluginId : option string) (mainJs manifestContent : string)
    (stylesCss : bool) (stylesContent : string) (st : State) :
  exists n st',
    deployToVaults w useParentDirs useSelectedVaults pluginId mainJs manifestContent
      stylesCss stylesContent st = (Ok n, st').
Proof.
  unfold deployToVaults, tryCatch.
  match goal with |- context [match ?m st with _ => _ end] => destruct (m st) as [[n | e] st1] end.
  - eauto.
  - unfold bind, call, ret. simpl. eauto.
Qed.

Lemma deployToVaults_selected (pluginId : option string) (mainJs manifestContent : string)
    (stylesCss : bool) (stylesContent : string) (st : State) :
  has_node_fs w = true ->
  deployToVaults w false true pluginId mainJs manifestContent stylesCss stylesContent st =
  match writeVaults w pluginId mainJs manifestContent stylesCss stylesContent
          (extraVaultPaths (settings st)) (extend st [RequireFs]) with
  | (Ok _, st2) => (Ok (length (extraVaultPaths (settings st))), st2)
  | (Throw e, st2) =>
      (Ok O, extend st2 [ConsoleError "Failed to copy to extra vaults:" e])
  end.
Proof.
  intros Hfs. unfold deployToVaults, tryCatch, bind, call, getSettings, ret, extend.
  rewrite Hfs. cbn [trace settings].
  destruct (writeVaults w pluginId mainJs manifestContent stylesCss stylesContent
              (extraVaultPaths (settings st)) _) as [[[] | e] st2]; reflexivity.
Qed.

(** The multi-vault block, whatever the install location: the targets
    are collected, then written, and the first error of either step is
    logged. *)
Lemma deployToVaults_run (useParentDirs useSelectedVaults : bool)
    (pluginId : option string) (mainJs manifestContent : string)
    (stylesCss : bool) (stylesContent : string) (st : State) :
  deployToVaults w useParentDirs useSelectedVaults pluginId mainJs manifestContent
    stylesCss stylesContent st =
  if has_node_fs w then
    match Deploy.targetVaults w useParentDirs useSelectedVaults (extend st [RequireFs]) with
    | (Ok targets, st1) =>
        match writeVaults w pluginId mainJs manifestContent stylesCss stylesContent
                targets st1 with
        | (Ok _, st2) => (Ok (length targets), st2)
        | (Throw e, st2) => (Ok O, extend st2 [ConsoleError Deploy.copyFailed e])
        end
    | (Throw e, st1) => (Ok O, extend st1 [ConsoleError Deploy.copyFailed e])
    end
  else (Ok O, extend st [RequireFs; ConsoleError Deploy.copyFailed Deploy.noFsModule]).
Proof.
  unfold deployToVaults, Deploy.targetVaults, tryCatch, bind, call, getSettings, ret,
    extend, Deploy.copyFailed, Deploy.noFsModule.
  destruct (has_node_fs w); cbn [trace settings].
  - destruct useParentDirs.
    + destruct (scanParents w _ _ _) as [[targets | e] st1]; [| reflexivity].
      destruct (writeVaults w pluginId mainJs manifestContent stylesCss stylesContent
                  targets st1) as [[[] | e] st2]; reflexivity.
    + destruct (writeVaults w pluginId mainJs manifestContent stylesCss stylesContent
                  _ _) as [[[] | e] st2]; reflexivity.
  - now rewrite <- app_assoc.
Qed.

Lemma deployToVaults_failure (useParentDirs useSelectedVaults : bool)
    (pluginId : option string) (mainJs manifestContent : string)
    (stylesCss : bool) (stylesContent : string) (st st1 st2 st3 : State)
    (pre : list string) (vaultPath : string) (post : list string) (e : Error) :
  has_node_fs w = true ->
  Deploy.targetVaults w useParentDirs useSelectedVaults (extend st [RequireFs]) =
    (Ok (pre ++ vaultPath :: post), st1) ->
  writeVaults w pluginId mainJs manifestContent stylesCss stylesContent pre st1 =
    (Ok tt, st2) ->
  writeVault w pluginId mainJs manifestContent stylesCss stylesContent vaultPath st2 =
    (Throw e, st3) ->
  deployToVaults w useParentDirs useSelectedVaults pluginId mainJs manifestContent
    stylesCss stylesContent st =
  (Ok O, extend st3 [ConsoleError Deploy.copyFailed e]).
Proof.
  intros Hfs Htargets Hpre Hv.
  rewrite deployToVaults_run, Hfs, Htargets.
  now rewrite (writeVaults_stops _ _ _ _ _ pre vaultPath post st1 st2 st3 e Hpre Hv).
Qed.

End InstallFacts.

(** C6 (as the code has it).  When the latest release is fetched,
    [installPluginFromGithub] stops with the missing-assets error, before any
    download or write, precisely when the release lacks main.js or lacks
    manifest.json; a release that carries both goes on to download its
    manifest. *)
Theorem install_required_assets (w : Host.World) (fullName : string)
    (showNotice : bool) (st : Host.State) (assets : list Host.Asset) :
  Host.latest_release w (Host.trace st) fullName =
    Host.Ok {| Host.assets := Some assets |} ->
  let run := PluginHub.installPluginFromGithub w (Host.Name fullName) showNotice st in
  let stopped :=
    (Host.Throw (Host.mkError PluginHub.missingAssetsMessage),
     Host.extend st [Host.GetLatestRelease fullName]) in
  let missing :=
    PluginHub.findAsset "main.js" assets = None \/
    PluginHub.findAsset "manifest.json" assets = None in
  (run = stopped <-> missing) /\
  (~ missing ->
   exists manifestJson evs,
     PluginHub.findAsset "manifest.json" assets = Some manifestJson /\
     Host.trace (snd run) =
       Host.trace st ++ Host.GetLatestRelease fullName ::
         Host.Download (Host.browser_download_url manifestJson) :: evs) /\
  (forall name,
     is_Some (PluginHub.findAsset name assets) <->
     exists a, In a assets /\ Host.asset_name a = name).
Proof.
  intros Hrel run stopped missing.
  pose proof (install_run w (Host.Name fullName) showNotice st assets Hrel) as Hrun.
  cbn [Host.repoText] in Hrun.
  fold run in Hrun. unfold missing.
  split; [| split; [| intros name; apply findAsset_Some]].
  - destruct (PluginHub.findAsset "main.js" assets) as [mainJs |];
      destruct (PluginHub.findAsset "manifest.json" assets) as [manifestJson |];
      try (split; [intros _; auto | intros _; exact Hrun]).
    destruct Hrun as [evs Hevs]. split.
    + intros Heq. rewrite Heq in Hevs. unfold stopped in Hevs. simpl in Hevs.
      apply app_inv_head in Hevs. discriminate.
    + intros [H | H]; discriminate.
  - intros Hpresent.
    destruct (PluginHub.findAsset "main.js" assets) as [mainJs |];
      [| exfalso; apply Hpresent; now left].
    destruct (PluginHub.findAsset "manifest.json" assets) as [manifestJson |];
      [| exfalso; apply Hpresent; now right].
    destruct Hrun as [evs Hevs]. eauto.
Qed.

(** C6 at work: a release with main.js only. *)
Lemma install_required_assets_witness :
  PluginHub.installPluginFromGithub Scenario.bundleOnly (Host.Name "o/alpha") true
    Scenario.start =
  (Host.Throw (Host.mkError PluginHub.missingAssetsMessage),
   Host.extend Scenario.start [Host.GetLatestRelease "o/alpha"]).
Proof.
  destruct (install_required_assets Scenario.bundleOnly "o/alpha" true Scenario.start
              [ {| Host.asset_name := "main.js";
                   Host.browser_download_url := "https://dl/o/alpha/main.js" |} ]
              eq_refl) as [H _].
  apply H. right. reflexivity.
Defined.

(** A release that carries one of the two required assets, main.js, still
    makes the installation fail with the missing-assets error. *)
Lemma install_required_assets_counterexample :
  Host.latest_release Scenario.bundleOnly [] "o/alpha" =
    Host.Ok {| Host.assets :=
                 Some [ {| Host.asset_name := "main.js";
                           Host.browser_download_url := "https://dl/o/alpha/main.js" |} ] |} /\
  fst (PluginHub.installPluginFromGithub Scenario.bundleOnly (Host.Name "o/alpha") true
         Scenario.start) =
    Host.Throw (Host.mkError PluginHub.missingAssetsMessage).
Proof. vm_compute. split; reflexivity. Qed.

(** C7 (as the code has it).  Under every install location the
    multi-vault block never raises an error to the caller.  It collects
    its targets, then writes them one after the other, and one handler
    stands for the whole: the loop stops at the first target whose
    directory creation or write throws, so the targets before it are
    written, the remaining writes of that target and all targets after it
    are not attempted, the error is logged once, as the last call of the
    block, and the count of extra vaults is 0.  An error while the targets
    are collected, or node's [fs] not being there, ends the block in the
    same way before anything is written; when nothing throws, every
    target is written and counted. *)
Theorem deploy_stops_at_failure (w : Host.World) (pluginId : option string)
    (mainJs manifestContent : string) (stylesCss : bool) (stylesContent : string) :
  (forall useParentDirs useSelectedVaults st,
     exists n st',
       PluginHub.deployToVaults w useParentDirs useSelectedVaults pluginId mainJs
         manifestContent stylesCss stylesContent st = (Host.Ok n, st')) /\
  (forall pre vaultPath post st st1 st2 e,
     PluginHub.writeVaults w pluginId mainJs manifestContent stylesCss stylesContent
       pre st = (Host.Ok tt, st1) ->
     PluginHub.writeVault w pluginId mainJs manifestContent stylesCss stylesContent
       vaultPath st1 = (Host.Throw e, st2) ->
     PluginHub.writeVaults w pluginId mainJs manifestContent stylesCss stylesContent
       (pre ++ vaultPath :: post) st = (Host.Throw e, st2)) /\
  (forall useParentDirs useSelectedVaults st st1 st2 st3 pre vaultPath post e,
     Host.has_node_fs w = true ->
     Deploy.targetVaults w useParentDirs useSelectedVaults
       (Host.extend st [Host.RequireFs]) = (Host.Ok (pre ++ vaultPath :: post), st1) ->
     PluginHub.writeVaults w pluginId mainJs manifestContent stylesCss stylesContent
       pre st1 = (Host.Ok tt, st2) ->
     PluginHub.writeVault w pluginId mainJs manifestContent stylesCss stylesContent
       vaultPath st2 = (Host.Throw e, st3) ->
     PluginHub.deployToVaults w useParentDirs useSelectedVaults pluginId mainJs
       manifestContent stylesCss stylesContent st =
     (Host.Ok O, Host.extend st3 [Host.ConsoleError Deploy.copyFailed e])) /\
  (forall useParentDirs useSelectedVaults st,
     PluginHub.deployToVaults w useParentDirs useSelectedVaults pluginId mainJs
       manifestContent stylesCss stylesContent st =
     if Host.has_node_fs w then
       match Deploy.targetVaults w useParentDirs useSelectedVaults
               (Host.extend st [Host.RequireFs]) with
       | (Host.Ok targets, st1) =>
           match PluginHub.writeVaults w pluginId mainJs manifestContent stylesCss
                   stylesContent targets st1 with
           | (Host.Ok _, st2) => (Host.Ok (length targets), st2)
           | (Host.Throw e, st2) =>
               (Host.Ok O, Host.extend st2 [Host.ConsoleError Deploy.copyFailed e])
           end
       | (Host.Throw e, st1) =>
           (Host.Ok O, Host.extend st1 [Host.ConsoleError Deploy.copyFailed e])
       end
     else
       (Host.Ok O,
        Host.extend st [Host.RequireFs;
                        Host.ConsoleError Deploy.copyFailed Deploy.noFsModule])).
Proof.
  split; [| split; [| split]].
  - intros. apply deployToVaults_total.
  - intros pre vaultPath post st st1 st2 e. apply writeVaults_stops.
  - intros useParentDirs useSelectedVaults st st1 st2 st3 pre vaultPath post e.
    apply deployToVaults_failure.
  - intros. apply deployToVaults_run.
Qed.

(** C7 at work under the location "all": /vaults/a cannot be written,
    /vaults/b is never tried, the error is logged and no vault counted. *)
Lemma deploy_stops_at_failure_witness :
  PluginHub.deployToVaults Scenario.brokenVault true true (Some "alpha") "bundle" "{}"
    false EmptyString Scenario.selectedStart =
  (Host.Ok O,
   Host.extend Scenario.selectedStart
     [Host.RequireFs;
      Host.FsExistsSync "/vaults/a/.obsidian/plugins/alpha";
      Host.FsMkdirSync "/vaults/a/.obsidian/plugins/alpha";
      Host.FsWriteFileSync "/vaults/a/.obsidian/plugins/alpha/main.js" "bundle";
      Host.ConsoleError Deploy.copyFailed Scenario.accessDenied]).
Proof.
  destruct (deploy_stops_at_failure Scenario.brokenVault (Some "alpha") "bundle" "{}"
              false EmptyString) as (_ & _ & H & _).
  rewrite (H true true Scenario.selectedStart
             (Host.extend Scenario.selectedStart [Host.RequireFs])
             (Host.extend Scenario.selectedStart [Host.RequireFs])
             (Host.extend Scenario.selectedStart
                [Host.RequireFs;
                 Host.FsExistsSync "/vaults/a/.obsidian/plugins/alpha";
                 Host.FsMkdirSync "/vaults/a/.obsidian/plugins/alpha";
                 Host.FsWriteFileSync "/vaults/a/.obsidian/plugins/alpha/main.js" "bundle"])
             [] "/vaults/a" ["/vaults/b"] Scenario.accessDenied);
    try (vm_compute; reflexivity).
Defined.

(** With two extra vaults of which the first cannot be written, the
    installation returns normally, the only write attempted is the failing
    one, and nothing is written to the second vault although the host would
    have accepted it. *)
Lemma deploy_counterexample :
  let run := PluginHub.installPluginFromGithub Scenario.brokenVault (Host.Name "o/alpha")
               true Scenario.selectedStart in
  fst run = Host.Ok tt /\
  Observe.fsWritesIn (Host.trace (snd run)) =
    ["/vaults/a/.obsidian/plugins/alpha/main.js"] /\
  Host.fs_writeFileSync Scenario.brokenVault (Host.trace (snd run))
    "/vaults/b/.obsidian/plugins/alpha/main.js" "bundle" = Host.Ok tt.
Proof. vm_compute. repeat split. Qed.

(* ================================================================== *)
(** * Further properties of the embedded code *)
(* ================================================================== *)

(** ** Versions *)

Section VersionMore.

Import Version.
Local Open Scope Z_scope.

Lemma split_nonempty (sep : ascii) (s : string) : JS.split sep s <> [].
Proof.
  destruct s as [| c r]; simpl; [discriminate |].
  destruct (Ascii.eqb c sep); [discriminate |].
  destruct (JS.split sep r); discriminate.
Qed.

Lemma split_app_sep (sep : ascii) (u t : string) :
  JS.split sep (u +:+ String sep t) = JS.split sep u ++ JS.split sep t.
Proof.
  induction u as [| c u IH]; simpl.
  - now rewrite Ascii.eqb_refl.
  - destruct (Ascii.eqb c sep); [now rewrite IH |].
    rewrite IH. pose proof (split_nonempty sep u) as Hne.
    destruct (JS.split sep u); [congruence | reflexivity].
Qed.

Lemma split_head_app (sep : ascii) (v t : string) :
  JS.includes t (String sep EmptyString) = false ->
  hd EmptyString (JS.split sep (v +:+ t)) =
  if JS.includes v (String sep EmptyString)
  then hd EmptyString (JS.split sep v) else v +:+ t.
Proof.
  intros Ht. induction v as [| c v IH].
  - simpl. now apply split_head_whole.
  - change (String c v +:+ t) with (String c (v +:+ t)).
    cbn [JS.split JS.includes JS.startsWith].
    rewrite andb_true_r, (Ascii.eqb_sym sep c).
    destruct (Ascii.eqb c sep); [reflexivity |]. cbn [orb].
    pose proof (split_nonempty sep (v +:+ t)) as H1.
    pose proof (split_nonempty sep v) as H2.
    destruct (JS.split sep (v +:+ t)) as [| h tl]; [congruence |].
    destruct (JS.split sep v) as [| h' tl']; [congruence |].
    simpl in *. destruct (JS.includes v (String sep EmptyString)); congruence.
Qed.

(** A trailing [.0] adds a zero component, or falls into the build suffix. *)
Lemma normalize_snoc_zero (v : string) :
  normalize (v +:+ ".0") = normalize v \/ normalize (v +:+ ".0") = normalize v ++ [0].
Proof.
  unfold normalize.
  rewrite (split_head_app "-" v ".0") by reflexivity.
  destruct (JS.includes v "-") eqn:Hv; [now left | right].
  rewrite (split_head_whole "-" v Hv).
  rewrite (split_app_sep "." v "0"), map_app. reflexivity.
Qed.

Lemma nth_snoc_zero (xs : list Z) (j : nat) : nth j (xs ++ [0]) 0 = nth j xs 0.
Proof.
  destruct (Nat.lt_ge_cases j (length xs)) as [Hlt | Hge].
  - now rewrite app_nth1.
  - rewrite (nth_overflow xs) by exact Hge.
    rewrite app_nth2 by exact Hge.
    destruct (j - length xs)%nat as [| [| k]]; reflexivity.
Qed.

Lemma compareVersions_snoc_zero (v w : string) :
  compareVersions (v +:+ ".0") w = compareVersions v w.
Proof.
  set (m := (S (length (normalize v)) + length (normalize w))%nat).
  assert (Hlen : (length (normalize (v +:+ ".0")) <= m)%nat).
  { destruct (normalize_snoc_zero v) as [-> | ->];
      rewrite ?length_app; simpl; lia. }
  rewrite (compareVersions_at m (v +:+ ".0") w), (compareVersions_at m v w)
    by (try exact Hlen; lia).
  apply compareLoop_ext; [| reflexivity].
  intros j. destruct (normalize_snoc_zero v) as [-> | ->];
    [reflexivity | apply nth_snoc_zero].
Qed.

Lemma compareVersions_flip (a b : string) :
  compareVersions b a = - compareVersions a b.
Proof.
  unfold compareVersions. rewrite (Nat.max_comm (length (normalize b))).
  apply compareLoop_antisym.
Qed.

Lemma parseInt10_no_number (c : ascii) (r : string) :
  Shape.startsNoNumber c = true -> c <> "-"%char ->
  JS.parseInt10 (String c r) = None.
Proof.
  unfold Shape.startsNoNumber. intros H Hminus.
  apply andb_true_iff in H as [H Hplus]. apply andb_true_iff in H as [Hd Hws].
  apply negb_true_iff in Hd, Hws, Hplus. apply Ascii.eqb_neq in Hplus.
  unfold JS.parseInt10, JS.trimStart. cbn [JS.dropStart]. rewrite Hws.
  assert (Hc : match String c r with
               | String "-" r0 => (-1, r0)
               | String "+" r0 => (1, r0)
               | _ => (1, String c r)
               end = (1, String c r)).
  { destruct c as [[] [] [] [] [] [] [] []]; try reflexivity; congruence. }
  rewrite Hc. cbn [JS.takeDigits JS.takeWhile]. now rewrite Hd.
Qed.

End VersionMore.

(** X1.  [compareVersions] compares a version with itself as equal, and a
    trailing [.0] on either argument never changes the result: it adds a
    zero component, or falls into the build suffix that is dropped. *)
Theorem compareVersions_trailing_zero :
  (forall v, Version.compareVersions v v = 0%Z) /\
  (forall v w, Version.compareVersions (v +:+ ".0") w = Version.compareVersions v w) /\
  (forall v w, Version.compareVersions v (w +:+ ".0") = Version.compareVersions v w).
Proof.
  split; [| split].
  - intros v. pose proof (compareVersions_flip v v). lia.
  - apply compareVersions_snoc_zero.
  - intros v w.
    rewrite (compareVersions_flip (w +:+ ".0") v), compareVersions_snoc_zero.
    rewrite (compareVersions_flip w v). lia.
Qed.

Section VersionPrefix.

Import Version.
Local Open Scope Z_scope.

Lemma split_cons_head (sep c : ascii) (a : string) :
  Ascii.eqb c sep = false ->
  exists h tl, JS.split sep (String c a) = String c h :: tl.
Proof.
  intros Hc. cbn [JS.split]. rewrite Hc.
  destruct (JS.split sep a) as [| h tl]; eauto.
Qed.

(** The major component of a version that starts with no number is 0. *)
Lemma normalize_no_number (c : ascii) (a : string) :
  Shape.startsNoNumber c = true ->
  exists tl, normalize (String c a) = 0 :: tl.
Proof.
  intros Hc. unfold normalize.
  destruct (Ascii.eqb c "-") eqn:Hminus.
  - apply Ascii.eqb_eq in Hminus as ->. cbn [JS.split Ascii.eqb]. simpl. eauto.
  - destruct (split_cons_head "-" c a Hminus) as (h & tl & ->). cbn [hd].
    destruct (Ascii.eqb c ".") eqn:Hdot.
    + apply Ascii.eqb_eq in Hdot as ->. cbn [JS.split Ascii.eqb]. simpl. eauto.
    + destruct (split_cons_head "." c h Hdot) as (h' & tl' & ->).
      cbn [map]. rewrite parseInt10_no_number; [simpl; eauto | exact Hc |].
      intros ->. discriminate.
Qed.

End VersionPrefix.

(** X2.  A version whose first character is neither a digit, white space
    nor a plus sign (a leading [v], say) has major component 0 for
    [compareVersions]: whatever follows, it is older than every version
    with a positive major component, and that one is newer than it. *)
Theorem compareVersions_no_number (c : ascii) (a b : string) :
  Shape.startsNoNumber c = true ->
  (0 < hd 0 (Version.normalize b))%Z ->
  Version.compareVersions (String c a) b = (-1)%Z /\
  Version.compareVersions b (String c a) = 1%Z.
Proof.
  intros Hc Hb.
  assert (H : Version.compareVersions (String c a) b = (-1)%Z).
  { unfold Version.compareVersions.
    destruct (normalize_no_number c a Hc) as [tl ->].
    destruct (Version.normalize b) as [| y ys]; [simpl in Hb; lia |].
    cbn [length Nat.max Version.compareLoop nth hd] in *.
    destruct (Z.ltb_spec 0 y); [reflexivity | lia]. }
  split; [exact H |]. rewrite compareVersions_flip, H. reflexivity.
Qed.

Lemma compareVersions_no_number_witness :
  Version.compareVersions "v2.0.0" "1.9.0" = (-1)%Z /\
  Version.compareVersions "1.9.0" "v2.0.0" = 1%Z.
Proof.
  apply (compareVersions_no_number "v" "2.0.0" "1.9.0");
    [reflexivity | vm_compute; reflexivity].
Defined.

(** ** Repository tokens and owners *)

Section TokenFacts.

Import Repo Shape.

Lemma tokenChar_cases (c : ascii) :
  isTokenChar c = true -> JS.lowerChar c = c /\
  (JS.isLowerAlnum c = false -> c = "-"%char).
Proof.
  destruct c as [[] [] [] [] [] [] [] []]; vm_compute; intros H;
    try discriminate; split; congruence.
Qed.

Lemma startsWith_hyphen (s : string) :
  JS.startsWith "-" s = match s with String c _ => isHyphen c | EmptyString => false end.
Proof.
  destruct s as [| c r]; [reflexivity |]. cbn [JS.startsWith].
  unfold isHyphen. now rewrite andb_true_r, Ascii.eqb_sym.
Qed.

Lemma replaceRuns_chars (b : bool) (s : string) :
  allChars isTokenChar (replaceRuns b s) = true.
Proof.
  revert b. induction s as [| c r IH]; intros b; simpl; [reflexivity |].
  destruct (JS.isLowerAlnum c) eqn:Hc; simpl.
  - unfold isTokenChar at 1. rewrite Hc. apply IH.
  - destruct b; simpl; apply IH.
Qed.

Lemma replaceRuns_single (b : bool) (s : string) :
  noDoubleHyphen (replaceRuns b s) = true /\
  (b = true -> JS.startsWith "-" (replaceRuns b s) = false).
Proof.
  revert b. induction s as [| c r IH]; intros b; cbn [replaceRuns];
    [split; reflexivity |].
  destruct (JS.isLowerAlnum c) eqn:Hc.
  - cbn [noDoubleHyphen]. rewrite (alnum_not_hyphen c Hc).
    destruct (IH false) as [IH1 _]. rewrite IH1. split; [reflexivity |].
    intros _. rewrite startsWith_hyphen. now apply alnum_not_hyphen.
  - destruct b.
    + apply IH.
    + destruct (IH true) as [IH1 IH2]. cbn [noDoubleHyphen].
      rewrite IH2, IH1 by reflexivity. rewrite andb_false_r.
      split; [reflexivity | discriminate].
Qed.

Lemma dropStart_allChars (p q : ascii -> bool) (s : string) :
  allChars q s = true -> allChars q (JS.dropStart p s) = true.
Proof.
  induction s as [| c r IH]; simpl; [auto |].
  intros H. apply andb_true_iff in H as [H1 H2].
  destruct (p c); [auto |]. simpl. now rewrite H1, H2.
Qed.

Lemma dropEnd_allChars (p q : ascii -> bool) (s : string) :
  allChars q s = true -> allChars q (JS.dropEnd p s) = true.
Proof.
  induction s as [| c r IH]; simpl; [auto |].
  intros H. apply andb_true_iff in H as [H1 H2].
  destruct (p c && _); [reflexivity |]. simpl. now rewrite H1, IH.
Qed.

Lemma dropStart_single (p : ascii -> bool) (s : string) :
  noDoubleHyphen s = true -> noDoubleHyphen (JS.dropStart p s) = true.
Proof.
  induction s as [| c r IH]; [auto |].
  intros H. cbn [JS.dropStart]. destruct (p c); [| exact H].
  apply IH. cbn [noDoubleHyphen] in H. now apply andb_true_iff in H as [_ H].
Qed.

Lemma dropEnd_keeps_head (p : ascii -> bool) (s : string) (a : ascii) (t : string) :
  JS.dropEnd p s = String a t -> exists t', s = String a t'.
Proof.
  destruct s as [| c r]; simpl; [discriminate |].
  destruct (p c && _); [discriminate |]. intros [= <- _]. eauto.
Qed.

Lemma dropEnd_single (p : ascii -> bool) (s : string) :
  noDoubleHyphen s = true -> noDoubleHyphen (JS.dropEnd p s) = true.
Proof.
  induction s as [| c r IH]; [auto |].
  intros H. cbn [noDoubleHyphen] in H. apply andb_true_iff in H as [H1 H2].
  cbn [JS.dropEnd]. destruct (p c && _); [reflexivity |].
  cbn [noDoubleHyphen]. rewrite (IH H2), andb_true_r.
  destruct (isHyphen c); [| reflexivity]. cbn [andb] in *.
  rewrite startsWith_hyphen in *.
  destruct (JS.dropEnd p r) as [| a t] eqn:Hd; [reflexivity |].
  apply dropEnd_keeps_head in Hd as [t' ->]. exact H1.
Qed.

Lemma dropEnd_no_last (s : string) :
  JS.endsWithChar "-" (JS.dropEnd isHyphen s) = false.
Proof.
  induction s as [| c r IH]; [reflexivity |]. cbn [JS.dropEnd].
  destruct (JS.dropEnd isHyphen r) as [| a t] eqn:Hd.
  - cbn [JS.isEmpty]. rewrite andb_true_r.
    destruct (isHyphen c) eqn:Hc; [reflexivity |]. exact Hc.
  - cbn [JS.isEmpty]. rewrite andb_false_r.
    change (JS.endsWithChar "-" (String c (String a t)))
      with (JS.endsWithChar "-" (String a t)). exact IH.
Qed.

Lemma stripHyphens_no_first (s : string) :
  JS.startsWith "-" (stripHyphens s) = false.
Proof.
  rewrite startsWith_hyphen.
  destruct (stripHyphens s) as [| c r] eqn:Hs; [reflexivity |].
  now apply stripHyphens_head in Hs.
Qed.

Lemma specToken_wellFormed (s : string) : wellFormedToken (specToken s) = true.
Proof.
  unfold wellFormedToken, specToken.
  rewrite stripHyphens_no_first. unfold stripHyphens.
  rewrite dropEnd_no_last.
  rewrite dropEnd_allChars by (apply dropStart_allChars, replaceRuns_chars).
  rewrite dropEnd_single by (apply dropStart_single, replaceRuns_single).
  reflexivity.
Qed.

Lemma toLowerCase_token (t : string) :
  allChars isTokenChar t = true -> JS.toLowerCase t = t.
Proof.
  induction t as [| c r IH]; simpl; [reflexivity |].
  intros H. apply andb_true_iff in H as [H1 H2].
  destruct (tokenChar_cases c H1) as [-> _]. now rewrite IH.
Qed.

Lemma replaceRuns_token (b : bool) (t : string) :
  allChars isTokenChar t = true -> noDoubleHyphen t = true ->
  (b = true -> JS.startsWith "-" t = false) ->
  replaceRuns b t = t.
Proof.
  revert b. induction t as [| c r IH]; intros b Hc Hs Hb; [reflexivity |].
  cbn [allChars noDoubleHyphen] in Hc, Hs.
  apply andb_true_iff in Hc as [Hc1 Hc2]. apply andb_true_iff in Hs as [Hs1 Hs2].
  cbn [replaceRuns]. destruct (JS.isLowerAlnum c) eqn:Hal.
  - f_equal. apply IH; [assumption | assumption | discriminate].
  - destruct (tokenChar_cases c Hc1) as [_ Hh]. specialize (Hh Hal). subst c.
    destruct b; [specialize (Hb eq_refl); discriminate |].
    f_equal. apply IH; [assumption | assumption |].
    intros _. apply negb_true_iff in Hs1. exact Hs1.
Qed.

Lemma dropEnd_fixed (t : string) :
  JS.endsWithChar "-" t = false -> JS.dropEnd isHyphen t = t.
Proof.
  induction t as [| c r IH]; [reflexivity |]. intros H.
  cbn [JS.dropEnd]. destruct r as [| a r'].
  - cbn [JS.dropEnd JS.isEmpty]. cbn in H. unfold isHyphen. now rewrite H.
  - rewrite IH by exact H. cbn [JS.isEmpty]. now rewrite andb_false_r.
Qed.

Lemma specToken_fixed (t : string) : wellFormedToken t = true -> specToken t = t.
Proof.
  unfold wellFormedToken. intros H.
  apply andb_true_iff in H as [H H4]. apply andb_true_iff in H as [H H3].
  apply andb_true_iff in H as [H1 H2]. apply negb_true_iff in H3, H4.
  unfold specToken. rewrite (toLowerCase_token t H1).
  rewrite (replaceRuns_token false t H1 H2) by discriminate.
  unfold stripHyphens.
  assert (Hd : JS.dropStart isHyphen t = t).
  { rewrite startsWith_hyphen in H3. destruct t as [| c r]; [reflexivity |].
    cbn [JS.dropStart]. now rewrite H3. }
  rewrite Hd. now apply dropEnd_fixed.
Qed.

Lemma filter_dropStart (p : ascii -> bool) (s : string) :
  JS.filterChars (fun c => negb (p c)) (JS.dropStart p s) =
  JS.filterChars (fun c => negb (p c)) s.
Proof.
  induction s as [| c r IH]; simpl; [reflexivity |].
  destruct (p c) eqn:Hp; simpl; [exact IH | now rewrite Hp].
Qed.

Lemma filter_dropEnd (p : ascii -> bool) (s : string) :
  JS.filterChars (fun c => negb (p c)) (JS.dropEnd p s) =
  JS.filterChars (fun c => negb (p c)) s.
Proof.
  induction s as [| c r IH]; simpl; [reflexivity |].
  destruct (p c) eqn:Hp; simpl.
  - destruct (JS.dropEnd p r) eqn:Hd; simpl in *; rewrite ?Hp; simpl; exact IH.
  - rewrite Hp. simpl. now rewrite IH.
Qed.

Lemma filter_replaceRuns (b : bool) (s : string) :
  JS.filterChars (fun c => negb (isHyphen c)) (replaceRuns b s) =
  JS.filterChars JS.isLowerAlnum s.
Proof.
  revert b. induction s as [| c r IH]; intros b; simpl; [reflexivity |].
  destruct (JS.isLowerAlnum c) eqn:Hc; simpl.
  - rewrite (alnum_not_hyphen c Hc). simpl. now rewrite IH.
  - destruct b; simpl; apply IH.
Qed.

Lemma specCompact_filter (s : string) :
  specCompact s = JS.filterChars JS.isLowerAlnum (JS.toLowerCase s).
Proof.
  unfold specCompact, specToken, stripHyphens.
  now rewrite filter_dropEnd, filter_dropStart, filter_replaceRuns.
Qed.

End TokenFacts.

(** X3.  The token that [normalizeRepoToken] returns consists of a-z, 0-9
    and single hyphens, none of them first or last; and every non-empty
    string of that shape is returned unchanged, so normalising a token a
    second time changes nothing. *)
Theorem normalizeRepoToken_shape :
  (forall s t, Repo.normalizeRepoToken (Some s) = Some t ->
               Shape.wellFormedToken t = true) /\
  (forall t, Shape.wellFormedToken t = true -> t <> EmptyString ->
             Repo.normalizeRepoToken (Some t) = Some t).
Proof.
  split.
  - intros s t. unfold Repo.normalizeRepoToken.
    destruct (JS.isEmpty s); [discriminate |].
    rewrite normalize_without_trim. intros [= <-]. apply specToken_wellFormed.
  - intros t Ht Hne. unfold Repo.normalizeRepoToken.
    destruct t as [| c r]; [congruence |]. cbn [JS.isEmpty].
    rewrite normalize_without_trim. f_equal. now apply specToken_fixed.
Qed.

Lemma normalizeRepoToken_shape_witness :
  Shape.wellFormedToken "my-cool-plugin" = true /\
  Repo.normalizeRepoToken (Some "my-cool-plugin") = Some "my-cool-plugin".
Proof.
  destruct normalizeRepoToken_shape as [H1 H2]. split.
  - apply (H1 "  My_Cool  Plugin!"). vm_compute. reflexivity.
  - apply H2; [vm_compute; reflexivity | discriminate].
Defined.

(** X4.  [compactRepoToken] returns the lowercased input with every
    character outside a-z and 0-9 removed, and nothing when that is
    empty. *)
Theorem compactRepoToken_filter (s : string) :
  Repo.compactRepoToken (Some s) =
  Repo.someIfNonEmpty (JS.filterChars JS.isLowerAlnum (JS.toLowerCase s)).
Proof.
  rewrite <- specCompact_filter.
  unfold Repo.compactRepoToken, Repo.normalizeRepoToken.
  destruct s as [| c r]; [reflexivity |]. cbn [JS.isEmpty].
  rewrite normalize_without_trim.
  fold (Repo.specCompact (String c r)). unfold Repo.someIfNonEmpty.
  destruct (JS.isEmpty (Repo.specToken (String c r))) eqn:He.
  - unfold Repo.specCompact.
    destruct (Repo.specToken (String c r)); [reflexivity | discriminate].
  - now rewrite (compact_nonempty _ He).
Qed.

Section OwnerFacts.

Import Repo Shape.

Lemma takeWhile_allChars (p : ascii -> bool) (s : string) :
  allChars p (JS.takeWhile p s) = true.
Proof.
  induction s as [| c r IH]; simpl; [reflexivity |].
  destruct (p c) eqn:Hp; simpl; [now rewrite Hp | reflexivity].
Qed.

Lemma takeWhile_app (p : ascii -> bool) (s tail : string) :
  allChars p s = true ->
  JS.takeWhile p tail = EmptyString ->
  JS.takeWhile p (s +:+ tail) = s.
Proof.
  intros Hs Ht. induction s as [| c r IH]; simpl in *; [exact Ht |].
  apply andb_true_iff in Hs as [H1 H2]. now rewrite H1, IH.
Qed.

Lemma takeWhile_tail (tail : string) :
  tail = EmptyString \/ JS.startsWith "/" tail = true ->
  JS.takeWhile notSlash tail = EmptyString.
Proof.
  intros [-> | H]; [reflexivity |].
  destruct tail as [| c r]; [reflexivity |].
  cbn [JS.startsWith JS.takeWhile] in *.
  apply andb_true_iff in H as [H _]. unfold notSlash.
  rewrite Ascii.eqb_sym in H. now rewrite H.
Qed.

Lemma someIfNonEmpty_Some (s o : string) :
  someIfNonEmpty s = Some o -> o = s /\ s <> EmptyString.
Proof.
  unfold someIfNonEmpty. destruct s; simpl; [discriminate |].
  intros [= <-]. split; [reflexivity | discriminate].
Qed.

Lemma matchOwnerAt_shape (s o : string) :
  matchOwnerAt s = Some o -> o <> EmptyString /\ allChars notSlash o = true.
Proof.
  unfold matchOwnerAt.
  destruct (JS.startsWithCI "github.com/" s); [| discriminate].
  set (rest := JS.dropChars 11 s).
  assert (Hplain : someIfNonEmpty (JS.takeWhile notSlash rest) = Some o ->
                   o <> EmptyString /\ allChars notSlash o = true).
  { intros H. apply someIfNonEmpty_Some in H as [-> Hne].
    split; [exact Hne | apply takeWhile_allChars]. }
  destruct (JS.startsWithCI "users/" rest); [| exact Hplain].
  destruct (JS.takeWhile notSlash (JS.dropChars 6 rest)) as [| c r] eqn:Hname;
    [exact Hplain |].
  intros [= <-]. split; [discriminate |].
  rewrite <- Hname. apply takeWhile_allChars.
Qed.

Lemma matchOwner_shape (s o : string) :
  matchOwner s = Some o -> o <> EmptyString /\ allChars notSlash o = true.
Proof.
  induction s as [| c r IH]; cbn [matchOwner].
  - destruct (matchOwnerAt EmptyString) eqn:Hm; [| discriminate].
    intros [= <-]. now apply matchOwnerAt_shape in Hm.
  - destruct (matchOwnerAt (String c r)) eqn:Hm; [| exact IH].
    intros [= <-]. now apply matchOwnerAt_shape in Hm.
Qed.

Lemma matchOwner_https (rest : string) :
  matchOwner ("https://" +:+ rest) = matchOwner rest.
Proof. reflexivity. Qed.

Lemma matchOwner_here (s o : string) :
  matchOwnerAt s = Some o -> matchOwner s = Some o.
Proof. intros H. destruct s; cbn [matchOwner]; now rewrite H. Qed.

End OwnerFacts.

(** X5.  The owner that [parseGithubOwnerFromAuthorUrl] extracts is never
    empty and never contains a slash.  From
    [https://github.com/<owner><tail>] it extracts [<owner>], and from
    [https://github.com/users/<owner><tail>] as well, when [<owner>] is
    non-empty and slash-free and [<tail>] is empty or starts with a
    slash (in the first form, unless the path itself starts with
    [users/]). *)
Theorem parseGithubOwner_spec :
  (forall u o, Repo.parseGithubOwnerFromAuthorUrl u = Some o ->
     o <> EmptyString /\ Shape.allChars Repo.notSlash o = true) /\
  (forall owner tail,
     owner <> EmptyString -> Shape.allChars Repo.notSlash owner = true ->
     tail = EmptyString \/ JS.startsWith "/" tail = true ->
     (JS.startsWithCI "users/" (owner +:+ tail) = false ->
      Repo.parseGithubOwnerFromAuthorUrl
        (Some ("https://github.com/" +:+ owner +:+ tail)) = Some owner) /\
     Repo.parseGithubOwnerFromAuthorUrl
       (Some ("https://github.com/users/" +:+ owner +:+ tail)) = Some owner).
Proof.
  split.
  - intros [u |] o; cbn [Repo.parseGithubOwnerFromAuthorUrl]; [| discriminate].
    destruct (JS.isEmpty u); [discriminate |]. apply matchOwner_shape.
  - intros owner tail Hne Hchars Htail.
    pose proof (takeWhile_app Repo.notSlash owner tail Hchars
                  (takeWhile_tail tail Htail)) as Htake.
    split.
    + intros Husers. cbn [Repo.parseGithubOwnerFromAuthorUrl].
      change (JS.isEmpty ("https://github.com/" +:+ owner +:+ tail)) with false.
      cbv iota.
      change ("https://github.com/" +:+ owner +:+ tail)
        with ("https://" +:+ ("github.com/" +:+ owner +:+ tail)).
      rewrite matchOwner_https. apply matchOwner_here.
      unfold Repo.matchOwnerAt.
      change (JS.startsWithCI "github.com/" ("github.com/" +:+ owner +:+ tail))
        with true. cbv iota.
      change (JS.dropChars 11 ("github.com/" +:+ owner +:+ tail))
        with (owner +:+ tail).
      rewrite Husers, Htake. unfold Repo.someIfNonEmpty.
      destruct owner; [congruence | reflexivity].
    + cbn [Repo.parseGithubOwnerFromAuthorUrl].
      change (JS.isEmpty ("https://github.com/users/" +:+ owner +:+ tail)) with false.
      cbv iota.
      change ("https://github.com/users/" +:+ owner +:+ tail)
        with ("https://" +:+ ("github.com/users/" +:+ owner +:+ tail)).
      rewrite matchOwner_https. apply matchOwner_here.
      unfold Repo.matchOwnerAt.
      change (JS.startsWithCI "github.com/" ("github.com/users/" +:+ owner +:+ tail))
        with true. cbv iota.
      change (JS.dropChars 11 ("github.com/users/" +:+ owner +:+ tail))
        with ("users/" +:+ owner +:+ tail).
      change (JS.startsWithCI "users/" ("users/" +:+ owner +:+ tail)) with true.
      cbv iota.
      change (JS.dropChars 6 ("users/" +:+ owner +:+ tail)) with (owner +:+ tail).
      rewrite Htake. destruct owner; [congruence | reflexivity].
Qed.

Lemma parseGithubOwner_spec_witness :
  Repo.parseGithubOwnerFromAuthorUrl (Some "https://github.com/PixeroJan/") =
    Some "PixeroJan" /\
  Repo.parseGithubOwnerFromAuthorUrl (Some "https://github.com/users/PixeroJan") =
    Some "PixeroJan" /\
  Shape.allChars Repo.notSlash "PixeroJan" = true.
Proof.
  destruct parseGithubOwner_spec as [H1 H2].
  destruct (H2 "PixeroJan" "/" ltac:(discriminate) eq_refl (or_intror eq_refl))
    as [Ha _].
  destruct (H2 "PixeroJan" EmptyString ltac:(discriminate) eq_refl (or_introl eq_refl))
    as [_ Hb].
  split; [exact (Ha eq_refl) | split; [exact Hb |]].
  exact (proj2 (H1 _ _ Hb)).
Defined.

(** ** Which calls a computation makes *)

Section EmitsFacts.

Import Host Trail.
Context (I : PluginSettings -> Prop) (allowed : Kind -> bool).

Lemma only_app (a : Kind -> bool) (xs ys : list Event) :
  only a (xs ++ ys) = only a xs && only a ys.
Proof. apply forallb_app. Qed.

Lemma only_weaken (a a' : Kind -> bool) (evs : list Event) :
  (forall k, a k = true -> a' k = true) -> only a evs = true -> only a' evs = true.
Proof.
  intros Hk. unfold only. rewrite !forallb_forall. intros H ev Hin. auto.
Qed.

Lemma emits_ret {A} (a : A) : emits I allowed (ret a).
Proof. intros st HI. exists []. simpl. now rewrite app_nil_r. Qed.

Lemma emits_throw {A} (e : Error) : emits I allowed (@throw A e).
Proof. intros st HI. exists []. simpl. now rewrite app_nil_r. Qed.

Lemma emits_lift {A} (o : Outcome A) : emits I allowed (CommunityArchiveService.lift o).
Proof. intros st HI. exists []. simpl. now rewrite app_nil_r. Qed.

Lemma emits_call {A} (ev : Event) (answer : Trace -> Outcome A) :
  allowed (kind ev) = true -> emits I allowed (call ev answer).
Proof.
  intros Hev st HI. exists [ev]. simpl. rewrite Hev. auto.
Qed.

Lemma emits_bind {A B} (m : M A) (k : A -> M B) :
  emits I allowed m -> (forall a, emits I allowed (k a)) ->
  emits I allowed (bind m k).
Proof.
  intros Hm Hk st HI. unfold bind.
  destruct (Hm st HI) as (evs & Ht & Ho & HI1).
  destruct (m st) as [[a | e] st1]; simpl in *.
  - destruct (Hk a st1 HI1) as (evs' & Ht' & Ho' & HI2).
    exists (evs ++ evs'). rewrite Ht', Ht, app_assoc, only_app, Ho, Ho'. auto.
  - exists evs. auto.
Qed.

Lemma emits_tryCatch {A} (m : M A) (h : Error -> M A) :
  emits I allowed m -> (forall e, emits I allowed (h e)) ->
  emits I allowed (tryCatch m h).
Proof.
  intros Hm Hh st HI. unfold tryCatch.
  destruct (Hm st HI) as (evs & Ht & Ho & HI1).
  destruct (m st) as [[a | e] st1]; simpl in *.
  - exists evs. auto.
  - destruct (Hh e st1 HI1) as (evs' & Ht' & Ho' & HI2).
    exists (evs ++ evs'). rewrite Ht', Ht, app_assoc, only_app, Ho, Ho'. auto.
Qed.

(** What is read from the settings satisfies [I]. *)
Lemma emits_getSettings {B} (k : PluginSettings -> M B) :
  (forall s, I s -> emits I allowed (k s)) ->
  emits I allowed (bind getSettings k).
Proof. intros Hk st HI. unfold bind, getSettings. now apply Hk. Qed.

Lemma emits_setInstalledRepo (pluginId : string) (fullName : RepoValue) :
  (forall s, I s -> I (withRepo s pluginId fullName)) ->
  emits I allowed (setInstalledRepo pluginId fullName).
Proof.
  intros Hw st HI. exists []. simpl. rewrite app_nil_r. auto.
Qed.

Lemma emits_state {A} (f : State -> A) :
  emits I allowed (fun st => (Ok (f st), st)).
Proof. intros st HI. exists []. simpl. now rewrite app_nil_r. Qed.

End EmitsFacts.

Lemma emits_weaken {A} (I : Host.PluginSettings -> Prop)
    (a a' : Trail.Kind -> bool) (m : Host.M A) :
  (forall k, a k = true -> a' k = true) ->
  Trail.emits I a m -> Trail.emits I a' m.
Proof.
  intros Hk Hm st HI. destruct (Hm st HI) as (evs & Ht & Ho & HI1).
  exists evs. split; [exact Ht |]. split; [| exact HI1].
  now apply (only_weaken a a').
Qed.

(** One step of a proof that a computation only makes allowed calls. *)
Ltac emits_step :=
  match goal with
  | |- forall _, _ => intro
  | |- Trail.emits _ _ (Host.ret _) => apply emits_ret
  | |- Trail.emits _ _ (Host.throw _) => apply emits_throw
  | |- Trail.emits _ _ (fun st => (Host.Ok _, st)) => apply emits_state
  | |- Trail.emits _ _ (CommunityArchiveService.lift _) => apply emits_lift
  | |- Trail.emits _ _ (Host.call _ _) => apply emits_call; reflexivity
  | |- Trail.emits _ _ (Host.bind Host.getSettings _) => apply emits_getSettings
  | |- Trail.emits _ _ (Host.bind _ _) => apply emits_bind
  | |- Trail.emits _ _ (Host.tryCatch _ _) => apply emits_tryCatch
  | |- Trail.emits _ _ (match ?x with _ => _ end) => destruct x
  | |- Trail.emits _ _ (if ?x then _ else _) => destruct x
  end.

Create HintDb emits discriminated.

Ltac emits_go := repeat first [ solve [eauto 3 with emits] | emits_step ].

Section CallFacts.

Import Host PluginHub Trail.
Variable w : World.
Context (I : PluginSettings -> Prop).
Hypothesis HI : forall s p f, I s -> I (withRepo s p f).

Lemma emits_repoMatchesPluginId (fullName pluginId : string) :
  emits I detectionCalls (repoMatchesPluginId w fullName pluginId).
Proof. unfold repoMatchesPluginId. emits_go. Qed.
#[local] Hint Resolve emits_repoMatchesPluginId : emits.

Lemma emits_firstMatching (pluginId : string) (repos : list string) :
  emits I detectionCalls (firstMatching w pluginId repos).
Proof. induction repos as [| r rest IH]; cbn [firstMatching]; emits_go. Qed.
#[local] Hint Resolve emits_firstMatching : emits.

Lemma emits_findRepoByKnownPatterns (pluginId : string) (manifest : Manifest) :
  emits I detectionCalls (findRepoByKnownPatterns w pluginId manifest).
Proof. unfold findRepoByKnownPatterns. emits_go. Qed.
#[local] Hint Resolve emits_findRepoByKnownPatterns : emits.

Lemma emits_searchPlugins (query sort : string) :
  emits I detectionCalls (GithubService.searchPlugins w query sort).
Proof. unfold GithubService.searchPlugins. emits_go. Qed.
#[local] Hint Resolve emits_searchPlugins : emits.

Lemma emits_searchLoop (pluginId : string) (queries : list string) (rateLimited : bool) :
  emits I detectionCalls (searchLoop w pluginId queries rateLimited).
Proof.
  revert rateLimited.
  induction queries as [| q rest IH]; intros rateLimited; cbn [searchLoop]; emits_go.
Qed.
#[local] Hint Resolve emits_searchLoop : emits.

Lemma emits_findRepoByManifestId (pluginId : string) (manifest : Manifest) :
  emits I detectionCalls (findRepoByManifestId w pluginId manifest).
Proof. unfold findRepoByManifestId. emits_go. Qed.

Lemma emits_detection (pluginId : string) (manifest : Manifest) :
  emits I passCalls (findRepoByManifestId w pluginId manifest).
Proof.
  apply (emits_weaken I detectionCalls); [| apply emits_findRepoByManifestId].
  intros []; simpl; congruence.
Qed.
#[local] Hint Resolve emits_detection : emits.

Lemma emits_getInstalled (pluginId : string) :
  emits I passCalls (getInstalledPluginManifestFromDisk w pluginId).
Proof. unfold getInstalledPluginManifestFromDisk. emits_go. Qed.
#[local] Hint Resolve emits_getInstalled : emits.

Lemma emits_getLatestVersion (fullName : RepoValue) :
  emits I passCalls (getLatestManifestVersionFromRepo w fullName).
Proof.
  unfold getLatestManifestVersionFromRepo, GithubService.getLatestRelease. emits_go.
Qed.
#[local] Hint Resolve emits_getLatestVersion : emits.

Lemma emits_resolveRepo (repoById : gmap string string) (pluginId : string)
    (manifest : Manifest) :
  emits I passCalls (resolveRepo w repoById pluginId manifest).
Proof.
  unfold resolveRepo. emits_go. apply emits_setInstalledRepo. auto.
Qed.
#[local] Hint Resolve emits_resolveRepo : emits.

Lemma emits_classify (pluginId currentVersion : string) (repo : option RepoValue)
    (source : Source) :
  emits I passCalls (classify w pluginId currentVersion repo source).
Proof. unfold classify. emits_go. Qed.
#[local] Hint Resolve emits_classify : emits.

Lemma emits_checkPlugin (manifests : list (string * Manifest))
    (repoById : gmap string string) (pluginId : string) :
  emits I passCalls (checkPlugin w manifests repoById pluginId).
Proof. unfold checkPlugin. emits_go. Qed.
#[local] Hint Resolve emits_checkPlugin : emits.

Lemma emits_checkLoop (manifests : list (string * Manifest))
    (repoById : gmap string string) (ids : list string)
    (candidates : list PluginUpdateCandidate) (mappingChanged : bool) :
  emits I passCalls (checkLoop w manifests repoById ids candidates mappingChanged).
Proof.
  revert candidates mappingChanged.
  induction ids as [| p rest IH]; intros candidates mappingChanged;
    cbn [checkLoop]; emits_go.
Qed.

Lemma emits_checkLoop_all (manifests : list (string * Manifest))
    (repoById : gmap string string) (ids : list string)
    (candidates : list PluginUpdateCandidate) (mappingChanged : bool) :
  emits I checkCalls (checkLoop w manifests repoById ids candidates mappingChanged).
Proof.
  apply (emits_weaken I passCalls); [| apply emits_checkLoop].
  intros []; simpl; congruence.
Qed.
#[local] Hint Resolve emits_checkLoop_all : emits.

Lemma emits_check : emits I checkCalls (checkInstalledPluginUpdates w).
Proof.
  unfold checkInstalledPluginUpdates, getOfficialCommunityPlugins, saveSettings.
  emits_go.
Qed.

End CallFacts.

(** ** Repository detection: what a hit means, and how much it asks *)

Section DetectionMore.

Import Host PluginHub Trail.
Variable w : World.

Lemma repoMatchesPluginId_eq (fullName pluginId : string) (st : State) :
  repoMatchesPluginId w fullName pluginId st =
  (Ok match repo_manifest w (trace st) fullName with
      | Ok resp => (resp_status resp =? 200)%Z &&
                   bool_decide (resp_json resp ≫= manifest_id = Some pluginId)
      | Throw _ => false
      end,
   extend st [GetRepoManifest fullName]).
Proof.
  unfold repoMatchesPluginId, tryCatch, bind, call, ret, extend.
  now destruct (repo_manifest w (trace st) fullName).
Qed.

Lemma verifiedIn_app_l (tr : Trace) (a b : list Event) (p r : string) :
  verifiedIn w tr a p r -> verifiedIn w tr (a ++ b) p r.
Proof.
  intros (pre & post & resp & -> & H). exists pre, (post ++ b), resp.
  split; [now rewrite <- app_assoc | exact H].
Qed.

Lemma verifiedIn_app_r (tr : Trace) (a b : list Event) (p r : string) :
  verifiedIn w (tr ++ a) b p r -> verifiedIn w tr (a ++ b) p r.
Proof.
  intros (pre & post & resp & -> & H). exists (a ++ pre), post, resp.
  split; [now rewrite <- app_assoc | now rewrite app_assoc].
Qed.

Lemma verificationsIn_app (a b : list Event) :
  verificationsIn (a ++ b) = verificationsIn a ++ verificationsIn b.
Proof. apply omap_app. Qed.

(** The loop over candidates asks for one manifest per candidate tried,
    and stops at the first one that is verified. *)
Lemma firstMatching_sound (pluginId : string) (repos : list string) (st : State) :
  exists hit evs,
    firstMatching w pluginId repos st = (Ok hit, extend st evs) /\
    Observe.searchesIn evs = [] /\
    (length (verificationsIn evs) <= length repos)%nat /\
    (forall r, hit = Some r -> verifiedIn w (trace st) evs pluginId r) /\
    (hit = None -> verificationsIn evs = repos).
Proof.
  revert st. induction repos as [| repo rest IH]; intros st; cbn [firstMatching].
  - exists None, []. rewrite extend_nil. repeat split; [simpl; lia | discriminate].
  - unfold bind. rewrite repoMatchesPluginId_eq.
    destruct (repo_manifest w (trace st) repo) as [resp | e] eqn:Hresp.
    + destruct ((resp_status resp =? 200)%Z &&
                bool_decide (resp_json resp ≫= manifest_id = Some pluginId)) eqn:Hok.
      * exists (Some repo), [GetRepoManifest repo].
        split; [reflexivity |]. split; [reflexivity |]. split; [simpl; lia |].
        split; [| discriminate]. intros r [= <-].
        apply andb_true_iff in Hok as [H200 Hid].
        apply Z.eqb_eq in H200. apply bool_decide_eq_true in Hid.
        exists [], [], resp. rewrite app_nil_r. auto.
      * destruct (IH (extend st [GetRepoManifest repo]))
          as (hit & evs & -> & Hs & Hlen & Hsound & Hnone).
        exists hit, (GetRepoManifest repo :: evs). rewrite extend_extend.
        split; [reflexivity |]. split; [exact Hs |]. split; [simpl; lia |].
        split.
        -- intros r Hr.
           apply (verifiedIn_app_r (trace st) [GetRepoManifest repo] evs).
           now apply Hsound.
        -- intros Hh. simpl. now rewrite Hnone.
    + destruct (IH (extend st [GetRepoManifest repo]))
        as (hit & evs & -> & Hs & Hlen & Hsound & Hnone).
      exists hit, (GetRepoManifest repo :: evs). rewrite extend_extend.
      split; [reflexivity |]. split; [exact Hs |]. split; [simpl; lia |].
      split.
      * intros r Hr.
        apply (verifiedIn_app_r (trace st) [GetRepoManifest repo] evs).
        now apply Hsound.
      * intros Hh. simpl. now rewrite Hnone.
Qed.

Lemma searchesIn_cons_search (q sort : string) (evs : list Event) :
  Observe.searchesIn (SearchRepositories q sort :: evs) = q :: Observe.searchesIn evs.
Proof. reflexivity. Qed.

Lemma verificationsIn_cons_search (q sort : string) (evs : list Event) :
  verificationsIn (SearchRepositories q sort :: evs) = verificationsIn evs.
Proof. reflexivity. Qed.

Lemma searchLoop_sound (pluginId : string) (queries : list string)
    (rateLimited : bool) (st : State) :
  exists d evs,
    searchLoop w pluginId queries rateLimited st = (Ok d, extend st evs) /\
    (length (Observe.searchesIn evs) <= length queries)%nat /\
    (length (verificationsIn evs) <= 12 * length queries)%nat /\
    (forall r, det_repo d = Some r -> verifiedIn w (trace st) evs pluginId r).
Proof.
  revert rateLimited st.
  induction queries as [| query rest IH]; intros rateLimited st; cbn [searchLoop].
  - eexists _, []. rewrite extend_nil. unfold ret.
    split; [reflexivity |]. split; [simpl; lia |]. split; [simpl; lia |].
    intros r. destruct rateLimited; discriminate.
  - unfold bind, tryCatch, ret. rewrite searchPlugins_run.
    set (st1 := extend st [SearchRepositories query "updated"]).
    destruct (search_repositories w (trace st) query "updated") as [items | e].
    + destruct (firstMatching_sound pluginId
                  (map full_name (take 12 (default [] items))) st1)
        as (hit & evs & -> & Hs & Hlen & Hsound & _).
      assert (Hlen12 : (length (verificationsIn evs) <= 12)%nat).
      { etransitivity; [exact Hlen |].
        rewrite length_map, length_take. lia. }
      destruct hit as [repo |].
      * exists {| det_repo := Some repo; det_reason := None |},
               (SearchRepositories query "updated" :: evs).
        unfold st1. rewrite extend_extend.
        split; [reflexivity |].
        rewrite searchesIn_cons_search, verificationsIn_cons_search, Hs. split; [simpl; lia |]. split; [simpl; lia |].
        intros r [= <-].
        apply (verifiedIn_app_r (trace st) [SearchRepositories query "updated"] evs).
        now apply Hsound.
      * destruct (IH rateLimited (extend st1 evs)) as (d & evs' & -> & Hq & Hv & Hd).
        exists d, (SearchRepositories query "updated" :: evs ++ evs').
        unfold st1. rewrite !extend_extend.
        split; [reflexivity |].
        rewrite searchesIn_cons_search, verificationsIn_cons_search.
        rewrite searchesIn_app, verificationsIn_app, Hs, !length_app.
        split; [simpl; lia |]. split; [simpl; lia |].
        intros r Hr. specialize (Hd r Hr).
        apply (verifiedIn_app_r (trace st) [SearchRepositories query "updated"]).
        apply verifiedIn_app_r. exact Hd.
    + destruct (IH (if JS.includes
                         (err_message
                            (if decide (err_status e = Some 403%Z)
                             then mkError "Request failed, status 403 (Rate Limit Exceeded)"
                             else e)) "403"
                    then true else rateLimited) st1)
        as (d & evs' & -> & Hq & Hv & Hd).
      exists d, (SearchRepositories query "updated" :: evs').
      unfold st1. rewrite !extend_extend.
      split; [reflexivity |].
      rewrite searchesIn_cons_search, verificationsIn_cons_search.
      split; [simpl; lia |]. split; [simpl; lia |].
      intros r Hr.
      apply (verifiedIn_app_r (trace st) [SearchRepositories query "updated"]).
      now apply Hd.
Qed.

Lemma filterBoolean_length (l : list (option string)) :
  (length (Repo.filterBoolean l) <= length l)%nat.
Proof.
  unfold Repo.filterBoolean. induction l as [| o l IH]; [reflexivity |].
  cbn [omap list_omap].
  destruct (if JS.truthy o then o else None); cbn [length]; fold (@omap list _) in *;
    lia.
Qed.

Lemma dedupFirst_length (l : list string) :
  (length (Repo.dedupFirst l) <= length l)%nat.
Proof.
  induction l as [| x l IH]; simpl; [lia |].
  pose proof (List.filter_length_le (fun y => negb (String.eqb y x)) (Repo.dedupFirst l)).
  lia.
Qed.

Lemma patternCandidates_length (owner pluginId : string) (name : option string) :
  (length (Repo.patternCandidates owner pluginId name) <= 7)%nat.
Proof.
  unfold Repo.patternCandidates. rewrite newSet_dedupFirst.
  etransitivity; [apply dedupFirst_length |].
  etransitivity; [apply filterBoolean_length |]. simpl. lia.
Qed.

Lemma searchQueries_length (owner : option string) (pluginId : string) :
  (length (searchQueries owner pluginId) <= 3)%nat.
Proof. destruct owner; simpl; lia. Qed.

Lemma detection_run (pluginId : string) (manifest : Manifest) (st : State) :
  exists d evs,
    findRepoByManifestId w pluginId manifest st = (Ok d, extend st evs) /\
    (length (Observe.searchesIn evs) <= 3)%nat /\
    (length (verificationsIn evs) <= 43)%nat /\
    (forall r, det_repo d = Some r -> verifiedIn w (trace st) evs pluginId r) /\
    (manifest_authorUrl manifest = None ->
     (length (Observe.searchesIn evs) <= 2)%nat /\
     (length (verificationsIn evs) <= 24)%nat).
Proof.
  unfold findRepoByManifestId, findRepoByKnownPatterns, bind.
  set (owner := Repo.parseGithubOwnerFromAuthorUrl (manifest_authorUrl manifest)).
  assert (Hfirst : exists hit evs0,
    match owner with
    | Some o => firstMatching w pluginId
                  (Repo.patternCandidates o pluginId (manifest_name manifest))
    | None => ret None
    end st = (Ok hit, extend st evs0) /\
    Observe.searchesIn evs0 = [] /\
    (length (verificationsIn evs0) <= 7)%nat /\
    (forall r, hit = Some r -> verifiedIn w (trace st) evs0 pluginId r) /\
    (owner = None -> evs0 = [])).
  { destruct owner as [o |].
    - destruct (firstMatching_sound pluginId
                  (Repo.patternCandidates o pluginId (manifest_name manifest)) st)
        as (hit & evs0 & -> & Hs & Hlen & Hsound & _).
      exists hit, evs0. repeat split; try assumption; [| discriminate].
      etransitivity; [exact Hlen | apply patternCandidates_length].
    - exists None, []. rewrite extend_nil.
      repeat split; [simpl; lia | discriminate]. }
  destruct Hfirst as (hit & evs0 & -> & Hs0 & Hlen0 & Hsound0 & Hnone0).
  destruct (JS.truthy hit) eqn:Hhit.
  - exists {| det_repo := hit; det_reason := None |}, evs0. unfold ret.
    split; [reflexivity |]. rewrite Hs0. split; [simpl; lia |]. split; [lia |].
    split; [exact Hsound0 |].
    intros Hurl. split; [simpl; lia |].
    rewrite Hnone0; [simpl; lia |]. unfold owner. now rewrite Hurl.
  - destruct (searchLoop_sound pluginId (searchQueries owner pluginId) false
                (extend st evs0)) as (d & evs & -> & Hq & Hv & Hd).
    exists d, (evs0 ++ evs). rewrite extend_extend.
    pose proof (searchQueries_length owner pluginId) as Hql.
    split; [reflexivity |].
    rewrite searchesIn_app, verificationsIn_app, Hs0, !length_app.
    split; [simpl; lia |]. split; [lia |]. split.
    + intros r Hr. apply verifiedIn_app_r. now apply Hd.
    + intros Hurl. assert (Ho : owner = None) by (unfold owner; now rewrite Hurl).
      rewrite (Hnone0 Ho). rewrite Ho in Hq, Hv. simpl in *. lia.
Qed.

End DetectionMore.

(** X6.  A repository that [findRepoByManifestId] returns was verified in
    that very call: its manifest.json at HEAD was requested, the answer
    had status 200 and declared the plugin id asked for.  The function
    never throws. *)
Theorem detection_verifies (w : Host.World) (pluginId : string)
    (manifest : Host.Manifest) (st : Host.State) :
  exists d evs,
    PluginHub.findRepoByManifestId w pluginId manifest st =
      (Host.Ok d, Host.extend st evs) /\
    forall r, PluginHub.det_repo d = Some r ->
              Trail.verifiedIn w (Host.trace st) evs pluginId r.
Proof.
  destruct (detection_run w pluginId manifest st) as (d & evs & H & _ & _ & Hv & _).
  eauto.
Qed.

(** X7.  One call of [findRepoByManifestId] makes at most 3 search
    requests and at most 43 manifest requests (7 pattern candidates and 12
    results for each query), and nothing but such requests; for a plugin
    without author URL at most 2 and 24. *)
Theorem detection_request_bound (w : Host.World) (pluginId : string)
    (manifest : Host.Manifest) (st : Host.State) :
  exists evs,
    Host.trace (snd (PluginHub.findRepoByManifestId w pluginId manifest st)) =
      Host.trace st ++ evs /\
    Trail.only Trail.detectionCalls evs = true /\
    (length (Observe.searchesIn evs) <= 3)%nat /\
    (length (Trail.verificationsIn evs) <= 43)%nat /\
    (Host.manifest_authorUrl manifest = None ->
     (length (Observe.searchesIn evs) <= 2)%nat /\
     (length (Trail.verificationsIn evs) <= 24)%nat).
Proof.
  destruct (detection_run w pluginId manifest st) as (d & evs & H & Hq & Hv & _ & Hn).
  exists evs. rewrite H. split; [reflexivity |]. split; [| auto].
  destruct (emits_findRepoByManifestId w Trail.anySettings pluginId manifest st)
    as (evs' & Ht & Ho & _); [exact Logic.I |].
  rewrite H in Ht. simpl in Ht. apply app_inv_head in Ht. now subst evs'.
Qed.

(** ** What a computation returns *)

Section ReturnsFacts.

Import Host Trail.

Lemma returns_ret {A} (a : A) (P : A -> Prop) : P a -> returns (ret a) P.
Proof. intros HP st a' st' [= <- _]. exact HP. Qed.

Lemma returns_throw {A} (e : Error) (P : A -> Prop) : returns (@throw A e) P.
Proof. intros st a st'. discriminate. Qed.

Lemma returns_any {A} (m : M A) : returns m (fun _ => True).
Proof. intros st a st' _. exact Logic.I. Qed.

Lemma returns_bind {A B} (m : M A) (k : A -> M B) (Q : A -> Prop) (P : B -> Prop) :
  returns m Q -> (forall a, Q a -> returns (k a) P) -> returns (bind m k) P.
Proof.
  intros Hm Hk st b st'. unfold bind.
  destruct (m st) as [[a | e] st1] eqn:Hrun; [| discriminate].
  apply (Hk a (Hm st a st1 Hrun)).
Qed.

Lemma returns_tryCatch {A} (m : M A) (h : Error -> M A) (P : A -> Prop) :
  returns m P -> (forall e, returns (h e) P) -> returns (tryCatch m h) P.
Proof.
  intros Hm Hh st a st'. unfold tryCatch.
  destruct (m st) as [[a' | e] st1] eqn:Hrun.
  - intros [= <- _]. exact (Hm st a' st1 Hrun).
  - apply Hh.
Qed.

Lemma returns_weaken {A} (m : M A) (P Q : A -> Prop) :
  (forall a, P a -> Q a) -> returns m P -> returns m Q.
Proof. intros HPQ Hm st a st' Hrun. exact (HPQ a (Hm st a st' Hrun)). Qed.

End ReturnsFacts.

Section CandidateFacts.

Import Host PluginHub Trail Panel.
Variable w : World.

Lemma returns_getLatestVersion (fullName : RepoValue) :
  returns (getLatestManifestVersionFromRepo w fullName)
          (fun v => v = None \/ JS.truthy v = true).
Proof.
  unfold getLatestManifestVersionFromRepo.
  apply (returns_bind _ _ _ _ (returns_any _)). intros release _.
  destruct (findAsset "manifest.json" (default [] (assets release))) as [a |];
    [| apply returns_ret; now left].
  destruct (JS.isEmpty (browser_download_url a)); [apply returns_ret; now left |].
  apply (returns_bind _ _ _ _ (returns_any _)). intros resp _.
  apply returns_ret.
  destruct (JS.truthy (resp_json resp ≫= manifest_version)) eqn:Hv; auto.
Qed.

Lemma hasStatus_statusOf (c : PluginUpdateCandidate) (z : Z) :
  cand_versionStatus c = statusOf z -> hasStatus (statusOf z) c = true.
Proof. unfold hasStatus. intros ->. now destruct (statusOf z). Qed.

Lemma returns_classify (pluginId currentVersion : string) (repo : option RepoValue)
    (source : Source) :
  present repo = true -> source <> unknownSource ->
  returns (classify w pluginId currentVersion repo source)
          (fun c => coherent c = true /\ cand_source c = source).
Proof.
  intros Hrepo Hsource. unfold classify.
  assert (Hsrc : negb match source with unknownSource => true | _ => false end = true)
    by now destruct source.
  apply returns_tryCatch.
  - apply (returns_bind _ _ _ _ (returns_getLatestVersion _)).
    intros [latest |] Hlatest; apply returns_ret; (split; [| reflexivity]).
    + destruct Hlatest as [Hl | Hl]; [discriminate |].
      cbn [JS.truthy] in Hl.
      unfold coherent, isUnknownSource, hasStatus, statusOf.
      cbn -[Version.compareVersions].
      rewrite Hrepo, Hl, Hsrc.
      destruct (Version.compareVersions currentVersion latest <? 0)%Z eqn:Hlt;
        [reflexivity |].
      destruct (Version.compareVersions currentVersion latest =? 0)%Z; reflexivity.
    + unfold coherent, isUnknownSource. cbn. rewrite Hrepo, Hsrc. reflexivity.
  - intros e. apply returns_ret. split; [| reflexivity].
    unfold coherent, isUnknownSource. cbn. rewrite Hrepo, Hsrc.
    destruct (JS.isEmpty (err_message e)) eqn:He; [reflexivity |].
    cbn. now rewrite He.
Qed.

Lemma returns_resolveRepo (repoById : gmap string string) (pluginId : string)
    (manifest : Manifest) :
  returns (resolveRepo w repoById pluginId manifest) resolved.
Proof.
  intros st r st'. unfold resolveRepo, bind, getSettings, ret.
  destruct (present (Name <$> repoById !! pluginId)) eqn:Hk; cbn [negb andb].
  - rewrite Hk. cbn [negb]. intros [= <- _]. unfold resolved.
    split; [intros _; split; [discriminate | reflexivity] |].
    split; [congruence | reflexivity].
  - destruct (present (objectGet (installedRepoMap (settings st)) pluginId)) eqn:Ht.
    + rewrite Ht. cbn [negb]. intros [= <- _]. unfold resolved.
      split; [intros _; split; [discriminate | reflexivity] |].
      split; [congruence | reflexivity].
    + rewrite Hk. cbn [negb].
      destruct (findRepoByManifestId w pluginId manifest st) as [[d | e] st1];
        [| discriminate].
      destruct (present (Name <$> det_repo d)) eqn:Hd; cbn [negb andb].
      * unfold setInstalledRepo. intros [= <- _]. unfold resolved.
        rewrite Hd.
        split; [intros _; split; [discriminate | reflexivity] |].
        split; [congruence | reflexivity].
      * intros [= <- _]. unfold resolved. rewrite Hd.
        split; [congruence |]. split; [reflexivity |].
        destruct (JS.truthy (det_reason d)) eqn:Hr; [| reflexivity].
        destruct (det_reason d) as [[| c s] |]; try discriminate. reflexivity.
Qed.

Lemma returns_checkPlugin (manifests : list (string * Manifest))
    (repoById : gmap string string) (pluginId : string) :
  returns (checkPlugin w manifests repoById pluginId)
          (fun r => coherent (fst r) = true /\ snd r = isDetected (fst r)).
Proof.
  unfold checkPlugin.
  apply (returns_bind _ _ _ _ (returns_any _)). intros m0 _.
  apply (returns_bind _ _ _ _ (returns_resolveRepo _ _ _)).
  intros [[[repo source] reason] changed] (Htrue & Hfalse & Hreason).
  destruct (present repo) eqn:Hrepo; cbn [negb].
  - destruct (Htrue eq_refl) as [Hsource ->].
    apply (returns_bind _ _ _ _ (returns_classify _ _ _ _ Hrepo Hsource)).
    intros c [Hc Hsrc]. apply returns_ret. cbn [fst snd].
    split; [exact Hc |]. unfold isDetected. now rewrite Hsrc.
  - rewrite (Hfalse eq_refl). apply returns_ret. cbn [fst snd].
    split; [| reflexivity].
    unfold coherent, isUnknownSource. cbn. destruct reason; [discriminate | reflexivity].
Qed.

Lemma returns_checkLoop (manifests : list (string * Manifest))
    (repoById : gmap string string) (ids : list string)
    (candidates : list PluginUpdateCandidate) (mappingChanged : bool) :
  returns (checkLoop w manifests repoById ids candidates mappingChanged)
          (fun r => exists new,
             fst r = candidates ++ new /\
             forallb coherent new = true /\
             snd r = existsb isDetected new || mappingChanged).
Proof.
  revert candidates mappingChanged.
  induction ids as [| p rest IH]; intros candidates mappingChanged; cbn [checkLoop].
  - apply returns_ret. exists []. now rewrite app_nil_r.
  - apply (returns_bind _ _ _ _ (returns_checkPlugin _ _ _)).
    intros [c changed] [Hc Hch]. cbn [fst snd] in *.
    eapply returns_weaken; [| apply IH].
    intros [cs flag] (new & Hcs & Hnew & Hflag). cbn [fst snd] in *.
    exists (c :: new). rewrite Hcs, <- app_assoc. split; [reflexivity |].
    cbn [forallb existsb]. rewrite Hc, Hnew, Hflag, Hch.
    split; [reflexivity |].
    now destruct (isDetected c), (existsb isDetected new), mappingChanged.
Qed.

End CandidateFacts.

Section CheckMore.

Import Host PluginHub Trail Panel.
Variable w : World.

Lemma savesIn_app (a b : list Event) : savesIn (a ++ b) = savesIn a ++ savesIn b.
Proof. apply omap_app. Qed.

Lemma only_no_saves (allowed : Kind -> bool) (evs : list Event) :
  allowed KSaveData = false -> only allowed evs = true -> savesIn evs = [].
Proof.
  intros Hk. induction evs as [| ev evs IH]; [reflexivity |].
  cbn [only forallb]. intros H. apply andb_true_iff in H as [H1 H2].
  destruct ev; cbn in *; try (apply IH; exact H2). congruence.
Qed.

Lemma existsb_arraySort {A} (cmp : A -> A -> Z) (f : A -> bool) (l : list A) :
  existsb f (arraySort cmp l) = existsb f l.
Proof.
  apply eq_true_iff_eq. rewrite !existsb_exists.
  split; intros (x & Hin & Hx); exists x; (split; [| exact Hx]);
    now apply (arraySort_In cmp l x).
Qed.

Lemma forallb_arraySort {A} (cmp : A -> A -> Z) (f : A -> bool) (l : list A) :
  forallb f (arraySort cmp l) = forallb f l.
Proof.
  apply eq_true_iff_eq. rewrite !forallb_forall.
  split; intros H x Hin; apply H; now apply (arraySort_In cmp l x).
Qed.

Lemma load_run (st : State) :
  (if has_loadManifests w
   then tryCatch (call LoadManifests (load_manifests w)) (fun _ => ret tt)
   else ret tt) st = (Ok tt, Observe.afterLoad w st).
Proof.
  unfold Observe.afterLoad, tryCatch, call, ret, extend.
  destruct (has_loadManifests w); simpl.
  - now destruct (load_manifests w (trace st)) as [[] | e].
  - rewrite app_nil_r. now destruct st.
Qed.

Lemma check_whole_run (st : State) (l : list PluginUpdateCandidate) (st' : State) :
  checkInstalledPluginUpdates w st = (Ok l, st') ->
  exists cs evs,
    l = arraySort (compareCandidates w) cs /\
    forallb coherent cs = true /\
    trace st' = trace st ++ evs /\
    savesIn evs = (if existsb isDetected cs then [settings st'] else []) /\
    (existsb isDetected cs = false -> settings st' = settings st).
Proof.
  unfold checkInstalledPluginUpdates, bind. rewrite load_run.
  set (st0 := Observe.afterLoad w st). cbv zeta.
  assert (Htr0 : exists evs0, trace st0 = trace st ++ evs0 /\ savesIn evs0 = []).
  { unfold st0, Observe.afterLoad, extend. cbn [trace]. eexists. split; [reflexivity |].
    now destruct (has_loadManifests w). }
  destruct Htr0 as (evs0 & Htr0 & Hs0).
  destruct (plugin_manifests w (trace st0)) as [| kv rest] eqn:Hm; cbn [map].
  - unfold ret. intros [= <- <-]. exists [], evs0.
    repeat split; [exact Htr0 | exact Hs0].
  - unfold getOfficialCommunityPlugins, bind, call, ret.
    destruct (official_list w (trace st0)) as [json | e]; [| discriminate].
    set (st1 := {| trace := trace st0 ++ [GetOfficialList]; settings := settings st0 |}).
    set (repoById := buildRepoById (default [] json)).
    destruct (checkLoop_passes w (kv :: rest) repoById (fst kv :: map fst rest) [] false st1)
      as (cs & flag & st2 & Hloop & Hp).
    cbn [map] in Hloop.
    pose proof (returns_checkLoop w _ _ _ _ _ _ _ _ Hloop) as (new & Hnew & Hcoh & Hflag).
    cbn [fst snd app] in Hnew, Hflag. subst new.
    rewrite !orb_false_r in Hflag. subst flag.
    destruct (emits_checkLoop w anySettings (fun _ _ _ _ => Logic.I)
                (kv :: rest) repoById (fst kv :: map fst rest) [] false st1 Logic.I)
      as (evs1 & Htr1 & Ho1 & _).
    rewrite Hloop in Htr1. cbn [snd] in Htr1. rewrite Hloop. cbn [app].
    rewrite orb_false_r.
    pose proof (only_no_saves passCalls evs1 eq_refl Ho1) as Hs1.
    apply passes_spec in Hp as Hspec.
    destruct Hspec as (_ & _ & _ & _ & _ & _ & Hkeep & _).
    assert (Hpre : trace st2 = trace st ++ (evs0 ++ [GetOfficialList] ++ evs1)).
    { rewrite Htr1. unfold st1. cbn [trace]. rewrite Htr0.
      now rewrite <- !app_assoc. }
    destruct (existsb isDetected cs) eqn:Hdet.
    + unfold saveSettings, bind, getSettings, call.
      destruct (save_data w (trace st2)); [| discriminate].
      intros [= <- <-]. exists cs, (evs0 ++ [GetOfficialList] ++ evs1 ++ [SaveData (settings st2)]).
      rewrite Hdet. cbn [trace settings].
      split; [reflexivity |]. split; [exact Hcoh |].
      split; [rewrite Hpre; now rewrite <- !app_assoc |].
      split; [| discriminate].
      rewrite !savesIn_app, Hs0, Hs1. reflexivity.
    + intros [= <- <-]. exists cs, (evs0 ++ [GetOfficialList] ++ evs1).
      rewrite Hdet.
      split; [reflexivity |]. split; [exact Hcoh |].
      split; [exact Hpre |].
      split; [rewrite !savesIn_app, Hs0, Hs1; reflexivity |].
      intros _. now rewrite (Hkeep eq_refl).
Qed.

Lemma check_candidates_shape_aux (st : State) (l : list PluginUpdateCandidate)
    (st' : State) :
  checkInstalledPluginUpdates w st = (Ok l, st') -> forallb coherent l = true.
Proof.
  intros Hrun. destruct (check_whole_run st l st' Hrun) as (cs & evs & -> & Hc & _).
  now rewrite forallb_arraySort.
Qed.

End CheckMore.

(** X8.  The fields of every candidate that [checkInstalledPluginUpdates]
    returns hang together: with a version status other than unknown it has
    a repository, a non-empty latest version, no error, the status that
    [compareVersions] gives, and [needsUpdate] exactly for
    update-available; with status unknown it has no latest version,
    [needsUpdate] false and a non-empty error; and its source is unknown
    exactly when it has no repository. *)
Theorem check_candidates_coherent (w : Host.World) (st : Host.State)
    (l : list Host.PluginUpdateCandidate) (st' : Host.State) :
  PluginHub.checkInstalledPluginUpdates w st = (Host.Ok l, st') ->
  forallb Panel.coherent l = true.
Proof.
  intros Hrun. destruct (check_whole_run w st l st' Hrun) as (cs & evs & -> & Hc & _).
  now rewrite forallb_arraySort.
Qed.

Lemma check_candidates_coherent_witness :
  forallb Panel.coherent (Scenario.candidatesOf Scenario.firstCheck) = true /\
  length (Scenario.candidatesOf Scenario.firstCheck) = 3%nat.
Proof.
  assert (H : exists st', Scenario.firstCheck =
            (Host.Ok (Scenario.candidatesOf Scenario.firstCheck), st')).
  { vm_compute. eexists. reflexivity. }
  destruct H as [st' H]. split.
  - exact (check_candidates_coherent Scenario.updates Scenario.updatesStart _ st' H).
  - vm_compute. reflexivity.
Defined.

(** X9.  A run of [checkInstalledPluginUpdates] that returns has saved the
    settings exactly once, as they are at the end, if some candidate was
    resolved by detection, and not at all otherwise; in the second case
    the settings are unchanged. *)
Theorem check_saves_once (w : Host.World) (st : Host.State)
    (l : list Host.PluginUpdateCandidate) (st' : Host.State) :
  PluginHub.checkInstalledPluginUpdates w st = (Host.Ok l, st') ->
  exists evs,
    Host.trace st' = Host.trace st ++ evs /\
    Trail.savesIn evs =
      (if existsb Panel.isDetected l then [Host.settings st'] else []) /\
    (existsb Panel.isDetected l = false -> Host.settings st' = Host.settings st).
Proof.
  intros Hrun.
  destruct (check_whole_run w st l st' Hrun) as (cs & evs & -> & _ & Ht & Hs & Hk).
  exists evs. now rewrite existsb_arraySort.
Qed.

Lemma check_saves_once_witness :
  exists evs,
    Host.trace (snd Scenario.firstCheck) = Host.trace Scenario.updatesStart ++ evs /\
    Trail.savesIn evs = [Host.settings (snd Scenario.firstCheck)].
Proof.
  assert (H : exists l, Scenario.firstCheck = (Host.Ok l, snd Scenario.firstCheck) /\
                        existsb Panel.isDetected l = true).
  { vm_compute. eexists. split; reflexivity. }
  destruct H as (l & H & Hd).
  destruct (check_saves_once Scenario.updates Scenario.updatesStart l _ H)
    as (evs & Ht & Hs & _).
  exists evs. rewrite Hd in Hs. auto.
Defined.

(** X10.  Whatever happens, [checkInstalledPluginUpdates] only reloads and
    reads manifests, asks for the official list, manifests, searches,
    releases and downloads, and saves the settings: it creates no folder,
    writes no file and shows no notice; and of the settings it changes
    nothing but [installedRepoMap]. *)
Theorem check_reads_only (w : Host.World) (st : Host.State) :
  let st' := snd (PluginHub.checkInstalledPluginUpdates w st) in
  exists evs,
    Host.trace st' = Host.trace st ++ evs /\
    Trail.only Trail.checkCalls evs = true /\
    Host.extraVaultPaths (Host.settings st') = Host.extraVaultPaths (Host.settings st) /\
    Host.parentVaultDirectories (Host.settings st') =
      Host.parentVaultDirectories (Host.settings st) /\
    Host.installLocation (Host.settings st') = Host.installLocation (Host.settings st).
Proof.
  intros st'.
  destruct (emits_check w
              (fun s => Host.extraVaultPaths s = Host.extraVaultPaths (Host.settings st) /\
                        Host.parentVaultDirectories s =
                          Host.parentVaultDirectories (Host.settings st) /\
                        Host.installLocation s = Host.installLocation (Host.settings st))
              (fun s p f H => H) st (conj eq_refl (conj eq_refl eq_refl)))
    as (evs & Ht & Ho & HI).
  exists evs. auto.
Qed.

(** X11.  With no plugin installed, [checkInstalledPluginUpdates] returns
    the empty list without any request; and when plugins are installed and
    the official list cannot be fetched, the whole check fails with that
    error before any plugin is looked at. *)
Theorem check_edges (w : Host.World) (st : Host.State) :
  let st0 := Observe.afterLoad w st in
  (Host.plugin_manifests w (Host.trace st0) = [] ->
   PluginHub.checkInstalledPluginUpdates w st = (Host.Ok [], st0)) /\
  (forall e,
     Host.plugin_manifests w (Host.trace st0) <> [] ->
     Host.official_list w (Host.trace st0) = Host.Throw e ->
     PluginHub.checkInstalledPluginUpdates w st =
       (Host.Throw e, Host.extend st0 [Host.GetOfficialList])).
Proof.
  intros st0. unfold PluginHub.checkInstalledPluginUpdates, Host.bind.
  rewrite load_run. fold st0. split.
  - intros ->. reflexivity.
  - intros e Hne He.
    destruct (Host.plugin_manifests w (Host.trace st0)) as [| kv rest]; [congruence |].
    cbn [map]. unfold PluginHub.getOfficialCommunityPlugins, Host.bind, Host.call.
    now rewrite He.
Qed.

Lemma check_edges_witness :
  PluginHub.checkInstalledPluginUpdates Scenario.idle Scenario.start =
    (Host.Ok [], Observe.afterLoad Scenario.idle Scenario.start) /\
  PluginHub.checkInstalledPluginUpdates
    (Scenario.withInstalled (fun _ => Scenario.installedPlugins) Scenario.idle)
    Scenario.start =
    (Host.Throw Scenario.offline,
     Host.extend (Observe.afterLoad Scenario.idle Scenario.start) [Host.GetOfficialList]).
Proof.
  split.
  - apply (proj1 (check_edges Scenario.idle Scenario.start)). reflexivity.
  - apply (proj2 (check_edges
                    (Scenario.withInstalled (fun _ => Scenario.installedPlugins) Scenario.idle)
                    Scenario.start)); [discriminate | reflexivity].
Defined.

(** ** The update panel and the update command *)

Section PanelFacts.

Import Host Panel.

Lemma coherent_needsUpdate (c : PluginUpdateCandidate) :
  coherent c = true ->
  cand_needsUpdate c && present (cand_repo c) =
  present (cand_repo c) && hasStatus updateAvailable c.
Proof.
  unfold coherent, hasStatus.
  destruct (cand_versionStatus c), (cand_needsUpdate c), (present (cand_repo c));
    cbn; try reflexivity; try discriminate;
    rewrite ?andb_false_r; try discriminate; reflexivity.
Qed.

Lemma coherent_needs_repo (c : PluginUpdateCandidate) :
  coherent c = true -> cand_needsUpdate c = true -> present (cand_repo c) = true.
Proof.
  unfold coherent, hasStatus. intros Hc Hn. rewrite Hn in Hc.
  destruct (cand_versionStatus c), (present (cand_repo c));
    cbn in Hc; try reflexivity; discriminate.
Qed.

Lemma coherent_error (c : PluginUpdateCandidate) :
  coherent c = true ->
  hasStatus unknownStatus c = true \/ present (cand_repo c) = false ->
  JS.truthy (cand_error c) = true.
Proof.
  unfold coherent, hasStatus. intros Hc Hor.
  destruct (cand_versionStatus c).
  1-3: destruct Hor as [Hor | Hor]; [discriminate |];
       rewrite Hor in Hc; discriminate.
  apply andb_true_iff in Hc as [Hc _]. apply andb_true_iff in Hc as [Hc _].
  now apply andb_true_iff in Hc as [_ Hc].
Qed.

Lemma status_count (u : list PluginUpdateCandidate) :
  (length (List.filter (hasStatus updateAvailable) u) +
   length (List.filter (hasStatus upToDate) u) +
   length (List.filter (hasStatus localNewer) u) +
   length (List.filter (hasStatus unknownStatus) u) = length u)%nat.
Proof.
  induction u as [| c u IH]; [reflexivity |]. cbn [List.filter].
  unfold hasStatus in *.
  destruct (cand_versionStatus c); cbv iota; cbn [length]; lia.
Qed.

Lemma filter_count {A} (f : A -> bool) (l : list A) :
  (length (List.filter f l) + length (List.filter (fun x => negb (f x)) l) =
   length l)%nat.
Proof.
  induction l as [| x l IH]; [reflexivity |]. cbn [List.filter].
  destruct (f x); cbn [negb length]; lia.
Qed.

Lemma groups_count (l : list PluginUpdateCandidate) :
  let g := groupsOf l in
  (length (needsUpdate g) + length (upToDateGroup g) + length (localNewerGroup g) +
   length (unknownVersion g) + length (unresolved g) = length l)%nat.
Proof.
  cbn [groupsOf needsUpdate upToDateGroup localNewerGroup unknownVersion unresolved].
  rewrite status_count. apply filter_count.
Qed.

Lemma initialChecked_all (rows : list PluginUpdateCandidate) (pluginId : string) :
  forallb cand_needsUpdate rows = true ->
  In pluginId (map cand_pluginId rows) ->
  initialChecked rows pluginId = true.
Proof.
  intros Hall Hin. unfold initialChecked.
  destruct (List.find _ (rev rows)) as [c |] eqn:Hfind.
  - apply find_some in Hfind as [Hc _]. apply in_rev in Hc.
    rewrite forallb_forall in Hall. now apply Hall.
  - apply in_map_iff in Hin as (c & <- & Hc).
    apply in_rev in Hc. apply (find_none _ _ Hfind c) in Hc.
    now rewrite String.eqb_refl in Hc.
Qed.

Lemma filter_all {A} (f : A -> bool) (l : list A) :
  (forall x, In x l -> f x = true) -> List.filter f l = l.
Proof.
  induction l as [| x l IH]; [reflexivity |]. intros H. cbn [List.filter].
  rewrite (H x (or_introl eq_refl)). f_equal. apply IH. intros y Hy. apply H. now right.
Qed.

End PanelFacts.

(** X12.  For the candidates of a check, the panel and the command agree:
    the repositories the update command installs are those of the panel's
    group "update available", in the same order, and they are what
    "Update Selected" hands over as long as no checkbox is touched.  The
    five groups of the panel share out the candidates, and every row of
    the groups "could not compare" and "could not resolve" carries the
    candidate's own error text, never the fallback. *)
Theorem panel_agrees_with_command (w : Host.World) (st : Host.State)
    (l : list Host.PluginUpdateCandidate) (st' : Host.State) :
  PluginHub.checkInstalledPluginUpdates w st = (Host.Ok l, st') ->
  let g := Panel.groupsOf l in
  Batch.reposToUpdate l =
    map (fun c => default (Host.Name EmptyString) (Host.cand_repo c)) (Panel.needsUpdate g) /\
  Panel.selectedRepos (Panel.needsUpdate g) (Panel.initialChecked (Panel.needsUpdate g)) =
    Batch.reposToUpdate l /\
  (length (Panel.needsUpdate g) + length (Panel.upToDateGroup g) +
   length (Panel.localNewerGroup g) + length (Panel.unknownVersion g) +
   length (Panel.unresolved g) = length l)%nat /\
  (forall c, In c (Panel.unknownVersion g ++ Panel.unresolved g) ->
     JS.truthy (Host.cand_error c) = true /\
     Panel.errorText c = default EmptyString (Host.cand_error c)).
Proof.
  intros Hrun g.
  destruct (check_whole_run w st l st' Hrun) as (cs & evs & Hl & Hc & _).
  assert (Hcoh : forall c, In c l -> Panel.coherent c = true).
  { rewrite Hl, <- forallb_forall, forallb_arraySort. exact Hc. }
  clear Hl Hc Hrun.
  assert (Hneeds : List.filter (fun c => Host.cand_needsUpdate c &&
                                         Host.present (Host.cand_repo c)) l =
                   Panel.needsUpdate g).
  { cbn [g Panel.groupsOf Panel.needsUpdate]. rewrite filter_filter_bool.
    apply filter_ext_in. intros c Hin. now apply coherent_needsUpdate, Hcoh. }
  assert (Hrepos : Batch.reposToUpdate l =
                   map (fun c => default (Host.Name EmptyString) (Host.cand_repo c))
                       (Panel.needsUpdate g)).
  { unfold Batch.reposToUpdate. now rewrite Hneeds. }
  split; [exact Hrepos |]. split; [| split; [apply groups_count |]].
  - rewrite Hrepos. unfold Panel.selectedRepos. f_equal.
    apply filter_all. intros c Hin. apply initialChecked_all.
    + rewrite <- Hneeds. apply forallb_forall. intros x Hx.
      apply filter_In in Hx as [_ Hx]. now apply andb_true_iff in Hx as [Hx _].
    + now apply in_map.
  - intros c Hin.
    assert (Herr : JS.truthy (Host.cand_error c) = true).
    { cbn [g Panel.groupsOf Panel.unknownVersion Panel.unresolved] in Hin.
      apply in_app_or in Hin as [Hin | Hin].
      - apply filter_In in Hin as [Hin Hs]. apply filter_In in Hin as [Hin _].
        apply coherent_error; [now apply Hcoh | now left].
      - apply filter_In in Hin as [Hin Hr]. apply negb_true_iff in Hr.
        apply coherent_error; [now apply Hcoh | now right]. }
    split; [exact Herr |]. unfold Panel.errorText. now rewrite Herr.
Qed.

Lemma panel_agrees_with_command_witness :
  let l := Scenario.candidatesOf Scenario.firstCheck in
  Batch.reposToUpdate l = [Host.Name "o/obsidian-beta"; Host.Name "o/zeta"] /\
  Panel.selectedRepos (Panel.needsUpdate (Panel.groupsOf l))
    (Panel.initialChecked (Panel.needsUpdate (Panel.groupsOf l))) =
    Batch.reposToUpdate l.
Proof.
  intros l.
  assert (H : exists st', Scenario.firstCheck = (Host.Ok l, st')).
  { vm_compute. eexists. reflexivity. }
  destruct H as [st' H].
  destruct (panel_agrees_with_command Scenario.updates Scenario.updatesStart l st' H)
    as (_ & Hsel & _).
  split; [vm_compute; reflexivity | exact Hsel].
Defined.

(** ** Installation: which calls, how often *)

Section InstallCalls.

Import Host PluginHub Trail.
Variable w : World.
Context (I : PluginSettings -> Prop).
Hypothesis HI : forall s p f, I s -> I (withRepo s p f).

Lemma emits_scanSubfolders (parentPath : string) (subfolders targetVaults : list string) :
  emits I deployCalls (scanSubfolders w parentPath subfolders targetVaults).
Proof.
  revert targetVaults.
  induction subfolders as [| sub rest IH]; intros targetVaults;
    cbn [scanSubfolders]; unfold fsExistsSync; emits_go.
Qed.
#[local] Hint Resolve emits_scanSubfolders : emits.

Lemma emits_scanParents (parents targetVaults : list string) :
  emits I deployCalls (scanParents w parents targetVaults).
Proof.
  revert targetVaults.
  induction parents as [| p rest IH]; intros targetVaults;
    cbn [scanParents]; unfold fsExistsSync; emits_go.
Qed.
#[local] Hint Resolve emits_scanParents : emits.

Lemma emits_writeVault (pluginId : option string) (mainJs manifestContent : string)
    (stylesCss : bool) (stylesContent : string) (vaultPath : string) :
  emits I deployCalls
    (writeVault w pluginId mainJs manifestContent stylesCss stylesContent vaultPath).
Proof. unfold writeVault, joinWithId, fsExistsSync, fsWriteFileSync. emits_go. Qed.
#[local] Hint Resolve emits_writeVault : emits.

Lemma emits_writeVaults (pluginId : option string) (mainJs manifestContent : string)
    (stylesCss : bool) (stylesContent : string) (targetVaults : list string) :
  emits I deployCalls
    (writeVaults w pluginId mainJs manifestContent stylesCss stylesContent targetVaults).
Proof. induction targetVaults as [| v rest IH]; cbn [writeVaults]; emits_go. Qed.
#[local] Hint Resolve emits_writeVaults : emits.

Lemma emits_deployToVaults (useParentDirs useSelectedVaults : bool)
    (pluginId : option string) (mainJs manifestContent : string)
    (stylesCss : bool) (stylesContent : string) :
  emits I deployCalls
    (deployToVaults w useParentDirs useSelectedVaults pluginId mainJs manifestContent
       stylesCss stylesContent).
Proof. unfold deployToVaults. emits_go. Qed.

Lemma emits_deploy_install (useParentDirs useSelectedVaults : bool)
    (pluginId : option string) (mainJs manifestContent : string)
    (stylesCss : bool) (stylesContent : string) :
  emits I installCalls
    (deployToVaults w useParentDirs useSelectedVaults pluginId mainJs manifestContent
       stylesCss stylesContent).
Proof.
  apply (emits_weaken I deployCalls); [| apply emits_deployToVaults].
  intros []; simpl; congruence.
Qed.
#[local] Hint Resolve emits_deploy_install : emits.

(** An installation asks for the latest release first, and for no
    release after that. *)
Lemma install_calls (fullName : RepoValue) (showNotice : bool) (st : State) :
  I (settings st) ->
  exists evs,
    trace (snd (installPluginFromGithub w fullName showNotice st)) =
      trace st ++ GetLatestRelease (repoText w fullName) :: evs /\
    only installCalls evs = true /\
    I (settings (snd (installPluginFromGithub w fullName showNotice st))).
Proof.
  intros Hst. unfold installPluginFromGithub.
  match goal with
  | |- context [bind (GithubService.getLatestRelease w fullName) ?k] => set (K := k)
  end.
  assert (Hk : forall release, emits I installCalls (K release)).
  { intros release. subst K. cbv beta. unfold saveSettings. emits_go.
    apply emits_setInstalledRepo. auto. }
  unfold bind, GithubService.getLatestRelease, call. cbv zeta.
  destruct (latest_release w (trace st) (repoText w fullName)) as [release | e].
  - destruct (Hk release {| trace := trace st ++ [GetLatestRelease (repoText w fullName)];
                            settings := settings st |} Hst) as (evs & Ht & Ho & Hs).
    exists evs. cbn [trace] in Ht. rewrite Ht, <- app_assoc. auto.
  - exists []. cbn [snd trace settings]. auto.
Qed.

End InstallCalls.

Section BatchFacts.

Import Host PluginHub Trail Batch.
Variable w : World.

Lemma releasesIn_app (a b : list Event) :
  releasesIn (a ++ b) = releasesIn a ++ releasesIn b.
Proof. apply omap_app. Qed.

Lemma only_no_releases (allowed : Kind -> bool) (evs : list Event) :
  allowed KRelease = false -> only allowed evs = true -> releasesIn evs = [].
Proof.
  intros Hk. induction evs as [| ev evs IH]; [reflexivity |].
  cbn [only forallb]. intros H. apply andb_true_iff in H as [H1 H2].
  destruct ev; cbn in *; try (apply IH; exact H2). congruence.
Qed.

(** One installation in a loop: one release request, whatever follows. *)
Lemma install_one_release (fullName : RepoValue) (showNotice : bool) (st : State) :
  exists evs,
    trace (snd (installPluginFromGithub w fullName showNotice st)) = trace st ++ evs /\
    releasesIn evs = [repoText w fullName].
Proof.
  destruct (install_calls w anySettings (fun _ _ _ _ => Logic.I) fullName showNotice st
              Logic.I) as (evs & Ht & Ho & _).
  exists (GetLatestRelease (repoText w fullName) :: evs). split; [exact Ht |].
  cbn. fold (releasesIn evs). now rewrite (only_no_releases installCalls evs eq_refl Ho).
Qed.

Lemma seen_app (x : RepoValue) (acc l : list RepoValue) :
  existsb (fun y => bool_decide (x = y)) (acc ++ l) =
  existsb (fun y => bool_decide (x = y)) acc || existsb (fun y => bool_decide (x = y)) l.
Proof. apply existsb_app. Qed.

Lemma distinct_seen_member (x : RepoValue) (acc d : list RepoValue) :
  existsb (fun z => bool_decide (x = z)) acc = true ->
  List.filter (fun y => negb (existsb (fun z => bool_decide (y = z)) acc))
    (List.filter (fun y => negb (bool_decide (y = x))) d) =
  List.filter (fun y => negb (existsb (fun z => bool_decide (y = z)) acc)) d.
Proof.
  intros Hin. induction d as [| y t IHt]; [reflexivity |].
  cbn [List.filter]. destruct (decide (y = x)) as [-> | Hne].
  - rewrite bool_decide_eq_true_2 by reflexivity. cbn [negb]. rewrite Hin.
    cbn [negb]. exact IHt.
  - rewrite (bool_decide_eq_false_2 _ Hne). cbn [negb List.filter].
    destruct (existsb _ acc); cbn [negb]; now rewrite IHt.
Qed.

Lemma distinct_seen_snoc (x : RepoValue) (acc d : list RepoValue) :
  List.filter (fun y => negb (existsb (fun z => bool_decide (y = z)) (acc ++ [x]))) d =
  List.filter (fun y => negb (existsb (fun z => bool_decide (y = z)) acc))
    (List.filter (fun y => negb (bool_decide (y = x))) d).
Proof.
  induction d as [| y t IHt]; [reflexivity |].
  cbn [List.filter]. rewrite seen_app. cbn [existsb]. rewrite orb_false_r.
  destruct (decide (y = x)) as [-> | Hne].
  - rewrite bool_decide_eq_true_2 by reflexivity. rewrite orb_true_r.
    cbn [negb]. exact IHt.
  - rewrite (bool_decide_eq_false_2 _ Hne). rewrite orb_false_r. cbn [negb List.filter].
    destruct (existsb _ acc); cbn [negb]; now rewrite IHt.
Qed.

Lemma fold_setAdd_distinct (l acc : list RepoValue) :
  fold_left setAdd l acc =
  acc ++ List.filter (fun y => negb (existsb (fun z => bool_decide (y = z)) acc))
           (distinct l).
Proof.
  revert acc. induction l as [| x r IH]; intros acc; cbn [fold_left distinct List.filter].
  - now rewrite app_nil_r.
  - unfold setAdd at 2.
    destruct (existsb (fun y => bool_decide (x = y)) acc) eqn:Hin; cbn [negb].
    + now rewrite IH, distinct_seen_member.
    + now rewrite IH, <- app_assoc, distinct_seen_snoc.
Qed.

(** [new Set] keeps the first occurrence of every value. *)
Lemma newSet_distinct (l : list RepoValue) : newSet l = distinct l.
Proof.
  unfold newSet. rewrite fold_setAdd_distinct. cbn [app existsb negb].
  induction (distinct l) as [| y t IH]; cbn [List.filter]; congruence.
Qed.

Lemma distinct_NoDup (l : list RepoValue) : NoDup (distinct l).
Proof.
  induction l as [| x r IH]; cbn [distinct]; constructor.
  - rewrite list_elem_of_In, filter_In. intros [_ H].
    now rewrite bool_decide_eq_true_2 in H.
  - apply NoDup_ListNoDup, List.NoDup_filter, NoDup_ListNoDup, IH.
Qed.

(** On repository names the values are told apart as the names are. *)
Lemma distinct_names (names : list string) :
  distinct (map Name names) = map Name (Repo.dedupFirst names).
Proof.
  induction names as [| x r IH]; [reflexivity |].
  cbn [map distinct Repo.dedupFirst]. rewrite IH. f_equal. clear IH.
  induction (Repo.dedupFirst r) as [| y t IHt]; [reflexivity |].
  cbn [map List.filter]. destruct (String.eqb_spec y x) as [-> | Hne].
  - rewrite bool_decide_eq_true_2 by reflexivity. cbn [negb]. exact IHt.
  - rewrite bool_decide_eq_false_2 by congruence. cbn [negb map]. now rewrite IHt.
Qed.

Lemma repoText_names (names : list string) : map (repoText w) (map Name names) = names.
Proof. rewrite map_map. cbn [repoText]. apply map_id. Qed.

Lemma updateLoop_run (repos : list RepoValue) :
  forall (updated failed : nat) (st : State),
  exists updated' failed' st' evs,
    updateLoop w repos updated failed st = (Ok (updated', failed'), st') /\
    trace st' = trace st ++ evs /\
    (updated' + failed' = updated + failed + length repos)%nat /\
    releasesIn evs = map (repoText w) repos.
Proof.
  induction repos as [| fullName rest IH]; intros updated failed st; cbn [updateLoop].
  - exists updated, failed, st, []. unfold ret. rewrite app_nil_r.
    repeat split. simpl. lia.
  - unfold bind at 1. unfold tryCatch, bind at 1 2, ret, call.
    destruct (install_one_release fullName false st) as (evs1 & Ht1 & Hr1).
    destruct (installPluginFromGithub w fullName false st) as [[[] | e] st1].
    + destruct (IH (S updated) failed st1) as (u & f & st' & evs & -> & Ht & Hsum & Hr).
      exists u, f, st', (evs1 ++ evs). cbn [snd] in Ht1.
      split; [reflexivity |]. split; [now rewrite Ht, Ht1, app_assoc |].
      split; [simpl; lia |]. now rewrite releasesIn_app, Hr1, Hr.
    + cbn [trace settings].
      set (st2 := {| trace := _; settings := _ |}).
      destruct (IH updated (S failed) st2) as (u & f & st' & evs & -> & Ht & Hsum & Hr).
      exists u, f, st',
        (evs1 ++ ConsoleError ("Failed to update " +:+ repoText w fullName) e :: evs).
      cbn [snd] in Ht1.
      split; [reflexivity |]. split.
      { rewrite Ht. unfold st2. cbn [trace]. rewrite Ht1.
        now rewrite <- !app_assoc. }
      split; [simpl; lia |].
      rewrite releasesIn_app, Hr1. cbn. fold (releasesIn evs). now rewrite Hr.
Qed.

Lemma installSet_run (plugins : list string) :
  forall st : State,
  exists st' evs,
    installSet w plugins st = (Ok tt, st') /\
    trace st' = trace st ++ evs /\
    releasesIn evs = plugins.
Proof.
  induction plugins as [| fullName rest IH]; intros st; cbn [installSet].
  - exists st, []. unfold ret. now rewrite app_nil_r.
  - unfold bind, tryCatch, call.
    destruct (install_one_release (Name fullName) true st) as (evs1 & Ht1 & Hr1).
    cbn [repoText] in Hr1.
    destruct (installPluginFromGithub w (Name fullName) true st) as [[[] | e] st1].
    + destruct (IH st1) as (st' & evs & -> & Ht & Hr).
      exists st', (evs1 ++ evs). cbn [snd] in Ht1.
      split; [reflexivity |]. split; [now rewrite Ht, Ht1, app_assoc |].
      now rewrite releasesIn_app, Hr1, Hr.
    + cbn [trace settings].
      set (st2 := {| trace := _; settings := _ |}).
      destruct (IH st2) as (st' & evs & -> & Ht & Hr).
      exists st',
        (evs1 ++ ConsoleError ("Failed to install " +:+ fullName +:+ ":") e :: evs).
      cbn [snd] in Ht1. split; [reflexivity |]. split.
      { rewrite Ht. unfold st2. cbn [trace]. rewrite Ht1. now rewrite <- !app_assoc. }
      rewrite releasesIn_app, Hr1. cbn. fold (releasesIn evs). now rewrite Hr.
Qed.

(** The loop after its first entry. *)
Lemma installSet_cons (fullName : string) (rest : list string) (st : State) :
  installSet w (fullName :: rest) st =
  installSet w rest
    match installPluginFromGithub w (Name fullName) true st with
    | (Ok _, after) => after
    | (Throw e, after) =>
        extend after [ConsoleError ("Failed to install " +:+ fullName +:+ ":") e]
    end.
Proof.
  cbn [installSet]. unfold bind, tryCatch, call, extend.
  now destruct (installPluginFromGithub w (Name fullName) true st) as [[[] | e] st1].
Qed.

(** The loop over a set in two parts. *)
Lemma installSet_app (pre post : list string) :
  forall st : State,
  installSet w (pre ++ post) st = installSet w post (snd (installSet w pre st)).
Proof.
  induction pre as [| q pre IH]; intros st; cbn [app].
  - reflexivity.
  - rewrite !installSet_cons. apply IH.
Qed.

(** One more entry at the end of the set. *)
Lemma installSet_snoc (pre : list string) (fullName : string) :
  forall st : State,
  snd (installSet w (pre ++ [fullName]) st) =
  match installPluginFromGithub w (Name fullName) true (snd (installSet w pre st)) with
  | (Ok _, after) => after
  | (Throw e, after) =>
      extend after [ConsoleError ("Failed to install " +:+ fullName +:+ ":") e]
  end.
Proof.
  induction pre as [| q pre IH]; intros st; cbn [app].
  - rewrite installSet_cons. cbn [installSet ret snd].
    now destruct (installPluginFromGithub w (Name fullName) true st) as [[[] | e] st1].
  - rewrite !installSet_cons. apply IH.
Qed.

End BatchFacts.

(** X13.  [updatePluginsByRepo] never throws.  It attempts every distinct
    repository of its argument exactly once, in the order of first
    occurrence, whether earlier installations failed or not, and the two
    counters it returns add up to the number of distinct repositories.
    The same holds of the values a candidate can carry in place of a
    name, which are requested under the text the host gives them. *)
Theorem updatePluginsByRepo_spec (w : Host.World) (repos : list string) (st : Host.State) :
  (exists updated failed st' evs,
     Batch.updatePluginsByRepo w (map Host.Name repos) st =
       (Host.Ok (updated, failed), st') /\
     Host.trace st' = Host.trace st ++ evs /\
     Trail.releasesIn evs = Repo.dedupFirst repos /\
     NoDup (Trail.releasesIn evs) /\
     (updated + failed = length (Repo.dedupFirst repos))%nat) /\
  (forall values : list Host.RepoValue,
   exists updated failed st' evs,
     Batch.updatePluginsByRepo w values st = (Host.Ok (updated, failed), st') /\
     Host.trace st' = Host.trace st ++ evs /\
     Trail.releasesIn evs = map (Host.repoText w) (Batch.distinct values) /\
     NoDup (Batch.distinct values) /\
     (updated + failed = length (Batch.distinct values))%nat).
Proof.
  split.
  - unfold Batch.updatePluginsByRepo. rewrite newSet_distinct, distinct_names.
    destruct (updateLoop_run w (map Host.Name (Repo.dedupFirst repos)) 0 0 st)
      as (u & f & st' & evs & H & Ht & Hsum & Hr).
    rewrite repoText_names in Hr. rewrite length_map in Hsum.
    exists u, f, st', evs. rewrite Hr.
    split; [exact H |]. split; [exact Ht |]. split; [reflexivity |].
    split; [apply dedupFirst_NoDup | lia].
  - intros values. unfold Batch.updatePluginsByRepo. rewrite newSet_distinct.
    destruct (updateLoop_run w (Batch.distinct values) 0 0 st)
      as (u & f & st' & evs & H & Ht & Hsum & Hr).
    exists u, f, st', evs.
    split; [exact H |]. split; [exact Ht |]. split; [exact Hr |].
    split; [apply distinct_NoDup | lia].
Qed.

(** X14.  The loop behind "Install set" never throws and attempts every
    entry of the set in order, one release request each, an entry listed
    twice being installed twice.  Each entry is installed from the state
    in which the entries before it left the host; when its installation
    throws, the error is logged under the name of the entry, as the next
    call and once, and the loop goes on with the entry after it; when it
    returns, nothing is logged for it. *)
Theorem installSet_spec (w : Host.World) (plugins : list string) (st : Host.State) :
  (exists st' evs,
     Batch.installSet w plugins st = (Host.Ok tt, st') /\
     Host.trace st' = Host.trace st ++ evs /\
     Trail.releasesIn evs = plugins) /\
  (forall pre fullName post,
     plugins = pre ++ fullName :: post ->
     let before := snd (Batch.installSet w pre st) in
     let after := snd (Batch.installSet w (pre ++ [fullName]) st) in
     after =
       match PluginHub.installPluginFromGithub w (Host.Name fullName) true before with
       | (Host.Ok _, st1) => st1
       | (Host.Throw e, st1) =>
           Host.extend st1
             [Host.ConsoleError ("Failed to install " +:+ fullName +:+ ":") e]
       end /\
     Batch.installSet w plugins st = Batch.installSet w post after).
Proof.
  split; [apply installSet_run |].
  intros pre fullName post Hplugins before after. split.
  - apply installSet_snoc.
  - subst plugins after.
    change (pre ++ fullName :: post) with (pre ++ [fullName] ++ post).
    rewrite app_assoc. apply installSet_app.
Qed.

(** X15.  The update command, once the check has returned, does not
    throw.  It reports that no updates were found exactly when no
    candidate needs an update, and then makes no further call; otherwise
    it attempts the repository of every candidate that needs an update
    once, and the counts it reports add up to their number. *)
Theorem updateCommand_spec (w : Host.World) (st : Host.State) :
  forall l st1,
    PluginHub.checkInstalledPluginUpdates w st = (Host.Ok l, st1) ->
    exists n st',
      Batch.updateCommand w st = (Host.Ok n, st') /\
      match n with
      | Batch.NoUpdatesFound =>
          st' = st1 /\ forallb (fun c => negb (Host.cand_needsUpdate c)) l = true
      | Batch.UpdateFinished updated failed =>
          existsb Host.cand_needsUpdate l = true /\
          (updated + failed = length (Batch.distinct (Batch.reposToUpdate l)))%nat /\
          (0 < updated + failed)%nat /\
          exists evs, Host.trace st' = Host.trace st1 ++ evs /\
                      Trail.releasesIn evs =
                        map (Host.repoText w) (Batch.distinct (Batch.reposToUpdate l))
      end.
Proof.
  intros l st1 Hrun.
  pose proof (check_candidates_shape_aux w st l st1 Hrun) as Hcoh.
  unfold Batch.updateCommand, Host.bind. rewrite Hrun.
  destruct (Batch.reposToUpdate l) as [| r rs] eqn:Hrepos.
  - exists Batch.NoUpdatesFound, st1. split; [reflexivity |]. split; [reflexivity |].
    apply forallb_forall. intros c Hin.
    unfold Batch.reposToUpdate in Hrepos. apply map_eq_nil in Hrepos.
    destruct (Host.cand_needsUpdate c) eqn:Hn; [| reflexivity].
    assert (Hf : In c (List.filter
                         (fun c => Host.cand_needsUpdate c && Host.present (Host.cand_repo c))
                         l)).
    { apply filter_In. split; [exact Hin |].
      rewrite forallb_forall in Hcoh.
      now rewrite Hn, (coherent_needs_repo c (Hcoh c Hin) Hn). }
    rewrite Hrepos in Hf. destruct Hf.
  - destruct (updateLoop_run w (Batch.distinct (r :: rs)) 0 0 st1)
      as (u & f & st' & evs & H & Ht & Hsum & Hr).
    unfold Batch.updatePluginsByRepo. rewrite newSet_distinct, H.
    exists (Batch.UpdateFinished u f), st'. split; [reflexivity |].
    split.
    { unfold Batch.reposToUpdate in Hrepos.
      destruct (List.filter _ l) as [| c cs] eqn:Hf; [discriminate |].
      assert (Hin : In c (List.filter
                            (fun c => Host.cand_needsUpdate c &&
                                      Host.present (Host.cand_repo c)) l))
        by (rewrite Hf; now left).
      apply filter_In in Hin as [Hin Hc]. apply andb_true_iff in Hc as [Hc _].
      apply existsb_exists. eauto. }
    split; [lia |]. split; [simpl in *; lia |]. eauto.
Qed.

Lemma updateCommand_spec_witness :
  exists st',
    Batch.updateCommand Scenario.updates Scenario.updatesStart =
      (Host.Ok (Batch.UpdateFinished 2 0), st') /\
    length (Batch.distinct
              (Batch.reposToUpdate (Scenario.candidatesOf Scenario.firstCheck))) = 2%nat.
Proof.
  assert (H : exists st1, PluginHub.checkInstalledPluginUpdates Scenario.updates
                            Scenario.updatesStart =
                          (Host.Ok (Scenario.candidatesOf Scenario.firstCheck), st1)).
  { vm_compute. eexists. reflexivity. }
  destruct H as [st1 H].
  destruct (updateCommand_spec Scenario.updates Scenario.updatesStart _ st1 H)
    as (n & st' & Hrun & Hn).
  assert (Hc : fst (Batch.updateCommand Scenario.updates Scenario.updatesStart) =
               Host.Ok (Batch.UpdateFinished 2 0)) by (vm_compute; reflexivity).
  rewrite Hrun in Hc. cbn [fst] in Hc. injection Hc as ->.
  exists st'. split; [exact Hrun |].
  destruct Hn as (_ & Hsum & _). rewrite <- Hsum. reflexivity.
Defined.

Section LocationFacts.

Import Host PluginHub Trail Footprint.
Variable w : World.



Lemma emits_deploy_selected (I : PluginSettings -> Prop)
    (useParentDirs useSelectedVaults : bool)
    (pluginId : option string) (mainJs manifestContent : string)
    (stylesCss : bool) (stylesContent : string) :
  emits I selectedCalls
    (deployToVaults w useParentDirs useSelectedVaults pluginId mainJs manifestContent
       stylesCss stylesContent).
Proof.
  apply (emits_weaken I deployCalls); [| apply emits_deployToVaults].
  intros []; simpl; congruence.
Qed.

Lemma emits_deploy_mobile (I : PluginSettings -> Prop)
    (useParentDirs useSelectedVaults : bool)
    (pluginId : option string) (mainJs manifestContent : string)
    (stylesCss : bool) (stylesContent : string) :
  has_node_fs w = false ->
  emits I mobileCalls
    (deployToVaults w useParentDirs useSelectedVaults pluginId mainJs manifestContent
       stylesCss stylesContent).
Proof.
  intros Hfs st Hst. unfold deployToVaults, tryCatch, bind, call. rewrite Hfs.
  cbn [trace settings snd ret].
  exists [RequireFs;
          ConsoleError "Failed to copy to extra vaults:" (mkError "Cannot find module 'fs'")].
  cbn [trace settings snd]. rewrite <- app_assoc. auto.
Qed.

(** Reading the install location from settings that hold [loc]. *)
Ltac emits_located :=
  repeat first
    [ solve [eauto 3 with emits]
    | match goal with
      | |- emits _ _ (bind getSettings _) =>
          apply emits_getSettings;
          let s := fresh "s" in
          let Hs := fresh "Hs" in
          intros s Hs; cbv beta zeta in *; try rewrite !Hs; cbv iota;
          cbn [orb andb negb]
      end
    | emits_step ].

Lemma emits_install_active (fullName : RepoValue) (showNotice : bool) :
  emits (fun s => installLocation s = locActive) activeCalls
        (installPluginFromGithub w fullName showNotice).
Proof.
  unfold installPluginFromGithub, GithubService.getLatestRelease, saveSettings.
  emits_located. apply emits_setInstalledRepo. auto.
Qed.

Lemma emits_install_selected (fullName : RepoValue) (showNotice : bool) :
  emits (fun s => installLocation s = locSelected) selectedCalls
        (installPluginFromGithub w fullName showNotice).
Proof.
  unfold installPluginFromGithub, GithubService.getLatestRelease, saveSettings.
  pose proof (emits_deploy_selected (fun s => installLocation s = locSelected)) as Hd.
  emits_located. apply emits_setInstalledRepo. auto.
Qed.

Lemma emits_install_mobile (fullName : RepoValue) (showNotice : bool) :
  has_node_fs w = false ->
  emits (fun s => installLocation s = installLocation s) mobileCalls
        (installPluginFromGithub w fullName showNotice).
Proof.
  intros Hfs.
  unfold installPluginFromGithub, GithubService.getLatestRelease, saveSettings.
  pose proof (fun a b c d e f g =>
                emits_deploy_mobile (fun s => installLocation s = installLocation s)
                  a b c d e f g Hfs) as Hd.
  emits_located. apply emits_setInstalledRepo. auto.
Qed.

End LocationFacts.

(** X16.  [installPluginFromGithub] respects the install location, however
    the run ends.  With location "active" it makes no call of node's [fs]
    at all; with "selected" it makes no call of the vault adapter, so the
    active vault is not written; and where node's [fs] cannot be loaded
    it makes no [fs] call in any mode.  The location itself is never
    changed. *)
Theorem install_location_calls (w : Host.World) (fullName : string)
    (showNotice : bool) (st : Host.State) :
  let st' := snd (PluginHub.installPluginFromGithub w (Host.Name fullName) showNotice st) in
  exists evs,
    Host.trace st' = Host.trace st ++ evs /\
    Host.installLocation (Host.settings st') = Host.installLocation (Host.settings st) /\
    (Host.installLocation (Host.settings st) = Host.locActive ->
     Trail.only Footprint.activeCalls evs = true) /\
    (Host.installLocation (Host.settings st) = Host.locSelected ->
     Trail.only Footprint.selectedCalls evs = true) /\
    (Host.has_node_fs w = false -> Trail.only Footprint.mobileCalls evs = true).
Proof.
  intros st'.
  destruct (install_calls w
              (fun s => Host.installLocation s = Host.installLocation (Host.settings st))
              (fun s p f H => H) (Host.Name fullName) showNotice st eq_refl)
    as (evs & Ht & _ & Hloc).
  cbn [Host.repoText] in Ht. fold st' in Ht, Hloc.
  exists (Host.GetLatestRelease fullName :: evs).
  split; [exact Ht |]. split; [exact Hloc |].
  assert (Hsame : forall evs', Host.trace st' = Host.trace st ++ evs' ->
                               evs' = Host.GetLatestRelease fullName :: evs).
  { intros evs' Ht'. rewrite Ht in Ht'. now apply app_inv_head in Ht'. }
  split; [| split].
  - intros Hactive.
    destruct (emits_install_active w (Host.Name fullName) showNotice st Hactive)
      as (evs' & Ht' & Ho & _).
    now rewrite <- (Hsame evs' Ht').
  - intros Hselected.
    destruct (emits_install_selected w (Host.Name fullName) showNotice st Hselected)
      as (evs' & Ht' & Ho & _).
    now rewrite <- (Hsame evs' Ht').
  - intros Hfs.
    destruct (emits_install_mobile w (Host.Name fullName) showNotice Hfs st eq_refl)
      as (evs' & Ht' & Ho & _).
    now rewrite <- (Hsame evs' Ht').
Qed.

Lemma install_location_calls_witness :
  exists evs,
    Host.trace (snd (PluginHub.installPluginFromGithub Scenario.updates
                       (Host.Name "o/zeta") true Scenario.selectedStart)) =
      Host.trace Scenario.selectedStart ++ evs /\
    Trail.only Footprint.selectedCalls evs = true.
Proof.
  destruct (install_location_calls Scenario.updates "o/zeta" true Scenario.selectedStart)
    as (evs & Ht & _ & _ & Hsel & _).
  exists evs. split; [exact Ht | apply Hsel; reflexivity].
Defined.

(** ** Installation step by step *)

Section InstallSteps.

Import Host PluginHub Trail Footprint.
Variable w : World.

Lemma bind_call_eq {A B} (ev : Event) (answer : Trace -> Outcome A) (k : A -> M B)
    (st : State) :
  bind (call ev answer) k st =
  match answer (trace st) with
  | Ok a => k a (extend st [ev])
  | Throw e => (Throw e, extend st [ev])
  end.
Proof. unfold bind, call, extend. now destruct (answer (trace st)). Qed.

Lemma bind_getSettings_eq {B} (k : PluginSettings -> M B) (st : State) :
  bind getSettings k st = k (settings st) st.
Proof. reflexivity. Qed.

Lemma bind_ret_eq {A B} (a : A) (k : A -> M B) (st : State) :
  bind (ret a) k st = k a st.
Proof. reflexivity. Qed.

(** The run of an installation up to the point where the repository is
    tracked. *)
Lemma install_tracking (fullName : RepoValue) (showNotice : bool) (st : State)
    (assets : list Asset) (mainJs manifestJson : Asset) (resp : Response)
    (manifest : Manifest) (pluginId : string) :
  latest_release w (trace st) (repoText w fullName) = Ok {| assets := Some assets |} ->
  findAsset "main.js" assets = Some mainJs ->
  findAsset "manifest.json" assets = Some manifestJson ->
  download w (trace st ++ [GetLatestRelease (repoText w fullName)])
    (browser_download_url manifestJson) = Ok resp ->
  resp_json resp = Some manifest ->
  manifest_id manifest = Some pluginId ->
  pluginId <> EmptyString ->
  let st' := snd (installPluginFromGithub w fullName showNotice st) in
  let tracked :=
    bool_decide (objectGet (installedRepoMap (settings st)) pluginId = Some fullName) in
  exists evs,
    trace st' = trace st ++ GetLatestRelease (repoText w fullName) ::
                  Download (browser_download_url manifestJson) ::
                  (if tracked then []
                   else [SaveData (withRepo (settings st) pluginId fullName)]) ++ evs /\
    only afterTracking evs = true /\
    settings st' = (if tracked then settings st
                    else withRepo (settings st) pluginId fullName).
Proof.
  intros Hrel Hmain Hman Hdl Hjson Hid Hne st' tracked. subst st'.
  remember (installPluginFromGithub w fullName showNotice st) as run eqn:Hrun.
  unfold installPluginFromGithub, GithubService.getLatestRelease in Hrun.
  rewrite bind_call_eq, Hrel in Hrun. cbn [Host.assets] in Hrun.
  rewrite Hmain, Hman in Hrun.
  rewrite bind_call_eq in Hrun. cbn [extend trace] in Hrun.
  rewrite Hdl, Hjson in Hrun.
  rewrite bind_getSettings_eq, Hid in Hrun.
  cbn [extend settings default from_option id] in Hrun.
  assert (Htruthy : JS.truthy (Some pluginId) = true)
    by (destruct pluginId; [congruence | reflexivity]).
  rewrite Htruthy in Hrun. cbn [andb] in Hrun. fold tracked in Hrun.
  match type of Hrun with
  | context [bind (if negb tracked then _ else _) ?k] => set (K := k) in Hrun
  end.
  assert (HK : forall s0, emits (fun s => s = s0) afterTracking (K tt)).
  { intros s0. subst K. cbv beta.
    pose proof (fun a b c d e f g =>
                  emits_weaken (fun s => s = s0) deployCalls afterTracking _
                    (fun k => match k with
                              | KRequireFs | KFsExists | KFsReaddir | KFsStat | KFsMkdir
                              | KFsWrite | KConsoleError => fun _ => eq_refl
                              | _ => fun H => False_ind _ (Bool.diff_false_true H)
                              end)
                    (emits_deployToVaults w (fun s => s = s0) a b c d e f g)) as Hd.
    emits_go. }
  match type of Hrun with
  | context [bind _ K ?s] => set (st2 := s) in Hrun
  end.
  assert (Ht2 : trace st2 = trace st ++ [GetLatestRelease (repoText w fullName);
                                         Download (browser_download_url manifestJson)])
    by (unfold st2; cbn [extend trace]; now rewrite <- app_assoc).
  assert (Hs2 : settings st2 = settings st) by reflexivity.
  destruct tracked; cbn [negb] in Hrun.
  - rewrite bind_ret_eq in Hrun. subst run.
    destruct (HK (settings st) st2 Hs2) as (evs & Ht & Ho & Hs).
    exists evs. rewrite Ht, Hs, Ht2. cbn [app].
    split; [now rewrite <- !app_assoc |]. auto.
  - unfold bind at 1 in Hrun. unfold bind at 1 in Hrun.
    unfold setInstalledRepo, saveSettings in Hrun.
    rewrite bind_getSettings_eq in Hrun. unfold call in Hrun.
    cbn [trace settings] in Hrun. rewrite Hs2 in Hrun.
    set (s1 := withRepo (settings st) pluginId fullName) in *.
    destruct (save_data w (trace st2)) as [[] | e]; subst run.
    + match goal with
      | |- context [K tt ?s] => destruct (HK s1 s eq_refl) as (evs & Ht & Ho & Hs)
      end.
      exists evs. rewrite Ht, Hs. cbn [trace]. rewrite Ht2. cbn [app].
      split; [now rewrite <- !app_assoc |]. auto.
    + exists []. cbn [snd trace settings]. rewrite Ht2. cbn [app].
      split; [now rewrite <- !app_assoc |]. auto.
Qed.


Lemma bind_assoc_eq {A B C} (m : M A) (f : A -> M B) (k : B -> M C) (st : State) :
  bind (bind m f) k st = bind m (fun x => bind (f x) k) st.
Proof. unfold bind. now destruct (m st) as [[a | e] st1]. Qed.

Lemma bind_setInstalledRepo_eq {B} (pluginId : string) (fullName : RepoValue)
    (k : unit -> M B) (st : State) :
  bind (setInstalledRepo pluginId fullName) k st =
  k tt {| trace := trace st; settings := withRepo (settings st) pluginId fullName |}.
Proof. reflexivity. Qed.

Lemma call_eq {A} (ev : Event) (answer : Trace -> Outcome A) (st : State) :
  call ev answer st = (answer (trace st), extend st [ev]).
Proof. reflexivity. Qed.

Lemma ret_eq {A} (a : A) (st : State) : ret a st = (Ok a, st).
Proof. reflexivity. Qed.

Lemma throw_eq {A} (e : Error) (st : State) : @throw A e st = (Throw e, st).
Proof. reflexivity. Qed.

End InstallSteps.

(** One step of the run of a computation recorded in [H]. *)
Ltac run_step H :=
  first
    [ rewrite bind_assoc_eq in H
    | rewrite bind_call_eq in H
    | rewrite bind_getSettings_eq in H
    | rewrite bind_setInstalledRepo_eq in H
    | rewrite bind_ret_eq in H
    | rewrite call_eq in H
    | rewrite ret_eq in H
    | rewrite throw_eq in H
    | progress cbn [Host.extend Host.trace Host.settings Host.assets negb orb andb
                    Host.withRepo Host.installLocation] in H
    | match type of H with
      | context [bool_decide (is_Some (Some ?x))] =>
          change (bool_decide (is_Some (Some x))) with true in H
      | context [bool_decide (is_Some (@None ?T))] =>
          change (bool_decide (is_Some (@None T))) with false in H
      end ].

Ltac run_case H :=
  match type of H with
  | context [match ?o with Host.Ok _ => _ | Host.Throw _ => _ end] =>
      destruct o eqn:?; try discriminate H
  | context [match ?o with Some _ => _ | None => _ end] =>
      destruct o eqn:?; try discriminate H
  | context [if ?b then _ else _] =>
      destruct b eqn:?; try discriminate H
  end.

Section InstallRuns.

Import Host PluginHub Trail Footprint.
Variable w : World.

Lemma install_active_run (fullName : RepoValue) (showNotice : bool) (st st' : State) :
  installLocation (settings st) = locActive ->
  installPluginFromGithub w fullName showNotice st = (Ok tt, st') ->
  exists assets manifestJson resp manifest mainText stylesText evs,
    latest_release w (trace st) (repoText w fullName) = Ok {| assets := Some assets |} /\
    findAsset "manifest.json" assets = Some manifestJson /\
    download w (trace st ++ [GetLatestRelease (repoText w fullName)])
      (browser_download_url manifestJson) = Ok resp /\
    resp_json resp = Some manifest /\
    trace st' = trace st ++ evs /\
    adapterWritesIn evs =
      let dir := configDir w +:+ "/plugins/" +:+ interpolate (manifest_id manifest) in
      (dir +:+ "/main.js", mainText) ::
      (dir +:+ "/manifest.json", json_stringify w manifest) ::
      (if bool_decide (is_Some (findAsset "styles.css" assets))
       then [(dir +:+ "/styles.css", stylesText)] else []).
Proof.
  intros Hloc Hrun.
  unfold installPluginFromGithub, GithubService.getLatestRelease, saveSettings in Hrun.
  run_step Hrun.
  destruct (latest_release w (trace st) (repoText w fullName)) as [[assets] | e] eqn:Hrel;
    [| discriminate].
  cbn [Host.assets] in Hrun. destruct assets as [assets |]; [| discriminate].
  exists assets.
  destruct (findAsset "main.js" assets) as [mainJs |]; [| discriminate].
  destruct (findAsset "manifest.json" assets) as [manifestJson |]; [| discriminate].
  exists manifestJson.
  repeat first [ run_step Hrun | rewrite Hloc in Hrun | run_case Hrun ].
  all: apply (f_equal snd) in Hrun; cbn [snd] in Hrun; subst st'.
  all: do 5 eexists.
  all: (split; [reflexivity |]).
  all: (split; [reflexivity |]).
  all: (split; [first [reflexivity | eassumption] |]).
  all: (split; [first [reflexivity | eassumption] |]).
  all: (split; [cbn [trace extend]; rewrite <- !app_assoc; cbn [app]; reflexivity |]).
  all: cbv zeta; cbn [adapterWritesIn omap list_omap]; try reflexivity.
  Unshelve. all: exact EmptyString.
Qed.

End InstallRuns.

Section TrackingFacts.

Import Host.

(** A repository name read from the object is a property of its own. *)
Lemma objectGet_name (m : gmap string RepoValue) (key fullName : string) :
  objectGet m key = Some (Name fullName) -> m !! key = Some (Name fullName).
Proof.
  unfold objectGet. destruct (m !! key) as [v |]; [tauto |].
  destruct (JS.inherited key); discriminate.
Qed.

(** An assignment under any name but __proto__, or under a name the
    object owns, defines the property. *)
Lemma objectSet_defines (m : gmap string RepoValue) (key : string) (v : RepoValue) :
  key <> "__proto__" \/ is_Some (m !! key) -> objectSet m key v = <[key := v]> m.
Proof.
  unfold objectSet. intros [Hne | [x Hx]].
  - destruct (String.eqb_spec key "__proto__"); [contradiction | reflexivity].
  - rewrite Hx, bool_decide_eq_false_2 by discriminate. now rewrite andb_false_r.
Qed.

(** An assignment of a repository under __proto__, where the object does
    not own that name, goes to the setter it inherits and is dropped. *)
Lemma objectSet_proto (m : gmap string RepoValue) (v : RepoValue) :
  m !! "__proto__" = None -> objectSet m "__proto__" v = m.
Proof. unfold objectSet. intros ->. reflexivity. Qed.

Lemma withRepo_proto (s : PluginSettings) (v : RepoValue) :
  installedRepoMap s !! "__proto__" = None -> withRepo s "__proto__" v = s.
Proof. intros H. unfold withRepo. rewrite (objectSet_proto _ v H). now destruct s. Qed.

End TrackingFacts.

#[local] Existing Instance Host.RepoValue_eq_dec.

(** X17.  An installation that gets as far as the manifest of the release
    tracks the repository under the id of that manifest, as an assignment
    to a plain object does.  If [installedRepoMap] reads the repository
    under that id already, the settings are left as they are and nothing
    is saved; otherwise the entry is assigned, no other setting changes,
    and the settings are saved exactly once.  After the assignment the
    map holds the repository under the id, with one exception: under the
    id __proto__, where the map has no property of its own of that name,
    the assignment stores nothing, so that every such installation finds
    the repository untracked and saves the unchanged settings again. *)
Theorem install_tracks_repo (w : Host.World) (fullName : string) (showNotice : bool)
    (st : Host.State) (assets : list Host.Asset) (mainJs manifestJson : Host.Asset)
    (resp : Host.Response) (manifest : Host.Manifest) (pluginId : string) :
  Host.latest_release w (Host.trace st) fullName =
    Host.Ok {| Host.assets := Some assets |} ->
  PluginHub.findAsset "main.js" assets = Some mainJs ->
  PluginHub.findAsset "manifest.json" assets = Some manifestJson ->
  Host.download w (Host.trace st ++ [Host.GetLatestRelease fullName])
    (Host.browser_download_url manifestJson) = Host.Ok resp ->
  Host.resp_json resp = Some manifest ->
  Host.manifest_id manifest = Some pluginId ->
  pluginId <> EmptyString ->
  let repo := Host.Name fullName in
  let kept := Host.installedRepoMap (Host.settings st) in
  let st' := snd (PluginHub.installPluginFromGithub w repo showNotice st) in
  let tracked := bool_decide (Host.objectGet kept pluginId = Some repo) in
  Host.settings st' =
    (if tracked then Host.settings st
     else Host.withRepo (Host.settings st) pluginId repo) /\
  (exists evs,
     Host.trace st' = Host.trace st ++ evs /\
     Trail.savesIn evs = (if tracked then [] else [Host.settings st'])) /\
  (pluginId <> "__proto__" \/ is_Some (kept !! pluginId) ->
   Host.installedRepoMap (Host.settings st') !! pluginId = Some repo /\
   Host.objectGet (Host.installedRepoMap (Host.settings st')) pluginId = Some repo) /\
  (pluginId = "__proto__" -> kept !! pluginId = None ->
   tracked = false /\
   Host.settings st' = Host.settings st /\
   Host.objectGet (Host.installedRepoMap (Host.settings st')) pluginId =
     Some (Host.Member "__proto__")).
Proof.
  intros Hrel Hmain Hman Hdl Hjson Hid Hne repo kept st' tracked.
  destruct (install_tracking w (Host.Name fullName) showNotice st assets mainJs
              manifestJson resp manifest pluginId Hrel Hmain Hman Hdl Hjson Hid Hne)
    as (evs & Ht & Ho & Hs).
  cbn [Host.repoText] in Ht. fold repo in Ht, Hs.
  fold st' in Ht, Hs. fold kept in Ht, Hs. fold tracked in Ht, Hs.
  pose proof (only_no_saves Footprint.afterTracking evs eq_refl Ho) as Hsaves.
  split; [exact Hs |]. split; [| split].
  - eexists. split; [exact Ht |].
    change (Host.GetLatestRelease fullName ::
            Host.Download (Host.browser_download_url manifestJson) ::
            (if tracked then []
             else [Host.SaveData (Host.withRepo (Host.settings st) pluginId repo)]) ++
            evs)
      with ([Host.GetLatestRelease fullName;
             Host.Download (Host.browser_download_url manifestJson)] ++
            (if tracked then []
             else [Host.SaveData (Host.withRepo (Host.settings st) pluginId repo)]) ++
            evs).
    rewrite !savesIn_app, Hsaves, Hs. now destruct tracked.
  - intros Hown.
    assert (Hm : Host.installedRepoMap (Host.settings st') !! pluginId = Some repo).
    { rewrite Hs. unfold tracked. destruct (bool_decide _) eqn:Hb.
      - apply bool_decide_eq_true in Hb. now apply objectGet_name.
      - cbn [Host.withRepo Host.installedRepoMap]. fold kept.
        rewrite (objectSet_defines kept pluginId repo Hown). apply lookup_insert_eq. }
    split; [exact Hm |]. unfold Host.objectGet. now rewrite Hm.
  - intros -> Hnone.
    assert (Hb : tracked = false).
    { unfold tracked. apply bool_decide_eq_false. unfold Host.objectGet.
      rewrite Hnone. discriminate. }
    split; [exact Hb |]. rewrite Hs, Hb, (withRepo_proto _ repo Hnone).
    split; [reflexivity |]. fold kept. unfold Host.objectGet. now rewrite Hnone.
Qed.

Lemma install_tracks_repo_witness :
  let first := PluginHub.installPluginFromGithub Scenario.updates
                 (Host.Name "o/obsidian-beta") true Scenario.updatesStart in
  let second := PluginHub.installPluginFromGithub Scenario.updates
                  (Host.Name "o/obsidian-beta") true (snd first) in
  let third := PluginHub.installPluginFromGithub Scenario.inheritedIds
                 (Host.Name "o/proto") true Scenario.start in
  Host.installedRepoMap (Host.settings (snd first)) !! "beta" =
    Some (Host.Name "o/obsidian-beta") /\
  (exists evs, Host.trace (snd first) = Host.trace Scenario.updatesStart ++ evs /\
               Trail.savesIn evs = [Host.settings (snd first)]) /\
  Host.settings (snd second) = Host.settings (snd first) /\
  (exists evs, Host.trace (snd second) = Host.trace (snd first) ++ evs /\
               Trail.savesIn evs = []) /\
  Host.settings (snd third) = Scenario.defaultSettings /\
  (exists evs, Host.trace (snd third) = Host.trace Scenario.start ++ evs /\
               Trail.savesIn evs = [Scenario.defaultSettings]).
Proof.
  intros first second third.
  pose proof (install_tracks_repo Scenario.updates "o/obsidian-beta" true
                Scenario.updatesStart _ _ _ _ _ "beta"
                eq_refl eq_refl eq_refl eq_refl eq_refl eq_refl ltac:(discriminate)) as H1.
  pose proof (install_tracks_repo Scenario.updates "o/obsidian-beta" true
                (snd first) _ _ _ _ _ "beta"
                eq_refl eq_refl eq_refl eq_refl eq_refl eq_refl ltac:(discriminate)) as H2.
  pose proof (install_tracks_repo Scenario.inheritedIds "o/proto" true
                Scenario.start _ _ _ _ _ "__proto__"
                eq_refl eq_refl eq_refl eq_refl eq_refl eq_refl ltac:(discriminate)) as H3.
  cbv zeta in H1, H2, H3. fold first in H1. fold second in H2. fold third in H3.
  destruct H1 as (_ & Hs1 & Hm1 & _).
  destruct H2 as (Hset2 & Hs2 & _).
  destruct H3 as (_ & Hs3 & _ & Hp3).
  assert (Hneq : "beta" <> "__proto__") by discriminate.
  pose proof (proj1 (Hm1 (or_introl Hneq))) as Hm1'.
  assert (Hnone : Host.installedRepoMap (Host.settings Scenario.start) !! "__proto__" =
                  None) by (vm_compute; reflexivity).
  pose proof (Hp3 eq_refl Hnone) as Hp. destruct Hp as (Hb3 & Hset3 & _).
  match type of Hs1 with
  | context [if ?b then _ else _] =>
      assert (Hb1 : b = false) by (vm_compute; reflexivity); rewrite Hb1 in Hs1
  end.
  match type of Hs2 with
  | context [if ?b then _ else _] =>
      assert (Hb2 : b = true) by (vm_compute; reflexivity); rewrite Hb2 in Hs2, Hset2
  end.
  rewrite Hb3, Hset3 in Hs3.
  exact (conj Hm1' (conj Hs1 (conj Hset2 (conj Hs2 (conj Hset3 Hs3))))).
Defined.

(** X18.  An installation with location "active" that returns has written,
    through the vault adapter, exactly main.js and manifest.json, in this
    order, and after them styles.css exactly if the release has that
    asset; all into the folder [plugins/<id>] of the configuration
    folder, [<id>] being the id in the manifest of the release, and
    manifest.json holding that manifest. *)
Theorem install_active_writes (w : Host.World) (fullName : string) (showNotice : bool)
    (st st' : Host.State) :
  Host.installLocation (Host.settings st) = Host.locActive ->
  PluginHub.installPluginFromGithub w (Host.Name fullName) showNotice st =
    (Host.Ok tt, st') ->
  exists assets manifestJson resp manifest mainText stylesText evs,
    Host.latest_release w (Host.trace st) fullName =
      Host.Ok {| Host.assets := Some assets |} /\
    PluginHub.findAsset "manifest.json" assets = Some manifestJson /\
    Host.download w (Host.trace st ++ [Host.GetLatestRelease fullName])
      (Host.browser_download_url manifestJson) = Host.Ok resp /\
    Host.resp_json resp = Some manifest /\
    Host.trace st' = Host.trace st ++ evs /\
    Trail.adapterWritesIn evs =
      let dir := Host.configDir w +:+ "/plugins/" +:+
                 PluginHub.interpolate (Host.manifest_id manifest) in
      (dir +:+ "/main.js", mainText) ::
      (dir +:+ "/manifest.json", Host.json_stringify w manifest) ::
      (if bool_decide (is_Some (PluginHub.findAsset "styles.css" assets))
       then [(dir +:+ "/styles.css", stylesText)] else []).
Proof. apply (install_active_run w (Host.Name fullName)). Qed.

Lemma install_active_writes_witness :
  exists st' evs,
    PluginHub.installPluginFromGithub Cases.styled (Host.Name "o/zeta") true
      Cases.activeStart = (Host.Ok tt, st') /\
    Host.trace st' = Host.trace Cases.activeStart ++ evs /\
    map fst (Trail.adapterWritesIn evs) =
      [".obsidian/plugins/zeta/main.js"; ".obsidian/plugins/zeta/manifest.json";
       ".obsidian/plugins/zeta/styles.css"].
Proof.
  assert (Hrun : exists st',
            PluginHub.installPluginFromGithub Cases.styled (Host.Name "o/zeta") true
              Cases.activeStart =
            (Host.Ok tt, st')) by (vm_compute; eexists; reflexivity).
  destruct Hrun as [st' Hrun].
  destruct (install_active_writes Cases.styled "o/zeta" true Cases.activeStart st'
              eq_refl Hrun)
    as (assets & manifestJson & resp & manifest & mainText & stylesText & evs &
        Hrel & Hman & Hdl & Hjson & Ht & Hw).
  exists st', evs. split; [exact Hrun |]. split; [exact Ht |].
  rewrite Hw. injection Hrel as <-.
  vm_compute in Hman. injection Hman as <-.
  vm_compute in Hdl. injection Hdl as <-.
  vm_compute in Hjson. injection Hjson as <-.
  reflexivity.
Defined.

(** ** The browser view *)

Section BrowserFacts.

Import Host Browser CommunityArchiveService.

Lemma append_assoc3 (a b c : string) : (a +:+ b) +:+ c = a +:+ (b +:+ c).
Proof.
  induction a as [| x a IH]; [reflexivity |].
  change ((String x a +:+ b) +:+ c) with (String x ((a +:+ b) +:+ c)).
  change (String x a +:+ (b +:+ c)) with (String x (a +:+ (b +:+ c))).
  now rewrite IH.
Qed.

Lemma includes_within (s needle inner pre post : string) :
  needle = pre +:+ inner +:+ post ->
  JS.includes s needle = true -> JS.includes s inner = true.
Proof.
  intros -> H. apply includes_iff in H as (p & q & ->). apply includes_iff.
  exists (p +:+ pre), (post +:+ q). now rewrite !append_assoc3.
Qed.

Lemma orb_covered (a b : bool) : (a = true -> b = true) -> a || b = b.
Proof. destruct a, b; intros H; try reflexivity. now specialize (H eq_refl). Qed.

Lemma isVault_vaultLike (lowerName lowerDesc : string) :
  isVault lowerName lowerDesc = vaultLike lowerName lowerDesc.
Proof.
  unfold isVault, vaultLike.
  pose proof (includes_within lowerName "/obsidian-vault" "-vault" "/obsidian"
                EmptyString eq_refl) as H.
  destruct (JS.includes lowerName "/obsidian-vault"); [| reflexivity].
  rewrite (H eq_refl). now rewrite !orb_true_r.
Qed.

Lemma isTheme_isCss_styleLike (lowerName lowerDesc : string) :
  isTheme lowerName lowerDesc || isCss lowerName lowerDesc =
  styleLike lowerName lowerDesc.
Proof.
  unfold isTheme, isCss, styleLike.
  pose proof (includes_within lowerName "obsidian-theme" "-theme" "obsidian"
                EmptyString eq_refl) as H.
  destruct (JS.includes lowerName "obsidian-theme").
  - rewrite (H eq_refl). reflexivity.
  - rewrite orb_false_r. now rewrite <- !orb_assoc.
Qed.

Lemma keepRepo_keepSpec (searchVal : string) (repo : GithubRepo) :
  keepRepo searchVal repo = keepSpec searchVal repo.
Proof.
  unfold keepRepo, keepSpec. cbv zeta.
  rewrite isVault_vaultLike, <- isTheme_isCss_styleLike.
  destruct (JS.includes searchVal "vault"), (vaultLike _ _); cbn [negb andb orb];
    try reflexivity;
    destruct (JS.startsWith "@" searchVal), (JS.includes searchVal "theme"),
      (JS.includes searchVal "css"); cbn [negb andb orb]; try reflexivity;
    now rewrite negb_orb.
Qed.

Lemma showTopic_showTopicSpec (searchVal : string) (topic : ForumResult) :
  showTopic searchVal topic = showTopicSpec searchVal topic.
Proof.
  unfold showTopic, showTopicSpec. cbv zeta.
  set (title := JS.toLowerCase (fr_title topic)).
  pose proof (includes_within title "css snippet" "snippet" "css " EmptyString eq_refl)
    as H.
  rewrite (orb_covered _ _ H).
  destruct (JS.includes searchVal "theme"), (JS.includes searchVal "css"),
    (JS.includes searchVal "snippet"); cbn [negb andb orb]; try reflexivity.
  destruct (existsb (String.eqb "theme") (fr_tags topic)),
    (existsb (String.eqb "css") (fr_tags topic)),
    (JS.includes title "theme"), (JS.includes title "plugin"),
    (JS.includes title "snippet"); reflexivity.
Qed.

Lemma authorCompare_consistent (authorQuery : string) :
  Observe.consistentComparator (authorCompare authorQuery).
Proof.
  split.
  - intros a b. unfold authorCompare. cbv zeta.
    destruct (Z.eqb_spec (ownerStarts authorQuery a) (ownerStarts authorQuery b)) as [He | Hne];
      destruct (Z.eqb_spec (ownerStarts authorQuery b) (ownerStarts authorQuery a));
      cbn [negb]; try congruence; rewrite <- Z.sgn_opp; f_equal; lia.
  - intros a b c. unfold authorCompare. cbv zeta.
    destruct (Z.eqb_spec (ownerStarts authorQuery a) (ownerStarts authorQuery b));
      destruct (Z.eqb_spec (ownerStarts authorQuery b) (ownerStarts authorQuery c));
      destruct (Z.eqb_spec (ownerStarts authorQuery a) (ownerStarts authorQuery c));
      cbn [negb]; lia.
Qed.

End BrowserFacts.

(** X19.  [renderRepos] lists exactly the repositories given to it that
    pass the filter, and the filter says: a vault-like repository (name
    ending in /vault or containing -vault, or one of five phrases in the
    description) is listed only if the search text contains "vault"; a
    theme- or css-like one only if the search is an author search or
    contains "theme" or "css".  The source's tests for /obsidian-vault
    and obsidian-theme are covered by those for -vault and -theme. *)
Theorem renderRepos_filter (inputValue : string) (repos : list Host.GithubRepo)
    (repo : Host.GithubRepo) :
  In repo (Browser.renderRepos inputValue repos) <->
  In repo repos /\ Browser.keepSpec (JS.toLowerCase inputValue) repo = true.
Proof.
  unfold Browser.renderRepos. cbv zeta.
  assert (H : In repo (List.filter (Browser.keepRepo (JS.toLowerCase inputValue)) repos) <->
              In repo repos /\ Browser.keepSpec (JS.toLowerCase inputValue) repo = true).
  { rewrite filter_In. now rewrite keepRepo_keepSpec. }
  destruct (JS.startsWith "@" (JS.toLowerCase inputValue)); [| exact H].
  now rewrite arraySort_In.
Qed.

(** X20.  For an author search (the search text starts with @),
    [renderRepos] lists the filtered repositories rearranged so that
    those whose owner starts with the author name come first, and within
    each of the two groups a repository never stands before one with more
    stars. *)
Theorem renderRepos_author_order (inputValue : string) (repos : list Host.GithubRepo) :
  JS.startsWith "@" (JS.toLowerCase inputValue) = true ->
  let authorQuery := JS.dropChars 1 (JS.toLowerCase inputValue) in
  let shown := Browser.renderRepos inputValue repos in
  Permutation shown (List.filter (Browser.keepRepo (JS.toLowerCase inputValue)) repos) /\
  forall pre a mid b post,
    shown = pre ++ a :: mid ++ b :: post ->
    (Browser.ownerStarts authorQuery b <= Browser.ownerStarts authorQuery a)%Z /\
    (Browser.ownerStarts authorQuery a = Browser.ownerStarts authorQuery b ->
     (Host.stargazers_count b <= Host.stargazers_count a)%Z).
Proof.
  intros Hat authorQuery shown. subst shown. unfold Browser.renderRepos. cbv zeta.
  rewrite Hat. fold authorQuery. split; [apply arraySort_perm |].
  intros pre a mid b post Heq.
  pose proof (sorted_split (Browser.authorCompare authorQuery) _ pre mid post a b
                (arraySort_sorted _ (authorCompare_consistent authorQuery) _) Heq) as Hab.
  unfold Observe.before, Browser.authorCompare in Hab. cbv zeta in Hab.
  destruct (Z.eqb_spec (Browser.ownerStarts authorQuery a)
                       (Browser.ownerStarts authorQuery b)); cbn [negb] in Hab; lia.
Qed.

Lemma renderRepos_author_order_witness :
  let repo name owner stars :=
    {| Host.full_name := name; Host.description := None; Host.stargazers_count := stars;
       Host.html_url := EmptyString; Host.owner_login := owner;
       Host.owner_avatar_url := EmptyString |} in
  Browser.renderRepos "@Ann"
    [repo "bob/notes-sync" "bob" 50%Z; repo "ann/tasks" "ann" 3%Z;
     repo "annika/board" "Annika" 9%Z] =
    [repo "annika/board" "Annika" 9%Z; repo "ann/tasks" "ann" 3%Z;
     repo "bob/notes-sync" "bob" 50%Z] /\
  (Browser.ownerStarts "ann" (repo "bob/notes-sync" "bob" 50%Z) <=
   Browser.ownerStarts "ann" (repo "annika/board" "Annika" 9%Z))%Z.
Proof.
  intros repo. split; [vm_compute; reflexivity |].
  destruct (renderRepos_author_order "@Ann"
              [repo "bob/notes-sync" "bob" 50%Z; repo "ann/tasks" "ann" 3%Z;
               repo "annika/board" "Annika" 9%Z] eq_refl) as [_ H].
  apply (H [] (repo "annika/board" "Annika" 9%Z) [repo "ann/tasks" "ann" 3%Z]
           (repo "bob/notes-sync" "bob" 50%Z) []).
  vm_compute. reflexivity.
Defined.

Section HandlerFacts.

Import Host Browser.
Variable w : World.
Variable usersRequest : string -> M (option (list GithubUser)).

Lemma searchUsers_run (query : string) (st : State) :
  exists st',
    searchUsers usersRequest query st =
    (Ok match fst (usersRequest query st) with
        | Ok items => default [] items
        | Throw _ => []
        end, st').
Proof.
  unfold searchUsers, tryCatch, bind, ret, call.
  destruct (usersRequest query st) as [[items | e] st1]; cbn [fst]; eauto.
Qed.

Lemma includes_message (msg : string) :
  negb (JS.isEmpty msg) && JS.includes msg "403" = JS.includes msg "403".
Proof. destruct msg; reflexivity. Qed.

End HandlerFacts.

(** X21.  The handler of "Search GitHub" never throws.  For a text that,
    trimmed, starts with @ it shows users, whatever happens to the
    request: a failed user search shows no users, never an error.
    Otherwise it asks for the refined query sorted by stars and shows the
    repositories that [renderRepos] lists; a failure with status 403, or
    with "403" in its message, shows the rate-limit text, any other
    failure the error line with its message. *)
Theorem githubButton_spec (w : Host.World)
    (usersRequest : string -> Host.M (option (list Browser.GithubUser)))
    (inputValue : string) (st : Host.State) :
  let rawQuery := JS.trim inputValue in
  let run := Browser.githubButton w usersRequest inputValue st in
  if JS.startsWith "@" rawQuery then
    fst run =
    Host.Ok (Browser.UsersView
               match fst (usersRequest (JS.dropChars 1 rawQuery) st) with
               | Host.Ok items => default [] items
               | Host.Throw _ => []
               end)
  else
    fst run =
    Host.Ok match Host.search_repositories w (Host.trace st)
                    (Browser.refinedQueryOf rawQuery) "stars" with
            | Host.Ok items =>
                Browser.ReposView (Browser.renderRepos inputValue (default [] items))
            | Host.Throw e =>
                if Observe.is403 e then Browser.RateLimitView
                else Browser.ErrorView ("Error searching: " +:+ Host.err_message e)
            end.
Proof.
  intros rawQuery run. subst run. unfold Browser.githubButton. cbv zeta. fold rawQuery.
  destruct (JS.startsWith "@" rawQuery).
  - unfold Host.tryCatch, Host.bind at 1.
    destruct (searchUsers_run usersRequest (JS.dropChars 1 rawQuery) st) as [st' ->].
    reflexivity.
  - unfold Host.tryCatch, Host.bind at 1. rewrite searchPlugins_run.
    destruct (Host.search_repositories w (Host.trace st)
                (Browser.refinedQueryOf rawQuery) "stars") as [items | e].
    + reflexivity.
    + unfold Host.bind, Host.call. rewrite includes_message, is403_rewritten.
      unfold Observe.is403.
      destruct (decide (Host.err_status e = Some 403%Z)) as [H403 | Hn403].
      * rewrite bool_decide_eq_true_2 by exact H403. reflexivity.
      * rewrite bool_decide_eq_false_2 by exact Hn403. cbn [orb].
        now destruct (JS.includes (Host.err_message e) "403").
Qed.

(** X22.  The handler of "Search Forum" never throws and never shows its
    error line: when the forum request fails, or finds nothing, it shows
    "No forum topics found."; otherwise it shows the topics found that
    pass the filter, which hides a topic only if the search text contains
    none of "theme", "css" and "snippet" and the topic is tagged theme or
    css, or has "snippet" in its title, or "theme" without "plugin".  The
    source's test for "css snippet" is covered by that for "snippet". *)
Theorem forumButton_spec (w : Host.World) (inputValue : string) (st : Host.State) :
  fst (Browser.forumButton w inputValue st) =
  Host.Ok match fst (ForumService.search w inputValue st) with
          | Host.Ok [] | Host.Throw _ => Browser.NoForumTopics
          | Host.Ok topics =>
              Browser.ForumTopics
                (List.filter (Browser.showTopicSpec (JS.toLowerCase inputValue)) topics)
          end /\
  (forall e,
     Host.forum_search w (Host.trace st) (ForumService.searchQueryOf inputValue) =
       Host.Throw e ->
     fst (Browser.forumButton w inputValue st) = Host.Ok Browser.NoForumTopics).
Proof.
  assert (Hview : fst (Browser.forumButton w inputValue st) =
    Host.Ok match fst (ForumService.search w inputValue st) with
            | Host.Ok [] | Host.Throw _ => Browser.NoForumTopics
            | Host.Ok topics =>
                Browser.ForumTopics
                  (List.filter (Browser.showTopicSpec (JS.toLowerCase inputValue)) topics)
            end).
  { unfold Browser.forumButton, Host.tryCatch, Host.bind.
    pose proof (search_run w inputValue st) as Hrun.
    destruct (ForumService.search w inputValue st) as [[topics | e] st1].
    - cbn [fst]. destruct topics as [| t ts]; [reflexivity |]. cbn [fst Host.ret].
      f_equal. f_equal. apply filter_ext. intros topic.
      apply showTopic_showTopicSpec.
    - destruct (Host.forum_search w _ _); discriminate. }
  split; [exact Hview |].
  intros e Hfail. rewrite Hview, search_run, Hfail. reflexivity.
Qed.

Lemma forumButton_spec_witness :
  fst (Browser.forumButton Scenario.idle "kanban" Scenario.start) =
    Host.Ok Browser.NoForumTopics /\
  fst (Browser.forumButton Scenario.forumUp "kanban" Scenario.start) =
    Host.Ok (Browser.ForumTopics
               (List.filter (Browser.showTopicSpec "kanban")
                  (Cases.topicsOf Scenario.forumUp "kanban"))).
Proof.
  split.
  - apply (proj2 (forumButton_spec Scenario.idle "kanban" Scenario.start) Scenario.offline).
    reflexivity.
  - rewrite (proj1 (forumButton_spec Scenario.forumUp "kanban" Scenario.start)).
    vm_compute. reflexivity.
Defined.

(** ** The settings tab *)

Section SettingsFacts.

Import SettingsTab.

Lemma split_whole (sep : ascii) (s : string) :
  JS.includes s (String sep EmptyString) = false -> JS.split sep s = [s].
Proof.
  induction s as [| c r IH]; [reflexivity |].
  cbn [JS.includes JS.startsWith JS.split]. rewrite andb_true_r. intros H.
  apply orb_false_iff in H as [H1 H2]. rewrite Ascii.eqb_sym in H1. rewrite H1.
  now rewrite (IH H2).
Qed.

Lemma split_parts (sep : ascii) (s : string) :
  forallb (fun p => negb (JS.includes p (String sep EmptyString))) (JS.split sep s) = true.
Proof.
  induction s as [| c r IH]; [reflexivity |]. cbn [JS.split].
  destruct (Ascii.eqb c sep) eqn:Hc.
  - cbn [forallb]. rewrite IH. reflexivity.
  - pose proof (split_nonempty sep r) as Hne.
    destruct (JS.split sep r) as [| h t]; [congruence |].
    cbn [forallb] in *. apply andb_true_iff in IH as [Hh Ht]. rewrite Ht, andb_true_r.
    cbn [JS.includes JS.startsWith]. rewrite andb_true_r, Ascii.eqb_sym, Hc.
    exact Hh.
Qed.

Lemma split_joinLines (paths : list string) :
  paths <> [] ->
  forallb (fun p => negb (JS.includes p (String newline EmptyString))) paths = true ->
  JS.split newline (joinLines paths) = paths.
Proof.
  induction paths as [| p rest IH]; [congruence |]. intros _ Hall.
  cbn [forallb] in Hall. apply andb_true_iff in Hall as [Hp Hrest].
  apply negb_true_iff in Hp.
  destruct rest as [| q rest]; [now apply split_whole |].
  change (joinLines (p :: q :: rest))
    with (p +:+ String newline (joinLines (q :: rest))).
  rewrite split_app_sep, (split_whole newline p Hp), IH by (congruence || assumption).
  reflexivity.
Qed.

Lemma parsePaths_lines (value : string) :
  forallb isPathLine (parsePaths value) = true.
Proof.
  unfold parsePaths, isPathLine. apply forallb_forall. intros p Hin.
  apply filter_In in Hin as [Hin Hp]. rewrite Hp. cbn [andb].
  pose proof (split_parts newline value) as Hparts.
  rewrite forallb_forall in Hparts. now apply Hparts.
Qed.

Lemma parsePaths_joinLines (paths : list string) :
  forallb isPathLine paths = true -> parsePaths (joinLines paths) = paths.
Proof.
  intros Hall. unfold parsePaths.
  destruct paths as [| p rest]; [reflexivity |].
  rewrite split_joinLines; [| discriminate |].
  - apply filter_all. intros x Hx. rewrite forallb_forall in Hall.
    specialize (Hall x Hx). unfold isPathLine in Hall.
    now apply andb_true_iff in Hall as [Hall _].
  - apply forallb_forall. intros x Hx. rewrite forallb_forall in Hall.
    specialize (Hall x Hx). unfold isPathLine in Hall.
    now apply andb_true_iff in Hall as [_ Hall].
Qed.

End SettingsFacts.

(** X23.  The two path lists of the settings tab survive reopening the
    tab.  What is stored from the text area holds only lines that are not
    blank and contain no line break; every such list, shown joined by
    line breaks and read back, is the same list; so reading back what
    was stored changes nothing. *)
Theorem parsePaths_round_trip :
  (forall value, forallb SettingsTab.isPathLine (SettingsTab.parsePaths value) = true) /\
  (forall paths, forallb SettingsTab.isPathLine paths = true ->
     SettingsTab.parsePaths (SettingsTab.joinLines paths) = paths) /\
  (forall value,
     SettingsTab.parsePaths (SettingsTab.joinLines (SettingsTab.parsePaths value)) =
     SettingsTab.parsePaths value).
Proof.
  split; [exact parsePaths_lines |]. split; [exact parsePaths_joinLines |].
  intros value. apply parsePaths_joinLines, parsePaths_lines.
Qed.

Lemma parsePaths_round_trip_witness :
  SettingsTab.parsePaths (SettingsTab.joinLines ["/vaults/a"; " C:\Vaults\b "]) =
    ["/vaults/a"; " C:\Vaults\b "].
Proof.
  apply (proj1 (proj2 parsePaths_round_trip)). vm_compute. reflexivity.
Defined.

(** ** Deployment to other vaults *)

Section DeployFacts.

Import Host PluginHub Trail Deploy.
Variable w : World.

Lemma fsFilesIn_app (a b : list Event) : fsFilesIn (a ++ b) = fsFilesIn a ++ fsFilesIn b.
Proof. apply omap_app. Qed.

Lemma errorsIn_app (a b : list Event) : errorsIn (a ++ b) = errorsIn a ++ errorsIn b.
Proof. apply omap_app. Qed.

Lemma writeVault_run (pluginId mainJs manifestContent : string) (stylesCss : bool)
    (stylesContent vaultPath : string) (st st' : State) :
  writeVault w (Some pluginId) mainJs manifestContent stylesCss stylesContent vaultPath st =
    (Ok tt, st') ->
  exists evs,
    trace st' = trace st ++ evs /\
    errorsIn evs = [] /\
    fsFilesIn evs =
      vaultFiles w pluginId mainJs manifestContent stylesCss stylesContent vaultPath.
Proof.
  intros Hrun.
  unfold writeVault, joinWithId, fsExistsSync, fsWriteFileSync in Hrun.
  repeat first [ run_step Hrun | run_case Hrun ].
  all: apply (f_equal snd) in Hrun; cbn [snd] in Hrun; subst st'.
  all: eexists.
  all: (split; [cbn [trace extend]; rewrite <- ?app_assoc; cbn [app]; reflexivity |]).
  all: split; reflexivity.
Qed.

Lemma writeVaults_run (pluginId mainJs manifestContent : string) (stylesCss : bool)
    (stylesContent : string) (targetVaults : list string) :
  forall st st',
  writeVaults w (Some pluginId) mainJs manifestContent stylesCss stylesContent
    targetVaults st = (Ok tt, st') ->
  exists evs,
    trace st' = trace st ++ evs /\
    errorsIn evs = [] /\
    fsFilesIn evs =
      flat_map (vaultFiles w pluginId mainJs manifestContent stylesCss stylesContent)
               targetVaults.
Proof.
  induction targetVaults as [| v rest IH]; intros st st'; cbn [writeVaults flat_map].
  - intros [= <-]. exists []. now rewrite app_nil_r.
  - unfold bind.
    destruct (writeVault w (Some pluginId) mainJs manifestContent stylesCss
                stylesContent v st) as [[[] | e] st1] eqn:Hv; [| discriminate].
    intros Hrest.
    destruct (writeVault_run _ _ _ _ _ _ _ _ Hv) as (evs1 & Ht1 & He1 & Hf1).
    destruct (IH st1 st' Hrest) as (evs2 & Ht2 & He2 & Hf2).
    exists (evs1 ++ evs2). rewrite Ht2, Ht1, app_assoc.
    rewrite errorsIn_app, fsFilesIn_app, He1, He2, Hf1, Hf2. auto.
Qed.

Lemma writeVaults_grows (pluginId : option string) (mainJs manifestContent : string)
    (stylesCss : bool) (stylesContent : string) (targetVaults : list string)
    (st : State) :
  exists evs,
    trace (snd (writeVaults w pluginId mainJs manifestContent stylesCss stylesContent
                  targetVaults st)) = trace st ++ evs.
Proof.
  destruct (emits_writeVaults w anySettings pluginId mainJs manifestContent stylesCss
              stylesContent targetVaults st Logic.I) as (evs & Ht & _). eauto.
Qed.

End DeployFacts.

(** X24.  Deployment to the selected vaults, where node's [fs] is there:
    if no error is logged, every path of [extraVaultPaths] got main.js,
    then manifest.json, then styles.css if the release has one, vault by
    vault in the order of the setting, nothing else was written, and the
    count returned is the number of paths; and if an error is logged the
    count returned is 0. *)
Theorem deploy_selected_complete (w : Host.World) (pluginId mainJs manifestContent : string)
    (stylesCss : bool) (stylesContent : string) (st : Host.State) :
  Host.has_node_fs w = true ->
  let run := PluginHub.deployToVaults w false true (Some pluginId) mainJs manifestContent
               stylesCss stylesContent st in
  let vaults := Host.extraVaultPaths (Host.settings st) in
  exists n evs,
    fst run = Host.Ok n /\
    Host.trace (snd run) = Host.trace st ++ evs /\
    (Trail.errorsIn evs = [] ->
     n = length vaults /\
     Trail.fsFilesIn evs =
       flat_map (Deploy.vaultFiles w pluginId mainJs manifestContent stylesCss
                   stylesContent) vaults) /\
    (Trail.errorsIn evs <> [] -> n = 0%nat).
Proof.
  intros Hfs run vaults. subst run.
  rewrite (deployToVaults_selected w (Some pluginId) mainJs manifestContent stylesCss
             stylesContent st Hfs).
  fold vaults.
  destruct (writeVaults_grows w (Some pluginId) mainJs manifestContent stylesCss
              stylesContent vaults (Host.extend st [Host.RequireFs])) as (evs0 & Ht0).
  destruct (PluginHub.writeVaults w (Some pluginId) mainJs manifestContent stylesCss
              stylesContent vaults (Host.extend st [Host.RequireFs]))
    as [[[] | e] st2] eqn:Hrun.
  - destruct (writeVaults_run w _ _ _ _ _ _ _ _ Hrun) as (evs & Ht & He & Hf).
    exists (length vaults), (Host.RequireFs :: evs). cbn [fst snd].
    split; [reflexivity |]. split.
    { rewrite Ht. cbn [Host.extend Host.trace]. now rewrite <- app_assoc. }
    split.
    + intros _. split; [reflexivity | exact Hf].
    + intros Hne. exfalso. apply Hne. exact He.
  - cbn [snd] in Ht0.
    exists 0%nat,
      (Host.RequireFs :: evs0 ++
       [Host.ConsoleError "Failed to copy to extra vaults:" e]).
    cbn [fst snd]. split; [reflexivity |]. split.
    { cbn [Host.extend Host.trace]. rewrite Ht0. cbn [Host.extend Host.trace].
      now rewrite <- !app_assoc. }
    split; [| reflexivity].
    intros Hnone. exfalso.
    change (Host.RequireFs :: evs0 ++ [Host.ConsoleError "Failed to copy to extra vaults:" e])
      with ([Host.RequireFs] ++ evs0 ++
            [Host.ConsoleError "Failed to copy to extra vaults:" e]) in Hnone.
    rewrite !errorsIn_app in Hnone. cbn in Hnone.
    destruct (Trail.errorsIn evs0); discriminate.
Qed.

Lemma deploy_selected_complete_witness :
  exists evs,
    Host.trace (snd (PluginHub.deployToVaults Scenario.updates false true (Some "zeta")
                       "bundle" "{}" false EmptyString Scenario.selectedStart)) =
      Host.trace Scenario.selectedStart ++ evs /\
    map fst (Trail.fsFilesIn evs) =
      ["/vaults/a/.obsidian/plugins/zeta/main.js";
       "/vaults/a/.obsidian/plugins/zeta/manifest.json";
       "/vaults/b/.obsidian/plugins/zeta/main.js";
       "/vaults/b/.obsidian/plugins/zeta/manifest.json"].
Proof.
  destruct (deploy_selected_complete Scenario.updates "zeta" "bundle" "{}" false
              EmptyString Scenario.selectedStart eq_refl)
    as (n & evs & _ & Ht & Hok & _).
  exists evs. split; [exact Ht |].
  assert (He : Trail.errorsIn evs = []).
  { assert (Hall : exists evs',
              Host.trace (snd (PluginHub.deployToVaults Scenario.updates false true
                                 (Some "zeta") "bundle" "{}" false EmptyString
                                 Scenario.selectedStart)) =
              Host.trace Scenario.selectedStart ++ evs' /\ Trail.errorsIn evs' = [])
      by (vm_compute; eexists; split; reflexivity).
    destruct Hall as (evs' & Ht' & He'). rewrite Ht in Ht'.
    apply app_inv_head in Ht'. now subst evs'. }
  destruct (Hok He) as [_ ->]. vm_compute. reflexivity.
Defined.

(** ** Discovering vaults *)

Section ScanFacts.

Import Host PluginHub Trail Targets.
Variable w : World.

Lemma extendedBy_refl (targets : list string) : extendedBy targets targets.
Proof.
  exists []. rewrite app_nil_r. split; [reflexivity |]. split; [constructor |].
  intros v [].
Qed.

Lemma extendedBy_trans (a b c : list string) :
  extendedBy a b -> extendedBy b c -> extendedBy a c.
Proof.
  intros (f1 & -> & Hn1 & Hd1) (f2 & -> & Hn2 & Hd2).
  exists (f1 ++ f2). split; [now rewrite app_assoc |]. split.
  - apply NoDup_app. split; [exact Hn1 |]. split; [| exact Hn2].
    intros v Hv1 Hv2. apply list_elem_of_In in Hv1, Hv2.
    apply (Hd2 v Hv2). apply in_or_app. now right.
  - intros v Hv. apply in_app_or in Hv as [Hv | Hv]; [now apply Hd1 |].
    intros Ha. apply (Hd2 v Hv). apply in_or_app. now left.
Qed.

Lemma extendedBy_push (targets : list string) (path : string) :
  existsb (String.eqb path) targets = false -> extendedBy targets (targets ++ [path]).
Proof.
  intros Hnew. exists [path]. split; [reflexivity |]. split.
  - apply NoDup_singleton.
  - intros v [<- | []] Hin.
    assert (Hex : existsb (String.eqb path) targets = true).
    { apply existsb_exists. exists path. split; [exact Hin | apply String.eqb_refl]. }
    congruence.
Qed.

Lemma extendedBy_NoDup (targets r : list string) :
  extendedBy targets r -> NoDup targets -> NoDup r.
Proof.
  intros (found & -> & Hn & Hd) Ht. apply NoDup_app.
  split; [exact Ht |]. split; [| exact Hn].
  intros v Hv Hf. apply list_elem_of_In in Hv, Hf. exact (Hd v Hf Hv).
Qed.

Lemma returns_scanSubfolders (parentPath : string) (subfolders targetVaults : list string) :
  returns (scanSubfolders w parentPath subfolders targetVaults) (extendedBy targetVaults).
Proof.
  revert targetVaults.
  induction subfolders as [| sub rest IH]; intros targetVaults; cbn [scanSubfolders].
  - apply returns_ret, extendedBy_refl.
  - apply (returns_bind _ _ _ _ (returns_any _)). intros isDir _.
    apply (returns_bind _ _ _ _ (returns_any _)). intros isVault _.
    eapply returns_weaken; [| apply IH].
    intros r Hr. eapply extendedBy_trans; [| exact Hr].
    destruct (isVault && negb (existsb _ targetVaults)) eqn:Hc.
    + apply andb_true_iff in Hc as [_ Hc]. apply negb_true_iff in Hc.
      now apply extendedBy_push.
    + apply extendedBy_refl.
Qed.

Lemma returns_scanParents (parents targetVaults : list string) :
  returns (scanParents w parents targetVaults) (extendedBy targetVaults).
Proof.
  revert targetVaults.
  induction parents as [| p rest IH]; intros targetVaults; cbn [scanParents].
  - apply returns_ret, extendedBy_refl.
  - apply (returns_bind _ _ _ _ (returns_any _)). intros present _.
    destruct present; [| apply IH].
    apply (returns_bind _ _ _ _ (returns_any _)). intros subfolders _.
    apply (returns_bind _ _ _ _ (returns_scanSubfolders p subfolders targetVaults)).
    intros t1 Ht1. eapply returns_weaken; [| apply IH].
    intros r Hr. now apply (extendedBy_trans _ t1).
Qed.

End ScanFacts.

(** X25.  The scan of the parent folders keeps the vaults listed so far
    first and in order, and appends the vaults it finds, each of them
    once and none of them a second time if it was already listed; so
    with no duplicate among the selected vaults there is none among the
    targets of a deployment. *)
Theorem scanParents_targets (w : Host.World) (parents targetVaults : list string)
    (st : Host.State) (r : list string) (st' : Host.State) :
  PluginHub.scanParents w parents targetVaults st = (Host.Ok r, st') ->
  Targets.extendedBy targetVaults r /\ (NoDup targetVaults -> NoDup r).
Proof.
  intros Hrun.
  pose proof (returns_scanParents w parents targetVaults st r st' Hrun) as Hext.
  split; [exact Hext | now apply extendedBy_NoDup].
Qed.

Lemma scanParents_targets_witness :
  fst (PluginHub.scanParents Targets.disk ["/vaults"; "/vaults"] ["/vaults/a"]
         Scenario.start) = Host.Ok ["/vaults/a"; "/vaults/b"] /\
  NoDup ["/vaults/a"; "/vaults/b"].
Proof.
  assert (Hrun : exists st',
            PluginHub.scanParents Targets.disk ["/vaults"; "/vaults"] ["/vaults/a"]
              Scenario.start = (Host.Ok ["/vaults/a"; "/vaults/b"], st'))
    by (vm_compute; eexists; reflexivity).
  destruct Hrun as [st' Hrun]. split; [now rewrite Hrun |].
  apply (proj2 (scanParents_targets Targets.disk ["/vaults"; "/vaults"] ["/vaults/a"]
                  Scenario.start _ st' Hrun)).
  apply NoDup_singleton.
Defined.

(** ** The archive search when something is missing *)

Section ArchiveMore.

Import Host CommunityArchiveService Targets.

Lemma matchesQuery_all (searchLower : string) (p : OfficialCommunityPlugin) :
  listsAll searchLower = true -> matchesQuery searchLower p = Ok true.
Proof.
  unfold listsAll, matchesQuery. cbv zeta.
  destruct (JS.isEmpty searchLower); [reflexivity |]. cbn [orb]. now intros ->.
Qed.

Lemma filterOutcome_all {A} (f : A -> Outcome bool) (l : list A) :
  (forall x, f x = Ok true) -> filterOutcome f l = Ok l.
Proof.
  intros Hf. induction l as [| x l IH]; [reflexivity |].
  cbn [filterOutcome]. now rewrite Hf, IH.
Qed.

Lemma matchesQuery_throws (searchLower : string) (p : OfficialCommunityPlugin) :
  listsAll searchLower = false ->
  match matchesQuery searchLower p with
  | Ok _ => complete p = true
  | Throw e => e = typeError /\ complete p = false
  end.
Proof.
  unfold listsAll, matchesQuery, complete. cbv zeta.
  destruct (JS.isEmpty searchLower); [discriminate |]. cbn [orb]. intros ->.
  destruct (ocp_name p), (ocp_author p), (ocp_description p), (ocp_id p); auto.
Qed.

Lemma filterOutcome_throws (searchLower : string) (plugins : list OfficialCommunityPlugin) :
  listsAll searchLower = false ->
  forallb complete plugins = false ->
  filterOutcome (matchesQuery searchLower) plugins = Throw typeError.
Proof.
  intros Hq. induction plugins as [| p rest IH]; [discriminate |].
  cbn [forallb filterOutcome]. intros Hall.
  pose proof (matchesQuery_throws searchLower p Hq) as Hp.
  destruct (matchesQuery searchLower p) as [b | e].
  - rewrite Hp in Hall. cbn [andb] in Hall. now rewrite (IH Hall).
  - destruct Hp as [-> _]. reflexivity.
Qed.

End ArchiveMore.

(** X26.  [CommunityArchiveService.search] lets a failed request through
    to its caller.  For the empty query and for "plugin" or "plugins" it
    returns every entry of the list, whatever fields they have beside
    the repository; for any other query one entry without name, author,
    description or id makes the whole search fail with a type error. *)
Theorem archive_search_failures (w : Host.World) (query : string) (st : Host.State) :
  let searchLower := JS.trim (JS.toLowerCase query) in
  (forall e, Host.official_list w (Host.trace st) = Host.Throw e ->
     CommunityArchiveService.search w query st =
       (Host.Throw e, Host.extend st [Host.GetOfficialList])) /\
  (forall plugins,
     Host.official_list w (Host.trace st) = Host.Ok (Some plugins) ->
     (Targets.listsAll searchLower = true ->
      fst (CommunityArchiveService.search w query st) =
        CommunityArchiveService.mapOutcome CommunityArchiveService.toRepo plugins) /\
     (Targets.listsAll searchLower = false ->
      forallb Targets.complete plugins = false ->
      fst (CommunityArchiveService.search w query st) =
        Host.Throw CommunityArchiveService.typeError)).
Proof.
  intros searchLower.
  unfold CommunityArchiveService.search, Host.bind, Host.call,
    CommunityArchiveService.lift.
  split.
  - intros e ->. reflexivity.
  - intros plugins ->. fold searchLower. split.
    + intros Hall.
      rewrite filterOutcome_all by (intros p; now apply matchesQuery_all).
      reflexivity.
    + intros Hq Hbad. now rewrite filterOutcome_throws.
Qed.

Lemma archive_search_failures_witness :
  fst (CommunityArchiveService.search Targets.archiveWithBare "data" Scenario.start) =
    Host.Throw CommunityArchiveService.typeError /\
  (exists repos,
     fst (CommunityArchiveService.search Targets.archiveWithBare " Plugins " Scenario.start) =
       Host.Ok repos /\ length repos = 2%nat) /\
  fst (CommunityArchiveService.search Scenario.idle "data" Scenario.start) =
    Host.Throw Scenario.offline.
Proof.
  destruct (archive_search_failures Targets.archiveWithBare "data" Scenario.start)
    as [_ Hdata].
  destruct (archive_search_failures Targets.archiveWithBare " Plugins " Scenario.start)
    as [_ Hall].
  destruct (archive_search_failures Scenario.idle "data" Scenario.start) as [Hfail _].
  split; [| split].
  - apply (proj2 (Hdata _ eq_refl)); reflexivity.
  - rewrite (proj1 (Hall _ eq_refl) eq_refl). eexists. split; reflexivity.
  - now rewrite (Hfail Scenario.offline eq_refl).
Defined.

(** ** The official list as a map *)

Section RepoByIdFacts.

Import Host PluginHub Targets.

Lemma usable_fields (p : OfficialCommunityPlugin) :
  usable p = true ->
  exists k r, ocp_id p = Some k /\ ocp_repo p = Some r /\
              k <> EmptyString /\ r <> EmptyString.
Proof.
  unfold usable. intros H. apply andb_true_iff in H as [Hk Hr].
  destruct (ocp_id p) as [[| a k] |]; try discriminate.
  destruct (ocp_repo p) as [[| b r] |]; try discriminate.
  eexists _, _. repeat split; discriminate.
Qed.

Lemma fold_repoById_inv (l : list OfficialCommunityPlugin) :
  forall (m : gmap string string) (k r : string),
  fold_left
    (fun (m : gmap string string) p =>
       if JS.truthy (ocp_id p) && JS.truthy (ocp_repo p)
       then <[default EmptyString (ocp_id p) := default EmptyString (ocp_repo p)]> m
       else m) l m !! k = Some r ->
  m !! k = Some r \/
  exists p, In p l /\ usable p = true /\ ocp_id p = Some k /\ ocp_repo p = Some r.
Proof.
  induction l as [| p l IH]; intros m k r; cbn [fold_left]; [auto |].
  intros H. apply IH in H as [H | (q & Hq & H)]; [| right; exists q; split; [now right | exact H]].
  fold (usable p) in H. destruct (usable p) eqn:Hu; [| now left].
  destruct (usable_fields p Hu) as (k' & r' & Hk & Hr & _).
  rewrite Hk, Hr in H. cbn [default from_option id] in H.
  destruct (decide (k' = k)) as [-> | Hne].
  - rewrite lookup_insert_eq in H. injection H as ->.
    right. exists p. split; [now left | auto].
  - rewrite lookup_insert_ne in H by exact Hne. now left.
Qed.

Lemma fold_repoById_keeps (post : list OfficialCommunityPlugin) :
  forall (m : gmap string string) (k r : string),
  m !! k = Some r ->
  (forall q, In q post -> usable q = true -> ocp_id q <> Some k) ->
  fold_left
    (fun (m : gmap string string) p =>
       if JS.truthy (ocp_id p) && JS.truthy (ocp_repo p)
       then <[default EmptyString (ocp_id p) := default EmptyString (ocp_repo p)]> m
       else m) post m !! k = Some r.
Proof.
  induction post as [| q post IH]; intros m k r Hm Hlater; cbn [fold_left]; [exact Hm |].
  apply IH; [| intros q' Hq'; apply Hlater; now right].
  fold (usable q). destruct (usable q) eqn:Hu; [| exact Hm].
  destruct (usable_fields q Hu) as (k' & r' & Hk & Hr & _).
  rewrite Hk, Hr. cbn [default from_option id].
  rewrite lookup_insert_ne; [exact Hm |].
  intros ->. apply (Hlater q (or_introl eq_refl) Hu). exact Hk.
Qed.

Lemma fold_repoById_app (pre post : list OfficialCommunityPlugin)
    (m : gmap string string) :
  fold_left
    (fun (m : gmap string string) p =>
       if JS.truthy (ocp_id p) && JS.truthy (ocp_repo p)
       then <[default EmptyString (ocp_id p) := default EmptyString (ocp_repo p)]> m
       else m) (pre ++ post) m =
  fold_left
    (fun (m : gmap string string) p =>
       if JS.truthy (ocp_id p) && JS.truthy (ocp_repo p)
       then <[default EmptyString (ocp_id p) := default EmptyString (ocp_repo p)]> m
       else m) post
    (fold_left
       (fun (m : gmap string string) p =>
          if JS.truthy (ocp_id p) && JS.truthy (ocp_repo p)
          then <[default EmptyString (ocp_id p) := default EmptyString (ocp_repo p)]> m
          else m) pre m).
Proof. apply fold_left_app. Qed.

End RepoByIdFacts.

(** X27.  The map that the update check builds from the official list
    holds, for a plugin id, the repository of the last entry with that id
    among the entries whose id and repository are both non-empty, and
    nothing for an id without such an entry: an entry with an empty
    repository is passed over, and of two entries with one id the later
    one counts. *)
Theorem buildRepoById_spec (officialPlugins : list Host.OfficialCommunityPlugin) :
  (forall k r,
     PluginHub.buildRepoById officialPlugins !! k = Some r ->
     exists p, In p officialPlugins /\ Targets.usable p = true /\
               Host.ocp_id p = Some k /\ Host.ocp_repo p = Some r) /\
  (forall pre p post k,
     officialPlugins = pre ++ p :: post ->
     Targets.usable p = true -> Host.ocp_id p = Some k ->
     (forall q, In q post -> Targets.usable q = true -> Host.ocp_id q <> Some k) ->
     PluginHub.buildRepoById officialPlugins !! k = Host.ocp_repo p).
Proof.
  split.
  - intros k r H. unfold PluginHub.buildRepoById in H.
    apply fold_repoById_inv in H as [H | H]; [| exact H].
    rewrite lookup_empty in H. discriminate.
  - intros pre p post k -> Hu Hk Hlater. unfold PluginHub.buildRepoById.
    rewrite fold_repoById_app. cbn [fold_left].
    destruct (usable_fields p Hu) as (k' & r' & Hk' & Hr' & _).
    assert (k' = k) by congruence. subst k'.
    fold (Targets.usable p). rewrite Hu, Hk', Hr'. cbn [default from_option id].
    apply fold_repoById_keeps; [apply lookup_insert_eq | exact Hlater].
Qed.

Lemma buildRepoById_spec_witness :
  let entry id repo :=
    {| Host.ocp_id := Some id; Host.ocp_repo := Some repo; Host.ocp_name := None;
       Host.ocp_author := None; Host.ocp_description := None |} in
  PluginHub.buildRepoById
    [entry "alpha" "o/alpha"; entry "alpha" "fork/alpha"; entry "alpha" EmptyString]
    !! "alpha" = Some "fork/alpha".
Proof.
  intros entry.
  apply (proj2 (buildRepoById_spec _) [entry "alpha" "o/alpha"]
           (entry "alpha" "fork/alpha") [entry "alpha" EmptyString] "alpha");
    [reflexivity | reflexivity | reflexivity |].
  intros q [<- | []]. discriminate.
Defined.

(** X28.  Adding a repository to a plugin set never makes the set hold it
    twice: the entries there stay as they are and in order, the repository
    is in the set afterwards, a set without duplicates stays without, and
    adding what is already there changes nothing and saves nothing. *)
Theorem addToSet_spec (plugins : list string) (fullName : string) :
  let after := fst (SettingsTab.addToSet plugins fullName) in
  (exists added, after = plugins ++ added) /\
  In fullName after /\
  (NoDup plugins -> NoDup after) /\
  (snd (SettingsTab.addToSet plugins fullName) = false <-> In fullName plugins) /\
  SettingsTab.addToSet after fullName = (after, false).
Proof.
  unfold SettingsTab.addToSet.
  destruct (existsb (String.eqb fullName) plugins) eqn:Hin; cbn [fst snd].
  - assert (H : In fullName plugins).
    { apply existsb_exists in Hin as (x & Hx & He). apply String.eqb_eq in He.
      now subst x. }
    split; [exists []; now rewrite app_nil_r |]. split; [exact H |].
    split; [auto |]. split; [tauto |]. now rewrite Hin.
  - assert (H : ~ In fullName plugins).
    { intros H. assert (Hex : existsb (String.eqb fullName) plugins = true).
      { apply existsb_exists. exists fullName. split; [exact H | apply String.eqb_refl]. }
      congruence. }
    split; [now exists [fullName] |].
    split; [apply in_or_app; right; now left |]. split.
    { intros Hnd. apply NoDup_app. split; [exact Hnd |]. split; [| apply NoDup_singleton].
      intros x Hx Hx'. apply list_elem_of_In in Hx, Hx'. destruct Hx' as [<- | []].
      exact (H Hx). }
    split; [split; [discriminate | contradiction] |].
    rewrite existsb_app. cbn [existsb]. now rewrite String.eqb_refl, orb_true_r.
Qed.

(** ** Fetching comes before placing *)

Section PhaseFacts.

Import Host PluginHub Trail Phases.
Variable w : World.
Context (P Q : Kind -> bool).

Lemma phased_post {A} (m : M A) : emits anySettings Q m -> phased P Q m.
Proof.
  intros Hm st. destruct (Hm st Logic.I) as (evs & Ht & Ho & _).
  exists [], evs. auto.
Qed.

Lemma phased_pre {A} (m : M A) : emits anySettings P m -> phased P Q m.
Proof.
  intros Hm st. destruct (Hm st Logic.I) as (evs & Ht & Ho & _).
  exists evs, []. rewrite app_nil_r. auto.
Qed.

Lemma phased_bind {A B} (m : M A) (k : A -> M B) :
  emits anySettings P m -> (forall a, phased P Q (k a)) -> phased P Q (bind m k).
Proof.
  intros Hm Hk st. unfold bind.
  destruct (Hm st Logic.I) as (evs & Ht & Ho & _).
  destruct (m st) as [[a | e] st1]; cbn [snd] in *.
  - destruct (Hk a st1) as (pre & post & Ht' & Hp & Hq).
    exists (evs ++ pre), post. rewrite Ht', Ht, only_app, Ho, Hp, <- !app_assoc. auto.
  - exists evs, []. rewrite app_nil_r. auto.
Qed.

End PhaseFacts.

Section InstallPhases.

Import Host PluginHub Trail Phases.
Variable w : World.

Lemma emits_deploy_place (useParentDirs useSelectedVaults : bool)
    (pluginId : option string) (mainJs manifestContent : string)
    (stylesCss : bool) (stylesContent : string) :
  emits anySettings placeCalls
    (deployToVaults w useParentDirs useSelectedVaults pluginId mainJs manifestContent
       stylesCss stylesContent).
Proof.
  apply (emits_weaken anySettings deployCalls); [| apply emits_deployToVaults].
  intros []; simpl; congruence.
Qed.

Lemma emits_tracking (pluginId : string) (fullName : RepoValue) (b : bool) :
  emits anySettings fetchCalls
    (if b then bind (setInstalledRepo pluginId fullName) (fun _ => saveSettings w)
     else ret tt).
Proof.
  unfold saveSettings.
  destruct b; emits_go. apply emits_setInstalledRepo. intros; exact Logic.I.
Qed.

Lemma install_phased (fullName : RepoValue) (showNotice : bool) :
  phased fetchCalls placeCalls (installPluginFromGithub w fullName showNotice).
Proof.
  unfold installPluginFromGithub, GithubService.getLatestRelease.
  pose proof emits_deploy_place as Hd.
  pose proof emits_tracking as Htrack.
  apply phased_bind; [solve [emits_go] |]. intros release.
  destruct (assets release) as [assets |]; [| apply phased_pre; emits_go].
  destruct (findAsset "main.js" assets) as [mainJs |]; [| apply phased_pre; emits_go].
  destruct (findAsset "manifest.json" assets) as [manifestJson |];
    [| apply phased_pre; emits_go].
  apply phased_bind; [solve [emits_go] |]. intros manifestResp.
  destruct (resp_json manifestResp) as [manifest |]; [| apply phased_pre; emits_go].
  apply phased_bind; [apply (emits_state _ _ settings) |]. intros s.
  apply phased_bind; [apply Htrack |]. intros _.
  apply phased_bind; [solve [emits_go] |]. intros mainJsResp.
  apply phased_bind; [solve [emits_go] |]. intros stylesContent.
  apply phased_post. emits_go.
Qed.

End InstallPhases.

(** X29.  In every run of [installPluginFromGithub], whether it returns
    or throws, all requests (the release, the three downloads) and the
    saving of the settings come before the first file operation: once a
    folder is looked up or a file written, in the active vault or any
    other, nothing is fetched any more.  So a download that fails leaves
    no file of the plugin written. *)
Theorem install_fetches_first (w : Host.World) (fullName : string) (showNotice : bool)
    (st : Host.State) :
  exists pre post,
    Host.trace (snd (PluginHub.installPluginFromGithub w (Host.Name fullName)
                       showNotice st)) =
      Host.trace st ++ pre ++ post /\
    Trail.only Phases.fetchCalls pre = true /\
    Trail.only Phases.placeCalls post = true.
Proof. apply (install_phased w (Host.Name fullName)). Qed.

(** ** What the update check tracks *)

Section FrameFacts.

Import Host PluginHub Observe Panel.
Variable w : World.

Lemma passes_frame (manifests : list (string * Manifest))
    (repoById : gmap string string) (ids : list string) (st : State)
    (cs : list PluginUpdateCandidate) (flag : bool) (st2 : State) :
  passes w manifests repoById ids st cs flag st2 ->
  forall p,
    (forall c, In c cs -> isDetected c = true -> cand_pluginId c <> p) ->
    installedRepoMap (settings st2) !! p = installedRepoMap (settings st) !! p.
Proof.
  induction 1 as [st | pluginId rest st c changed st1 cs flag st2 Hplugin Hrest IH];
    intros p Hother; [reflexivity |].
  rewrite IH by (intros c' Hc'; apply Hother; now right).
  destruct (checkPlugin_run w manifests repoById pluginId st)
    as (c' & changed' & st' & Heq & Hid & _ & Hres).
  rewrite Heq in Hplugin. injection Hplugin as -> -> ->.
  destruct Hres as (evs & _ & Hres). cbv zeta in Hres.
  destruct Hres as [H | [H | [H | H]]].
  - destruct H as (_ & _ & _ & -> & _). reflexivity.
  - destruct H as (_ & _ & _ & _ & -> & _). reflexivity.
  - destruct H as (_ & _ & Hsrc & _ & -> & _). cbn [withRepo installedRepoMap].
    apply objectSet_lookup_ne, not_eq_sym. rewrite <- Hid. apply Hother; [now left |].
    unfold isDetected. now rewrite Hsrc.
  - destruct H as (_ & _ & _ & _ & -> & _). reflexivity.
Qed.

End FrameFacts.

(** X30.  A check changes [installedRepoMap] only at the ids of the
    plugins it resolved by detection: the entry of every other id, there
    or not, is after the check what it was before. *)
Theorem check_tracks_detected_only (w : Host.World) (st : Host.State)
    (l : list Host.PluginUpdateCandidate) (st' : Host.State) :
  PluginHub.checkInstalledPluginUpdates w st = (Host.Ok l, st') ->
  forall p,
    (forall c, In c l -> Panel.isDetected c = true -> Host.cand_pluginId c <> p) ->
    Host.installedRepoMap (Host.settings st') !! p =
    Host.installedRepoMap (Host.settings st) !! p.
Proof.
  intros Hrun p Hother.
  destruct (check_run w st l st' Hrun)
    as (official & st1 & cs & flag & st2 & _ & Hs1 & _ & Hp & -> & Hs' & _).
  rewrite Hs', <- Hs1. apply (passes_frame w _ _ _ _ _ _ _ Hp).
  intros c Hc. apply Hother. now apply arraySort_In.
Qed.

Lemma check_tracks_detected_only_witness :
  Host.installedRepoMap (Host.settings (snd Scenario.firstCheck)) !! "alpha" =
    Some (Host.Name "fork/alpha") /\
  Host.installedRepoMap (Host.settings (snd Scenario.firstCheck)) !! "gamma" = None.
Proof.
  assert (H : exists l, Scenario.firstCheck = (Host.Ok l, snd Scenario.firstCheck) /\
                        forallb (fun c => negb (Panel.isDetected c) ||
                                          String.eqb (Host.cand_pluginId c) "beta") l = true).
  { vm_compute. eexists. split; reflexivity. }
  destruct H as (l & Hrun & Hall).
  assert (Hother : forall p, p <> "beta" ->
            forall c, In c l -> Panel.isDetected c = true -> Host.cand_pluginId c <> p).
  { intros p Hp c Hc Hd. rewrite forallb_forall in Hall. specialize (Hall c Hc).
    rewrite Hd in Hall. cbn [negb orb] in Hall. apply String.eqb_eq in Hall.
    congruence. }
  split.
  - rewrite (check_tracks_detected_only Scenario.updates Scenario.updatesStart l _ Hrun
               "alpha" (Hother "alpha" ltac:(discriminate))).
    reflexivity.
  - rewrite (check_tracks_detected_only Scenario.updates Scenario.updatesStart l _ Hrun
               "gamma" (Hother "gamma" ltac:(discriminate))).
    reflexivity.
Defined.
